(** * Language-client sessions of the C/C++ extension

    A shallow embedding of class [DefaultClient] (the language server's
    client, whose source is the second half of
    [src/Extension/src/Debugger/configurations.ts]) and of
    [createProtocolFilter]
    ([src/Extension/src/LanguageServer/protocolFilter.ts]): the readiness
    gate in front of the transport, the crash policy of the transport's
    error handler, the protocol router, and the session operations
    [takeOwnership], [onInterval] and [dispose].

    Objects live in a store and are named by references, because the code
    compares clients by identity ([clients.ActiveClient === me]) and hands
    one [crashTimes] array from a crashed client to its replacement.
    Every call on a collaborator (transport, window, registry, UI) is
    appended to a chronological trace. *)

From stdpp Require Import gmap strings list pretty.
From Stdlib Require Import ZArith Lia Ascii.

(** ** Editor-side values *)

(** [vscode.TextDocument], reduced to what [takeOwnership] reads.  The
    editor keeps one document object per URI, so the structural equality
    used below coincides with the identity that a JS [Set] compares. *)
Record TextDocument := {
  uri : string;
  languageId : string;
  version : Z;
  getText : string
}.

Global Instance TextDocument_eq_dec : EqDecision TextDocument.
Proof. solve_decision. Defined.

(** [vscode.WorkspaceFolder]: the folder's display name and the file
    system path of its URI. *)
Record WorkspaceFolder := {
  folderName : string;
  fsPath : string
}.

(** Arguments and results of the middleware hooks are untyped in the
    source ([a], [b], ... and [any]). *)
Inductive JsValue :=
| undefined
| null
| resolvedEmptyArray            (* Promise.resolve([]) *)
| opaque (n : nat).

(** ** The protocol surface *)

(** Hooks of the [Middleware] object other than [didOpen]/[didClose]. *)
Inductive Hook :=
| didChange | willSave | willSaveWaitUntil | didSave
| provideCompletionItem | resolveCompletionItem | provideHover
| provideSignatureHelp | provideDefinition | provideReferences
| provideDocumentHighlights | provideDocumentSymbols
| provideWorkspaceSymbols | provideCodeActions | provideCodeLenses
| resolveCodeLens | provideDocumentFormattingEdits
| provideDocumentRangeFormattingEdits | provideOnTypeFormattingEdits
| provideRenameEdits | provideDocumentLinks | resolveDocumentLink.

(** What travels to the analysis process.  The first groups are the
    [RequestType]/[NotificationType] constants of the client with their
    parameters; the last group is what the language-client library sends
    when a middleware hook calls its [sendMessage]/[callback]. *)
Inductive Message :=
| NavigationListRequest (textDocument : string)
| GoToDeclarationRequest
| QueryDefaultPathsRequest
| SwitchHeaderSourceRequest (rootPath switchHeaderSourceFileName : string)
| DidOpenNotification (docUri docLanguageId : string) (docVersion : Z)
                      (docText : string)
| FileCreatedNotification (fileUri : string)
| FileDeletedNotification (fileUri : string)
| ResetDatabaseNotification
| PauseParsingNotification
| ResumeParsingNotification
| ActiveDocumentChangeNotification (textDocument : string)
| TextEditorSelectionChangeNotification (line character : Z)
| IntervalTimerNotification
| TextDocumentDidOpen (document : TextDocument)
| TextDocumentDidClose (document : TextDocument)
| Routed (hook : Hook) (args : list JsValue).

(** Things a client pushes on [this.disposables]. *)
Inductive Disposable :=
| ConfigurationDisposable
| FileWatcherDisposable.

(** Calls on collaborators whose behaviour is outside this development. *)
Inductive External :=
| SetProgressExecutableStarted
| UiBind
| LogNonDefaultInitialCppSettings
| RegisterNotifications
| ShowConfigurationsQuickPick
| ShowParsingCommandsQuickPick
| HandleConfigurationEditCommand
| AddToIncludePathCommand (path : string)
| CheckCppProperties.

(** One entry per observable action, oldest first.  [TrackedAdd] and
    [TrackedDelete] record the mutation of a client's tracked-document
    set, so that its order relative to transport traffic can be stated. *)
Inductive Event :=
| TransportStart (client : nat)
| TransportStop (client : nat)
| Transport (client : nat) (m : Message)
| ShowErrorMessage (text : string)
| TrackedAdd (client : nat) (document : TextDocument)
| TrackedDelete (client : nat) (document : TextDocument)
| AssertionFailed (client : nat)
| Disposed (client : nat) (d : Disposable)
| Collaborator (client : nat) (call : External)
| RegistryReplace (client : nat) (transfer : bool).

(** ** Exceptions and promises *)

Inductive JsError :=
| TypeError                      (* property read on [undefined] *)
| Reason (text : string)         (* [throw "..."] / [Promise.reject("...")] *)
| NoSuchObject.                  (* a reference outside the store *)

Inductive Completion (A : Type) :=
| Normal (a : A)
| Throw (e : JsError).
Arguments Normal {A} a.
Arguments Throw {A} e.

(** The closures handed to [requestWhenReady] and [notifyWhenReady],
    one constructor per closure body in [DefaultClient]. *)
Inductive Thunk :=
| SendRequest (m : Message)        (* () => this.languageClient.sendRequest(..) *)
| SendNotification (m : Message)   (* () => this.languageClient.sendNotification(..) *)
| ShowConfigurations               (* ui.showConfigurations(this.configuration.ConfigurationNames) *)
| ShowParsingCommands              (* ui.showParsingCommands() *)
| ConfigurationEdit                (* this.configuration.handleConfigurationEditCommand(..) *)
| AddToIncludePath (path : string). (* this.configuration.addToIncludePathCommand(path) *)

(** What a closure evaluates to: nothing, or the transport's promise of
    the reply to a request. *)
Inductive Value :=
| Void
| ReplyTo (m : Message).

(** [onReadyPromise].  While pending it holds the reactions registered
    by [then], in registration order; once settled it holds how each
    reaction completed, in the same order. *)
Inductive Promise :=
| Pending (reactions : list Thunk)
| Fulfilled (outcomes : list (Completion Value)).

(** The promise returned by [requestWhenReady]. *)
Inductive Thenable :=
| Direct (v : Value)               (* request() was called on the spot *)
| Chained (k : nat)                (* onReadyPromise.then(() => request()), k-th reaction *)
| Rejected (reason : string).      (* Promise.reject(reason) *)

(** ** The session model *)

(** Modelled from the spec: [DataBinding] (dataBinding.ts is not among the
    sources).  Section 3: a field has a current value, a notification
    stream with its subscribers, and an enabled flag; fields are disabled
    at construction, enabled by [activate], disabled by [deactivate]; once
    torn down, writes are no-ops and the subscriptions are released. *)
Record DataBinding (T : Type) := {
  bindingValue : T;
  isActive : bool;
  subscribers : list nat;
  isDisposed : bool
}.
Arguments bindingValue {T} _.
Arguments isActive {T} _.
Arguments subscribers {T} _.
Arguments isDisposed {T} _.

(** Modelled from the spec: a binding is constructed disabled. *)
Definition newDataBinding {T} (value : T) : DataBinding T :=
  {| bindingValue := value; isActive := false; subscribers := [];
     isDisposed := false |}.

(** Modelled from the spec: [activate] and [deactivate] set the enabled
    flag. *)
Definition DataBinding_activate {T} (b : DataBinding T) : DataBinding T :=
  {| bindingValue := bindingValue b; isActive := true;
     subscribers := subscribers b; isDisposed := isDisposed b |}.

(** Modelled from the spec: see [DataBinding_activate]. *)
Definition DataBinding_deactivate {T} (b : DataBinding T) : DataBinding T :=
  {| bindingValue := bindingValue b; isActive := false;
     subscribers := subscribers b; isDisposed := isDisposed b |}.

(** Modelled from the spec: [subscribe] adds a subscriber, unless the
    binding has been torn down. *)
Definition DataBinding_subscribe {T} (handler : nat) (b : DataBinding T)
  : DataBinding T :=
  {| bindingValue := bindingValue b; isActive := isActive b;
     subscribers := if isDisposed b then [] else subscribers b ++ [handler];
     isDisposed := isDisposed b |}.

(** Modelled from the spec: tearing a binding down disables it and
    releases its subscriptions. *)
Definition DataBinding_dispose {T} (b : DataBinding T) : DataBinding T :=
  {| bindingValue := bindingValue b; isActive := false;
     subscribers := []; isDisposed := true |}.

(** [interface ClientModel]. *)
Record ClientModel := {
  isTagParsing : DataBinding bool;
  isUpdatingIntelliSense : DataBinding bool;
  navigationLocation : DataBinding string;
  tagParserStatus : DataBinding string;
  activeConfigName : DataBinding string
}.

(** [for (var key in this.model) this.model[key].f()]. *)
Definition forEachBinding (f : forall T, DataBinding T -> DataBinding T)
  (m : ClientModel) : ClientModel :=
  {| isTagParsing := f _ (isTagParsing m);
     isUpdatingIntelliSense := f _ (isUpdatingIntelliSense m);
     navigationLocation := f _ (navigationLocation m);
     tagParserStatus := f _ (tagParserStatus m);
     activeConfigName := f _ (activeConfigName m) |}.

Definition initialModel : ClientModel :=
  {| isTagParsing := newDataBinding false;
     isUpdatingIntelliSense := newDataBinding false;
     navigationLocation := newDataBinding "";
     tagParserStatus := newDataBinding "";
     activeConfigName := newDataBinding "" |}.

(** All subscriptions of a model, field by field. *)
Definition modelSubscribers (m : ClientModel) : list nat :=
  subscribers (isTagParsing m) ++ subscribers (isUpdatingIntelliSense m) ++
  subscribers (navigationLocation m) ++ subscribers (tagParserStatus m) ++
  subscribers (activeConfigName m).

(** ** Clients *)

(** The transport object; it is named after the server it talks to. *)
Inductive LanguageClient := mkLanguageClient (id : string).

(** [configs.CppProperties], known here only by the root path it was
    constructed with. *)
Inductive CppProperties := mkCppProperties (rootPath : string).

(** The fields of [class DefaultClient].  [crashTimes] is a reference
    into the array store; [trackedDocuments] is a JS [Set], kept as a
    duplicate-free list in insertion order.  The output channels are
    created by inbound notifications only and are left out. *)
Record DefaultClient := {
  languageClient : option LanguageClient;
  disposables : list Disposable;
  configuration : option CppProperties;
  workspaceRoot : option WorkspaceFolder;
  trackedDocuments : list TextDocument;
  crashTimes : nat;
  isSupported : bool;
  model : ClientModel;
  onReadyPromise : option Promise
}.

Definition set_languageClient v (c : DefaultClient) : DefaultClient :=
  {| languageClient := v; disposables := disposables c;
     configuration := configuration c; workspaceRoot := workspaceRoot c;
     trackedDocuments := trackedDocuments c; crashTimes := crashTimes c;
     isSupported := isSupported c; model := model c;
     onReadyPromise := onReadyPromise c |}.

Definition set_disposables v (c : DefaultClient) : DefaultClient :=
  {| languageClient := languageClient c; disposables := v;
     configuration := configuration c; workspaceRoot := workspaceRoot c;
     trackedDocuments := trackedDocuments c; crashTimes := crashTimes c;
     isSupported := isSupported c; model := model c;
     onReadyPromise := onReadyPromise c |}.

Definition set_configuration v (c : DefaultClient) : DefaultClient :=
  {| languageClient := languageClient c; disposables := disposables c;
     configuration := v; workspaceRoot := workspaceRoot c;
     trackedDocuments := trackedDocuments c; crashTimes := crashTimes c;
     isSupported := isSupported c; model := model c;
     onReadyPromise := onReadyPromise c |}.

Definition set_workspaceRoot v (c : DefaultClient) : DefaultClient :=
  {| languageClient := languageClient c; disposables := disposables c;
     configuration := configuration c; workspaceRoot := v;
     trackedDocuments := trackedDocuments c; crashTimes := crashTimes c;
     isSupported := isSupported c; model := model c;
     onReadyPromise := onReadyPromise c |}.

Definition set_trackedDocuments v (c : DefaultClient) : DefaultClient :=
  {| languageClient := languageClient c; disposables := disposables c;
     configuration := configuration c; workspaceRoot := workspaceRoot c;
     trackedDocuments := v; crashTimes := crashTimes c;
     isSupported := isSupported c; model := model c;
     onReadyPromise := onReadyPromise c |}.

Definition set_crashTimes v (c : DefaultClient) : DefaultClient :=
  {| languageClient := languageClient c; disposables := disposables c;
     configuration := configuration c; workspaceRoot := workspaceRoot c;
     trackedDocuments := trackedDocuments c; crashTimes := v;
     isSupported := isSupported c; model := model c;
     onReadyPromise := onReadyPromise c |}.

Definition set_isSupported v (c : DefaultClient) : DefaultClient :=
  {| languageClient := languageClient c; disposables := disposables c;
     configuration := configuration c; workspaceRoot := workspaceRoot c;
     trackedDocuments := trackedDocuments c; crashTimes := crashTimes c;
     isSupported := v; model := model c;
     onReadyPromise := onReadyPromise c |}.

Definition set_model v (c : DefaultClient) : DefaultClient :=
  {| languageClient := languageClient c; disposables := disposables c;
     configuration := configuration c; workspaceRoot := workspaceRoot c;
     trackedDocuments := trackedDocuments c; crashTimes := crashTimes c;
     isSupported := isSupported c; model := v;
     onReadyPromise := onReadyPromise c |}.

Definition set_onReadyPromise v (c : DefaultClient) : DefaultClient :=
  {| languageClient := languageClient c; disposables := disposables c;
     configuration := configuration c; workspaceRoot := workspaceRoot c;
     trackedDocuments := trackedDocuments c; crashTimes := crashTimes c;
     isSupported := isSupported c; model := model c;
     onReadyPromise := v |}.

(** [get RootPath] and [getName]. *)
Definition RootPath (c : DefaultClient) : string :=
  match workspaceRoot c with Some f => fsPath f | None => "" end.

Definition getName (workspaceFolder : option WorkspaceFolder) : string :=
  match workspaceFolder with Some f => folderName f | None => "untitled" end.

(** [Set.prototype.add], [has] and [delete].  A [Set] tells its elements
    apart by the identity of the object.  A [TextDocument] of the model
    stands for the object: the editor keeps one object for a document
    that is open, and the code never makes a [TextDocument] or changes
    one, so two of them are the same element exactly when they are the
    same record, as long as the document is not edited in between. *)
Definition Set_has (d : TextDocument) (s : list TextDocument) : bool :=
  bool_decide (d ∈ s).

Definition Set_add (d : TextDocument) (s : list TextDocument)
  : list TextDocument :=
  if Set_has d s then s else s ++ [d].

Definition Set_delete (d : TextDocument) (s : list TextDocument)
  : list TextDocument :=
  filter (fun x => x ≠ d) s.

(** ** The registry *)

(** Modelled from the spec: the [ClientCollection] record
    (clientCollection.ts is not among the sources).  Section 4.5: the
    registered sessions, each with the path of its workspace folder if it
    has one, in registration order; the first-registered session, which
    is the fallback owner; and the active session. *)
Record ClientCollection := {
  languageClients : list (option string * nat);
  defaultClient : option nat;
  activeClient : option nat
}.

(** Modelled from the spec: longest-matching-prefix search over the
    registered sessions' workspace-folder paths (section 4.5, [ownerOf]). *)
Fixpoint longestMatch (path : string) (l : list (option string * nat))
  (best : option (string * nat)) : option (string * nat) :=
  match l with
  | [] => best
  | (Some p, r) :: l' =>
      if String.prefix p path then
        match best with
        | Some (q, _) =>
            if (String.length q <? String.length p)%nat
            then longestMatch path l' (Some (p, r))
            else longestMatch path l' best
        | None => longestMatch path l' (Some (p, r))
        end
      else longestMatch path l' best
  | (None, _) :: l' => longestMatch path l' best
  end.

(** Modelled from the spec: [ownerOf] falls back to the ownerless
    session when no folder matches. *)
Definition ownerOf (cc : ClientCollection) (document : TextDocument)
  : option nat :=
  match longestMatch (uri document) (languageClients cc) None with
  | Some (_, r) => Some r
  | None => defaultClient cc
  end.

(** Modelled from the spec: [checkOwnership(session, document)] is true
    iff [ownerOf(document) === session]. *)
Definition checkOwnership (cc : ClientCollection) (me : nat)
  (document : TextDocument) : bool :=
  bool_decide (ownerOf cc document = Some me).

(** [clients.ActiveClient === me]. *)
Definition isActiveClient (cc : ClientCollection) (me : nat) : bool :=
  bool_decide (activeClient cc = Some me).

(** Modelled from the spec: [register(session)]; the first session
    registered also becomes the fallback and the active session. *)
Definition register (folder : option string) (r : nat)
  (cc : ClientCollection) : ClientCollection :=
  {| languageClients := languageClients cc ++ [(folder, r)];
     defaultClient :=
       match defaultClient cc with Some d => Some d | None => Some r end;
     activeClient :=
       match activeClient cc with Some a => Some a | None => Some r end |}.

(** Modelled from the spec: a registry without sessions. *)
Definition emptyCollection : ClientCollection :=
  {| languageClients := []; defaultClient := None; activeClient := None |}.

(** ** Worlds and the effect monad *)

(** Everything the code can read or change: the object store, the array
    store, the registry, the trace, the persisted
    ["DefaultClient.failureMessageShown"] flag,
    [vscode.workspace.workspaceFolders] and [process.platform]. *)
Record World := {
  clients : gmap nat DefaultClient;
  arrays : gmap nat (list Z);
  allClients : ClientCollection;
  trace : list Event;
  failureMessageShown : bool;
  workspaceFolders : option (list WorkspaceFolder);
  platform : string
}.

Definition set_clients v (w : World) : World :=
  {| clients := v; arrays := arrays w; allClients := allClients w;
     trace := trace w; failureMessageShown := failureMessageShown w;
     workspaceFolders := workspaceFolders w; platform := platform w |}.

Definition set_arrays v (w : World) : World :=
  {| clients := clients w; arrays := v; allClients := allClients w;
     trace := trace w; failureMessageShown := failureMessageShown w;
     workspaceFolders := workspaceFolders w; platform := platform w |}.

Definition set_allClients v (w : World) : World :=
  {| clients := clients w; arrays := arrays w; allClients := v;
     trace := trace w; failureMessageShown := failureMessageShown w;
     workspaceFolders := workspaceFolders w; platform := platform w |}.

Definition set_trace v (w : World) : World :=
  {| clients := clients w; arrays := arrays w; allClients := allClients w;
     trace := v; failureMessageShown := failureMessageShown w;
     workspaceFolders := workspaceFolders w; platform := platform w |}.

Definition set_failureMessageShown v (w : World) : World :=
  {| clients := clients w; arrays := arrays w; allClients := allClients w;
     trace := trace w; failureMessageShown := v;
     workspaceFolders := workspaceFolders w; platform := platform w |}.

(** A computation runs in a world and completes normally or abruptly;
    what it did before throwing stays done. *)
Definition M (A : Type) : Type := World -> Completion A * World.

Definition ret {A} (a : A) : M A := fun w => (Normal a, w).

Definition bind {A B} (m : M A) (k : A -> M B) : M B :=
  fun w => match m w with
           | (Normal a, w') => k a w'
           | (Throw e, w') => (Throw e, w')
           end.

Definition throw {A} (e : JsError) : M A := fun w => (Throw e, w).

(** [try { m } catch { h }]. *)
Definition tryCatch {A} (m : M A) (h : M A) : M A :=
  fun w => match m w with
           | (Normal a, w') => (Normal a, w')
           | (Throw _, w') => h w'
           end.

Declare Scope js_scope.
Delimit Scope js_scope with js.
Notation "x <- m ;; k" := (bind m (fun x => k))
  (at level 100, m at next level, right associativity) : js_scope.
Notation "m ;; k" := (bind m (fun _ => k))
  (at level 100, right associativity) : js_scope.
Open Scope js_scope.

Definition emit (e : Event) : M unit :=
  fun w => (Normal tt, set_trace (trace w ++ [e]) w).

Definition getWorld : M World := fun w => (Normal w, w).

Definition getClient (r : nat) : M DefaultClient :=
  fun w => match clients w !! r with
           | Some c => (Normal c, w)
           | None => (Throw NoSuchObject, w)
           end.

(** Storing a newly allocated object. *)
Definition putClient (r : nat) (c : DefaultClient) : M unit :=
  fun w => (Normal tt, set_clients (<[r := c]> (clients w)) w).

(** A field write [r.f = v], or a change of a field in place: the object
    is read, changed and written back in one step. *)
Definition updateClient (r : nat) (f : DefaultClient -> DefaultClient)
  : M unit :=
  c <- getClient r ;; putClient r (f c).

Definition getArray (a : nat) : M (list Z) :=
  fun w => match arrays w !! a with
           | Some l => (Normal l, w)
           | None => (Throw NoSuchObject, w)
           end.

Definition putArray (a : nat) (l : list Z) : M unit :=
  fun w => (Normal tt, set_arrays (<[a := l]> (arrays w)) w).

(** [new DefaultClient] / [[]]: a reference not yet in the store. *)
Definition freshClient : M nat := fun w => (Normal (fresh (dom (clients w))), w).
Definition freshArray : M nat := fun w => (Normal (fresh (dom (arrays w))), w).

(** [vscode.workspace.workspaceFolders && vscode.workspace.workspaceFolders.length > 1]. *)
Definition multiRoot (w : World) : bool :=
  match workspaceFolders w with
  | Some fs => bool_decide (1 < length fs)%nat
  | None => false
  end.

Definition setFailureMessageShown (b : bool) : M unit :=
  fun w => (Normal tt, set_failureMessageShown b w).

Definition updateRegistry (f : ClientCollection -> ClientCollection) : M unit :=
  fun w => (Normal tt, set_allClients (f (allClients w)) w).

(** [l.forEach(f)]. *)
Fixpoint forEach {A} (f : A -> M unit) (l : list A) : M unit :=
  match l with
  | [] => ret tt
  | x :: l' => f x ;; forEach f l'
  end.

(** Run [m] and hand back how it completed, as the promise machinery does
    with a reaction. *)
Definition attempt {A} (m : M A) : M (Completion A) :=
  fun w => let '(o, w') := m w in (Normal o, w').

(** ** [DefaultClient]: construction *)

(** [path.resolve(util.getExtensionFilePath(folder), file)]: a file of
    the extension.  [util.getExtensionFilePath] is not among the sources
    and the code does not know where the extension is installed, so the
    path is kept as the folder inside the extension and the name of the
    file in it. *)
Record ExtensionFile := {
  extensionFolder : string;
  fileName : string
}.

Definition getLanguageServerFileName : M ExtensionFile :=
  w <- getWorld ;;
  let extensionProcessName := "Microsoft.VSCode.CPP.Extension" in
  let plat := platform w in
  extensionProcessName <-
    (if String.eqb plat "linux" then ret (extensionProcessName +:+ ".linux")
     else if String.eqb plat "darwin" then ret (extensionProcessName +:+ ".darwin")
     else if String.eqb plat "win32" then ret (extensionProcessName +:+ ".exe")
     else throw (Reason "Invalid Platform")) ;;
  ret {| extensionFolder := "bin"; fileName := extensionProcessName |}.

(** The transport a client is constructed with.  Its [middleware] and
    [errorHandler] options are [createProtocolFilter] and [closed] below,
    which take the client as an argument instead of closing over it. *)
Definition createLanguageClient (workspaceFolder : option WorkspaceFolder)
  : M LanguageClient :=
  _ <- getLanguageServerFileName ;;
  let serverName := getName workspaceFolder in
  ret (mkLanguageClient ("cpptools: " +:+ serverName)).

(** Both failure paths of the constructor: the rejection handler of
    [languageClient.onReady()] and the [catch] block. *)
Definition unsupported (this : nat) : M unit :=
  updateClient this (set_isSupported false) ;;
  w <- getWorld ;;
  if failureMessageShown w then ret tt
  else
    setFailureMessageShown true ;;
    emit (ShowErrorMessage
      "Unable to start the C/C++ language server. IntelliSense features will be disabled.").

(** [new DefaultClient(allClients, workspaceFolder)]: the field
    initialisers, then the constructor body.  On success the client is
    left with a pending [onReadyPromise]. *)
Definition newDefaultClient (workspaceFolder : option WorkspaceFolder)
  : M nat :=
  this <- freshClient ;;
  times <- freshArray ;;
  putArray times [] ;;
  putClient this
    {| languageClient := None; disposables := []; configuration := None;
       workspaceRoot := None; trackedDocuments := []; crashTimes := times;
       isSupported := true; model := initialModel;
       onReadyPromise := None |} ;;
  tryCatch
    (_ <- createLanguageClient workspaceFolder ;;
     emit (TransportStart this) ;;
     emit (Collaborator this SetProgressExecutableStarted) ;;
     updateClient this (set_workspaceRoot workspaceFolder) ;;
     emit (Collaborator this UiBind) ;;
     updateClient this (set_onReadyPromise (Some (Pending []))))
    (unsupported this) ;;
  ret this.

(** ** [DefaultClient]: the readiness gate *)

(** Calling one of the closures.  A closure that reads a member of
    [this.languageClient] or [this.configuration] while that field is
    still undefined throws. *)
Definition runThunk (this : nat) (t : Thunk) : M Value :=
  c <- getClient this ;;
  match t with
  | SendRequest m =>
      match languageClient c with
      | Some _ => emit (Transport this m) ;; ret (ReplyTo m)
      | None => throw TypeError
      end
  | SendNotification m =>
      match languageClient c with
      | Some _ => emit (Transport this m) ;; ret Void
      | None => throw TypeError
      end
  | ShowConfigurations =>
      match configuration c with
      | Some _ => emit (Collaborator this ShowConfigurationsQuickPick) ;; ret Void
      | None => throw TypeError
      end
  | ShowParsingCommands =>
      emit (Collaborator this ShowParsingCommandsQuickPick) ;; ret Void
  | ConfigurationEdit =>
      match configuration c with
      | Some _ => emit (Collaborator this HandleConfigurationEditCommand) ;; ret Void
      | None => throw TypeError
      end
  | AddToIncludePath path =>
      match configuration c with
      | Some _ => emit (Collaborator this (AddToIncludePathCommand path)) ;; ret Void
      | None => throw TypeError
      end
  end.

Definition recordOutcome (o : Completion Value) (c : DefaultClient)
  : DefaultClient :=
  match onReadyPromise c with
  | Some (Fulfilled os) => set_onReadyPromise (Some (Fulfilled (os ++ [o]))) c
  | _ => c
  end.

(** One reaction of the settled [onReadyPromise]: the closure runs, and
    the promise that [then] returned settles the way the closure
    completed. *)
Definition runReaction (this : nat) (t : Thunk) : M unit :=
  o <- attempt (runThunk this t) ;;
  updateClient this (recordOutcome o).

(** [this.onReadyPromise.then(() => t())]; the result is the position of
    the reaction. *)
Definition thenOnReady (this : nat) (t : Thunk) : M nat :=
  c <- getClient this ;;
  match onReadyPromise c with
  | Some (Pending rs) =>
      updateClient this (set_onReadyPromise (Some (Pending (rs ++ [t])))) ;;
      ret (length rs)
  | Some (Fulfilled os) => runReaction this t ;; ret (length os)
  | None => throw TypeError
  end.

Definition requestWhenReady (this : nat) (request : Thunk) : M Thenable :=
  c <- getClient this ;;
  match languageClient c with
  | Some _ => v <- runThunk this request ;; ret (Direct v)
  | None =>
      if isSupported c && bool_decide (onReadyPromise c ≠ None)
      then k <- thenOnReady this request ;; ret (Chained k)
      else ret (Rejected "Unsupported client")
  end.

Definition notifyWhenReady (this : nat) (notify : Thunk) : M unit :=
  c <- getClient this ;;
  match languageClient c with
  | Some _ => _ <- runThunk this notify ;; ret tt
  | None =>
      if isSupported c && bool_decide (onReadyPromise c ≠ None)
      then _ <- thenOnReady this notify ;; ret tt
      else ret tt
  end.

(** The fulfilment handler passed to [languageClient.onReady().then]. *)
Definition registerFileWatcher (this : nat) : M unit :=
  c <- getClient this ;;
  match workspaceRoot c with
  | Some _ =>
      updateClient this
        (fun c => set_disposables (disposables c ++ [FileWatcherDisposable]) c)
  | None => ret tt
  end.

Definition onReadyFulfilledHandler (this : nat) : M unit :=
  c <- getClient this ;;
  updateClient this (set_configuration (Some (mkCppProperties (RootPath c)))) ;;
  updateClient this
    (fun c => set_disposables (disposables c ++ [ConfigurationDisposable]) c) ;;
  emit (Transport this QueryDefaultPathsRequest) ;;
  updateClient this
    (set_languageClient
       (Some (mkLanguageClient ("cpptools: " +:+ getName (workspaceRoot c))))) ;;
  emit (Collaborator this LogNonDefaultInitialCppSettings) ;;
  setFailureMessageShown false ;;
  emit (Collaborator this RegisterNotifications) ;;
  registerFileWatcher this.

(** [onReadyPromise] settles: both handlers return normally, so it is
    fulfilled either way, and its reactions run in registration order. *)
Definition settleOnReadyPromise (this : nat) : M unit :=
  c <- getClient this ;;
  match onReadyPromise c with
  | Some (Pending rs) =>
      updateClient this (set_onReadyPromise (Some (Fulfilled []))) ;;
      forEach (runReaction this) rs
  | _ => ret tt
  end.

(** The two ways [languageClient.onReady()] can settle. *)
Definition onReadyFulfilled (this : nat) : M unit :=
  onReadyFulfilledHandler this ;; settleOnReadyPromise this.

Definition onReadyRejected (this : nat) : M unit :=
  unsupported this ;; settleOnReadyPromise this.

(** ** [DefaultClient]: the public operations *)

Definition requestGoToDeclaration (this : nat) : M Thenable :=
  requestWhenReady this (SendRequest GoToDeclarationRequest).

Definition requestSwitchHeaderSource (this : nat) (rootPath fileName : string)
  : M Thenable :=
  requestWhenReady this (SendRequest (SwitchHeaderSourceRequest rootPath fileName)).

Definition requestNavigationList (this : nat) (document : TextDocument)
  : M Thenable :=
  requestWhenReady this (SendRequest (NavigationListRequest (uri document))).

Definition activeDocumentChanged (this : nat) (document : TextDocument)
  : M unit :=
  notifyWhenReady this
    (SendNotification (ActiveDocumentChangeNotification (uri document))).

Definition selectionChanged (this : nat) (line character : Z) : M unit :=
  notifyWhenReady this
    (SendNotification (TextEditorSelectionChangeNotification line character)).

Definition resetDatabase (this : nat) : M unit :=
  notifyWhenReady this (SendNotification ResetDatabaseNotification).

Definition pauseParsing (this : nat) : M unit :=
  notifyWhenReady this (SendNotification PauseParsingNotification).

Definition resumeParsing (this : nat) : M unit :=
  notifyWhenReady this (SendNotification ResumeParsingNotification).

Definition activate (this : nat) : M unit :=
  updateClient this
    (fun c => set_model (forEachBinding (@DataBinding_activate) (model c)) c) ;;
  resumeParsing this.

Definition deactivate (this : nat) : M unit :=
  updateClient this
    (fun c => set_model (forEachBinding (@DataBinding_deactivate) (model c)) c) ;;
  pauseParsing this.

(** The event getters ([get TagParsingChanged] and the like) hand out
    the notification stream of a field of the model; a caller that
    subscribes a handler to it changes that field. *)
Inductive ModelEvent :=
| TagParsingChanged
| IntelliSenseParsingChanged
| NavigationLocationChanged
| TagParserStatusChanged
| ActiveConfigChanged.

Definition subscribeTo (e : ModelEvent) (handler : nat) (m : ClientModel)
  : ClientModel :=
  {| isTagParsing :=
       match e with
       | TagParsingChanged => DataBinding_subscribe handler (isTagParsing m)
       | _ => isTagParsing m
       end;
     isUpdatingIntelliSense :=
       match e with
       | IntelliSenseParsingChanged =>
           DataBinding_subscribe handler (isUpdatingIntelliSense m)
       | _ => isUpdatingIntelliSense m
       end;
     navigationLocation :=
       match e with
       | NavigationLocationChanged =>
           DataBinding_subscribe handler (navigationLocation m)
       | _ => navigationLocation m
       end;
     tagParserStatus :=
       match e with
       | TagParserStatusChanged =>
           DataBinding_subscribe handler (tagParserStatus m)
       | _ => tagParserStatus m
       end;
     activeConfigName :=
       match e with
       | ActiveConfigChanged => DataBinding_subscribe handler (activeConfigName m)
       | _ => activeConfigName m
       end |}.

Definition subscribe (this : nat) (e : ModelEvent) (handler : nat) : M unit :=
  updateClient this (fun c => set_model (subscribeTo e handler (model c)) c).

Definition handleConfigurationSelectCommand (this : nat) : M unit :=
  notifyWhenReady this ShowConfigurations.

Definition handleShowParsingCommands (this : nat) : M unit :=
  notifyWhenReady this ShowParsingCommands.

Definition handleConfigurationEditCommand (this : nat) : M unit :=
  notifyWhenReady this ConfigurationEdit.

Definition handleAddToIncludePathCommand (this : nat) (path : string)
  : M unit :=
  notifyWhenReady this (AddToIncludePath path).

Definition didOpenParams (document : TextDocument) : Message :=
  DidOpenNotification (uri document) (languageId document)
    (version document) (getText document).

Definition takeOwnership (this : nat) (document : TextDocument) : M unit :=
  let params := didOpenParams document in
  notifyWhenReady this (SendNotification params) ;;
  emit (TrackedAdd this document) ;;
  updateClient this
    (fun c => set_trackedDocuments (Set_add document (trackedDocuments c)) c).

Definition onInterval (this : nat) : M unit :=
  c <- getClient this ;;
  match languageClient c, configuration c with
  | Some _, Some _ =>
      emit (Transport this IntervalTimerNotification) ;;
      emit (Collaborator this CheckCppProperties)
  | _, _ => ret tt
  end.

(** [dispose] in two parts: what the call does on the spot, and the
    continuation attached to the promise of [languageClient.stop()] (or
    to [Promise.resolve()] when there is no transport). *)
Definition dispose_stop (this : nat) : M unit :=
  c <- getClient this ;;
  match languageClient c with
  | Some _ => emit (TransportStop this)
  | None => ret tt
  end.

Definition dispose_then (this : nat) : M unit :=
  c <- getClient this ;;
  forEach (fun d => emit (Disposed this d)) (disposables c) ;;
  updateClient this (set_disposables []) ;;
  updateClient this
    (fun c => set_model (forEachBinding (@DataBinding_dispose) (model c)) c).

(** The whole of [dispose()], up to the point where the promise it
    returned is fulfilled. *)
Definition dispose (this : nat) : M unit :=
  dispose_stop this ;; dispose_then this.

(** ** The registry's [replace] *)

(** Modelled from the spec: a pointer to the old session becomes a
    pointer to the new one. *)
Definition replaceRef (old new : nat) (r : option nat) : option nat :=
  match r with
  | Some x => if bool_decide (x = old) then Some new else Some x
  | None => None
  end.

(** Modelled from the spec: what [replace] does to the registry.  With
    the flag set the new session takes the slot of the old one, and its
    place as fallback and as active session; otherwise the slot is given
    up. *)
Definition slotsAfterReplace (client newClient : nat) (cc : ClientCollection)
  : ClientCollection :=
  {| languageClients :=
       map (fun e => if bool_decide (e.2 = client)
                     then (e.1, newClient) else e) (languageClients cc);
     defaultClient := replaceRef client newClient (defaultClient cc);
     activeClient := replaceRef client newClient (activeClient cc) |}.

Definition slotsAfterStop (client : nat) (cc : ClientCollection)
  : ClientCollection :=
  {| languageClients := filter (fun e => e.2 ≠ client) (languageClients cc);
     defaultClient := defaultClient cc;
     activeClient := activeClient cc |}.

(** Modelled from the spec: [ClientCollection.replace]
    (clientCollection.ts is not among the sources).  Section 4.5: the
    argument's transport-facing resources are disposed; with the flag
    set, a new session is constructed for the same workspace folder, the
    new session takes the old one's slot (and its place as active
    session) and is returned.  Section 4.3 adds that the documents of the
    old session stay owned, and fixes the meaning of a cleared flag: the
    session is torn down and not replaced.

    The crash record is not handed over here.  [crashTimes] is a private
    field of [DefaultClient] and no member of [interface Client], which
    is all the registry sees of a session: the new session comes back
    with the empty record its constructor gave it, and the caller, the
    crash handler [closed] below, assigns the old record to it. *)
Definition ClientCollection_replace (client : nat) (transfer : bool)
  : M (option nat) :=
  emit (RegistryReplace client transfer) ;;
  c <- getClient client ;;
  dispose client ;;
  if transfer then
    newClient <- newDefaultClient (workspaceRoot c) ;;
    forEach (takeOwnership newClient) (trackedDocuments c) ;;
    updateClient client (set_trackedDocuments []) ;;
    updateRegistry (slotsAfterReplace client newClient) ;;
    ret (Some newClient)
  else
    updateRegistry (slotsAfterStop client) ;;
    ret None.

(** ** [DefaultClient]: the crash policy *)

Inductive CloseAction := DoNotRestart | Restart.

(** [newClient.crashTimes = this.crashTimes], where [newClient] is what
    [replace] returned. *)
Definition assignCrashTimes (newClient : option nat) (this : nat) : M unit :=
  match newClient with
  | Some n =>
      c <- getClient this ;;
      updateClient n (set_crashTimes (crashTimes c))
  | None => throw TypeError
  end.

(** [this.crashTimes[this.crashTimes.length-1] - this.crashTimes[0]]. *)
Definition elapsed (times : list Z) : Z :=
  (List.last times 0 - hd 0 times)%Z.

(** [errorHandler.closed] of the transport of [this]; [now] is what
    [Date.now()] returns.  [serverName] was computed from the constructor's
    [workspaceFolder], which is what [workspaceRoot] holds once a
    transport exists. *)
Definition closed (this : nat) (now : Z) : M CloseAction :=
  c <- getClient this ;;
  let serverName := getName (workspaceRoot c) in
  times <- getArray (crashTimes c) ;;
  putArray (crashTimes c) (times ++ [now]) ;;
  times <- getArray (crashTimes c) ;;
  (if (length times <? 5)%nat then
     newClient <- ClientCollection_replace this true ;;
     assignCrashTimes newClient this
   else
     if (elapsed times <=? 3 * 60 * 1000)%Z then
       w <- getWorld ;;
       (if multiRoot w then
          emit (ShowErrorMessage
            ("The language server for '" +:+ serverName +:+
             "' crashed 5 times in the last 3 minutes. It will not be restarted."))
        else
          emit (ShowErrorMessage
            "The language server crashed 5 times in the last 3 minutes. It will not be restarted.")) ;;
       _ <- ClientCollection_replace this false ;;
       ret tt
     else
       times <- getArray (crashTimes c) ;;
       putArray (crashTimes c) (tail times) ;;
       newClient <- ClientCollection_replace this true ;;
       assignCrashTimes newClient this) ;;
  ret DoNotRestart.

(** ** protocolFilter.ts *)

(** The [Middleware] object: one handler per hook.  A handler receives
    the hook's arguments and, last, the function that passes the call on
    to the transport. *)
Module Middleware.
Definition Next1 := JsValue -> M JsValue.
Definition Next2 := JsValue -> JsValue -> M JsValue.
Definition Next3 := JsValue -> JsValue -> JsValue -> M JsValue.
Definition Next4 := JsValue -> JsValue -> JsValue -> JsValue -> M JsValue.
Definition Next5 :=
  JsValue -> JsValue -> JsValue -> JsValue -> JsValue -> M JsValue.

Record t := {
  didOpen : TextDocument -> (TextDocument -> M JsValue) -> M JsValue;
  didChange : JsValue -> Next1 -> M JsValue;
  willSave : JsValue -> Next1 -> M JsValue;
  willSaveWaitUntil : JsValue -> Next1 -> M JsValue;
  didSave : JsValue -> Next1 -> M JsValue;
  didClose : TextDocument -> (TextDocument -> M JsValue) -> M JsValue;
  provideCompletionItem : JsValue -> JsValue -> JsValue -> Next3 -> M JsValue;
  resolveCompletionItem : JsValue -> JsValue -> Next2 -> M JsValue;
  provideHover : JsValue -> JsValue -> JsValue -> Next3 -> M JsValue;
  provideSignatureHelp : JsValue -> JsValue -> JsValue -> Next3 -> M JsValue;
  provideDefinition : JsValue -> JsValue -> JsValue -> Next3 -> M JsValue;
  provideReferences :
    JsValue -> JsValue -> JsValue -> JsValue -> Next4 -> M JsValue;
  provideDocumentHighlights :
    JsValue -> JsValue -> JsValue -> Next3 -> M JsValue;
  provideDocumentSymbols : JsValue -> JsValue -> Next2 -> M JsValue;
  provideWorkspaceSymbols : JsValue -> JsValue -> Next2 -> M JsValue;
  provideCodeActions :
    JsValue -> JsValue -> JsValue -> JsValue -> Next4 -> M JsValue;
  provideCodeLenses : JsValue -> JsValue -> Next2 -> M JsValue;
  resolveCodeLens : JsValue -> JsValue -> Next2 -> M JsValue;
  provideDocumentFormattingEdits :
    JsValue -> JsValue -> JsValue -> Next3 -> M JsValue;
  provideDocumentRangeFormattingEdits :
    JsValue -> JsValue -> JsValue -> JsValue -> Next4 -> M JsValue;
  provideOnTypeFormattingEdits :
    JsValue -> JsValue -> JsValue -> JsValue -> JsValue -> Next5 -> M JsValue;
  provideRenameEdits :
    JsValue -> JsValue -> JsValue -> JsValue -> Next4 -> M JsValue;
  provideDocumentLinks : JsValue -> JsValue -> Next2 -> M JsValue;
  resolveDocumentLink : JsValue -> JsValue -> Next2 -> M JsValue
}.
End Middleware.

Section ProtocolFilter.
(** The client the filter is created for.  The registry is the one of
    the world the handler runs in. *)
Variable me : nat.

(** [clients.ActiveClient === me]. *)
Definition meIsActive : M bool :=
  w <- getWorld ;; ret (isActiveClient (allClients w) me).

Definition defaultHandler (data : JsValue) (callback : Middleware.Next1)
  : M JsValue :=
  a <- meIsActive ;;
  if a then _ <- callback data ;; ret undefined else ret undefined.

Definition invoke1 (a : JsValue) (callback : Middleware.Next1) : M JsValue :=
  act <- meIsActive ;; if act then callback a else ret null.

Definition invoke2 (a b : JsValue) (callback : Middleware.Next2)
  : M JsValue :=
  act <- meIsActive ;; if act then callback a b else ret null.

Definition invoke3 (a b c : JsValue) (callback : Middleware.Next3)
  : M JsValue :=
  act <- meIsActive ;; if act then callback a b c else ret null.

Definition invoke4 (a b c d : JsValue) (callback : Middleware.Next4)
  : M JsValue :=
  act <- meIsActive ;; if act then callback a b c d else ret null.

Definition invoke5 (a b c d e : JsValue) (callback : Middleware.Next5)
  : M JsValue :=
  act <- meIsActive ;; if act then callback a b c d e else ret null.

Definition filter_didOpen (document : TextDocument)
  (sendMessage : TextDocument -> M JsValue) : M JsValue :=
  w <- getWorld ;;
  if checkOwnership (allClients w) me document then
    emit (TrackedAdd me document) ;;
    updateClient me
      (fun c => set_trackedDocuments (Set_add document (trackedDocuments c)) c) ;;
    _ <- sendMessage document ;;
    ret undefined
  else ret undefined.

Definition filter_willSaveWaitUntil (event : JsValue)
  (sendMessage : Middleware.Next1) : M JsValue :=
  act <- meIsActive ;;
  if act then sendMessage event else ret resolvedEmptyArray.

Definition filter_didClose (document : TextDocument)
  (sendMessage : TextDocument -> M JsValue) : M JsValue :=
  act <- meIsActive ;;
  if act then
    c <- getClient me ;;
    (if Set_has document (trackedDocuments c) then ret tt
     else emit (AssertionFailed me)) ;;
    emit (TrackedDelete me document) ;;
    updateClient me
      (fun c => set_trackedDocuments (Set_delete document (trackedDocuments c)) c) ;;
    _ <- sendMessage document ;;
    ret undefined
  else ret undefined.

Definition createProtocolFilter : Middleware.t :=
  {| Middleware.didOpen := filter_didOpen;
     Middleware.didChange := defaultHandler;
     Middleware.willSave := defaultHandler;
     Middleware.willSaveWaitUntil := filter_willSaveWaitUntil;
     Middleware.didSave := defaultHandler;
     Middleware.didClose := filter_didClose;
     Middleware.provideCompletionItem := invoke3;
     Middleware.resolveCompletionItem := invoke2;
     Middleware.provideHover := invoke3;
     Middleware.provideSignatureHelp := invoke3;
     Middleware.provideDefinition := invoke3;
     Middleware.provideReferences := invoke4;
     Middleware.provideDocumentHighlights := invoke3;
     Middleware.provideDocumentSymbols := invoke2;
     Middleware.provideWorkspaceSymbols := invoke2;
     Middleware.provideCodeActions := invoke4;
     Middleware.provideCodeLenses := invoke2;
     Middleware.resolveCodeLens := invoke2;
     Middleware.provideDocumentFormattingEdits := invoke3;
     Middleware.provideDocumentRangeFormattingEdits := invoke4;
     Middleware.provideOnTypeFormattingEdits := invoke5;
     Middleware.provideRenameEdits := invoke4;
     Middleware.provideDocumentLinks := invoke2;
     Middleware.resolveDocumentLink := invoke2 |}.
End ProtocolFilter.

(** *** How the language-client library drives the middleware *)

(** Number of arguments a hook receives before its callback. *)
Definition arity (h : Hook) : nat :=
  match h with
  | didChange | willSave | willSaveWaitUntil | didSave => 1
  | resolveCompletionItem | provideDocumentSymbols | provideWorkspaceSymbols
  | provideCodeLenses | resolveCodeLens | provideDocumentLinks
  | resolveDocumentLink => 2
  | provideCompletionItem | provideHover | provideSignatureHelp
  | provideDefinition | provideDocumentHighlights
  | provideDocumentFormattingEdits => 3
  | provideReferences | provideCodeActions
  | provideDocumentRangeFormattingEdits | provideRenameEdits => 4
  | provideOnTypeFormattingEdits => 5
  end.

(** An editor-triggered call of hook [h] with arguments [args] reaches
    the middleware, with [next] as the function that would carry it on.
    The library passes every hook the number of arguments it declares,
    and [next] last.  A call with another number of arguments leaves
    something in the place of the callback that is not a function, and
    [undefined] in the place of an argument that is missing: the handler
    throws a [TypeError] when it calls the callback, that is, at the
    active client only. *)
Definition intercept (mw : Middleware.t) (h : Hook) (args : list JsValue)
  (next : list JsValue -> M JsValue) : M JsValue :=
  let arg i := nth i args undefined in
  let callback passed :=
    if bool_decide (length args = arity h) then next passed
    else throw TypeError in
  let k1 := fun a => callback [a] in
  let k2 := fun a b => callback [a; b] in
  let k3 := fun a b c => callback [a; b; c] in
  let k4 := fun a b c d => callback [a; b; c; d] in
  let k5 := fun a b c d e => callback [a; b; c; d; e] in
  match h with
  | didChange => Middleware.didChange mw (arg 0) k1
  | willSave => Middleware.willSave mw (arg 0) k1
  | willSaveWaitUntil => Middleware.willSaveWaitUntil mw (arg 0) k1
  | didSave => Middleware.didSave mw (arg 0) k1
  | resolveCompletionItem =>
      Middleware.resolveCompletionItem mw (arg 0) (arg 1) k2
  | provideDocumentSymbols =>
      Middleware.provideDocumentSymbols mw (arg 0) (arg 1) k2
  | provideWorkspaceSymbols =>
      Middleware.provideWorkspaceSymbols mw (arg 0) (arg 1) k2
  | provideCodeLenses => Middleware.provideCodeLenses mw (arg 0) (arg 1) k2
  | resolveCodeLens => Middleware.resolveCodeLens mw (arg 0) (arg 1) k2
  | provideDocumentLinks => Middleware.provideDocumentLinks mw (arg 0) (arg 1) k2
  | resolveDocumentLink => Middleware.resolveDocumentLink mw (arg 0) (arg 1) k2
  | provideCompletionItem =>
      Middleware.provideCompletionItem mw (arg 0) (arg 1) (arg 2) k3
  | provideHover => Middleware.provideHover mw (arg 0) (arg 1) (arg 2) k3
  | provideSignatureHelp =>
      Middleware.provideSignatureHelp mw (arg 0) (arg 1) (arg 2) k3
  | provideDefinition =>
      Middleware.provideDefinition mw (arg 0) (arg 1) (arg 2) k3
  | provideDocumentHighlights =>
      Middleware.provideDocumentHighlights mw (arg 0) (arg 1) (arg 2) k3
  | provideDocumentFormattingEdits =>
      Middleware.provideDocumentFormattingEdits mw (arg 0) (arg 1) (arg 2) k3
  | provideReferences =>
      Middleware.provideReferences mw (arg 0) (arg 1) (arg 2) (arg 3) k4
  | provideCodeActions =>
      Middleware.provideCodeActions mw (arg 0) (arg 1) (arg 2) (arg 3) k4
  | provideDocumentRangeFormattingEdits =>
      Middleware.provideDocumentRangeFormattingEdits mw
        (arg 0) (arg 1) (arg 2) (arg 3) k4
  | provideRenameEdits =>
      Middleware.provideRenameEdits mw (arg 0) (arg 1) (arg 2) (arg 3) k4
  | provideOnTypeFormattingEdits =>
      Middleware.provideOnTypeFormattingEdits mw
        (arg 0) (arg 1) (arg 2) (arg 3) (arg 4) k5
  end.

(** The library's own continuation of a hook: the message goes out on the
    client's transport and the (promised) reply comes back. *)
Definition sendToServer (client : nat) (h : Hook) (args : list JsValue)
  : M JsValue :=
  emit (Transport client (Routed h args)) ;; ret (opaque 0).

Definition sendDidOpen (client : nat) (document : TextDocument) : M JsValue :=
  emit (Transport client (TextDocumentDidOpen document)) ;; ret undefined.

Definition sendDidClose (client : nat) (document : TextDocument) : M JsValue :=
  emit (Transport client (TextDocumentDidClose document)) ;; ret undefined.

(** What a suppressed call evaluates to. *)
Definition neutral (h : Hook) : JsValue :=
  match h with
  | didChange | willSave | didSave => undefined
  | willSaveWaitUntil => resolvedEmptyArray
  | _ => null
  end.

(** ** Vocabulary of the statements *)

(** The three states of a session's readiness gate, read off the fields
    that [requestWhenReady] and [notifyWhenReady] branch on. *)
Inductive Gate := GatePending | GateReady | GateFailed.

Definition gate (c : DefaultClient) : Gate :=
  match languageClient c with
  | Some _ => GateReady
  | None =>
      if isSupported c && bool_decide (onReadyPromise c ≠ None)
      then GatePending else GateFailed
  end.

(** How the promise returned for the [k]-th reaction has settled, if it
    has. *)
Definition settled (c : DefaultClient) (k : nat) : option (Completion Value) :=
  match onReadyPromise c with
  | Some (Fulfilled os) => os !! k
  | _ => None
  end.

(** The public operations that go through the gate, as data. *)
Inductive Call :=
| GoToDeclaration
| SwitchHeaderSource (rootPath fileName : string)
| NavigationList (document : TextDocument)
| TakeOwnership (document : TextDocument)
| ActiveDocumentChanged (document : TextDocument)
| Activate
| SelectionChanged (line character : Z)
| ResetDatabase
| Deactivate
| PauseParsing
| ResumeParsing
| ConfigurationSelectCommand
| ShowParsingCommandsCommand
| ConfigurationEditCommand
| AddToIncludePathCommandCall (path : string).

Definition perform (this : nat) (call : Call) : M unit :=
  match call with
  | GoToDeclaration => _ <- requestGoToDeclaration this ;; ret tt
  | SwitchHeaderSource rootPath fileName =>
      _ <- requestSwitchHeaderSource this rootPath fileName ;; ret tt
  | NavigationList document =>
      _ <- requestNavigationList this document ;; ret tt
  | TakeOwnership document => takeOwnership this document
  | ActiveDocumentChanged document => activeDocumentChanged this document
  | Activate => activate this
  | SelectionChanged line character => selectionChanged this line character
  | ResetDatabase => resetDatabase this
  | Deactivate => deactivate this
  | PauseParsing => pauseParsing this
  | ResumeParsing => resumeParsing this
  | ConfigurationSelectCommand => handleConfigurationSelectCommand this
  | ShowParsingCommandsCommand => handleShowParsingCommands this
  | ConfigurationEditCommand => handleConfigurationEditCommand this
  | AddToIncludePathCommandCall path => handleAddToIncludePathCommand this path
  end.

(** The closure each operation hands to the gate. *)
Definition thunkOf (call : Call) : Thunk :=
  match call with
  | GoToDeclaration => SendRequest GoToDeclarationRequest
  | SwitchHeaderSource rootPath fileName =>
      SendRequest (SwitchHeaderSourceRequest rootPath fileName)
  | NavigationList document =>
      SendRequest (NavigationListRequest (uri document))
  | TakeOwnership document => SendNotification (didOpenParams document)
  | ActiveDocumentChanged document =>
      SendNotification (ActiveDocumentChangeNotification (uri document))
  | Activate => SendNotification ResumeParsingNotification
  | SelectionChanged line character =>
      SendNotification (TextEditorSelectionChangeNotification line character)
  | ResetDatabase => SendNotification ResetDatabaseNotification
  | Deactivate => SendNotification PauseParsingNotification
  | PauseParsing => SendNotification PauseParsingNotification
  | ResumeParsing => SendNotification ResumeParsingNotification
  | ConfigurationSelectCommand => ShowConfigurations
  | ShowParsingCommandsCommand => ShowParsingCommands
  | ConfigurationEditCommand => ConfigurationEdit
  | AddToIncludePathCommandCall path => AddToIncludePath path
  end.

(** The transport message a closure sends, for the closures that are
    requests or notifications. *)
Definition messageOf (t : Thunk) : option Message :=
  match t with
  | SendRequest m | SendNotification m => Some m
  | _ => None
  end.

(** What a closure does when the client is ready, and what it then
    evaluates to. *)
Definition thunkEvent (this : nat) (t : Thunk) : Event :=
  match t with
  | SendRequest m | SendNotification m => Transport this m
  | ShowConfigurations => Collaborator this ShowConfigurationsQuickPick
  | ShowParsingCommands => Collaborator this ShowParsingCommandsQuickPick
  | ConfigurationEdit => Collaborator this HandleConfigurationEditCommand
  | AddToIncludePath path => Collaborator this (AddToIncludePathCommand path)
  end.

Definition thunkValue (t : Thunk) : Value :=
  match t with
  | SendRequest m => ReplyTo m
  | _ => Void
  end.

(** The messages a trace shows on the transport of one client, in
    order. *)
Definition transportOf (client : nat) (tr : list Event) : list Message :=
  omap (fun e => match e with
                 | Transport r m => if bool_decide (r = client) then Some m else None
                 | _ => None
                 end) tr.

Global Arguments transportOf : simpl never.

(** Submitting a sequence of calls, one after the other. *)
Definition performAll (this : nat) (calls : list Call) : M unit :=
  forEach (perform this) calls.

(** Hooks whose handler is [defaultHandler]: it discards what the
    callback returns. *)
Definition returnsNothing (h : Hook) : bool :=
  match h with
  | didChange | willSave | didSave => true
  | _ => false
  end.

(** The call is passed on: the callback runs on the hook's arguments, and
    the handler returns what the callback returned, if it returns
    anything. *)
Definition forward (h : Hook) (next : list JsValue -> M JsValue)
  (args : list JsValue) : M JsValue :=
  if returnsNothing h then _ <- next args ;; ret undefined else next args.

(** A client that waits for its transport, with [q] the reactions
    registered so far. *)
Definition waiting (c : DefaultClient) (q : list Thunk) : Prop :=
  languageClient c = None /\ isSupported c = true /\
  onReadyPromise c = Some (Pending q).

(** What running a closure comes to, given the client it runs on: how it
    completes and what it emits. *)
Definition thunkResult (this : nat) (c : DefaultClient) (t : Thunk)
  : Completion Value * list Event :=
  match t with
  | SendRequest _ | SendNotification _ =>
      match languageClient c with
      | Some _ => (Normal (thunkValue t), [thunkEvent this t])
      | None => (Throw TypeError, [])
      end
  | ShowParsingCommands => (Normal Void, [thunkEvent this t])
  | _ =>
      match configuration c with
      | Some _ => (Normal Void, [thunkEvent this t])
      | None => (Throw TypeError, [])
      end
  end.

(** What [dispose] tells the transport. *)
Definition stopEvents (this : nat) (c : DefaultClient) : list Event :=
  match languageClient c with
  | Some _ => [TransportStop this]
  | None => []
  end.

(** What the record is after a crash that does not stop the session. *)
Definition recordAfter (times : list Z) : list Z :=
  if (length times <? 5)%nat then times else tail times.

(** The two failure notices of the crash policy. *)
Definition crashNoticeSingle : string :=
  "The language server crashed 5 times in the last 3 minutes. It will not be restarted.".

Definition crashNoticeMulti (serverName : string) : string :=
  "The language server for '" +:+ serverName +:+
  "' crashed 5 times in the last 3 minutes. It will not be restarted.".

(** Events by which the crash policy shows itself: an instruction to the
    registry, or one of its notices to the user. *)
Definition isPolicyEvent (e : Event) : bool :=
  match e with
  | RegistryReplace _ _ => true
  | ShowErrorMessage text => String.prefix "The language server" text
  | _ => false
  end.

Definition policyEvents (tr : list Event) : list Event :=
  List.filter isPolicyEvent tr.

(** ** Histories *)

(** The world a computation leaves behind. *)
Definition after {A} (m : M A) (w : World) : World := (m w).2.

(** Modelled from the spec: the registry creates a client for a folder
    (with [createClient], that is, [new DefaultClient]) and registers
    it. *)
Definition openFolder (folder : WorkspaceFolder) : M nat :=
  r <- newDefaultClient (Some folder) ;;
  updateRegistry (register (Some (fsPath folder)) r) ;;
  ret r.

(** Modelled from the spec: [set ActiveSession] (section 4.5) deactivates
    the model of the previous active session and activates that of the
    new one. *)
Definition setActiveClient (r : nat) : M unit :=
  w <- getWorld ;;
  match activeClient (allClients w) with
  | Some old => deactivate old
  | None => ret tt
  end ;;
  updateRegistry (fun cc =>
    {| languageClients := languageClients cc;
       defaultClient := defaultClient cc;
       activeClient := Some r |}) ;;
  activate r.

(** The clients the registry holds. *)
Definition liveClients (w : World) : list nat :=
  (languageClients (allClients w)).*2.

(** Everything that can happen to a world. *)
Inductive Op :=
| OpenFolder (folder : WorkspaceFolder)
| ReadyFulfilled (r : nat)
| ReadyRejected (r : nat)
| Perform (r : nat) (call : Call)
| Interval (r : nat)
| Dispose (r : nat)
| Closed (r : nat) (now : Z)
| DidOpen (r : nat) (document : TextDocument)
| DidClose (r : nat) (document : TextDocument)
| Intercept (r : nat) (h : Hook) (args : list JsValue)
| Focus (r : nat)
| Subscribe (r : nat) (e : ModelEvent) (handler : nat).

(** What each of them does.  Only the transport of a client that the
    registry still holds reports a crash: a client that has been
    replaced or stopped has had its transport stopped. *)
Definition exec (op : Op) : M unit :=
  match op with
  | OpenFolder folder => _ <- openFolder folder ;; ret tt
  | ReadyFulfilled r => onReadyFulfilled r
  | ReadyRejected r => onReadyRejected r
  | Perform r call => perform r call
  | Interval r => onInterval r
  | Dispose r => dispose r
  | Closed r now =>
      w <- getWorld ;;
      if bool_decide (r ∈ liveClients w) then _ <- closed r now ;; ret tt
      else ret tt
  | DidOpen r document =>
      _ <- Middleware.didOpen (createProtocolFilter r) document (sendDidOpen r) ;;
      ret tt
  | DidClose r document =>
      _ <- Middleware.didClose (createProtocolFilter r) document (sendDidClose r) ;;
      ret tt
  | Intercept r h args =>
      _ <- intercept (createProtocolFilter r) h args (sendToServer r h) ;; ret tt
  | Focus r => setActiveClient r
  | Subscribe r e handler => subscribe r e handler
  end.

Definition run (ops : list Op) (w : World) : World :=
  foldl (fun w op => after (exec op) w) w ops.

(** A client whose transport is up has its configuration. *)
Definition configured (c : DefaultClient) : Prop :=
  is_Some (languageClient c) -> is_Some (configuration c).

Definition allConfigured (w : World) : Prop :=
  forall r c, clients w !! r = Some c -> configured c.

(** Worlds that the operations lead to from a window without clients. *)
Definition reachable (w : World) : Prop :=
  exists w0 ops, clients w0 = ∅ /\ liveClients w0 = [] /\ w = run ops w0.

(** [m] takes every world to one related to it by [R]. *)
Definition frame (R : World -> World -> Prop) {A} (m : M A) : Prop :=
  forall w, R w (m w).2.

(** The client invariant is not lost. *)
Definition configuredStep (w w' : World) : Prop :=
  allConfigured w -> allConfigured w'.

(** The crash records and the clients that hold them stay as they are. *)
Definition sameRecords (w w' : World) : Prop :=
  arrays w' = arrays w /\
  liveClients w' = liveClients w /\
  forall r c, clients w !! r = Some c ->
    exists c', clients w' !! r = Some c' /\ crashTimes c' = crashTimes c.

(** Every client the registry holds has a crash record of at most 4
    entries, and no two of them share one. *)
Definition recordsBounded (w : World) : Prop :=
  NoDup (liveClients w) /\
  (forall r, r ∈ liveClients w ->
     exists c times, clients w !! r = Some c /\
                     arrays w !! crashTimes c = Some times /\
                     (length times <= 4)%nat) /\
  (forall r1 r2 c1 c2,
     r1 ∈ liveClients w -> r2 ∈ liveClients w ->
     clients w !! r1 = Some c1 -> clients w !! r2 = Some c2 ->
     crashTimes c1 = crashTimes c2 -> r1 = r2).

(** Every operation but the opening of a folder and a crash. *)
Definition isQuiet (op : Op) : bool :=
  match op with
  | OpenFolder _ | Closed _ _ => false
  | _ => true
  end.

(** ** Concrete worlds *)

Definition folderA : WorkspaceFolder := {| folderName := "a"; fsPath := "/a" |}.
Definition folderB : WorkspaceFolder := {| folderName := "b"; fsPath := "/b" |}.

Definition docA : TextDocument :=
  {| uri := "/a/x.cpp"; languageId := "cpp"; version := 1; getText := "int x;" |}.
Definition docB : TextDocument :=
  {| uri := "/b/y.cpp"; languageId := "cpp"; version := 1; getText := "int y;" |}.

(** A window that has just opened two folders on Linux. *)
Definition initialWorld : World :=
  {| clients := ∅; arrays := ∅; allClients := emptyCollection; trace := [];
     failureMessageShown := false;
     workspaceFolders := Some [folderA; folderB]; platform := "linux" |}.

(** Two folders, both servers up, the editor focused on folder [a]; then
    [/b/y.cpp] is opened, which every client's middleware gets to see. *)
Definition twoFolders : World :=
  after (a <- openFolder folderA ;;
         b <- openFolder folderB ;;
         onReadyFulfilled a ;;
         onReadyFulfilled b ;;
         _ <- Middleware.didOpen (createProtocolFilter a) docB (sendDidOpen a) ;;
         _ <- Middleware.didOpen (createProtocolFilter b) docB (sendDidOpen b) ;;
         ret tt) initialWorld.

(** One folder whose server is up and which tracks [/a/x.cpp]; the
    status bar has subscribed to the name of the active configuration. *)
Definition oneFolderReady : World :=
  after (a <- openFolder folderA ;;
         subscribe a ActiveConfigChanged 1 ;;
         onReadyFulfilled a ;;
         _ <- Middleware.didOpen (createProtocolFilter a) docA (sendDidOpen a) ;;
         ret tt) initialWorld.

(** One folder whose server has not answered yet. *)
Definition oneFolderPending : World :=
  after (openFolder folderA) initialWorld.

(** The client of [oneFolderPending] and the client of [oneFolderReady]. *)
Definition pendingClientA : DefaultClient :=
  {| languageClient := None; disposables := []; configuration := None;
     workspaceRoot := Some folderA; trackedDocuments := []; crashTimes := 0;
     isSupported := true; model := initialModel;
     onReadyPromise := Some (Pending []) |}.

Definition readyClientA : DefaultClient :=
  {| languageClient := Some (mkLanguageClient "cpptools: a");
     disposables := [ConfigurationDisposable; FileWatcherDisposable];
     configuration := Some (mkCppProperties "/a");
     workspaceRoot := Some folderA; trackedDocuments := [docA];
     crashTimes := 0; isSupported := true;
     model := subscribeTo ActiveConfigChanged 1 initialModel;
     onReadyPromise := Some (Fulfilled []) |}.

(** One folder whose server has crashed at the given times.  Each crash
    is that of the client in place at the time: client 0 first, then its
    replacement, client 1, and so on. *)
Definition crashed (times : list Z) : World :=
  run (OpenFolder folderA :: ReadyFulfilled 0 ::
       imap (fun i now => Closed i now) times) initialWorld.

(** The two crash records of section 8 of the spec, in milliseconds,
    before the fifth crash. *)
Definition t0 : Z := 1500000000000.

Definition burstTimes : list Z :=
  [t0; t0 + 30000; t0 + 40000; t0 + 50000]%Z.

Definition spreadTimes : list Z :=
  [t0; t0 + 60000; t0 + 130000; t0 + 200000]%Z.

(** * The rest of the client *)

(** ** JavaScript strings *)

(** A JS string is a sequence of UTF-16 code units; a [string] holds one
    code unit below 256 per character.  The methods below are the ones
    the code calls, with the argument shapes it calls them with; all of
    them work code unit by code unit. *)
Module JsString.

Definition chars (s : string) : list Ascii.ascii := String.list_ascii_of_string s.
Definition str (l : list Ascii.ascii) : string := String.string_of_list_ascii l.

(** [s.length]. *)
Definition length (s : string) : Z := Z.of_nat (List.length (chars s)).

(** [s.startsWith(searchString)] and [s.endsWith(searchString)]. *)
Definition startsWith (s searchString : string) : bool :=
  bool_decide (chars searchString `prefix_of` chars s).

Definition endsWith (s searchString : string) : bool :=
  bool_decide (chars searchString `suffix_of` chars s).

(** [s.substr(start)] and [s.substr(start, length)] for [0 <= start]. *)
Definition substr (s : string) (start : nat) : string :=
  str (drop start (chars s)).

Definition substr2 (s : string) (start len : nat) : string :=
  str (take len (drop start (chars s))).

(** [s.substring(start, end)]: both arguments are clamped to
    [0 .. s.length] and swapped if out of order. *)
Definition substring (s : string) (start end_ : Z) : string :=
  let len := length s in
  let finalStart := Z.min (Z.max start 0) len in
  let finalEnd := Z.min (Z.max end_ 0) len in
  let from := Z.min finalStart finalEnd in
  let to := Z.max finalStart finalEnd in
  str (take (Z.to_nat (to - from)) (drop (Z.to_nat from) (chars s))).

(** [s.split(separator)] for a separator of one code unit. *)
Fixpoint splitChars (separator : Ascii.ascii) (l : list Ascii.ascii) : list (list Ascii.ascii) :=
  match l with
  | [] => [[]]
  | c :: l' =>
      if bool_decide (c = separator) then [] :: splitChars separator l'
      else match splitChars separator l' with
           | piece :: pieces => (c :: piece) :: pieces
           | [] => [[c]]
           end
  end.

Definition split (s : string) (separator : Ascii.ascii) : list string :=
  str <$> splitChars separator (chars s).

(** [pieces.join(separator)]. *)
Definition join (pieces : list string) (separator : string) : string :=
  String.concat separator pieces.

(** [s.lastIndexOf(c)] for a search string of one code unit; [-1] when
    it does not occur. *)
Fixpoint lastIndexFrom (c : Ascii.ascii) (l : list Ascii.ascii) (i found : Z) : Z :=
  match l with
  | [] => found
  | x :: l' =>
      lastIndexFrom c l' (i + 1) (if bool_decide (x = c) then i else found)
  end.

Definition lastIndexOf (s : string) (c : Ascii.ascii) : Z :=
  lastIndexFrom c (chars s) 0 (-1).

(** [s.repeat(count)] for [0 <= count]. *)
Fixpoint repeat (s : string) (count : nat) : string :=
  match count with
  | O => ""
  | S n => s +:+ repeat s n
  end.

(** White space and line terminators among the code units below 256:
    tab, line feed, vertical tab, form feed, carriage return, space and
    no-break space. *)
Definition isWhiteSpace (c : Ascii.ascii) : bool :=
  bool_decide (Ascii.nat_of_ascii c ∈ [9; 10; 11; 12; 13; 32; 160]%nat).

(** [s.trim()]. *)
Fixpoint trimStartChars (l : list Ascii.ascii) : list Ascii.ascii :=
  match l with
  | [] => []
  | c :: l' => if isWhiteSpace c then trimStartChars l' else l
  end.

Definition trimEndChars (l : list Ascii.ascii) : list Ascii.ascii :=
  rev (trimStartChars (rev l)).

Definition trim (s : string) : string :=
  str (trimEndChars (trimStartChars (chars s))).

(** [s.indexOf(searchString)]: the first position at which
    [searchString] occurs, if it occurs. *)
Fixpoint indexOfFrom (pattern l : list Ascii.ascii) (i : nat) : option nat :=
  if bool_decide (pattern `prefix_of` l) then Some i
  else match l with
       | [] => None
       | _ :: l' => indexOfFrom pattern l' (S i)
       end.

Definition indexOf (s searchString : string) : option nat :=
  indexOfFrom (chars searchString) (chars s) 0.

(** The replacement text of [replace] for a search string, which has no
    capture groups: [$$] stands for a dollar sign, [$&] for the match,
    [$`] for what precedes it and [$'] for what follows it; any other
    dollar sign, one before a digit included, stands for itself. *)
Fixpoint getSubstitution (matched before following replacement : list Ascii.ascii)
  : list Ascii.ascii :=
  match replacement with
  | [] => []
  | c :: r =>
      if bool_decide (c = "$"%char) then
        match r with
        | d :: r' =>
            if bool_decide (d = "$"%char)
            then "$"%char :: getSubstitution matched before following r'
            else if bool_decide (d = "&"%char)
            then matched ++ getSubstitution matched before following r'
            else if bool_decide (d = "`"%char)
            then before ++ getSubstitution matched before following r'
            else if bool_decide (d = "'"%char)
            then following ++ getSubstitution matched before following r'
            else c :: getSubstitution matched before following r
        | [] => [c]
        end
      else c :: getSubstitution matched before following r
  end.

(** [s.replace(searchValue, replaceValue)] for two strings: the first
    occurrence of [searchValue], if there is one, gives way to the
    replacement text. *)
Definition replace (s searchValue replaceValue : string) : string :=
  match indexOf s searchValue with
  | None => s
  | Some position =>
      let matched := chars searchValue in
      let before := take position (chars s) in
      let following := drop (position + List.length matched) (chars s) in
      str (before ++
           getSubstitution matched before following (chars replaceValue) ++
           following)
  end.

End JsString.

(** ** The session model, continued *)

(** Modelled from the spec: the setter of [DataBinding.Value] (section
    4.1, [setField]): the value is stored whether or not the field is
    enabled; once the binding has been torn down a write is a no-op. *)
Definition DataBinding_setValue {T} (value : T) (b : DataBinding T)
  : DataBinding T :=
  if isDisposed b then b
  else {| bindingValue := value; isActive := isActive b;
          subscribers := subscribers b; isDisposed := false |}.

(** [this.model.f.Value = value], field by field. *)
Definition set_isTagParsing (value : bool) (m : ClientModel) : ClientModel :=
  {| isTagParsing := DataBinding_setValue value (isTagParsing m);
     isUpdatingIntelliSense := isUpdatingIntelliSense m;
     navigationLocation := navigationLocation m;
     tagParserStatus := tagParserStatus m;
     activeConfigName := activeConfigName m |}.

Definition set_isUpdatingIntelliSense (value : bool) (m : ClientModel)
  : ClientModel :=
  {| isTagParsing := isTagParsing m;
     isUpdatingIntelliSense :=
       DataBinding_setValue value (isUpdatingIntelliSense m);
     navigationLocation := navigationLocation m;
     tagParserStatus := tagParserStatus m;
     activeConfigName := activeConfigName m |}.

Definition set_navigationLocation (value : string) (m : ClientModel)
  : ClientModel :=
  {| isTagParsing := isTagParsing m;
     isUpdatingIntelliSense := isUpdatingIntelliSense m;
     navigationLocation := DataBinding_setValue value (navigationLocation m);
     tagParserStatus := tagParserStatus m;
     activeConfigName := activeConfigName m |}.

Definition set_tagParserStatus (value : string) (m : ClientModel)
  : ClientModel :=
  {| isTagParsing := isTagParsing m;
     isUpdatingIntelliSense := isUpdatingIntelliSense m;
     navigationLocation := navigationLocation m;
     tagParserStatus := DataBinding_setValue value (tagParserStatus m);
     activeConfigName := activeConfigName m |}.

(** ** [DefaultClient]: notifications from the language server *)

(** [settings.filesAssociations] is an object used as a map from file
    names and glob patterns to language ids: a [gmap string string]. *)

Section AddFileAssociations.
(** The property names that the associations object finds on its
    prototype chain: the [in] operator reports those as well as the
    object's own. *)
Variable inherited : string -> bool.

(** [key in assoc]. *)
Definition hasProperty (key : string) (assoc : gmap string string) : bool :=
  bool_decide (is_Some (assoc !! key)) || inherited key.

(** One round of the loop over [files]: the associations so far and
    [foundNewAssociation]. *)
Definition associate (is_c : bool) (state : gmap string string * bool)
  (file : string) : gmap string string * bool :=
  let assoc := state.1 in
  if negb (hasProperty file assoc) && negb (hasProperty ("**/" +:+ file) assoc)
  then
    let j := JsString.lastIndexOf file "."%char in
    if negb (j =? -1)%Z &&
       (let ext := JsString.substr file (Z.to_nat j) in
        hasProperty ("*" +:+ ext) assoc || hasProperty ("**/*" +:+ ext) assoc)
    then state
    else (<[file := if is_c then "c" else "cpp"]> assoc, true)
  else state.

(** What makes the loop pass over a file: the file or its [**/] form is
    a property of the associations already, or its extension is
    associated as a whole. *)
Definition covered (file : string) (assoc : gmap string string) : bool :=
  hasProperty file assoc || hasProperty ("**/" +:+ file) assoc ||
  (let j := JsString.lastIndexOf file "."%char in
   negb (j =? -1)%Z &&
   (let ext := JsString.substr file (Z.to_nat j) in
    hasProperty ("*" +:+ ext) assoc || hasProperty ("**/*" +:+ ext) assoc)).

(** The language a payload associates its files with. *)
Definition payloadLanguage (fileAssociations : string) : string :=
  if JsString.startsWith fileAssociations "c" then "c" else "cpp".

(** The files the loop visits: [files[0] .. files[files.length - 2]]. *)
Definition listedFiles (fileAssociations : string) : list string :=
  let is_c := JsString.startsWith fileAssociations "c" in
  let fileAssociations :=
    JsString.substr fileAssociations (if is_c then 3 else 2) in
  removelast (JsString.split fileAssociations ";"%char).

(** [addFileAssociations]; [assoc] is what the getter of
    [settings.filesAssociations] returned, and the result is what is
    assigned to it, if anything. *)
Definition addFileAssociations (fileAssociations : string)
  (assoc : gmap string string) : option (gmap string string) :=
  let is_c := JsString.startsWith fileAssociations "c" in
  let state :=
    foldl (associate is_c) (assoc, false) (listedFiles fileAssociations) in
  if state.2 then Some state.1 else None.

(** [navigate]; [navigationLength] is
    [new CppSettings(this.RootUri).navigationLength] and
    [filesAssociations] is what [new OtherSettings(this.RootUri)] holds.
    The result is what is written back to the file associations. *)
Definition navigate (this : nat) (navigation : string) (navigationLength : Z)
  (filesAssociations : gmap string string) : M (option (gmap string string)) :=
  if JsString.startsWith navigation "<def" then
    ret (addFileAssociations (JsString.substr navigation 4) filesAssociations)
  else
    let currentNavigation := navigation in
    let maxLength := navigationLength in
    let currentNavigation :=
      if (maxLength <? JsString.length currentNavigation)%Z
      then JsString.substring currentNavigation 0 (maxLength - 3) +:+ "..."
      else currentNavigation in
    updateClient this
      (fun c => set_model (set_navigationLocation currentNavigation (model c)) c) ;;
    ret None.

End AddFileAssociations.

(** Calls on the window, the command registry and the progress
    telemetry made while a status notification is handled. *)
Inductive Progress :=
| ProgressExecutableSuccess
| ProgressParseRootSuccess
| ProgressIntelliSenseNoSquiggles.

Inductive UiCall :=
| SetProgress (p : Progress)
| SetIntelliSenseProgress (p : Progress)
| ShowInformationMessage (text : string) (items : list string)
| ExecuteCommand (command : string) (argument : option string)
| GetCommands.

(** [updateStatus]; [showIntelliSenseFallbackMessage] is the persisted
    flag ["CPP.showIntelliSenseFallbackMessage"].  The result lists the
    calls made, in order. *)
Definition updateStatus (this : nat) (status : string)
  (showIntelliSenseFallbackMessage : bool) : M (list UiCall) :=
  let message := status in
  let progress := [SetProgress ProgressExecutableSuccess] in
  if JsString.endsWith message "Indexing..." then
    updateClient this
      (fun c => set_model (set_isTagParsing true (model c)) c) ;;
    ret progress
  else if JsString.endsWith message "Updating IntelliSense..." then
    updateClient this
      (fun c => set_model (set_isUpdatingIntelliSense true (model c)) c) ;;
    ret progress
  else if JsString.endsWith message "IntelliSense Ready" then
    updateClient this
      (fun c => set_model (set_isUpdatingIntelliSense false (model c)) c) ;;
    ret progress
  else if JsString.endsWith message "Ready" then
    updateClient this
      (fun c => set_model (set_isTagParsing false (model c)) c) ;;
    ret (progress ++ [SetProgress ProgressParseRootSuccess])
  else if JsString.endsWith message "No Squiggles" then
    ret (progress ++ [SetIntelliSenseProgress ProgressIntelliSenseNoSquiggles])
  else if JsString.endsWith message "IntelliSense Fallback" then
    if showIntelliSenseFallbackMessage then
      ret (progress ++
           [ShowInformationMessage
              "Configure includePath for better IntelliSense results."
              ["Learn More"; "Don't Show Again"]])
    else ret progress
  else ret progress.

(** The continuation of that information message: [value] is the item
    the user picked, if any.  The result is the calls made and what is
    written to the persisted flag, if anything. *)
Definition fallbackMessageAnswered (value : option string)
  : list UiCall * option bool :=
  match value with
  | Some item =>
      if String.eqb item "Learn More" then
        ([ExecuteCommand "vscode.open"
            (Some "https://go.microsoft.com/fwlink/?linkid=864631");
          GetCommands], None)
      else if String.eqb item "Don't Show Again" then ([], Some false)
      else ([], None)
  | None => ([], None)
  end.

(** The continuation of [vscode.commands.getCommands(true)]. *)
Definition commandsListed (commands : list string) : list UiCall :=
  if bool_decide ("workbench.action.problems.focus" ∈ commands)
  then [ExecuteCommand "workbench.action.problems.focus" None]
  else [].

(** [updateTagParseStatus]. *)
Definition updateTagParseStatus (this : nat) (status : string) : M unit :=
  updateClient this (fun c => set_model (set_tagParserStatus status (model c)) c).

(** ** Settings telemetry *)

(** What a setting can hold.  Numbers are the integers, which [String]
    prints in plain decimal; an object is known by its identity. *)
Inductive JsVal :=
| VUndefined
| VNull
| VBool (b : bool)
| VNumber (n : Z)
| VString (s : string)
| VObject (ref : nat).

Global Instance JsVal_eq_dec : EqDecision JsVal.
Proof. solve_decision. Defined.

(** [val instanceof Object]. *)
Definition instanceofObject (val : JsVal) : bool :=
  match val with VObject _ => true | _ => false end.

(** [String(val)] for a value that is not an object. *)
Definition String_ (val : JsVal) : string :=
  match val with
  | VUndefined => "undefined"
  | VNull => "null"
  | VBool true => "true"
  | VBool false => "false"
  | VNumber n => pretty n
  | VString s => s
  | VObject _ => "[object Object]"
  end.

(** One key of [vscode.workspace.getConfiguration("C_Cpp", resource)]:
    what [settings.inspect(key).defaultValue] and [settings.get(key)]
    give.  The methods of the configuration object, which [for .. in]
    enumerates too, have an undefined default value. *)
Record Setting := {
  defaultValue : JsVal;
  currentValue : JsVal
}.

(** The configuration is the list of its keys in the order in which
    [for .. in] enumerates them: a [list (string * Setting)]. *)

(** [previousCppSettings] is a [gmap string JsVal].  It is a plain object, so [key in
    previousCppSettings] also finds the members of [Object.prototype];
    reading one of those gives a function, which no setting's value is
    strictly equal to, and writing one creates an own property.  The map
    of own properties below is therefore exact for every key other than
    ["__proto__"], which is no setting's name. *)

Definition maxSettingLengthForTelemetry : Z := 50.

(** The three filters that [collectSettings] is called with. *)
Inductive SettingsFilter :=
| FilterAll          (* () => true *)
| FilterNonDefault   (* val !== settings.inspect(key).defaultValue *)
| FilterChanged.     (* !(key in previousCppSettings) || val !== previousCppSettings[key] *)

Definition applyFilter (filter : SettingsFilter) (key : string) (val : JsVal)
  (setting : Setting) (previousCppSettings : gmap string JsVal) : bool :=
  match filter with
  | FilterAll => true
  | FilterNonDefault => negb (bool_decide (val = defaultValue setting))
  | FilterChanged =>
      match previousCppSettings !! key with
      | None => true
      | Some previous => negb (bool_decide (val = previous))
      end
  end.

(** The settings that the loop of [collectSettings] does not skip: those
    with a default value whose current value is not an object. *)
Definition reportable (setting : Setting) : bool :=
  negb (bool_decide (defaultValue setting = VUndefined)) &&
  negb (instanceofObject (currentValue setting)).

(** One round of the loop of [collectSettings]: [previousCppSettings]
    and [result] so far. *)
Definition collectSetting (filter : SettingsFilter)
  (state : gmap string JsVal * gmap string string) (entry : string * Setting)
  : gmap string JsVal * gmap string string :=
  let '(key, setting) := entry in
  let '(previousCppSettings, result) := state in
  if bool_decide (defaultValue setting = VUndefined) then state
  else
    let val := currentValue setting in
    if instanceofObject val then state
    else if applyFilter filter key val setting previousCppSettings then
      let previousCppSettings := <[key := val]> previousCppSettings in
      let text :=
        if String.eqb key "clang_format_path" then "..." else String_ val in
      let text :=
        if (maxSettingLengthForTelemetry <? JsString.length text)%Z
        then JsString.substr2 text 0 (Z.to_nat maxSettingLengthForTelemetry)
             +:+ "..."
        else text in
      (previousCppSettings, <[key := text]> result)
    else state.

(** [collectSettings(filter, resource)]: the cache afterwards and the
    result. *)
Definition collectSettings (filter : SettingsFilter) (settings : list (string * Setting))
  (previousCppSettings : gmap string JsVal) : gmap string JsVal * gmap string string :=
  foldl (collectSetting filter) (previousCppSettings, ∅) settings.

Definition initializeSettingsCache (settings : list (string * Setting))
  (previousCppSettings : gmap string JsVal) : gmap string JsVal :=
  (collectSettings FilterAll settings previousCppSettings).1.

Definition getNonDefaultSettings (settings : list (string * Setting))
  (previousCppSettings : gmap string JsVal) : gmap string JsVal * gmap string string :=
  let previousCppSettings := initializeSettingsCache settings previousCppSettings in
  collectSettings FilterNonDefault settings previousCppSettings.

(** What [onDidChangeSettings] does: whether its assertion held, the
    ["CppSettingsChange"] event it logged, if any, and the cache
    afterwards. *)
Record SettingsChange := {
  assertionHeld : bool;
  logged : option (gmap string string);
  cacheAfter : gmap string JsVal
}.

Definition onDidChangeSettings (settings : list (string * Setting))
  (previousCppSettings : gmap string JsVal) : SettingsChange :=
  let held := bool_decide (0 < size previousCppSettings)%nat in
  let '(previousCppSettings, changedSettings) :=
    collectSettings FilterChanged settings previousCppSettings in
  {| assertionHeld := held;
     logged := if bool_decide (0 < size changedSettings)%nat
               then Some changedSettings else None;
     cacheAfter := previousCppSettings |}.

(** What is reported for a value: its text, or an ellipsis for the path
    of clang-format, cut to the telemetry limit. *)
Definition reportedText (key : string) (val : JsVal) : string :=
  let text := if String.eqb key "clang_format_path" then "..." else String_ val in
  if (maxSettingLengthForTelemetry <? JsString.length text)%Z
  then JsString.substr2 text 0 (Z.to_nat maxSettingLengthForTelemetry) +:+ "..."
  else text.

(** The cache holds the current value of every setting that is reported. *)
Definition synced (settings : list (string * Setting)) (cache : gmap string JsVal) : Prop :=
  forall key setting, (key, setting) ∈ settings -> reportable setting = true ->
    cache !! key = Some (currentValue setting).

(** ** Vocabulary: the start failure notice *)

Definition startFailureNotice : string :=
  "Unable to start the C/C++ language server. IntelliSense features will be disabled.".

Definition isStartFailureNotice (e : Event) : bool :=
  match e with
  | ShowErrorMessage text => String.eqb text startFailureNotice
  | _ => false
  end.

(** How often a trace shows the notice. *)
Definition startFailureNotices (tr : list Event) : nat :=
  length (List.filter isStartFailureNotice tr).

Global Arguments startFailureNotices : simpl never.

(** The notices shown so far, and one more if the persisted flag would
    let the next failure show one. *)
Definition noticeBudget (w : World) : nat :=
  startFailureNotices (trace w) + (if failureMessageShown w then 0 else 1).

Definition noticeStep (w w' : World) : Prop :=
  (noticeBudget w' <= noticeBudget w)%nat.

Definition sameNotices (w w' : World) : Prop :=
  startFailureNotices (trace w') = startFailureNotices (trace w).

(** How often a history sees a client become ready. *)
Definition readyCount (ops : list Op) : nat :=
  length (List.filter (fun op => match op with ReadyFulfilled _ => true | _ => false end) ops).

(** * Debugger configuration snippets *)

(** The first half of [src/Extension/src/Debugger/configurations.ts]:
    the text of the launch and attach configurations that are offered
    for [launch.json]. *)
Module Configurations.

(** Line feed, tab and the double quote, which a string literal cannot
    hold. *)
Definition LF : string := String "010"%char "".
Definition TAB : string := String "009"%char "".
Definition DQ : string := String "034"%char "".

(** ["..."] inside a template: the text between double quotes. *)
Definition quoted (s : string) : string := DQ +:+ s +:+ DQ.

Inductive DebuggerType := cppvsdbg | cppdbg.

(** [interface IConfigurationSnippet]. *)
Record IConfigurationSnippet := {
  label : string;
  description : string;
  bodyText : string;
  isInitialConfiguration : option bool;
  debuggerType : DebuggerType
}.

(** [indentJsonString(json, numTabs = 1)]. *)
Definition indentJsonString (json : string) (numTabs : nat) : string :=
  JsString.trim
    (JsString.join
       (map (fun line => JsString.repeat TAB numTabs +:+ line)
            (JsString.split json "010"%char))
       LF).

(** [formatString(format, args)]: [for (var arg in args)] visits the
    indices of the array in ascending order, as decimal strings. *)
Definition formatString (format : string) (args : list string) : string :=
  foldl (fun format entry =>
           JsString.replace format ("{" +:+ pretty entry.1 +:+ "}") entry.2)
        format (imap (fun (arg : nat) value => (arg, value)) args).

Definition EnsureTokensEscapedInLaunchJsonMacro (keyword : string)
  (isInitialConfiguration : bool) : string :=
  if isInitialConfiguration then "${" +:+ keyword +:+ "}"
  else "\${" +:+ keyword +:+ "}".

Definition CreateLaunchString (name type executable : string)
  (isInitialConfiguration : bool) : string :=
  quoted "name" +:+ ": " +:+ quoted name +:+ "," +:+ LF +:+
  quoted "type" +:+ ": " +:+ quoted type +:+ "," +:+ LF +:+
  quoted "request" +:+ ": " +:+ quoted "launch" +:+ "," +:+ LF +:+
  quoted "program" +:+ ": " +:+
    quoted ("enter program name, for example " +:+
            EnsureTokensEscapedInLaunchJsonMacro "workspaceFolder"
              isInitialConfiguration +:+
            "/" +:+ executable) +:+ "," +:+ LF +:+
  quoted "args" +:+ ": []," +:+ LF +:+
  quoted "stopAtEntry" +:+ ": false," +:+ LF +:+
  quoted "cwd" +:+ ": " +:+
    quoted (EnsureTokensEscapedInLaunchJsonMacro "workspaceFolder"
              isInitialConfiguration) +:+ "," +:+ LF +:+
  quoted "environment" +:+ ": []," +:+ LF +:+
  quoted "externalConsole" +:+ ": true" +:+ LF.

Definition CreateRemoteAttachString (name type executable : string) : string :=
  LF +:+
  quoted "name" +:+ ": " +:+ quoted name +:+ "," +:+ LF +:+
  quoted "type" +:+ ": " +:+ quoted type +:+ "," +:+ LF +:+
  quoted "request" +:+ ": " +:+ quoted "attach" +:+ "," +:+ LF +:+
  quoted "program" +:+ ": " +:+
    quoted ("enter program name, for example \${workspaceFolder}/" +:+
            executable) +:+ "," +:+ LF +:+
  quoted "processId" +:+ ": " +:+ quoted "\${command:pickRemoteProcess}" +:+ LF.

Definition CreatePipeTransportString (pipeProgram debuggerProgram : string)
  : string :=
  LF +:+
  quoted "pipeTransport" +:+ ": {" +:+ LF +:+
  TAB +:+ quoted "debuggerPath" +:+ ": " +:+
    quoted ("/usr/bin/" +:+ debuggerProgram) +:+ "," +:+ LF +:+
  TAB +:+ quoted "pipeProgram" +:+ ": " +:+ quoted pipeProgram +:+ "," +:+ LF +:+
  TAB +:+ quoted "pipeArgs" +:+ ": []," +:+ LF +:+
  TAB +:+ quoted "pipeCwd" +:+ ": " +:+ quoted "" +:+ LF +:+
  "}".

(** The fields of [abstract class Configuration]; [bashPipeProgram] is
    the field that [WSLConfigurations] adds. *)
Record Configuration := {
  snippetPrefix : string;
  executable : string;
  pipeProgram : string;
  MIMode : string;
  additionalProperties : string;
  miDebugger : string;
  windowsDebugger : string;
  bashPipeProgram : string
}.

(** The constructor, with the field initialisers. *)
Definition newConfiguration (MIMode executable pipeProgram additionalProperties : string)
  : Configuration :=
  {| snippetPrefix := "C/C++: ";
     executable := executable;
     pipeProgram := pipeProgram;
     MIMode := MIMode;
     additionalProperties := additionalProperties;
     miDebugger := "cppdbg";
     windowsDebugger := "cppvsdbg";
     bashPipeProgram := "C:\\\\Windows\\\\sysnative\\\\bash.exe" |}.

Section Os.
(** [os.EOL] and [os.platform()]. *)
Variable EOL : string.
Variable os_platform : string.

Definition CreateAttachString (name type executable : string) : string :=
  formatString
    (LF +:+
     quoted "name" +:+ ": " +:+ quoted name +:+ "," +:+ LF +:+
     quoted "type" +:+ ": " +:+ quoted type +:+ "," +:+ LF +:+
     quoted "request" +:+ ": " +:+ quoted "attach" +:+ ",{0}" +:+ LF +:+
     quoted "processId" +:+ ": " +:+ quoted "\${command:pickProcess}" +:+ LF)
    [if String.eqb type "cppdbg"
     then EOL +:+ quoted "program" +:+ ": " +:+
          quoted ("enter program name, for example \${workspaceFolder}/" +:+
                  executable) +:+ ","
     else ""].

(** [,${os.EOL}\t"miDebuggerPath": "/path/to/gdb"], for the MI debugger
    on Windows. *)
Definition miDebuggerPathProperty (this : Configuration) : string :=
  if String.eqb (miDebugger this) "cppdbg" && String.eqb os_platform "win32"
  then "," +:+ EOL +:+ TAB +:+ quoted "miDebuggerPath" +:+ ": " +:+
       quoted "/path/to/gdb"
  else "".

(** [,${os.EOL}\t${indentJsonString(this.additionalProperties)}], if
    there are additional properties. *)
Definition additionalPropertiesText (this : Configuration) : string :=
  if String.eqb (additionalProperties this) "" then ""
  else "," +:+ EOL +:+ TAB +:+ indentJsonString (additionalProperties this) 1.

(** [class MIConfigurations]. *)
Definition MI_GetLaunchConfiguration (this : Configuration)
  (isInitialConfiguration : bool) : IConfigurationSnippet :=
  let name := "(" +:+ MIMode this +:+ ") Launch" in
  let body :=
    formatString
      ("{" +:+ LF +:+
       TAB +:+ indentJsonString
                 (CreateLaunchString name (miDebugger this) (executable this)
                    isInitialConfiguration) 1 +:+ "," +:+ LF +:+
       TAB +:+ quoted "MIMode" +:+ ": " +:+ quoted (MIMode this) +:+ "{0}{1}" +:+ LF +:+
       "}")
      [miDebuggerPathProperty this; additionalPropertiesText this] in
  {| label := snippetPrefix this +:+ name;
     description := "Launch with " +:+ MIMode this +:+ ".";
     bodyText := JsString.trim body;
     isInitialConfiguration := Some true;
     debuggerType := cppdbg |}.

Definition MI_GetAttachConfiguration (this : Configuration)
  : IConfigurationSnippet :=
  let name := "(" +:+ MIMode this +:+ ") Attach" in
  let body :=
    formatString
      ("{ " +:+ LF +:+
       TAB +:+ indentJsonString
                 (CreateAttachString name (miDebugger this) (executable this)) 1 +:+
         "," +:+ LF +:+
       TAB +:+ quoted "MIMode" +:+ ": " +:+ quoted (MIMode this) +:+ "{0}" +:+ LF +:+
       "}")
      [miDebuggerPathProperty this] in
  {| label := snippetPrefix this +:+ name;
     description := "Attach with " +:+ MIMode this +:+ ".";
     bodyText := JsString.trim body;
     isInitialConfiguration := None;
     debuggerType := cppdbg |}.

(** [class PipeTransportConfigurations]. *)
Definition PipeTransport_GetLaunchConfiguration (this : Configuration)
  (isInitialConfiguration : bool) : IConfigurationSnippet :=
  let name := "(" +:+ MIMode this +:+ ") Pipe Launch" in
  let body :=
    formatString
      (LF +:+ "{" +:+ LF +:+
       TAB +:+ indentJsonString
                 (CreateLaunchString name (miDebugger this) (executable this)
                    isInitialConfiguration) 1 +:+ "," +:+ LF +:+
       TAB +:+ indentJsonString
                 (CreatePipeTransportString (pipeProgram this) (MIMode this)) 1 +:+
         "," +:+ LF +:+
       TAB +:+ quoted "MIMode" +:+ ": " +:+ quoted (MIMode this) +:+ "{0}" +:+ LF +:+
       "}")
      [additionalPropertiesText this] in
  {| label := snippetPrefix this +:+ name;
     description := "Pipe Launch with " +:+ MIMode this +:+ ".";
     bodyText := JsString.trim body;
     isInitialConfiguration := None;
     debuggerType := cppdbg |}.

Definition PipeTransport_GetAttachConfiguration (this : Configuration)
  : IConfigurationSnippet :=
  let name := "(" +:+ MIMode this +:+ ") Pipe Attach" in
  let body :=
    LF +:+ "{" +:+ LF +:+
    TAB +:+ indentJsonString
              (CreateRemoteAttachString name (miDebugger this) (executable this)) 1 +:+
      "," +:+ LF +:+
    TAB +:+ indentJsonString
              (CreatePipeTransportString (pipeProgram this) (MIMode this)) 1 +:+
      "," +:+ LF +:+
    TAB +:+ quoted "MIMode" +:+ ": " +:+ quoted (MIMode this) +:+ LF +:+
    "}" in
  {| label := snippetPrefix this +:+ name;
     description := "Pipe Attach with " +:+ MIMode this +:+ ".";
     bodyText := JsString.trim body;
     isInitialConfiguration := None;
     debuggerType := cppdbg |}.

(** [class WindowsConfigurations]. *)
Definition Windows_GetLaunchConfiguration (this : Configuration)
  (isInitialConfiguration : bool) : IConfigurationSnippet :=
  let name := "(Windows) Launch" in
  let body :=
    LF +:+ "{" +:+ LF +:+
    TAB +:+ indentJsonString
              (CreateLaunchString name (windowsDebugger this) (executable this)
                 isInitialConfiguration) 1 +:+ LF +:+
    "}" in
  {| label := snippetPrefix this +:+ name;
     description := "Launch with the Visual Studio C/C++ debugger.";
     bodyText := JsString.trim body;
     isInitialConfiguration := Some true;
     debuggerType := cppvsdbg |}.

Definition Windows_GetAttachConfiguration (this : Configuration)
  : IConfigurationSnippet :=
  let name := "(Windows) Attach" in
  let body :=
    LF +:+ "{" +:+ LF +:+
    TAB +:+ indentJsonString
              (CreateAttachString name (windowsDebugger this) (executable this)) 1 +:+
      LF +:+
    "}" in
  {| label := snippetPrefix this +:+ name;
     description := "Attach to a process with the Visual Studio C/C++ debugger.";
     bodyText := JsString.trim body;
     isInitialConfiguration := None;
     debuggerType := cppvsdbg |}.

(** [class WSLConfigurations]. *)
Definition WSL_GetLaunchConfiguration (this : Configuration)
  (isInitialConfiguration : bool) : IConfigurationSnippet :=
  let name := "(" +:+ MIMode this +:+ ") Bash on Windows Launch" in
  let body :=
    formatString
      (LF +:+ "{" +:+ LF +:+
       TAB +:+ indentJsonString
                 (CreateLaunchString name (miDebugger this) (executable this)
                    isInitialConfiguration) 1 +:+ "," +:+ LF +:+
       TAB +:+ indentJsonString
                 (CreatePipeTransportString (bashPipeProgram this) (MIMode this)) 1 +:+
         "{0}" +:+ LF +:+
       "}")
      [additionalPropertiesText this] in
  {| label := snippetPrefix this +:+ name;
     description := "Launch in Bash on Windows using " +:+ MIMode this +:+ ".";
     bodyText := JsString.trim body;
     isInitialConfiguration := None;
     debuggerType := cppdbg |}.

Definition WSL_GetAttachConfiguration (this : Configuration)
  : IConfigurationSnippet :=
  let name := "(" +:+ MIMode this +:+ ") Bash on Windows Attach" in
  let body :=
    LF +:+ "{" +:+ LF +:+
    TAB +:+ indentJsonString
              (CreateAttachString name (miDebugger this) (executable this)) 1 +:+
      "," +:+ LF +:+
    TAB +:+ indentJsonString
              (CreatePipeTransportString (bashPipeProgram this) (MIMode this)) 1 +:+
      LF +:+
    "}" in
  {| label := snippetPrefix this +:+ name;
     description :=
       "Attach to a remote process running in Bash on Windows using " +:+
       MIMode this +:+ ".";
     bodyText := JsString.trim body;
     isInitialConfiguration := None;
     debuggerType := cppdbg |}.

End Os.

(** *** Vocabulary *)

(** What indentation does to the characters of a text: [tabs] go in
    front and after every line feed. *)
Definition indentChars (tabs l : list Ascii.ascii) : list Ascii.ascii :=
  tabs ++ flat_map (fun c => if bool_decide (c = "010"%char)
                             then c :: tabs else [c]) l.

(** Every dollar sign of [l] comes right after a backslash; [previous]
    is the character before [l]. *)
Fixpoint dollarsEscapedAfter (previous : Ascii.ascii) (l : list Ascii.ascii)
  : bool :=
  match l with
  | [] => true
  | c :: l' =>
      (negb (bool_decide (c = "$"%char)) || bool_decide (previous = "\"%char))
      && dollarsEscapedAfter c l'
  end.

(** No macro of the text is live: an editor that expands [${...}] in a
    snippet finds every dollar sign escaped. *)
Definition dollarsEscaped (s : string) : bool :=
  dollarsEscapedAfter " "%char (JsString.chars s).

(** The same whatever comes before the text: it can be put anywhere. *)
Definition inert (s : string) : Prop :=
  forall previous, dollarsEscapedAfter previous (JsString.chars s) = true.

(** Every dollar sign of a replacement text is followed by an opening
    brace, so that [replace] takes it literally. *)
Fixpoint plainDollars (l : list Ascii.ascii) : bool :=
  match l with
  | [] => true
  | c :: r =>
      (negb (bool_decide (c = "$"%char)) ||
       bool_decide (head r = Some "{"%char)) && plainDollars r
  end.

(** A text that can serve as a replacement and be taken literally, and
    a text that holds a live macro wherever it is put. *)
Definition plain (s : string) : Prop :=
  plainDollars (JsString.chars s) = true.

Definition live (s : string) : Prop :=
  forall previous, dollarsEscapedAfter previous (JsString.chars s) = false.

(** A line: a text without a line feed. *)
Definition isLine (s : string) : Prop :=
  "010"%char ∉ JsString.chars s.

(** The text starts, or ends, with something other than white space. *)
Definition startsWithText (s : string) : Prop :=
  exists c, head (JsString.chars s) = Some c /\ JsString.isWhiteSpace c = false.

Definition endsWithText (s : string) : Prop :=
  exists c, last (JsString.chars s) = Some c /\ JsString.isWhiteSpace c = false.

(** The text holds no dollar sign at all. *)
Definition dollarFree (s : string) : Prop :=
  "$"%char ∉ JsString.chars s.

End Configurations.

(** ** Concrete inputs, continued *)

(** A window that has opened folder [a] on a platform for which the
    extension ships no server. *)
Definition unsupportedWorld : World :=
  {| clients := ∅; arrays := ∅; allClients := emptyCollection; trace := [];
     failureMessageShown := false;
     workspaceFolders := Some [folderA]; platform := "freebsd" |}.

(** The property names that a plain object inherits from
    [Object.prototype]. *)
Definition objectPrototype (key : string) : bool :=
  bool_decide (key ∈ ["constructor"; "hasOwnProperty"; "isPrototypeOf";
                      "propertyIsEnumerable"; "toLocaleString"; "toString";
                      "valueOf"; "__proto__"; "__defineGetter__";
                      "__defineSetter__"; "__lookupGetter__";
                      "__lookupSetter__"]).

(** [files.associations] with one entry, for all headers. *)
Definition headerAssociations : gmap string string := {[ "*.h" := "cpp" ]}.

(** A configuration of four keys, one of them a method of the
    configuration object, and a cache that misses a change of
    [intelliSenseEngine]. *)
Definition sampleSettings : list (string * Setting) :=
  [("get", {| defaultValue := VUndefined; currentValue := VUndefined |});
   ("intelliSenseEngine",
    {| defaultValue := VString "Default"; currentValue := VString "Tag Parser" |});
   ("clang_format_path",
    {| defaultValue := VNull; currentValue := VString "/usr/bin/clang-format" |});
   ("loggingLevel",
    {| defaultValue := VString "Error"; currentValue := VString "Error" |})].

Definition staleCache : gmap string JsVal :=
  {[ "intelliSenseEngine" := VString "Default";
     "clang_format_path" := VString "/usr/bin/clang-format";
     "loggingLevel" := VString "Error" ]}.

(** The clients of [twoFolders], and the client that
    [unsupportedWorld] gets. *)
Definition readyClientA0 : DefaultClient :=
  {| languageClient := Some (mkLanguageClient "cpptools: a");
     disposables := [ConfigurationDisposable; FileWatcherDisposable];
     configuration := Some (mkCppProperties "/a");
     workspaceRoot := Some folderA; trackedDocuments := [];
     crashTimes := 0; isSupported := true; model := initialModel;
     onReadyPromise := Some (Fulfilled []) |}.

Definition readyClientB : DefaultClient :=
  {| languageClient := Some (mkLanguageClient "cpptools: b");
     disposables := [ConfigurationDisposable; FileWatcherDisposable];
     configuration := Some (mkCppProperties "/b");
     workspaceRoot := Some folderB; trackedDocuments := [docB];
     crashTimes := 1; isSupported := true; model := initialModel;
     onReadyPromise := Some (Fulfilled []) |}.

Definition unsupportedClient : DefaultClient :=
  {| languageClient := None; disposables := []; configuration := None;
     workspaceRoot := None; trackedDocuments := []; crashTimes := 0;
     isSupported := false; model := initialModel; onReadyPromise := None |}.

Definition unsupportedStarted : World :=
  after (newDefaultClient (Some folderA)) unsupportedWorld.

(** A document of folder [a] other than [docA]. *)
Definition docA2 : TextDocument :=
  {| uri := "/a/z.h"; languageId := "cpp"; version := 1; getText := "" |}.

(** Three lines of a snippet, and the additional properties of a
    configuration. *)
Definition sampleLines : list string := ["a: 1,"; "b: 2,"; "c: 3"].

Definition sampleProperties : string :=
  Configurations.quoted "setupCommands" +:+ ": [" +:+ Configurations.LF +:+ "]".

(** * The package manager *)

(** [src/Extension/src/packageManager.ts]: class [PackageManager], which
    downloads the packages that the manifest of the extension lists for
    the platform.

    A promise is a computation that is run when it is awaited: the code
    awaits every promise it creates, one after the other, so that
    nothing runs concurrently.  What the modules [tmp] and [https] answer
    is read from two tapes in the state; a tape that has run out stands
    for a callback that is never called, which leaves the promise
    unsettled for good. *)
Module PackageManager.

(** [tmp.SyncResult], without its [removeCallback]. *)
Record SyncResult := {
  name : string;
  fd : Z
}.

(** [interface IPackage]; a field that may be missing is an option. *)
Record IPackage := {
  description : string;
  url : string;
  platforms : option (list string);
  architectures : option (list string);
  binaries : option (list string);
  tmpFile : option SyncResult
}.

Definition set_binaries (v : option (list string)) (p : IPackage) : IPackage :=
  {| description := description p; url := url p; platforms := platforms p;
     architectures := architectures p; binaries := v; tmpFile := tmpFile p |}.

Definition set_tmpFile (v : option SyncResult) (p : IPackage) : IPackage :=
  {| description := description p; url := url p; platforms := platforms p;
     architectures := architectures p; binaries := binaries p; tmpFile := v |}.

Record PlatformInformation := {
  platform : string;
  architecture : string
}.

(** [class PackageManagerError] and its subclass
    [PackageManagerWebResponseError], which adds the socket; [pkg] is a
    reference to the package and [innerError] is the text of the inner
    error. *)
Record PackageManagerError := {
  message : string;
  methodName : string;
  pkg : option nat;
  innerError : option string;
  errorCode : string;
  socket : bool
}.

(** [new PackageManagerError(message, methodName, pkg = null,
    innerError = null, errorCode = '')]. *)
Definition newPackageManagerError (message methodName : string)
  (pkg : option nat) (innerError : option string) (errorCode : string)
  : PackageManagerError :=
  {| message := message; methodName := methodName; pkg := pkg;
     innerError := innerError; errorCode := errorCode; socket := false |}.

Definition newPackageManagerWebResponseError (message methodName : string)
  (pkg : option nat) (innerError : option string) (errorCode : string)
  : PackageManagerError :=
  {| message := message; methodName := methodName; pkg := pkg;
     innerError := innerError; errorCode := errorCode; socket := true |}.

(** What the package manager does to the world outside. *)
Inductive PMEvent :=
| Append (text : string)              (* outputChannel.append(text) *)
| AppendLine (text : string)          (* outputChannel.appendLine(text) *)
| StatusText (text : string)          (* statusItem.text = text *)
| StatusTooltip (text : string)       (* statusItem.tooltip = text *)
| StatusShow                          (* statusItem.show() *)
| TmpFile (prefix : string)           (* tmp.file({ prefix }, ..) *)
| SetTimeout (ms : Z)                 (* setTimeout(.., ms) *)
| HttpsRequest (urlString : string)   (* https.request(options, ..); request.end() *)
| PipeToFile (fd : Z)                 (* response.pipe(fs.createWriteStream(null, { fd }), ..) *)
| LogDebuggerEvent (eventName : string) (properties : gmap string string).

(** How a response with status 200 ends. *)
Inductive StreamEnd :=
| StreamEnded                          (* 'end' *)
| StreamError (stack name : string)    (* 'error' *)
| StreamSilent.                        (* neither *)

(** What [https] answers to a request: an error of the request, or a
    response.  [location] is what the header of that name holds, or its
    first element; [contentLength] is what [parseInt] reads from the
    header of that name; [percentages] lists, chunk by chunk, what
    [Math.ceil(100 * (downloadedBytes / packageSize))] comes to, which is
    floating-point arithmetic. *)
Inductive HttpsAnswer :=
| RequestError (stack message : string)
| Response (statusCode : Z) (location : string) (contentLength : Z)
    (percentages : list Z) (finish : StreamEnd).

Record PMState := {
  (* the package objects, by reference *)
  packages : list IPackage;
  (* this.allPackages *)
  allPackages : option (list nat);
  (* util.packageJson.runtimeDependencies *)
  runtimeDependencies : option (list nat);
  platformInfo : PlatformInformation;
  (* whether the constructor was given an output channel, a status item *)
  outputChannel : bool;
  statusItem : bool;
  events : list PMEvent;
  (* what tmp.file calls back with: an error or a file *)
  temporaryFiles : list (string + SyncResult);
  network : list HttpsAnswer
}.

Definition set_packages (v : list IPackage) (s : PMState) : PMState :=
  {| packages := v; allPackages := allPackages s;
     runtimeDependencies := runtimeDependencies s;
     platformInfo := platformInfo s; outputChannel := outputChannel s;
     statusItem := statusItem s; events := events s;
     temporaryFiles := temporaryFiles s; network := network s |}.

Definition set_allPackages (v : option (list nat)) (s : PMState) : PMState :=
  {| packages := packages s; allPackages := v;
     runtimeDependencies := runtimeDependencies s;
     platformInfo := platformInfo s; outputChannel := outputChannel s;
     statusItem := statusItem s; events := events s;
     temporaryFiles := temporaryFiles s; network := network s |}.

Definition set_events (v : list PMEvent) (s : PMState) : PMState :=
  {| packages := packages s; allPackages := allPackages s;
     runtimeDependencies := runtimeDependencies s;
     platformInfo := platformInfo s; outputChannel := outputChannel s;
     statusItem := statusItem s; events := v;
     temporaryFiles := temporaryFiles s; network := network s |}.

Definition set_temporaryFiles (v : list (string + SyncResult)) (s : PMState)
  : PMState :=
  {| packages := packages s; allPackages := allPackages s;
     runtimeDependencies := runtimeDependencies s;
     platformInfo := platformInfo s; outputChannel := outputChannel s;
     statusItem := statusItem s; events := events s;
     temporaryFiles := v; network := network s |}.

Definition set_network (v : list HttpsAnswer) (s : PMState) : PMState :=
  {| packages := packages s; allPackages := allPackages s;
     runtimeDependencies := runtimeDependencies s;
     platformInfo := platformInfo s; outputChannel := outputChannel s;
     statusItem := statusItem s; events := events s;
     temporaryFiles := temporaryFiles s; network := v |}.

(** ** Promises *)

(** How awaiting a promise comes out. *)
Inductive Settled (A : Type) :=
| Resolved (a : A)
| RejectedWith (reason : PackageManagerError)
| Unsettled.
Arguments Resolved {A} a.
Arguments RejectedWith {A} reason.
Arguments Unsettled {A}.

Definition Promise (A : Type) : Type := PMState -> Settled A * PMState.

Definition resolve {A} (a : A) : Promise A := fun s => (Resolved a, s).

Definition reject {A} (reason : PackageManagerError) : Promise A :=
  fun s => (RejectedWith reason, s).

Definition unsettled {A} : Promise A := fun s => (Unsettled, s).

(** [promise.then(onFulfilled)]. *)
Definition then_ {A B} (promise : Promise A) (onFulfilled : A -> Promise B)
  : Promise B :=
  fun s => match promise s with
           | (Resolved a, s') => onFulfilled a s'
           | (RejectedWith reason, s') => (RejectedWith reason, s')
           | (Unsettled, s') => (Unsettled, s')
           end.

(** [promise.catch(onRejected)]. *)
Definition catch_ {A} (promise : Promise A)
  (onRejected : PackageManagerError -> Promise A) : Promise A :=
  fun s => match promise s with
           | (Resolved a, s') => (Resolved a, s')
           | (RejectedWith reason, s') => onRejected reason s'
           | (Unsettled, s') => (Unsettled, s')
           end.

Declare Scope pm_scope.
Delimit Scope pm_scope with pm.
Notation "x <- m ;; k" := (then_ m (fun x => k))
  (at level 100, m at next level, right associativity) : pm_scope.
Notation "m ;; k" := (then_ m (fun _ => k))
  (at level 100, right associativity) : pm_scope.
Local Open Scope pm_scope.

Definition emit (e : PMEvent) : Promise unit :=
  fun s => (Resolved tt, set_events (events s ++ [e]) s).

Definition getState : Promise PMState := fun s => (Resolved s, s).

(** Reading a package through its reference; no reference dangles. *)
Definition getPackage (pkg : nat) : Promise IPackage :=
  fun s => match packages s !! pkg with
           | Some p => (Resolved p, s)
           | None => (Unsettled, s)
           end.

Definition updatePackage (pkg : nat) (f : IPackage -> IPackage) : Promise unit :=
  fun s => (Resolved tt, set_packages (alter f pkg (packages s)) s).

(** [for (let x of l) { f(x) }]. *)
Fixpoint forEach {A} (f : A -> Promise unit) (l : list A) : Promise unit :=
  match l with
  | [] => resolve tt
  | x :: l' => f x ;; forEach f l'
  end.

(** ** The output channel and the status item *)

Definition AppendChannel (text : string) : Promise unit :=
  s <- getState ;;
  if outputChannel s then emit (Append text) else resolve tt.

Definition AppendLineChannel (text : string) : Promise unit :=
  s <- getState ;;
  if outputChannel s then emit (AppendLine text) else resolve tt.

Definition SetStatusText (text : string) : Promise unit :=
  s <- getState ;;
  if statusItem s then emit (StatusText text) ;; emit StatusShow
  else resolve tt.

Definition SetStatusTooltip (text : string) : Promise unit :=
  s <- getState ;;
  if statusItem s then emit (StatusTooltip text) ;; emit StatusShow
  else resolve tt.

(** ** The modules [tmp] and [https] *)

(** [tmp.file({ prefix }, callback)]: what the callback is called with. *)
Definition tmp_file (prefix : string) : Promise (string + SyncResult) :=
  emit (TmpFile prefix) ;;
  s <- getState ;;
  match temporaryFiles s with
  | answer :: rest =>
      fun s => (Resolved answer, set_temporaryFiles rest s)
  | [] => unsettled
  end.

(** [https.request(options, handleHttpResponse)] with [request.end()]:
    what the request comes to. *)
Definition https_request (urlString : string) : Promise HttpsAnswer :=
  emit (HttpsRequest urlString) ;;
  s <- getState ;;
  match network s with
  | answer :: rest => fun s => (Resolved answer, set_network rest s)
  | [] => unsettled
  end.

(** ** Downloading *)

(** [Math.ceil(a / b)] for integers and a positive power of two, or for
    a small [a] and [b = 5]: these quotients round to the right side. *)
Definition ceilDiv (a b : Z) : Z := (- ((- a) / b))%Z.

(** One round of [response.on('data', ..)]: [downloadPercentage] and
    [dots] before and after. *)
Definition onData (description : string) (state : Z * Z) (newPercentage : Z)
  : Promise (Z * Z) :=
  let '(downloadPercentage, dots) := state in
  downloadPercentage <-
    (if negb (newPercentage =? downloadPercentage)%Z then
       SetStatusTooltip ("Downloading package '" +:+ description +:+ "'... " +:+
                         pretty downloadPercentage +:+ "%") ;;
       resolve newPercentage
     else resolve downloadPercentage) ;;
  let newDots := ceilDiv downloadPercentage 5 in
  if (dots <? newDots)%Z then
    AppendChannel (JsString.repeat "." (Z.to_nat (newDots - dots))) ;;
    resolve (downloadPercentage, newDots)
  else resolve (downloadPercentage, dots).

Fixpoint onDataAll (description : string) (state : Z * Z) (percentages : list Z)
  : Promise (Z * Z) :=
  match percentages with
  | [] => resolve state
  | newPercentage :: rest =>
      state <- onData description state newPercentage ;;
      onDataAll description state rest
  end.

(** [!pkg.tmpFile || pkg.tmpFile.fd == 0]. *)
Definition tmpFileUnavailable (p : IPackage) : bool :=
  match tmpFile p with
  | None => true
  | Some file => (fd file =? 0)%Z
  end.

(** [urlString.includes(searchString)]. *)
Definition includes (s searchString : string) : bool :=
  bool_decide (is_Some (JsString.indexOf s searchString)).

(** [DownloadFile(urlString, pkg, delay)].  [redirects] bounds the
    redirections that are followed; see [DownloadFile] below. *)
Fixpoint DownloadFile_following (redirects : nat) (urlString : string)
  (pkg : nat) (delay : nat) : Promise unit :=
  let secondsDelay := (2 ^ Z.of_nat delay)%Z in
  let secondsDelay := if (secondsDelay =? 1)%Z then 0%Z else secondsDelay in
  (if (4 <? secondsDelay)%Z
   then AppendChannel ("Waiting " +:+ pretty secondsDelay +:+ " seconds...")
   else resolve tt) ;;
  emit (SetTimeout (secondsDelay * 1000)) ;;
  p <- getPackage pkg ;;
  if tmpFileUnavailable p then
    reject (newPackageManagerError "Temporary Package file unavailable"
              "DownloadFile" (Some pkg) None "")
  else
    answer <- https_request urlString ;;
    match answer with
    | RequestError stack message =>
        reject (newPackageManagerError
                  ("HTTP/HTTPS Request error" +:+
                   (if includes urlString "fwlink" then ": fwlink" else ""))
                  "DownloadFile" (Some pkg) (Some stack) message)
    | Response statusCode location contentLength percentages finish =>
        if (statusCode =? 301)%Z || (statusCode =? 302)%Z then
          let redirectUrl := location in
          match redirects with
          | S redirects => DownloadFile_following redirects redirectUrl pkg 0
          | O => unsettled
          end
        else if negb (statusCode =? 200)%Z then
          let errorMessage :=
            "failed (error code '" +:+ pretty statusCode +:+ "')" in
          reject (newPackageManagerWebResponseError "HTTP/HTTPS Response Error"
                    "DownloadFile" (Some pkg) (Some errorMessage)
                    (pretty statusCode))
        else
          let packageSize := contentLength in
          AppendChannel ("(" +:+ pretty (ceilDiv packageSize 1024) +:+ " KB) ") ;;
          emit (PipeToFile (from_option fd 0%Z (tmpFile p))) ;;
          _ <- onDataAll (description p) (0, 0)%Z percentages ;;
          match finish with
          | StreamEnded => resolve tt
          | StreamError stack name =>
              reject (newPackageManagerWebResponseError
                        "HTTP/HTTPS Response error" "DownloadFile" (Some pkg)
                        (Some stack) name)
          | StreamSilent => unsettled
          end
    end.

(** Every redirection takes an answer off the tape, so the length of the
    tape bounds the redirections that can be followed. *)
Definition DownloadFile (urlString : string) (pkg : nat) (delay : nat)
  : Promise unit :=
  fun s => DownloadFile_following (length (network s)) urlString pkg delay s.

(** The variables [retryCount] and [lastError] of the callback in
    [DownloadPackage]. *)
Record Retry := {
  retryCount : nat;
  lastError : option PackageManagerError
}.

(** [handleDownloadFailure(num, error)]. *)
Definition handleDownloadFailure (num : nat) (error : PackageManagerError)
  : Promise Retry :=
  AppendChannel " Failed. Retrying..." ;;
  resolve {| retryCount := num; lastError := Some error |}.

(** The properties of the ["acquisition"] event.  Every error that
    rejects a download is made by [new PackageManagerError] or by [new]
    on its subclass, so [lastError instanceof PackageManagerError]
    holds of it. *)
Definition telemetryProperties (retry : Retry) (packages : list IPackage)
  : gmap string string :=
  let telemetryProperties : gmap string string :=
    {[ "success" := "OnRetry" +:+ pretty (retryCount retry) ]} in
  match lastError retry with
  | Some packageError =>
      let telemetryProperties :=
        <["error.methodName" := methodName packageError]> telemetryProperties in
      let telemetryProperties :=
        <["error.message" := message packageError]> telemetryProperties in
      let telemetryProperties :=
        match pkg packageError ≫= (fun r => packages !! r) with
        | Some p =>
            <["error.packageUrl" := url p]>
              (<["error.packageName" := description p]> telemetryProperties)
        | None => telemetryProperties
        end in
      if negb (String.eqb (errorCode packageError) "")
      then <["error.errorCode" := errorCode packageError]> telemetryProperties
      else telemetryProperties
  | None => telemetryProperties
  end.

(** The retries of [DownloadPackage]: the chain of [catch] callbacks. *)
Definition downloadWithRetries (urlString : string) (pkg : nat) : Promise Retry :=
  let first := {| retryCount := 0; lastError := None |} in
  catch_ (DownloadFile urlString pkg 0 ;; resolve first) (fun error =>
    retry <- handleDownloadFailure 1 error ;;
  catch_ (DownloadFile urlString pkg 1 ;; resolve retry) (fun error =>
    retry <- handleDownloadFailure 2 error ;;
  catch_ (DownloadFile urlString pkg 2 ;; resolve retry) (fun error =>
    retry <- handleDownloadFailure 3 error ;;
  catch_ (DownloadFile urlString pkg 3 ;; resolve retry) (fun error =>
    retry <- handleDownloadFailure 4 error ;;
  catch_ (DownloadFile urlString pkg 4 ;; resolve retry) (fun error =>
    retry <- handleDownloadFailure 5 error ;;
    DownloadFile urlString pkg 5 ;; resolve retry))))).

(** [DownloadPackage(pkg)]. *)
Definition DownloadPackage (pkg : nat) : Promise unit :=
  p <- getPackage pkg ;;
  AppendChannel ("Downloading package '" +:+ description p +:+ "' ") ;;
  SetStatusText "$(cloud-download) Downloading packages..." ;;
  SetStatusTooltip ("Downloading package '" +:+ description p +:+ "'...") ;;
  tmpResult <-
    (answer <- tmp_file "package-" ;;
     match answer with
     | inl err =>
         reject (newPackageManagerError "Error from temp.file" "DownloadPackage"
                   (Some pkg) (Some err) "")
     | inr file => resolve file
     end) ;;
  updatePackage pkg (set_tmpFile (Some tmpResult)) ;;
  p <- getPackage pkg ;;
  retry <- downloadWithRetries (url p) pkg ;;
  AppendLineChannel " Done!" ;;
  if negb (retryCount retry =? 0)%nat then
    s <- getState ;;
    emit (LogDebuggerEvent "acquisition" (telemetryProperties retry (packages s)))
  else resolve tt.

(** ** The packages of the platform *)

Section Packages.
(** [util.getExtensionFilePath]. *)
Variable getExtensionFilePath : string -> string.

(** One round of the loop of [GetPackageList]: the paths of the
    binaries of a package are made absolute. *)
Definition absoluteBinaries (pkg : nat) : Promise unit :=
  p <- getPackage pkg ;;
  match binaries p with
  | Some binaries =>
      updatePackage pkg (set_binaries (Some (map getExtensionFilePath binaries)))
  | None => resolve tt
  end.

(** [GetPackageList()]. *)
Definition GetPackageList : Promise (list nat) :=
  s <- getState ;;
  match allPackages s with
  | None =>
      match runtimeDependencies s with
      | Some dependencies =>
          (fun s => (Resolved tt, set_allPackages (Some dependencies) s)) ;;
          forEach absoluteBinaries dependencies ;;
          resolve dependencies
      | None =>
          reject (newPackageManagerError "Package manifest does not exist"
                    "GetPackageList" None None "")
      end
  | Some allPackages => resolve allPackages
  end.

(** The test of the filter in [GetPackages]. *)
Definition applies (info : PlatformInformation) (value : IPackage) : bool :=
  match architectures value with
  | None => true
  | Some architectures => bool_decide (architecture info ∈ architectures)
  end &&
  match platforms value with
  | None => true
  | Some platforms => bool_decide (platform info ∈ platforms)
  end.

(** [GetPackages()]. *)
Definition GetPackages : Promise (list nat) :=
  list <- GetPackageList ;;
  s <- getState ;;
  resolve (List.filter
             (fun value =>
                match packages s !! value with
                | Some p => applies (platformInfo s) p
                | None => false
                end)
             list).

(** [BuildPromiseChain(items, promiseBuilder)]. *)
Definition BuildPromiseChain {TItem} (items : list TItem)
  (promiseBuilder : TItem -> Promise unit) : Promise unit :=
  foldl (fun promiseChain item => promiseChain ;; promiseBuilder item)
        (resolve tt) items.

(** [DownloadPackages()]. *)
Definition DownloadPackages : Promise unit :=
  packages <- GetPackages ;;
  BuildPromiseChain packages (fun pkg => DownloadPackage pkg).

End Packages.

(** ** Vocabulary *)

(** The delays, in milliseconds, of the timers that wait at all. *)
Definition waits (l : list PMEvent) : list Z :=
  omap (fun e => match e with
                 | SetTimeout ms => if (0 <? ms)%Z then Some ms else None
                 | _ => None
                 end) l.

(** The delays before the five retries of a download. *)
Definition retryDelays : list Z := [2000; 4000; 8000; 16000; 32000]%Z.

(** The telemetry events. *)
Definition logged (l : list PMEvent) : list (string * gmap string string) :=
  omap (fun e => match e with
                 | LogDebuggerEvent eventName properties =>
                     Some (eventName, properties)
                 | _ => None
                 end) l.

(** What was appended to the output channel, put together. *)
Definition appended (l : list PMEvent) : string :=
  foldr (fun e rest => match e with
                       | Append text => text +:+ rest
                       | _ => rest
                       end) "" l.

(** The percentages never go down, from [previous] on. *)
Fixpoint rising (previous : Z) (percentages : list Z) : Prop :=
  match percentages with
  | [] => True
  | percentage :: rest => (previous <= percentage)%Z /\ rising percentage rest
  end.

(** The tooltip of the status item while [description] is downloaded. *)
Definition progressTooltip (description : string) (percentage : Z) : string :=
  "Downloading package '" +:+ description +:+ "'... " +:+
  pretty percentage +:+ "%".

(** Every tooltip among the events shows a percentage from [low] up to
    [high]. *)
Definition tooltipsBelow (description : string) (low high : Z)
  (l : list PMEvent) : Prop :=
  Forall (fun e => match e with
                   | StatusTooltip text =>
                       exists percentage,
                         text = progressTooltip description percentage /\
                         (low <= percentage <= high)%Z
                   | _ => True
                   end) l.

(** The events that the properties below keep track of: the timers
    that wait and the telemetry. *)
Definition notable (e : PMEvent) : bool :=
  match e with
  | SetTimeout ms => (0 <? ms)%Z
  | LogDebuggerEvent _ _ => true
  | _ => false
  end.

(** Whatever the state and however it comes out, [m] adds events to the
    trace, of which the notable ones are [W]. *)
Definition exactly {A} (W : list PMEvent) (m : Promise A) : Prop :=
  forall s, exists new,
    events (m s).2 = events s ++ new /\ List.filter notable new = W.

(** If [m] is rejected, then for a reason that [P] holds of. *)
Definition rejectsWith {A} (P : PackageManagerError -> Prop) (m : Promise A)
  : Prop :=
  forall s reason, (m s).1 = RejectedWith reason -> P reason.

(** [m] is always fulfilled. *)
Definition fulfils {A} (m : Promise A) : Prop :=
  forall s, exists a, (m s).1 = Resolved a.

(** Whatever the state, [m] adds events to the trace, and [Q] holds of
    how it comes out and of the notable ones among them. *)
Definition outcome {A} (Q : Settled A -> list PMEvent -> Prop) (m : Promise A)
  : Prop :=
  forall s, exists new,
    events (m s).2 = events s ++ new /\ Q (m s).1 (List.filter notable new).

(** The chain of [downloadWithRetries] from the attempt with the given
    [delay] on, with [retries] more attempts to follow. *)
Fixpoint retriesFrom (retries delay : nat) (urlString : string) (pkg : nat)
  (retry : Retry) : Promise Retry :=
  match retries with
  | O => DownloadFile urlString pkg delay ;; resolve retry
  | S retries =>
      catch_ (DownloadFile urlString pkg delay ;; resolve retry) (fun error =>
        retry <- handleDownloadFailure (S delay) error ;;
        retriesFrom retries (S delay) urlString pkg retry)
  end.

(** The timers of the first [k] retries. *)
Definition retryTimers (k : nat) : list PMEvent :=
  map SetTimeout (take k retryDelays).

(** How [DownloadPackage] comes out after [k] retries, and what it
    leaves of notable events. *)
Definition downloadOutcome (r : Settled unit) (W : list PMEvent) : Prop :=
  exists k, (k <= 5)%nat /\
    match r with
    | Resolved _ =>
        if (k =? 0)%nat then W = []
        else exists properties,
               W = retryTimers k ++ [LogDebuggerEvent "acquisition" properties] /\
               properties !! "success" = Some ("OnRetry" +:+ pretty k)
    | RejectedWith reason =>
        (methodName reason = "DownloadPackage" /\ W = []) \/
        (methodName reason = "DownloadFile" /\ W = retryTimers 5)
    | Unsettled => W = retryTimers k
    end.

(** From [s] to [s'] the platform is the same and every package is
    still there, for the same platforms and architectures, and with the
    same temporary file unless it is one of the [allowed]. *)
Definition keeps (allowed : nat -> Prop) (s s' : PMState) : Prop :=
  platformInfo s' = platformInfo s /\
  forall r p, packages s !! r = Some p ->
    exists p', packages s' !! r = Some p' /\
               platforms p' = platforms p /\
               architectures p' = architectures p /\
               (~ allowed r -> tmpFile p' = tmpFile p).

Definition confined {A} (allowed : nat -> Prop) (m : Promise A) : Prop :=
  forall s, keeps allowed s (m s).2.

(** The timer of the attempt with the given [delay]. *)
Definition delayOf (delay : nat) : list PMEvent :=
  if (delay =? 0)%nat then [] else [SetTimeout (2 ^ Z.of_nat delay * 1000)].

(** ** Concrete inputs *)

Definition linuxPackage : IPackage :=
  {| description := "C/C++ language components (Linux / x86_64)";
     url := "https://example.com/fwlink/linux";
     platforms := Some ["linux"]; architectures := Some ["x86_64"];
     binaries := Some ["./bin/Microsoft.VSCode.CPP.Extension.linux"];
     tmpFile := None |}.

Definition windowsPackage : IPackage :=
  {| description := "ClangFormat (Windows)";
     url := "https://example.com/fwlink/clang-format";
     platforms := Some ["win32"]; architectures := None;
     binaries := None; tmpFile := None |}.

(** A manifest of two packages on Linux, and a network that breaks the
    first connection, then redirects, then delivers. *)
Definition flakyNetwork : PMState :=
  {| packages := [linuxPackage; windowsPackage];
     allPackages := None; runtimeDependencies := Some [0; 1]%nat;
     platformInfo := {| platform := "linux"; architecture := "x86_64" |};
     outputChannel := true; statusItem := true; events := [];
     temporaryFiles := [inr {| name := "/tmp/package-1"; fd := 7 |}];
     network :=
       [RequestError "Error: socket hang up" "ECONNRESET";
        Response 302 "https://example.com/download/linux.zip" 0 [] StreamEnded;
        Response 200 "" 2000000 [10; 10; 55; 100]%Z StreamEnded] |}.

(** The same where the server answers 503 every time. *)
Definition deadNetwork : PMState :=
  set_network (replicate 6 (Response 503 "" 0 [] StreamEnded)) flakyNetwork.

Definition extensionFilePath (file : string) : string := "/extension/" +:+ file.

End PackageManager.

(** * Properties *)

(** ** Evaluation lemmas *)

Lemma getClient_eq w r c :
  clients w !! r = Some c -> getClient r w = (Normal c, w).
Proof. intros H. unfold getClient. by rewrite H. Qed.

Lemma updateClient_eq w r c f :
  clients w !! r = Some c ->
  updateClient r f w = (Normal tt, set_clients (<[r := f c]> (clients w)) w).
Proof. intros H. unfold updateClient, bind. by rewrite (getClient_eq _ _ _ H). Qed.

Lemma getArray_eq w a l :
  arrays w !! a = Some l -> getArray a w = (Normal l, w).
Proof. intros H. unfold getArray. by rewrite H. Qed.


Lemma gate_ready c : gate c = GateReady <-> is_Some (languageClient c).
Proof.
  unfold gate. destruct (languageClient c).
  - split; eauto.
  - split; [destruct (_ && _); discriminate | intros [? ?]; discriminate].
Qed.

Lemma gate_pending c :
  gate c = GatePending <->
  languageClient c = None /\ isSupported c = true /\ onReadyPromise c <> None.
Proof.
  unfold gate.
  destruct (languageClient c), (isSupported c), (onReadyPromise c); cbn;
    split; try discriminate; try done; intros (? & ? & ?); done.
Qed.

Lemma gate_failed c :
  gate c = GateFailed <->
  languageClient c = None /\ (isSupported c = false \/ onReadyPromise c = None).
Proof.
  unfold gate.
  destruct (languageClient c), (isSupported c), (onReadyPromise c); cbn;
    split; try discriminate; try done; intuition; done.
Qed.

(** Finding an object in a store that has been written to. *)
Ltac lookup_solve :=
  cbn;
  first [ eassumption
        | apply lookup_insert_eq
        | rewrite lookup_insert_ne by (done || congruence); lookup_solve ].

(** One step of symbolic execution. *)
Ltac js_step :=
  first [ erewrite getClient_eq by lookup_solve
        | erewrite updateClient_eq by lookup_solve
        | erewrite getArray_eq by lookup_solve
        | progress cbn ].

Ltac js_run := unfold bind; repeat js_step.

(** ** The protocol router *)

Lemma intercept_eq w me h args next :
  length args = arity h ->
  intercept (createProtocolFilter me) h args next w =
  if isActiveClient (allClients w) me
  then forward h next args w
  else (Normal (neutral h), w).
Proof.
  intros Hlen.
  destruct h; cbn in Hlen;
    repeat (destruct args as [|? args]; try discriminate Hlen);
    cbn;
    unfold defaultHandler, filter_willSaveWaitUntil, invoke1, invoke2,
      invoke3, invoke4, invoke5, meIsActive, bind, getWorld, ret;
    cbn; destruct (isActiveClient _ _); reflexivity.
Qed.

(** A call with another number of arguments than the hook declares
    fails at the active client, where the handler calls what is no
    function, and is answered as usual at every other client. *)
Lemma intercept_wrong_arity w me h args next :
  length args <> arity h ->
  intercept (createProtocolFilter me) h args next w =
  if isActiveClient (allClients w) me
  then (Throw TypeError, w)
  else (Normal (neutral h), w).
Proof.
  intros Hlen. unfold intercept. rewrite bool_decide_eq_false_2 by done.
  destruct h; cbn;
    unfold defaultHandler, filter_willSaveWaitUntil, invoke1, invoke2,
      invoke3, invoke4, invoke5, meIsActive, bind, getWorld, ret;
    cbn; destruct (isActiveClient _ _); reflexivity.
Qed.

Lemma forward_sendToServer w me h args :
  exists v, forward h (sendToServer me h) args w =
    (Normal v, set_trace (trace w ++ [Transport me (Routed h args)]) w).
Proof.
  unfold forward, sendToServer. destruct (returnsNothing h); cbn; eauto.
Qed.

(** C6.  A call of any hook other than [didOpen]/[didClose] that reaches
    the router of client [me] is passed on to the callback when [me] is
    the active client, and is otherwise answered on the spot, without an
    error and without touching the world, by the hook's neutral value
    ([undefined], [null] or a promise of the empty array).  With the
    library's own callback, the message shows on the transport of [me]
    if and only if [me] is the active client. *)
Theorem router_forwards_iff_active w me h args next :
  length args = arity h ->
  (isActiveClient (allClients w) me = true ->
     intercept (createProtocolFilter me) h args next w = forward h next args w) /\
  (isActiveClient (allClients w) me = false ->
     intercept (createProtocolFilter me) h args next w = (Normal (neutral h), w)) /\
  (trace (after (intercept (createProtocolFilter me) h args (sendToServer me h)) w)
     = trace w ++ [Transport me (Routed h args)]
   <-> activeClient (allClients w) = Some me).
Proof.
  intros Hlen. rewrite !intercept_eq by done. unfold after.
  split; [intros ->; reflexivity|]. split; [intros ->; reflexivity|].
  rewrite intercept_eq by done. unfold isActiveClient. case_bool_decide as Hact.
  - destruct (forward_sendToServer w me h args) as [v ->]. by cbn.
  - cbn. split; [|done]. intros Heq.
    apply (f_equal length) in Heq. rewrite length_app in Heq. cbn in Heq. lia.
Qed.

Lemma router_forwards_iff_active_witness :
  length [opaque 1; opaque 2; opaque 3] = arity provideHover /\
  intercept (createProtocolFilter 1) provideHover [opaque 1; opaque 2; opaque 3]
    (sendToServer 1 provideHover) twoFolders
  = (Normal null, twoFolders).
Proof.
  split; [reflexivity|].
  apply (router_forwards_iff_active twoFolders 1 provideHover
           [opaque 1; opaque 2; opaque 3] (sendToServer 1 provideHover));
    [reflexivity | vm_compute; reflexivity].
Defined.

(** The sound half of the lifecycle gate: a document-opened event is
    accepted exactly when the registry says the client owns the document,
    and then the document is in the tracked set before the message is
    sent. *)
Lemma didOpen_checks_ownership w me c document :
  clients w !! me = Some c ->
  (checkOwnership (allClients w) me document = false ->
     Middleware.didOpen (createProtocolFilter me) document (sendDidOpen me) w
     = (Normal undefined, w)) /\
  (checkOwnership (allClients w) me document = true ->
     exists w',
       Middleware.didOpen (createProtocolFilter me) document (sendDidOpen me) w
       = (Normal undefined, w') /\
       trace w' = trace w ++ [TrackedAdd me document;
                              Transport me (TextDocumentDidOpen document)] /\
       exists c', clients w' !! me = Some c' /\
                  document ∈ trackedDocuments c').
Proof.
  intros Hc. cbn. unfold filter_didOpen, bind, getWorld. split; intros ->; [done|].
  js_run.
  eexists. split; [reflexivity|]. cbn. split; [by rewrite <- app_assoc|].
  eexists. split; [apply lookup_insert_eq|]. cbn.
  unfold Set_add, Set_has. case_bool_decide; [done|]. apply elem_of_app. right. by apply list_elem_of_singleton.
Qed.

(** A document-closed event is gated on the active client, not on
    ownership. *)
Lemma didClose_checks_active w me document :
  isActiveClient (allClients w) me = false ->
  Middleware.didClose (createProtocolFilter me) document (sendDidClose me) w
  = (Normal undefined, w).
Proof. intros H. cbn. unfold filter_didClose, meIsActive, bind, getWorld, ret. by rewrite H. Qed.

(** C7.  The code at the failing input.  Two folders are open and the
    editor is focused on folder [a]; [/b/y.cpp], owned and tracked by the
    client of folder [b], is closed.  The router of client 0 accepts the
    event although [checkOwnership] fails for it: its assertion that the
    document is tracked fails and the message goes to the server of
    folder [a].  The router of client 1, which owns the document, drops
    the event, so that client keeps tracking a closed document. *)
Theorem didClose_accepted_without_ownership :
  checkOwnership (allClients twoFolders) 0 docB = false /\
  isActiveClient (allClients twoFolders) 0 = true /\
  (exists w',
     Middleware.didClose (createProtocolFilter 0) docB (sendDidClose 0) twoFolders
     = (Normal undefined, w') /\
     trace w' = trace twoFolders ++
       [AssertionFailed 0; TrackedDelete 0 docB;
        Transport 0 (TextDocumentDidClose docB)]) /\
  checkOwnership (allClients twoFolders) 1 docB = true /\
  Middleware.didClose (createProtocolFilter 1) docB (sendDidClose 1) twoFolders
  = (Normal undefined, twoFolders) /\
  trackedDocuments <$> clients twoFolders !! 1%nat = Some [docB].
Proof.
  split; [vm_compute; reflexivity|].
  split; [vm_compute; reflexivity|].
  split.
  { eexists. split; [vm_compute; reflexivity|]. vm_compute; reflexivity. }
  split; [vm_compute; reflexivity|].
  split; [apply didClose_checks_active; vm_compute; reflexivity|].
  vm_compute; reflexivity.
Qed.

(** ** [onInterval] *)

Lemma onInterval_ready w this c lc cfg :
  clients w !! this = Some c ->
  languageClient c = Some lc ->
  configuration c = Some cfg ->
  onInterval this w =
    (Normal tt,
     set_trace (trace w ++ [Transport this IntervalTimerNotification;
                            Collaborator this CheckCppProperties]) w).
Proof.
  intros Hc Hl Hcfg. unfold onInterval, bind.
  rewrite (getClient_eq _ _ _ Hc), Hl, Hcfg. unfold emit. cbn. by rewrite <- app_assoc.
Qed.

Lemma onInterval_not_ready w this c :
  clients w !! this = Some c ->
  languageClient c = None ->
  onInterval this w = (Normal tt, w).
Proof.
  intros Hc Hl. unfold onInterval, bind.
  by rewrite (getClient_eq _ _ _ Hc), Hl.
Qed.

(** ** The readiness gate *)


Lemma transportOf_app client tr tr' :
  transportOf client (tr ++ tr') = transportOf client tr ++ transportOf client tr'.
Proof. apply omap_app. Qed.

Lemma thenOnReady_waiting w this c q t :
  clients w !! this = Some c -> waiting c q ->
  thenOnReady this t w =
    (Normal (length q),
     set_clients (<[this := set_onReadyPromise (Some (Pending (q ++ [t]))) c]> (clients w)) w).
Proof.
  intros Hc (Hl & Hs & Hp). unfold thenOnReady, bind.
  rewrite (getClient_eq _ _ _ Hc), Hp.
  by rewrite (updateClient_eq _ _ _ _ Hc).
Qed.

Lemma notifyWhenReady_waiting w this c q t :
  clients w !! this = Some c -> waiting c q ->
  notifyWhenReady this t w =
    (Normal tt,
     set_clients (<[this := set_onReadyPromise (Some (Pending (q ++ [t]))) c]> (clients w)) w).
Proof.
  intros Hc Hw. pose proof Hw as (Hl & Hs & Hp). unfold notifyWhenReady, bind.
  rewrite (getClient_eq _ _ _ Hc), Hl, Hs, Hp. cbn.
  by rewrite (thenOnReady_waiting _ _ _ _ _ Hc Hw).
Qed.

Lemma requestWhenReady_waiting w this c q t :
  clients w !! this = Some c -> waiting c q ->
  requestWhenReady this t w =
    (Normal (Chained (length q)),
     set_clients (<[this := set_onReadyPromise (Some (Pending (q ++ [t]))) c]> (clients w)) w).
Proof.
  intros Hc Hw. pose proof Hw as (Hl & Hs & Hp). unfold requestWhenReady, bind.
  rewrite (getClient_eq _ _ _ Hc), Hl, Hs, Hp. cbn.
  by rewrite (thenOnReady_waiting _ _ _ _ _ Hc Hw).
Qed.

Lemma waiting_set_model c q m : waiting c q -> waiting (set_model m c) q.
Proof. by intros (? & ? & ?). Qed.

(** While the gate is pending, an operation adds its closure at the end
    of the queue and sends nothing. *)
Lemma perform_waiting w this c q call :
  clients w !! this = Some c -> waiting c q ->
  exists w' c',
    perform this call w = (Normal tt, w') /\
    clients w' !! this = Some c' /\
    waiting c' (q ++ [thunkOf call]) /\
    workspaceRoot c' = workspaceRoot c /\
    transportOf this (trace w') = transportOf this (trace w).
Proof.
  intros Hc Hw.
  destruct call; cbn;
    unfold requestGoToDeclaration, requestSwitchHeaderSource,
      requestNavigationList, takeOwnership, activeDocumentChanged, activate,
      selectionChanged, resetDatabase, deactivate, pauseParsing,
      resumeParsing, handleConfigurationSelectCommand,
      handleShowParsingCommands, handleConfigurationEditCommand,
      handleAddToIncludePathCommand;
    unfold bind;
    try (rewrite (requestWhenReady_waiting _ _ _ _ _ Hc Hw));
    try (rewrite (notifyWhenReady_waiting _ _ _ _ _ Hc Hw));
    try (eexists _, _; split; [reflexivity|]; split; [lookup_solve|];
         split; [by destruct Hw as (? & ? & ?)|]; done).
  - (* takeOwnership *)
    js_run. eexists _, _. split; [reflexivity|]. split; [lookup_solve|].
    split; [by destruct Hw as (? & ? & ?)|]. split; [done|].
    cbn. rewrite transportOf_app. unfold transportOf at 2. cbn. by rewrite app_nil_r.
  - (* activate *)
    js_run.
    erewrite notifyWhenReady_waiting; [|lookup_solve|by apply waiting_set_model].
    eexists _, _. split; [reflexivity|]. split; [lookup_solve|].
    split; [by destruct Hw as (? & ? & ?)|]. done.
  - (* deactivate *)
    js_run.
    erewrite notifyWhenReady_waiting; [|lookup_solve|by apply waiting_set_model].
    eexists _, _. split; [reflexivity|]. split; [lookup_solve|].
    split; [by destruct Hw as (? & ? & ?)|]. done.
Qed.

Lemma performAll_waiting calls : forall w this c q,
  clients w !! this = Some c -> waiting c q ->
  exists w' c',
    performAll this calls w = (Normal tt, w') /\
    clients w' !! this = Some c' /\
    waiting c' (q ++ map thunkOf calls) /\
    workspaceRoot c' = workspaceRoot c /\
    transportOf this (trace w') = transportOf this (trace w).
Proof.
  induction calls as [|call calls IH]; intros w this c q Hc Hw.
  - exists w, c. rewrite app_nil_r. by split; [|split; [|split]].
  - destruct (perform_waiting w this c q call Hc Hw)
      as (w1 & c1 & Hrun & Hc1 & Hw1 & Hroot1 & Htr1).
    destruct (IH w1 this c1 _ Hc1 Hw1) as (w2 & c2 & Hrun2 & Hc2 & Hw2 & Hroot2 & Htr2).
    exists w2, c2. unfold performAll in *. cbn. unfold bind. rewrite Hrun, Hrun2.
    rewrite <- app_assoc in Hw2.
    split; [reflexivity|]. split; [exact Hc2|].
    split; [exact Hw2|]. split; congruence.
Qed.

Lemma set_trace_nil w : set_trace (trace w ++ []) w = w.
Proof. destruct w. unfold set_trace. cbn. by rewrite app_nil_r. Qed.

Lemma runThunk_eq w this c t :
  clients w !! this = Some c ->
  runThunk this t w =
    ((thunkResult this c t).1,
     set_trace (trace w ++ (thunkResult this c t).2) w).
Proof.
  intros Hc. unfold runThunk, bind. rewrite (getClient_eq _ _ _ Hc).
  destruct t; cbn;
    try destruct (languageClient c); try destruct (configuration c); cbn;
    unfold throw; by rewrite ?set_trace_nil.
Qed.

Lemma set_onReadyPromise_id c p :
  onReadyPromise c = p -> set_onReadyPromise p c = c.
Proof. destruct c. cbn. by intros ->. Qed.

Lemma runReaction_eq w this c os t :
  clients w !! this = Some c ->
  onReadyPromise c = Some (Fulfilled os) ->
  runReaction this t w =
    (Normal tt,
     set_clients
       (<[this := set_onReadyPromise
                    (Some (Fulfilled (os ++ [(thunkResult this c t).1]))) c]>
          (clients w))
       (set_trace (trace w ++ (thunkResult this c t).2) w)).
Proof.
  intros Hc Hp. unfold runReaction, attempt, bind.
  rewrite (runThunk_eq _ _ _ _ Hc).
  erewrite updateClient_eq by lookup_solve.
  unfold recordOutcome. by rewrite Hp.
Qed.

Lemma thunkResult_set_onReadyPromise this p c t :
  thunkResult this (set_onReadyPromise p c) t = thunkResult this c t.
Proof. by destruct t. Qed.

(** The reactions of the settled promise run one after the other, in
    the order of the list; none of them changes anything of the client
    but the record of outcomes. *)
Lemma reactions_run_in_order ts : forall w this c os,
  clients w !! this = Some c ->
  onReadyPromise c = Some (Fulfilled os) ->
  exists w',
    forEach (runReaction this) ts w = (Normal tt, w') /\
    clients w' !! this =
      Some (set_onReadyPromise
              (Some (Fulfilled (os ++ map (fun t => (thunkResult this c t).1) ts))) c) /\
    trace w' = trace w ++ flat_map (fun t => (thunkResult this c t).2) ts.
Proof.
  induction ts as [|t ts IH]; intros w this c os Hc Hp.
  - exists w. cbn. rewrite !app_nil_r. by rewrite set_onReadyPromise_id.
  - cbn. unfold bind. rewrite (runReaction_eq _ _ _ _ _ Hc Hp).
    match goal with |- context [forEach _ ts ?x] => set (w1 := x) end.
    destruct (IH w1 this
                (set_onReadyPromise
                   (Some (Fulfilled (os ++ [(thunkResult this c t).1]))) c)
                (os ++ [(thunkResult this c t).1]))
      as (w' & Hrun & Hc' & Htr); [subst w1; lookup_solve | reflexivity |].
    exists w'. split; [exact Hrun|].
    rewrite (map_ext _ (fun t => (thunkResult this c t).1)) in Hc'
      by (intros; by rewrite thunkResult_set_onReadyPromise).
    rewrite (flat_map_ext _ (fun t => (thunkResult this c t).2)) in Htr
      by (intros; by rewrite thunkResult_set_onReadyPromise).
    split.
    + rewrite Hc'. cbn. by rewrite <- app_assoc.
    + rewrite Htr. subst w1. cbn. by rewrite <- app_assoc.
Qed.

Lemma settleOnReadyPromise_eq w this c q :
  clients w !! this = Some c ->
  onReadyPromise c = Some (Pending q) ->
  exists w',
    settleOnReadyPromise this w = (Normal tt, w') /\
    clients w' !! this =
      Some (set_onReadyPromise
              (Some (Fulfilled (map (fun t => (thunkResult this c t).1) q))) c) /\
    trace w' = trace w ++ flat_map (fun t => (thunkResult this c t).2) q.
Proof.
  intros Hc Hp. unfold settleOnReadyPromise, bind.
  rewrite (getClient_eq _ _ _ Hc), Hp.
  rewrite (updateClient_eq _ _ _ _ Hc).
  match goal with |- context [forEach _ q ?x] => set (w1 := x) end.
  destruct (reactions_run_in_order q w1 this
              (set_onReadyPromise (Some (Fulfilled [])) c) [])
    as (w' & Hrun & Hc' & Htr); [subst w1; lookup_solve | reflexivity |].
  rewrite (map_ext _ (fun t => (thunkResult this c t).1)) in Hc'
    by (intros; by rewrite thunkResult_set_onReadyPromise).
  rewrite (flat_map_ext _ (fun t => (thunkResult this c t).2)) in Htr
    by (intros; by rewrite thunkResult_set_onReadyPromise).
  exists w'. split; [exact Hrun|]. split; [exact Hc'|exact Htr].
Qed.

Lemma onReadyFulfilledHandler_eq w this c :
  clients w !! this = Some c ->
  exists w' c',
    onReadyFulfilledHandler this w = (Normal tt, w') /\
    clients w' !! this = Some c' /\
    languageClient c' =
      Some (mkLanguageClient ("cpptools: " +:+ getName (workspaceRoot c))) /\
    configuration c' = Some (mkCppProperties (RootPath c)) /\
    onReadyPromise c' = onReadyPromise c /\
    trackedDocuments c' = trackedDocuments c /\
    workspaceRoot c' = workspaceRoot c /\
    crashTimes c' = crashTimes c /\
    isSupported c' = isSupported c /\
    trace w' = trace w ++ [Transport this QueryDefaultPathsRequest;
                           Collaborator this LogNonDefaultInitialCppSettings;
                           Collaborator this RegisterNotifications] /\
    (forall r, r <> this -> clients w' !! r = clients w !! r).
Proof.
  intros Hc. unfold onReadyFulfilledHandler, registerFileWatcher. js_run.
  destruct (workspaceRoot c) eqn:Hroot; js_run;
    eexists _, _; (split; [reflexivity|]); (split; [lookup_solve|]);
    cbn; rewrite ?Hroot; rewrite <- ?app_assoc;
    repeat split; try done; intros r Hr; by rewrite !lookup_insert_ne.
Qed.

(** The transition to Ready, from a client that waits with queue [q]. *)
Lemma onReadyFulfilled_eq w this c q :
  clients w !! this = Some c -> waiting c q ->
  exists w' c',
    onReadyFulfilled this w = (Normal tt, w') /\
    clients w' !! this = Some c' /\
    is_Some (languageClient c') /\ is_Some (configuration c') /\
    onReadyPromise c' = Some (Fulfilled (map (fun t => Normal (thunkValue t)) q)) /\
    trackedDocuments c' = trackedDocuments c /\
    trace w' = trace w ++ [Transport this QueryDefaultPathsRequest;
                           Collaborator this LogNonDefaultInitialCppSettings;
                           Collaborator this RegisterNotifications]
                       ++ map (thunkEvent this) q.
Proof.
  intros Hc (Hl & Hs & Hp).
  destruct (onReadyFulfilledHandler_eq w this c Hc)
    as (w1 & c1 & Hrun1 & Hc1 & Hl1 & Hcfg1 & Hp1 & Htd1 & _ & _ & _ & Htr1 & _).
  rewrite Hp in Hp1.
  destruct (settleOnReadyPromise_eq w1 this c1 q Hc1 Hp1) as (w2 & Hrun2 & Hc2 & Htr2).
  assert (Hres : forall t, thunkResult this c1 t = (Normal (thunkValue t), [thunkEvent this t])).
  { intros t. unfold thunkResult. rewrite Hl1, Hcfg1. by destruct t. }
  rewrite (map_ext _ (fun t => Normal (thunkValue t))) in Hc2
    by (intros; by rewrite Hres).
  rewrite (flat_map_ext _ (fun t => [thunkEvent this t])) in Htr2
    by (intros; by rewrite Hres).
  eexists w2, _. unfold onReadyFulfilled, bind. rewrite Hrun1.
  split; [exact Hrun2|]. split; [exact Hc2|]. cbn.
  rewrite Hl1, Hcfg1. split; [eauto|]. split; [eauto|]. split; [done|].
  split; [done|].
  assert (Hfm : flat_map (fun t => [thunkEvent this t]) q = map (thunkEvent this) q)
    by (clear; induction q; cbn; congruence).
  by rewrite Htr2, Htr1, Hfm, <- app_assoc.
Qed.

Lemma transportOf_thunkEvents this q :
  transportOf this (map (thunkEvent this) q) = omap messageOf q.
Proof.
  induction q as [|t q IH]; [done|]. cbn.
  change (map (thunkEvent this) q) with ([] ++ map (thunkEvent this) q).
  rewrite app_comm_cons, transportOf_app, IH. unfold transportOf.
  destruct t; cbn; rewrite ?bool_decide_eq_true_2 by done; done.
Qed.

(** C4.  Whatever calls are submitted while the gate of a client is
    pending, nothing reaches the transport until the gate opens; when it
    does, the transport sees the handler's own request and then one
    message per deferred request or notification, in the order of
    submission (behind what was queued before), and every deferred call
    settles with what its closure evaluated to. *)
Theorem deferred_calls_fire_in_order w this c q calls :
  clients w !! this = Some c ->
  gate c = GatePending ->
  onReadyPromise c = Some (Pending q) ->
  exists w1 w' c',
    performAll this calls w = (Normal tt, w1) /\
    transportOf this (trace w1) = transportOf this (trace w) /\
    onReadyFulfilled this w1 = (Normal tt, w') /\
    clients w' !! this = Some c' /\
    gate c' = GateReady /\
    transportOf this (trace w') =
      transportOf this (trace w) ++
      QueryDefaultPathsRequest :: omap messageOf (q ++ map thunkOf calls) /\
    (forall k t, (q ++ map thunkOf calls) !! k = Some t ->
                 settled c' k = Some (Normal (thunkValue t))).
Proof.
  intros Hc Hg Hp.
  assert (Hw : waiting c q).
  { apply gate_pending in Hg as (? & ? & _). by repeat split. }
  destruct (performAll_waiting calls w this c q Hc Hw)
    as (w1 & c1 & Hrun1 & Hc1 & Hw1 & _ & Htr1).
  destruct (onReadyFulfilled_eq w1 this c1 _ Hc1 Hw1)
    as (w2 & c2 & Hrun2 & Hc2 & Hl2 & _ & Hp2 & _ & Htr2).
  exists w1, w2, c2.
  split; [exact Hrun1|]. split; [exact Htr1|].
  split; [exact Hrun2|]. split; [exact Hc2|].
  split; [by apply gate_ready|]. split.
  - rewrite Htr2, !transportOf_app, Htr1, transportOf_thunkEvents.
    unfold transportOf at 2. cbn. by rewrite bool_decide_eq_true_2.
  - intros k t Hk. unfold settled. rewrite Hp2.
    by rewrite list_lookup_fmap, Hk.
Qed.

Lemma pendingClientA_stored :
  clients oneFolderPending !! 0%nat = Some pendingClientA.
Proof. vm_compute. reflexivity. Qed.

Lemma readyClientA_stored :
  clients oneFolderReady !! 0%nat = Some readyClientA.
Proof. vm_compute. reflexivity. Qed.

Lemma deferred_calls_fire_in_order_witness :
  clients oneFolderPending !! 0%nat = Some pendingClientA /\
  gate pendingClientA = GatePending /\
  onReadyPromise pendingClientA = Some (Pending []) /\
  exists w1 w',
    performAll 0 [TakeOwnership docA; GoToDeclaration; SelectionChanged 3 7]
      oneFolderPending = (Normal tt, w1) /\
    transportOf 0 (trace w1) = [] /\
    onReadyFulfilled 0 w1 = (Normal tt, w') /\
    transportOf 0 (trace w') =
      [QueryDefaultPathsRequest; didOpenParams docA; GoToDeclarationRequest;
       TextEditorSelectionChangeNotification 3 7].
Proof.
  split; [exact pendingClientA_stored|].
  split; [reflexivity|]. split; [reflexivity|].
  destruct (deferred_calls_fire_in_order oneFolderPending 0 pendingClientA []
              [TakeOwnership docA; GoToDeclaration; SelectionChanged 3 7]
              pendingClientA_stored eq_refl eq_refl)
    as (w1 & w' & c' & Hrun1 & Htr1 & Hrun & _ & _ & Htr & _).
  exists w1, w'. split; [exact Hrun1|]. split; [exact Htr1|].
  split; [exact Hrun|]. exact Htr.
Defined.

(** *** The failed gate *)

Lemma requestWhenReady_failed w this c t :
  clients w !! this = Some c -> gate c = GateFailed ->
  requestWhenReady this t w = (Normal (Rejected "Unsupported client"), w).
Proof.
  intros Hc Hg. apply gate_failed in Hg as (Hl & Hf).
  unfold requestWhenReady, bind. rewrite (getClient_eq _ _ _ Hc), Hl.
  destruct Hf as [-> | ->]; [done|]. by rewrite andb_false_r.
Qed.

Lemma notifyWhenReady_failed w this c t :
  clients w !! this = Some c -> gate c = GateFailed ->
  notifyWhenReady this t w = (Normal tt, w).
Proof.
  intros Hc Hg. apply gate_failed in Hg as (Hl & Hf).
  unfold notifyWhenReady, bind. rewrite (getClient_eq _ _ _ Hc), Hl.
  destruct Hf as [-> | ->]; [done|]. by rewrite andb_false_r.
Qed.

Lemma unsupported_eq w this c :
  clients w !! this = Some c ->
  exists w',
    unsupported this w = (Normal tt, w') /\
    clients w' = <[this := set_isSupported false c]> (clients w) /\
    transportOf this (trace w') = transportOf this (trace w).
Proof.
  intros Hc. unfold unsupported. js_run.
  destruct (failureMessageShown w); cbn; eexists; (split; [reflexivity|]);
    (split; [reflexivity|]); cbn; [done|].
  rewrite transportOf_app. unfold transportOf at 2. cbn. by rewrite app_nil_r.
Qed.

(** The transition to Failed, from a client that waits with queue [q]:
    the promise is fulfilled all the same, so the queued closures run; a
    closure that sends finds no transport and throws. *)
Lemma onReadyRejected_eq w this c q :
  clients w !! this = Some c -> waiting c q ->
  exists w' c',
    onReadyRejected this w = (Normal tt, w') /\
    clients w' !! this = Some c' /\
    gate c' = GateFailed /\
    transportOf this (trace w') = transportOf this (trace w) /\
    forall k t m, q !! k = Some t -> messageOf t = Some m ->
                  settled c' k = Some (Throw TypeError).
Proof.
  intros Hc (Hl & Hs & Hp).
  destruct (unsupported_eq w this c Hc) as (w1 & Hrun1 & Hc1 & Htr1).
  assert (Hc1' : clients w1 !! this = Some (set_isSupported false c))
    by (rewrite Hc1; apply lookup_insert_eq).
  destruct (settleOnReadyPromise_eq w1 this _ q Hc1' Hp) as (w2 & Hrun2 & Hc2 & Htr2).
  eexists w2, _. unfold onReadyRejected, bind. rewrite Hrun1.
  split; [exact Hrun2|]. split; [exact Hc2|].
  split; [apply gate_failed; cbn; auto|]. split.
  - rewrite Htr2, transportOf_app, Htr1.
    replace (transportOf this (flat_map _ q)) with (@nil Message);
      [by rewrite app_nil_r|].
    clear -Hl. induction q as [|t q IH]; [done|]. cbn.
    rewrite transportOf_app, <- IH, app_nil_r.
    destruct t; unfold thunkResult; cbn; rewrite ?Hl;
      try destruct (configuration c); cbn; rewrite ?Hl; done.
  - intros k t m Hk Hm. unfold settled. cbn.
    rewrite list_lookup_fmap, Hk. cbn. unfold thunkResult. cbn. rewrite Hl.
    by destruct t.
Qed.

(** C5.  The code at the failing input.  A go-to-declaration request is
    submitted while the gate is pending and is queued as reaction 0; then
    the transport fails to start.  The gate is now Failed and nothing was
    sent, but the queued closure has run and thrown a [TypeError], which
    is what the promise of the request is rejected with; the same request
    submitted afterwards is rejected with ["Unsupported client"]. *)
Theorem queued_request_rejected_with_TypeError :
  let run := (r <- requestGoToDeclaration 0 ;;
              onReadyRejected 0 ;; ret r) oneFolderPending in
  (gate <$> clients oneFolderPending !! 0%nat) = Some GatePending /\
  run.1 = Normal (Chained 0) /\
  (gate <$> clients run.2 !! 0%nat) = Some GateFailed /\
  (clients run.2 !! 0%nat) ≫= (fun c => settled c 0) = Some (Throw TypeError) /\
  transportOf 0 (trace run.2) = [] /\
  requestGoToDeclaration 0 run.2 = (Normal (Rejected "Unsupported client"), run.2).
Proof.
  cbv zeta. repeat split; vm_compute; reflexivity.
Qed.

(** ** [takeOwnership] *)

(** A notification never fails, whatever the state of the gate, and
    leaves the tracked documents alone. *)
Lemma notifyWhenReady_total w this c m :
  clients w !! this = Some c ->
  exists w' c',
    notifyWhenReady this (SendNotification m) w = (Normal tt, w') /\
    clients w' !! this = Some c' /\
    trackedDocuments c' = trackedDocuments c /\
    (gate c = GateReady -> trace w' = trace w ++ [Transport this m]) /\
    (forall q, onReadyPromise c = Some (Pending q) -> gate c = GatePending ->
       trace w' = trace w /\
       onReadyPromise c' = Some (Pending (q ++ [SendNotification m]))).
Proof.
  intros Hc. unfold notifyWhenReady, bind. rewrite (getClient_eq _ _ _ Hc).
  destruct (languageClient c) as [lc|] eqn:Hl.
  - rewrite (runThunk_eq _ _ _ _ Hc). unfold thunkResult. rewrite Hl. cbn.
    eexists _, _. split; [reflexivity|]. split; [exact Hc|]. split; [done|].
    split; [done|]. intros q _ Hg. apply gate_pending in Hg as (? & _). congruence.
  - assert (Hnr : gate c <> GateReady).
    { intros Hg. apply gate_ready in Hg as [? ?]. congruence. }
    destruct (isSupported c) eqn:Hs; cbn;
      [destruct (onReadyPromise c) as [[q|os]|] eqn:Hp; cbn|].
    + erewrite thenOnReady_waiting by done. cbn.
      eexists _, _. split; [reflexivity|]. split; [lookup_solve|].
      split; [done|]. split; [done|]. intros q' [= <-] _. done.
    + unfold thenOnReady, bind. rewrite (getClient_eq _ _ _ Hc), Hp.
      erewrite runReaction_eq by done. cbn.
      eexists _, _. split; [reflexivity|]. split; [lookup_solve|].
      split; [done|]. split; [done|]. intros q' [=].
    + exists w, c. repeat split; done.
    + exists w, c. split; [done|]. split; [done|]. split; [done|].
      split; [done|]. intros q' _ Hg.
      apply gate_pending in Hg as (_ & ? & _). congruence.
Qed.

(** C10.  [takeOwnership] always completes and always leaves the
    document in the tracked set of the client, whatever the state of the
    gate.  When the client is ready, the [didOpen] notification is on the
    transport before the set is changed; while the gate is pending, the
    set is changed during the call and the notification is only queued. *)
Theorem takeOwnership_tracks_at_once w this c document :
  clients w !! this = Some c ->
  exists w' c',
    takeOwnership this document w = (Normal tt, w') /\
    clients w' !! this = Some c' /\
    trackedDocuments c' = Set_add document (trackedDocuments c) /\
    document ∈ trackedDocuments c' /\
    (gate c = GateReady ->
       trace w' = trace w ++ [Transport this (didOpenParams document);
                              TrackedAdd this document]) /\
    (forall q, onReadyPromise c = Some (Pending q) -> gate c = GatePending ->
       trace w' = trace w ++ [TrackedAdd this document] /\
       onReadyPromise c' =
         Some (Pending (q ++ [SendNotification (didOpenParams document)]))).
Proof.
  intros Hc. unfold takeOwnership.
  destruct (notifyWhenReady_total w this c (didOpenParams document) Hc)
    as (w1 & c1 & Hrun1 & Hc1 & Htd1 & Hready & Hpending).
  unfold bind at 1. rewrite Hrun1. js_run.
  eexists _, _. split; [reflexivity|]. split; [lookup_solve|]. cbn.
  rewrite Htd1. split; [done|]. split.
  { unfold Set_add, Set_has. case_bool_decide; [done|].
    apply elem_of_app. right. by apply list_elem_of_singleton. }
  split.
  - intros Hg. rewrite (Hready Hg). by rewrite <- app_assoc.
  - intros q Hp Hg. destruct (Hpending q Hp Hg) as (-> & ->). done.
Qed.

Lemma takeOwnership_tracks_at_once_witness :
  clients oneFolderPending !! 0%nat = Some pendingClientA /\
  exists w' c',
    takeOwnership 0 docA oneFolderPending = (Normal tt, w') /\
    clients w' !! 0%nat = Some c' /\
    docA ∈ trackedDocuments c' /\
    trace w' = trace oneFolderPending ++ [TrackedAdd 0 docA].
Proof.
  split; [exact pendingClientA_stored|].
  destruct (takeOwnership_tracks_at_once oneFolderPending 0 pendingClientA
              docA pendingClientA_stored)
    as (w' & c' & Hrun & Hc' & _ & Hin & _ & Hpending).
  exists w', c'. split; [exact Hrun|]. split; [exact Hc'|].
  split; [exact Hin|]. exact (proj1 (Hpending [] eq_refl eq_refl)).
Defined.

(** ** [dispose] *)

Lemma forEach_emit {A} (f : A -> Event) l : forall w,
  forEach (fun x => emit (f x)) l w = (Normal tt, set_trace (trace w ++ map f l) w).
Proof.
  induction l as [|x l IH]; intros w; cbn.
  - by rewrite set_trace_nil.
  - unfold bind. cbn. rewrite IH. cbn. by rewrite <- app_assoc.
Qed.


Lemma dispose_eq w this c :
  clients w !! this = Some c ->
  dispose this w =
    (Normal tt,
     set_clients
       (<[this := set_model (forEachBinding (@DataBinding_dispose) (model c))
                    (set_disposables [] c)]> (clients w))
       (set_trace
          (trace w ++
           stopEvents this c ++ map (Disposed this) (disposables c)) w)).
Proof.
  intros Hc. unfold dispose, dispose_stop, dispose_then, stopEvents.
  unfold bind at 1 2. rewrite (getClient_eq _ _ _ Hc).
  destruct (languageClient c); cbn; unfold bind;
    erewrite getClient_eq by lookup_solve; rewrite forEach_emit;
    repeat (erewrite updateClient_eq by lookup_solve); cbn;
    rewrite ?insert_insert_eq, <- ?app_assoc, ?app_nil_r; reflexivity.
Qed.

(** C9, amended.  [dispose] completes normally on every client, one that
    never became ready included: every disposable is disposed of and the
    list is emptied, every binding of the session model is disposed of,
    so that no subscription is left, and the tracked documents are left
    as they were.  On a client that has become ready the transport is
    told to stop first, and that is all the transport is told.  What
    becomes of the transport of a client that has not become ready is
    not part of the statement. *)
Theorem dispose_releases_resources w this c :
  clients w !! this = Some c ->
  exists w' c' evs,
    dispose this w = (Normal tt, w') /\
    clients w' !! this = Some c' /\
    trace w' = trace w ++ evs ++ map (Disposed this) (disposables c) /\
    (gate c = GateReady -> evs = [TransportStop this]) /\
    disposables c' = [] /\
    modelSubscribers (model c') = [] /\
    trackedDocuments c' = trackedDocuments c.
Proof.
  intros Hc. rewrite (dispose_eq _ _ _ Hc).
  eexists _, _, (stopEvents this c). split; [reflexivity|].
  split; [lookup_solve|]. split; [done|]. split; [|by cbn].
  unfold gate, stopEvents. destruct (languageClient c); [done|].
  by destruct (_ && _).
Qed.

Lemma dispose_releases_resources_witness :
  clients oneFolderReady !! 0%nat = Some readyClientA /\
  gate readyClientA = GateReady /\
  modelSubscribers (model readyClientA) = [1%nat] /\
  exists w' c',
    dispose 0 oneFolderReady = (Normal tt, w') /\
    clients w' !! 0%nat = Some c' /\
    trace w' = trace oneFolderReady ++
               [TransportStop 0; Disposed 0 ConfigurationDisposable;
                Disposed 0 FileWatcherDisposable] /\
    modelSubscribers (model c') = [] /\
    trackedDocuments c' = [docA].
Proof.
  split; [exact readyClientA_stored|]. split; [reflexivity|].
  split; [reflexivity|].
  destruct (dispose_releases_resources oneFolderReady 0 readyClientA
              readyClientA_stored)
    as (w' & c' & evs & Hrun & Hc' & Htr & Hstop & _ & Hsub & Htd).
  exists w', c'. split; [exact Hrun|]. split; [exact Hc'|].
  split; [rewrite Htr, (Hstop eq_refl); reflexivity|].
  split; [exact Hsub|]. exact Htd.
Defined.

(** C9 as stated fails: a client that tracks [/a/x.cpp] still tracks it
    after [dispose] has completed. *)
Lemma dispose_keeps_tracked_documents :
  (trackedDocuments <$> clients oneFolderReady !! 0%nat) = Some [docA] /\
  (dispose 0 oneFolderReady).1 = Normal tt /\
  (trackedDocuments <$> clients (after (dispose 0) oneFolderReady) !! 0%nat)
  = Some [docA].
Proof. repeat split; vm_compute; reflexivity. Qed.

(** ** The registry's [replace] *)

Lemma policyEvents_app tr tr' :
  policyEvents (tr ++ tr') = policyEvents tr ++ policyEvents tr'.
Proof. apply List.filter_app. Qed.

Lemma policyEvents_Disposed this ds : policyEvents (map (Disposed this) ds) = [].
Proof. induction ds; [done|]. cbn. exact IHds. Qed.

Lemma policyEvents_stopEvents this c : policyEvents (stopEvents this c) = [].
Proof. unfold stopEvents. by destruct (languageClient c). Qed.

Lemma getLanguageServerFileName_world w :
  (getLanguageServerFileName w).2 = w.
Proof.
  unfold getLanguageServerFileName, bind, getWorld. cbn.
  repeat (destruct (String.eqb _ _); [done|]). done.
Qed.

Lemma newDefaultClient_eq w folder :
  exists w' cn evs,
    newDefaultClient folder w = (Normal (fresh (dom (clients w))), w') /\
    clients w' = <[fresh (dom (clients w)) := cn]> (clients w) /\
    arrays w' = <[fresh (dom (arrays w)) := []]> (arrays w) /\
    allClients w' = allClients w /\
    workspaceFolders w' = workspaceFolders w /\
    trace w' = trace w ++ evs /\ policyEvents evs = [] /\
    languageClient cn = None /\ trackedDocuments cn = [] /\
    crashTimes cn = fresh (dom (arrays w)).
Proof.
  unfold newDefaultClient, freshClient, freshArray, tryCatch, createLanguageClient.
  unfold bind. cbn -[getLanguageServerFileName].
  match goal with |- context [getLanguageServerFileName ?x] =>
    pose proof (getLanguageServerFileName_world x) as Hw;
    destruct (getLanguageServerFileName x) as [[s|e] w1] end;
    cbn in Hw; subst w1.
  - js_run. rewrite !insert_insert_eq.
    eexists _, _, _. split; [reflexivity|]. cbn.
    split; [reflexivity|]. split; [reflexivity|]. split; [reflexivity|].
    split; [reflexivity|]. split; [by rewrite <- !app_assoc|]. by cbn.
  - unfold unsupported. js_run. rewrite ?insert_insert_eq.
    destruct (failureMessageShown w); js_run.
    + eexists _, _, []. split; [reflexivity|]. cbn. rewrite app_nil_r.
      by repeat split.
    + eexists _, _, _. split; [reflexivity|]. cbn.
      split; [reflexivity|]. split; [reflexivity|]. split; [reflexivity|].
      split; [reflexivity|]. split; [reflexivity|]. by cbn.
Qed.

(** [takeOwnership] changes the client it is called on and nothing else,
    and the crash policy does not show in what it emits. *)
Lemma takeOwnership_local w r c d :
  clients w !! r = Some c ->
  exists w' c' evs,
    takeOwnership r d w = (Normal tt, w') /\
    clients w' = <[r := c']> (clients w) /\
    crashTimes c' = crashTimes c /\
    arrays w' = arrays w /\ allClients w' = allClients w /\
    workspaceFolders w' = workspaceFolders w /\
    trace w' = trace w ++ evs /\ policyEvents evs = [].
Proof.
  intros Hc. unfold takeOwnership, notifyWhenReady, thenOnReady, runReaction, attempt.
  unfold bind. rewrite (getClient_eq _ _ _ Hc).
  destruct (languageClient c) as [lc|] eqn:Hl.
  - rewrite (runThunk_eq _ _ _ _ Hc). unfold thunkResult. rewrite Hl. js_run.
    eexists _, _, _. split; [reflexivity|]. cbn. rewrite <- !app_assoc. repeat split; reflexivity.
  - destruct (isSupported c) eqn:Hs; cbn;
      [destruct (onReadyPromise c) as [[q|os]|] eqn:Hp; cbn|].
    + rewrite (getClient_eq _ _ _ Hc), Hp. js_run. rewrite insert_insert_eq.
      eexists _, _, _. split; [reflexivity|]. cbn. repeat split; reflexivity.
    + rewrite (getClient_eq _ _ _ Hc), Hp.
      rewrite (runThunk_eq _ _ _ _ Hc). unfold thunkResult. rewrite Hl. js_run.
      rewrite insert_insert_eq.
      eexists _, _, _. split; [reflexivity|]. unfold recordOutcome. rewrite Hp.
      cbn. rewrite <- ?app_assoc. repeat split; reflexivity.
    + js_run. eexists _, _, _. split; [reflexivity|]. cbn. repeat split; reflexivity.
    + js_run. eexists _, _, _. split; [reflexivity|]. cbn. repeat split; reflexivity.
Qed.

Lemma takeOwnership_all_local ds : forall w r c,
  clients w !! r = Some c ->
  exists w' c' evs,
    forEach (takeOwnership r) ds w = (Normal tt, w') /\
    clients w' !! r = Some c' /\
    (forall r', r' <> r -> clients w' !! r' = clients w !! r') /\
    crashTimes c' = crashTimes c /\
    arrays w' = arrays w /\ allClients w' = allClients w /\
    workspaceFolders w' = workspaceFolders w /\
    trace w' = trace w ++ evs /\ policyEvents evs = [].
Proof.
  induction ds as [|d ds IH]; intros w r c Hc.
  - exists w, c, []. cbn. rewrite app_nil_r. by repeat split.
  - destruct (takeOwnership_local w r c d Hc)
      as (w1 & c1 & evs1 & Hrun1 & Hcl1 & Hct1 & Har1 & Hreg1 & Hwf1 & Htr1 & Hpol1).
    assert (Hc1 : clients w1 !! r = Some c1) by (rewrite Hcl1; apply lookup_insert_eq).
    destruct (IH w1 r c1 Hc1)
      as (w2 & c2 & evs2 & Hrun2 & Hc2 & Hoth2 & Hct2 & Har2 & Hreg2 & Hwf2 & Htr2 & Hpol2).
    exists w2, c2, (evs1 ++ evs2). cbn. unfold bind. rewrite Hrun1.
    split; [exact Hrun2|]. split; [exact Hc2|]. split.
    { intros r' Hr'. rewrite (Hoth2 r' Hr'), Hcl1. by apply lookup_insert_ne. }
    split; [congruence|]. split; [congruence|]. split; [congruence|].
    split; [congruence|]. split; [by rewrite Htr2, Htr1, app_assoc|].
    by rewrite policyEvents_app, Hpol1, Hpol2.
Qed.

Lemma fresh_client_ne w r c :
  clients w !! r = Some c -> fresh (dom (clients w)) <> r.
Proof.
  intros Hc Heq. apply (is_fresh (dom (clients w))).
  rewrite Heq. apply elem_of_dom. eauto.
Qed.

Lemma fresh_array_ne w a l :
  arrays w !! a = Some l -> fresh (dom (arrays w)) <> a.
Proof.
  intros Ha Heq. apply (is_fresh (dom (arrays w))).
  rewrite Heq. apply elem_of_dom. eauto.
Qed.

(** Reading a field of a world that is given by its updates. *)
Tactic Notation "world_fields" "in" hyp(H) :=
  cbn [clients arrays allClients workspaceFolders trace failureMessageShown
       platform set_clients set_arrays set_trace set_allClients
       set_failureMessageShown] in H.

(** [replace(client, true)]: the old client is disposed of and a new one
    takes its slot.  The new client comes with a record of its own, a
    new and empty array; no array that existed before is touched. *)
Lemma replace_transfer w client c :
  clients w !! client = Some c ->
  exists w' cn c1 evs,
    let n := fresh (dom (clients w)) in
    ClientCollection_replace client true w = (Normal (Some n), w') /\
    n <> client /\
    clients w' !! n = Some cn /\
    crashTimes cn = fresh (dom (arrays w)) /\
    arrays w' !! crashTimes cn = Some [] /\
    clients w' !! client = Some c1 /\ crashTimes c1 = crashTimes c /\
    (forall a l, arrays w !! a = Some l -> arrays w' !! a = Some l) /\
    workspaceFolders w' = workspaceFolders w /\
    allClients w' = slotsAfterReplace client n (allClients w) /\
    trace w' = trace w ++ RegistryReplace client true :: evs /\
    policyEvents evs = [] /\
    (forall r, r <> client -> r <> n -> clients w' !! r = clients w !! r).
Proof.
  intros Hc. pose proof (fresh_client_ne w client c Hc) as Hne.
  unfold ClientCollection_replace. unfold bind at 1. cbn.
  unfold bind at 1. erewrite getClient_eq by lookup_solve.
  unfold bind at 1. erewrite dispose_eq by lookup_solve.
  cbn -[newDefaultClient forEach takeOwnership]. unfold bind at 1.
  match goal with |- context [newDefaultClient ?f ?x] =>
    destruct (newDefaultClient_eq x f)
      as (w3 & cn & evs3 & Hrun3 & Hcl3 & Har3 & Hreg3 & Hwf3 & Htr3 & Hpol3 & _ & _ & Hct3)
  end.
  world_fields in Hrun3. world_fields in Hcl3. world_fields in Har3.
  world_fields in Hreg3. world_fields in Hwf3. world_fields in Htr3.
  world_fields in Hct3.
  rewrite dom_insert_lookup_L in Hrun3, Hcl3 by eauto.
  rewrite Hrun3.
  unfold bind at 1.
  match goal with |- context [forEach _ _ ?x] =>
    edestruct (takeOwnership_all_local (trackedDocuments c) x (fresh (dom (clients w))))
      as (w5 & c5 & evs5 & Hrun5 & Hc5 & Hoth5 & Hct5 & Har5 & Hreg5 & Hwf5 & Htr5 & Hpol5);
      [rewrite Hcl3; apply lookup_insert_eq|]
  end.
  rewrite Hrun5.
  assert (Hc5' : exists c1, clients w5 !! client = Some c1 /\ crashTimes c1 = crashTimes c).
  { eexists. split.
    - rewrite Hoth5 by done.
      rewrite Hcl3. rewrite lookup_insert_ne by done. apply lookup_insert_eq.
    - done. }
  destruct Hc5' as (c1 & Hc1 & Hct1).
  unfold bind at 1. rewrite (updateClient_eq _ _ _ _ Hc1). cbn.
  eexists _, c5, _, _. split; [reflexivity|]. cbn.
  split; [done|]. split; [by rewrite lookup_insert_ne|].
  split; [congruence|].
  split; [rewrite Har5, Har3, Hct5, Hct3; apply lookup_insert_eq|].
  split; [apply lookup_insert_eq|]. split; [done|]. split.
  { intros a l Ha. rewrite Har5, Har3.
    rewrite lookup_insert_ne; [done|]. by apply (fresh_array_ne _ _ l). }
  split; [congruence|]. split; [by rewrite Hreg5, Hreg3|].
  split.
  { rewrite Htr5. cbn. rewrite Htr3. rewrite <- !app_assoc. cbn. reflexivity. }
  split.
  { rewrite !policyEvents_app, policyEvents_stopEvents, policyEvents_Disposed,
      Hpol3, Hpol5. done. }
  intros r Hr Hrn. rewrite lookup_insert_ne by done. rewrite Hoth5 by done.
  rewrite Hcl3.
  rewrite lookup_insert_ne by done. by rewrite lookup_insert_ne.
Qed.

(** [replace(client, false)]: the old client is disposed of and its slot
    is given up; nothing takes its place. *)
Lemma replace_stop w client c :
  clients w !! client = Some c ->
  exists w' evs,
    ClientCollection_replace client false w = (Normal None, w') /\
    dom (clients w') = dom (clients w) /\
    arrays w' = arrays w /\
    Forall (fun e => e.2 <> client) (languageClients (allClients w')) /\
    trace w' = trace w ++ RegistryReplace client false :: evs /\
    policyEvents evs = [] /\
    allClients w' = slotsAfterStop client (allClients w) /\
    (forall r, r <> client -> clients w' !! r = clients w !! r).
Proof.
  intros Hc. unfold ClientCollection_replace. unfold bind at 1. cbn.
  unfold bind at 1. erewrite getClient_eq by lookup_solve.
  unfold bind at 1. erewrite dispose_eq by lookup_solve. cbn.
  eexists _, _. split; [reflexivity|]. cbn.
  split; [apply dom_insert_lookup_L; eauto|]. split; [done|]. split.
  { apply Forall_forall. intros e He. unfold slotsAfterStop in He. cbn in He.
    by apply list_elem_of_filter in He as [? _]. }
  split; [by rewrite <- !app_assoc|].
  split; [by rewrite policyEvents_app, policyEvents_stopEvents,
            policyEvents_Disposed|].
  split; [done|]. intros r Hr. by rewrite lookup_insert_ne.
Qed.

(** ** The crash policy *)

(** The notice for a window with several folders is never the notice for
    a window with one. *)
Lemma crash_notices_differ serverName :
  crashNoticeMulti serverName <> crashNoticeSingle.
Proof. unfold crashNoticeMulti, crashNoticeSingle. cbn. discriminate. Qed.

(** The two paths of [closed] that end in a replacement, at once. *)
Lemma closed_replaces_eq w this c times now :
  clients w !! this = Some c ->
  arrays w !! crashTimes c = Some times ->
  (length (times ++ [now]) < 5)%nat \/
    (3 * 60 * 1000 < elapsed (times ++ [now]))%Z ->
  exists w' cn evs,
    let n := fresh (dom (clients w)) in
    closed this now w = (Normal DoNotRestart, w') /\
    trace w' = trace w ++ evs /\
    policyEvents evs = [RegistryReplace this true] /\
    n <> this /\
    allClients w' = slotsAfterReplace this n (allClients w) /\
    clients w' !! n = Some cn /\
    crashTimes cn = crashTimes c /\
    arrays w' !! crashTimes cn = Some (recordAfter (times ++ [now])) /\
    (forall r, r <> this -> r <> n -> clients w' !! r = clients w !! r) /\
    (forall a l, a <> crashTimes c -> arrays w !! a = Some l ->
                 arrays w' !! a = Some l) /\
    crashTimes cn <> fresh (dom (arrays w)) /\
    arrays w' !! fresh (dom (arrays w)) = Some [].
Proof.
  intros Hc Ha Hcase. unfold closed, recordAfter.
  assert (Hfresh : crashTimes c <> fresh (dom (arrays w))).
  { intros Heq. by apply (fresh_array_ne w (crashTimes c) times). }
  unfold bind at 1. rewrite (getClient_eq _ _ _ Hc).
  unfold bind at 1. rewrite (getArray_eq _ _ _ Ha).
  unfold bind at 1. cbn [putArray].
  unfold bind at 1. erewrite getArray_eq by lookup_solve.
  destruct (length (times ++ [now]) <? 5)%nat eqn:Hlen.
  - unfold bind at 1 2.
    match goal with |- context [ClientCollection_replace this true ?x] =>
      destruct (replace_transfer x this c)
        as (w2 & cn & c1 & evs & Hrun & Hne & Hcn & Hctn & Hnew & Hc1 & Hct1 & Har & _ & Hreg & Htr & Hpol & Hoth);
        [lookup_solve|]
    end.
    world_fields in Hrun. world_fields in Hne. world_fields in Hcn.
    world_fields in Har. world_fields in Hreg. world_fields in Htr.
    rewrite Hrun. unfold assignCrashTimes.
    unfold bind at 1. rewrite (getClient_eq _ _ _ Hc1).
    rewrite (updateClient_eq _ _ _ _ Hcn). cbn.
    eexists _, _, _. split; [reflexivity|]. cbn.
    split; [exact Htr|]. split; [unfold policyEvents in *; cbn; by rewrite Hpol|].
    split; [done|]. split; [done|]. split; [apply lookup_insert_eq|]. cbn.
    split; [done|]. split; [rewrite Hct1; apply Har; apply lookup_insert_eq|].
    split.
    { intros r Hr Hrn. rewrite lookup_insert_ne by done. by apply Hoth. }
    split; [intros a l Hne' Hal; apply Har; by rewrite lookup_insert_ne|].
    world_fields in Hctn. rewrite dom_insert_lookup_L in Hctn by eauto.
    split; [congruence|]. by rewrite <- Hctn.
  - assert (Hel' : (elapsed (times ++ [now]) <=? 3 * 60 * 1000)%Z = false).
    { apply Z.leb_gt. destruct Hcase as [Hlt|Hel]; [|lia].
      apply Nat.ltb_ge in Hlen. lia. }
    rewrite Hel'.
    unfold bind at 1 2. erewrite getArray_eq by lookup_solve.
    unfold bind at 1. cbn [putArray]. unfold bind at 1.
    cbn [clients arrays allClients workspaceFolders trace failureMessageShown
         platform set_clients set_arrays set_trace set_allClients
         set_failureMessageShown].
    match goal with |- context [ClientCollection_replace this true ?x] =>
      destruct (replace_transfer x this c)
        as (w2 & cn & c1 & evs & Hrun & Hne & Hcn & Hctn & Hnew & Hc1 & Hct1 & Har & _ & Hreg & Htr & Hpol & Hoth);
        [lookup_solve|]
    end.
    world_fields in Hrun. world_fields in Hne. world_fields in Hcn.
    world_fields in Har. world_fields in Hreg. world_fields in Htr.
    rewrite Hrun. unfold assignCrashTimes.
    unfold bind at 1. rewrite (getClient_eq _ _ _ Hc1).
    rewrite (updateClient_eq _ _ _ _ Hcn). cbn.
    eexists _, _, _. split; [reflexivity|]. cbn.
    split; [exact Htr|]. split; [unfold policyEvents in *; cbn; by rewrite Hpol|].
    split; [done|]. split; [done|]. split; [apply lookup_insert_eq|]. cbn.
    split; [done|]. split.
    { rewrite Hct1. apply Har. rewrite insert_insert_eq. apply lookup_insert_eq. }
    split.
    { intros r Hr Hrn. rewrite lookup_insert_ne by done. by apply Hoth. }
    split; [intros a l Hne' Hal; apply Har; by rewrite !lookup_insert_ne|].
    world_fields in Hctn.
    rewrite insert_insert_eq, dom_insert_lookup_L in Hctn by eauto.
    split; [congruence|]. by rewrite <- Hctn.
Qed.

(** The path of [closed] that ends with the session stopped. *)
Lemma closed_stops_eq w this c times now :
  clients w !! this = Some c ->
  arrays w !! crashTimes c = Some times ->
  (5 <= length (times ++ [now]))%nat ->
  (elapsed (times ++ [now]) <= 3 * 60 * 1000)%Z ->
  exists w' evs,
    closed this now w = (Normal DoNotRestart, w') /\
    trace w' = trace w ++ evs /\
    policyEvents evs =
      [ShowErrorMessage
         (if multiRoot w then crashNoticeMulti (getName (workspaceRoot c))
          else crashNoticeSingle);
       RegistryReplace this false] /\
    crashNoticeMulti (getName (workspaceRoot c)) <> crashNoticeSingle /\
    dom (clients w') = dom (clients w) /\
    Forall (fun e => e.2 <> this) (languageClients (allClients w')) /\
    allClients w' = slotsAfterStop this (allClients w) /\
    arrays w' = <[crashTimes c := times ++ [now]]> (arrays w) /\
    (forall r, r <> this -> clients w' !! r = clients w !! r).
Proof.
  intros Hc Ha Hlen Hel. unfold closed.
  unfold bind at 1. rewrite (getClient_eq _ _ _ Hc).
  unfold bind at 1. rewrite (getArray_eq _ _ _ Ha).
  unfold bind at 1. cbn [putArray].
  unfold bind at 1. erewrite getArray_eq by lookup_solve.
  assert (Hlen' : (length (times ++ [now]) <? 5)%nat = false)
    by (apply Nat.ltb_ge; lia).
  assert (Hel' : (elapsed (times ++ [now]) <=? 3 * 60 * 1000)%Z = false -> False)
    by (intros H; apply Z.leb_gt in H; lia).
  rewrite Hlen'. destruct (elapsed _ <=? _)%Z; [|by destruct Hel'].
  unfold bind at 1 2 3. cbn [getWorld]. cbv beta iota.
  change (multiRoot (set_arrays _ w)) with (multiRoot w).
  destruct (multiRoot w) eqn:Hmr; cbn [emit]; cbv beta iota;
    unfold bind at 1;
    (match goal with |- context [ClientCollection_replace this false ?x] =>
       destruct (replace_stop x this c)
         as (w2 & evs & Hrun & Hdom & Har & Hreg & Htr & Hpol & Hslots & Hoth);
         [lookup_solve|]
     end);
    world_fields in Hdom; world_fields in Htr; world_fields in Har;
    world_fields in Hslots; world_fields in Hoth;
    rewrite Hrun; cbn; eexists _, _; (split; [reflexivity|]);
    rewrite Htr, <- app_assoc;
    (split; [reflexivity|]);
    (split; [unfold policyEvents in *; cbn; by rewrite Hpol|]);
    (split; [apply crash_notices_differ|]); by repeat split.
Qed.

(** ** Invariants of every history *)

Section Frame.
  Variable R : World -> World -> Prop.
  Hypothesis R_refl : forall w, R w w.
  Hypothesis R_trans : forall w1 w2 w3, R w1 w2 -> R w2 w3 -> R w1 w3.

Lemma frame_unchanged {A} (m : M A) : (forall w, (m w).2 = w) -> frame R m.
Proof. intros Hm w. by rewrite Hm. Qed.

Lemma frame_ret {A} (a : A) : frame R (ret a).
Proof. by apply frame_unchanged. Qed.

Lemma frame_throw {A} e : frame R (@throw A e).
Proof. by apply frame_unchanged. Qed.

Lemma frame_getWorld : frame R getWorld.
Proof. by apply frame_unchanged. Qed.

Lemma frame_getClient r : frame R (getClient r).
Proof. apply frame_unchanged. intros w. unfold getClient. by destruct (_ !! _). Qed.

Lemma frame_getArray a : frame R (getArray a).
Proof. apply frame_unchanged. intros w. unfold getArray. by destruct (_ !! _). Qed.

Lemma frame_bind {A B} (m : M A) (k : A -> M B) :
  frame R m -> (forall a, frame R (k a)) -> frame R (bind m k).
Proof.
  intros Hm Hk w. unfold bind. specialize (Hm w).
  destruct (m w) as [[a|e] w']; cbn in Hm; [|exact Hm].
  apply (R_trans _ w'); [exact Hm | apply Hk].
Qed.

Lemma frame_tryCatch {A} (m h : M A) :
  frame R m -> frame R h -> frame R (tryCatch m h).
Proof.
  intros Hm Hh w. unfold tryCatch. specialize (Hm w).
  destruct (m w) as [[a|e] w']; cbn in Hm; [exact Hm|].
  apply (R_trans _ w'); [exact Hm | apply Hh].
Qed.

Lemma frame_attempt {A} (m : M A) : frame R m -> frame R (attempt m).
Proof.
  intros Hm w. unfold attempt. specialize (Hm w). by destruct (m w) as [[a|e] w'].
Qed.

Lemma frame_forEach {A} (f : A -> M unit) l :
  (forall x, frame R (f x)) -> frame R (forEach f l).
Proof.
  intros Hf. induction l; cbn; [apply frame_ret|]. by apply frame_bind.
Qed.

End Frame.

(** The structure of a computation, taken apart; [prim] deals with what
    is specific to the relation. *)
Ltac frame_go Hrefl Htrans prim :=
  repeat first
    [ apply (frame_ret _ Hrefl) | apply (frame_throw _ Hrefl)
    | apply (frame_getWorld _ Hrefl) | apply (frame_getClient _ Hrefl)
    | apply (frame_getArray _ Hrefl)
    | prim
    | apply (frame_tryCatch _ Htrans) | apply frame_attempt
    | apply (frame_forEach _ Hrefl Htrans); intros ?
    | apply (frame_bind _ Htrans); [|intros ?]
    | match goal with
      | |- frame _ (match ?x with _ => _ end) => destruct x
      | |- frame _ (if ?x then _ else _) => destruct x
      | |- frame _ (let _ := _ in _) => cbv zeta
      end ].

(** *** Clients stay configured *)

Lemma configuredStep_refl w : configuredStep w w.
Proof. by intros H. Qed.

Lemma configuredStep_trans w1 w2 w3 :
  configuredStep w1 w2 -> configuredStep w2 w3 -> configuredStep w1 w3.
Proof. intros H1 H2 H. by apply H2, H1. Qed.

Lemma configured_same_clients {A} (m : M A) :
  (forall w, clients (m w).2 = clients w) -> frame configuredStep m.
Proof. intros Hm w H r c. rewrite Hm. apply H. Qed.

Lemma configured_getClient_bind {B} r (k : DefaultClient -> M B) :
  (forall c, configured c -> frame configuredStep (k c)) ->
  frame configuredStep (bind (getClient r) k).
Proof.
  intros Hk w H. unfold bind, getClient.
  destruct (clients w !! r) as [c|] eqn:Hc; [|done].
  apply Hk; [by apply (H r)|done].
Qed.

Lemma configured_updateClient r f :
  (forall c, configured c -> configured (f c)) ->
  frame configuredStep (updateClient r f).
Proof.
  intros Hf w H. unfold updateClient, bind, getClient.
  destruct (clients w !! r) as [c|] eqn:Hc; [|done].
  intros r' c'. cbn. destruct (decide (r' = r)) as [->|Hne].
  - rewrite lookup_insert_eq. intros [= <-]. apply Hf. by apply (H r).
  - rewrite lookup_insert_ne by done. apply H.
Qed.

Lemma configured_putClient r c :
  configured c -> frame configuredStep (putClient r c).
Proof.
  intros Hc w H r' c'. cbn. destruct (decide (r' = r)) as [->|Hne].
  - rewrite lookup_insert_eq. by intros [= <-].
  - rewrite lookup_insert_ne by done. apply H.
Qed.

Create HintDb configured.

Ltac configured_prim :=
  first [ solve [auto with configured nocore]
        | apply configured_same_clients; done
        | apply configured_updateClient; intros ? ?;
          unfold configured in *; cbn; eauto
        | apply configured_getClient_bind; intros ? ? ].

Ltac configured_go :=
  frame_go configuredStep_refl configuredStep_trans configured_prim.

Lemma configured_runThunk r t : frame configuredStep (runThunk r t).
Proof. unfold runThunk. configured_go. Qed.

Lemma configured_runReaction r t : frame configuredStep (runReaction r t).
Proof.
  unfold runReaction.
  apply (frame_bind _ configuredStep_trans);
    [apply frame_attempt, configured_runThunk|].
  intros o. apply configured_updateClient. intros c Hc. unfold recordOutcome.
  by destruct (onReadyPromise c) as [[|]|].
Qed.
#[local] Hint Resolve configured_runThunk configured_runReaction : configured.

Lemma configured_thenOnReady r t : frame configuredStep (thenOnReady r t).
Proof. unfold thenOnReady. configured_go. Qed.
#[local] Hint Resolve configured_thenOnReady : configured.

Lemma configured_requestWhenReady r t :
  frame configuredStep (requestWhenReady r t).
Proof. unfold requestWhenReady. configured_go. Qed.

Lemma configured_notifyWhenReady r t :
  frame configuredStep (notifyWhenReady r t).
Proof. unfold notifyWhenReady. configured_go. Qed.
#[local] Hint Resolve configured_requestWhenReady configured_notifyWhenReady
  : configured.

Lemma configured_takeOwnership r d : frame configuredStep (takeOwnership r d).
Proof. unfold takeOwnership. configured_go. Qed.
#[local] Hint Resolve configured_takeOwnership : configured.

Lemma configured_perform r call : frame configuredStep (perform r call).
Proof.
  destruct call; cbn;
    unfold requestGoToDeclaration, requestSwitchHeaderSource,
      requestNavigationList, activeDocumentChanged, activate,
      selectionChanged, resetDatabase, deactivate, pauseParsing,
      resumeParsing, handleConfigurationSelectCommand,
      handleShowParsingCommands, handleConfigurationEditCommand,
      handleAddToIncludePathCommand; configured_go.
Qed.
#[local] Hint Resolve configured_perform : configured.

Lemma configured_unsupported r : frame configuredStep (unsupported r).
Proof. unfold unsupported. configured_go. Qed.
#[local] Hint Resolve configured_unsupported : configured.

Lemma configured_settleOnReadyPromise r :
  frame configuredStep (settleOnReadyPromise r).
Proof. unfold settleOnReadyPromise. configured_go. Qed.
#[local] Hint Resolve configured_settleOnReadyPromise : configured.

Lemma configured_newDefaultClient folder :
  frame configuredStep (newDefaultClient folder).
Proof.
  unfold newDefaultClient, freshClient, freshArray, createLanguageClient,
    getLanguageServerFileName.
  configured_go. apply configured_putClient. intros [? ?]. discriminate.
Qed.
#[local] Hint Resolve configured_newDefaultClient : configured.

Lemma configured_dispose r : frame configuredStep (dispose r).
Proof. unfold dispose, dispose_stop, dispose_then. configured_go. Qed.
#[local] Hint Resolve configured_dispose : configured.

Lemma configured_replace r b :
  frame configuredStep (ClientCollection_replace r b).
Proof. unfold ClientCollection_replace. configured_go. Qed.
#[local] Hint Resolve configured_replace : configured.

Lemma configured_closed r now : frame configuredStep (closed r now).
Proof. unfold closed, assignCrashTimes. configured_go. Qed.
#[local] Hint Resolve configured_closed : configured.

Lemma configured_onInterval r : frame configuredStep (onInterval r).
Proof. unfold onInterval. configured_go. Qed.
#[local] Hint Resolve configured_onInterval : configured.

(** The one place where [languageClient] is assigned: by then the
    configuration has been assigned as well. *)
Lemma configured_onReadyFulfilledHandler r :
  frame configuredStep (onReadyFulfilledHandler r).
Proof.
  intros w H. destruct (clients w !! r) as [c|] eqn:Hc.
  - destruct (onReadyFulfilledHandler_eq w r c Hc)
      as (w' & c' & Hrun & Hc' & _ & Hcfg & _ & _ & _ & _ & _ & _ & Hoth).
    rewrite Hrun. cbn. intros r' c''. destruct (decide (r' = r)) as [->|Hne].
    + rewrite Hc'. intros [= <-] _. by rewrite Hcfg.
    + rewrite Hoth by done. apply H.
  - unfold onReadyFulfilledHandler, bind, getClient. by rewrite Hc.
Qed.
#[local] Hint Resolve configured_onReadyFulfilledHandler : configured.

Lemma configured_intercept r h args next :
  (forall l, frame configuredStep (next l)) ->
  frame configuredStep (intercept (createProtocolFilter r) h args next).
Proof.
  intros Hnext.
  destruct args as [|a [|b [|c [|d [|e [|f ?]]]]]]; destruct h; cbn;
    unfold defaultHandler, filter_willSaveWaitUntil, invoke1, invoke2,
      invoke3, invoke4, invoke5, meIsActive; configured_go.
Qed.

Lemma configured_exec op : frame configuredStep (exec op).
Proof.
  destruct op; cbn;
    unfold openFolder, onReadyFulfilled, onReadyRejected, filter_didOpen,
      filter_didClose, meIsActive, sendDidOpen, sendDidClose,
      setActiveClient, activate, deactivate, pauseParsing, resumeParsing;
    try (apply (frame_bind _ configuredStep_trans);
         [apply configured_intercept; intros ?; unfold sendToServer|intros ?]);
    configured_go.
Qed.

Theorem reachable_configured w : reachable w -> allConfigured w.
Proof.
  intros (w0 & ops & Hw0 & _ & ->). revert w0 Hw0.
  assert (Hgen : forall w0, allConfigured w0 -> allConfigured (run ops w0)).
  { induction ops as [|op ops IH]; intros w0 H0; [done|].
    cbn. apply IH. by apply configured_exec. }
  intros w0 Hw0. apply Hgen. intros r c. by rewrite Hw0, lookup_empty.
Qed.

(** *** Crash records stay bounded *)

Lemma sameRecords_refl w : sameRecords w w.
Proof. repeat split. eauto. Qed.

Lemma sameRecords_trans w1 w2 w3 :
  sameRecords w1 w2 -> sameRecords w2 w3 -> sameRecords w1 w3.
Proof.
  intros (Ha1 & Hl1 & Hc1) (Ha2 & Hl2 & Hc2).
  split; [congruence|]. split; [congruence|].
  intros r c Hc. destruct (Hc1 r c Hc) as (c' & Hc' & Hct').
  destruct (Hc2 r c' Hc') as (c'' & Hc'' & Hct''). exists c''. split; congruence.
Qed.

Lemma sameRecords_same_stores {A} (m : M A) :
  (forall w, clients (m w).2 = clients w /\ arrays (m w).2 = arrays w /\
             liveClients (m w).2 = liveClients w) ->
  frame sameRecords m.
Proof.
  intros Hm w. destruct (Hm w) as (Hc & Ha & Hl).
  split; [done|]. split; [done|]. intros r c. rewrite Hc. eauto.
Qed.

Lemma sameRecords_updateClient r f :
  (forall c, crashTimes (f c) = crashTimes c) ->
  frame sameRecords (updateClient r f).
Proof.
  intros Hf w. unfold updateClient, bind, getClient.
  destruct (clients w !! r) as [c|] eqn:Hc; [|apply sameRecords_refl].
  split; [done|]. split; [done|]. cbn. intros r' c' Hc'.
  destruct (decide (r' = r)) as [->|Hne].
  - rewrite lookup_insert_eq. exists (f c). split; [done|]. rewrite Hf. congruence.
  - rewrite lookup_insert_ne by done. eauto.
Qed.

Create HintDb records.

Ltac records_prim :=
  first [ solve [auto with records nocore]
        | apply sameRecords_same_stores; done
        | apply sameRecords_updateClient; intros ?; try reflexivity ].

Ltac records_go := frame_go sameRecords_refl sameRecords_trans records_prim.

Lemma sameRecords_runThunk r t : frame sameRecords (runThunk r t).
Proof. unfold runThunk. records_go. Qed.

Lemma sameRecords_runReaction r t : frame sameRecords (runReaction r t).
Proof.
  unfold runReaction.
  apply (frame_bind _ sameRecords_trans);
    [apply frame_attempt, sameRecords_runThunk|].
  intros o. apply sameRecords_updateClient. intros c. unfold recordOutcome.
  by destruct (onReadyPromise c) as [[|]|].
Qed.
#[local] Hint Resolve sameRecords_runThunk sameRecords_runReaction : records.

Lemma sameRecords_thenOnReady r t : frame sameRecords (thenOnReady r t).
Proof. unfold thenOnReady. records_go. Qed.
#[local] Hint Resolve sameRecords_thenOnReady : records.

Lemma sameRecords_requestWhenReady r t : frame sameRecords (requestWhenReady r t).
Proof. unfold requestWhenReady. records_go. Qed.

Lemma sameRecords_notifyWhenReady r t : frame sameRecords (notifyWhenReady r t).
Proof. unfold notifyWhenReady. records_go. Qed.
#[local] Hint Resolve sameRecords_requestWhenReady sameRecords_notifyWhenReady
  : records.

Lemma sameRecords_perform r call : frame sameRecords (perform r call).
Proof.
  destruct call; cbn;
    unfold requestGoToDeclaration, requestSwitchHeaderSource,
      requestNavigationList, takeOwnership, activeDocumentChanged, activate,
      selectionChanged, resetDatabase, deactivate, pauseParsing,
      resumeParsing, handleConfigurationSelectCommand,
      handleShowParsingCommands, handleConfigurationEditCommand,
      handleAddToIncludePathCommand; records_go.
Qed.

Lemma sameRecords_intercept r h args next :
  (forall l, frame sameRecords (next l)) ->
  frame sameRecords (intercept (createProtocolFilter r) h args next).
Proof.
  intros Hnext.
  destruct args as [|a [|b [|c [|d [|e [|f ?]]]]]]; destruct h; cbn;
    unfold defaultHandler, filter_willSaveWaitUntil, invoke1, invoke2,
      invoke3, invoke4, invoke5, meIsActive; records_go.
Qed.

Lemma sameRecords_exec op : isQuiet op = true -> frame sameRecords (exec op).
Proof.
  destruct op; try discriminate; intros _; cbn;
    unfold onReadyFulfilled, onReadyRejected, onReadyFulfilledHandler,
      registerFileWatcher, settleOnReadyPromise, unsupported, onInterval,
      dispose, dispose_stop, dispose_then, filter_didOpen,
      filter_didClose, meIsActive, sendDidOpen, sendDidClose,
      setActiveClient, activate, deactivate, pauseParsing, resumeParsing;
    try apply sameRecords_perform;
    try (apply (frame_bind _ sameRecords_trans);
         [apply sameRecords_intercept; intros ?; unfold sendToServer|intros ?]);
    records_go.
Qed.

Lemma sameRecords_bounded w w' :
  sameRecords w w' -> recordsBounded w -> recordsBounded w'.
Proof.
  intros (Ha & Hl & Hc) (Hnd & Hrec & Halias).
  split; [by rewrite Hl|]. split.
  - intros r Hr. rewrite Hl in Hr.
    destruct (Hrec r Hr) as (c & times & Hcr & Har & Hlen).
    destruct (Hc r c Hcr) as (c' & Hc' & Hct').
    exists c', times. by rewrite Hct', Ha.
  - intros r1 r2 c1 c2 Hr1 Hr2 Hc1 Hc2 Heq. rewrite Hl in Hr1, Hr2.
    destruct (Hrec r1 Hr1) as (d1 & _ & Hd1 & _).
    destruct (Hrec r2 Hr2) as (d2 & _ & Hd2 & _).
    destruct (Hc r1 d1 Hd1) as (d1' & Hd1' & Hct1).
    destruct (Hc r2 d2 Hd2) as (d2' & Hd2' & Hct2).
    apply (Halias r1 r2 d1 d2); try done. congruence.
Qed.

Lemma live_in_store w r :
  recordsBounded w -> r ∈ liveClients w -> fresh (dom (clients w)) <> r.
Proof.
  intros (_ & Hrec & _) Hr. destruct (Hrec r Hr) as (c & _ & Hc & _).
  by apply (fresh_client_ne w r c).
Qed.

Lemma bounded_openFolder folder w :
  recordsBounded w -> recordsBounded (after (openFolder folder) w).
Proof.
  intros Hinv. pose proof Hinv as (Hnd & Hrec & Halias).
  unfold after, openFolder, bind.
  destruct (newDefaultClient_eq w (Some folder))
    as (w1 & cn & evs & Hrun & Hcl & Har & Hreg & _ & _ & _ & _ & _ & Hct).
  rewrite Hrun. cbn.
  set (n := fresh (dom (clients w))) in *.
  assert (Hlive : liveClients
            (set_allClients (register (Some (fsPath folder)) n (allClients w1)) w1)
          = liveClients w ++ [n]).
  { unfold liveClients. cbn. by rewrite fmap_app, Hreg. }
  assert (Hfresh : n ∉ liveClients w).
  { intros Hin. by apply (live_in_store w n Hinv). }
  assert (Hold : forall r, r ∈ liveClients w ->
            exists c times, clients w1 !! r = Some c /\ clients w !! r = Some c /\
              arrays w1 !! crashTimes c = Some times /\
              crashTimes c <> crashTimes cn /\ (length times <= 4)%nat).
  { intros r Hr. destruct (Hrec r Hr) as (c & times & Hc & Ha & Hlen).
    exists c, times. rewrite Hcl, Har, Hct.
    assert (fresh (dom (arrays w)) <> crashTimes c)
      by (by apply (fresh_array_ne _ _ times)).
    rewrite !lookup_insert_ne by (done || (intros ->; by apply Hfresh)).
    by repeat split. }
  assert (Hnew : clients w1 !! n = Some cn /\ arrays w1 !! crashTimes cn = Some [])
    by (rewrite Hcl, Har, Hct; split; apply lookup_insert_eq).
  split; [|split].
  - rewrite Hlive. apply NoDup_app. split; [done|]. split.
    + intros x Hx Hx'. apply list_elem_of_singleton in Hx'. by subst.
    + apply NoDup_singleton.
  - intros r. rewrite Hlive. cbn. intros [Hr|Hr%list_elem_of_singleton]%elem_of_app.
    + destruct (Hold r Hr) as (c & times & Hc & _ & Ha & _ & Hlen). by exists c, times.
    + subst r. destruct Hnew as (Hc & Ha). exists cn, []. cbn. repeat split; try done. lia.
  - intros r1 r2 c1 c2. rewrite Hlive. cbn.
    intros [Hr1|Hr1%list_elem_of_singleton]%elem_of_app
           [Hr2|Hr2%list_elem_of_singleton]%elem_of_app Hc1 Hc2 Heq.
    + destruct (Hold r1 Hr1) as (d1 & _ & Hd1 & Hd1' & _).
      destruct (Hold r2 Hr2) as (d2 & _ & Hd2 & Hd2' & _).
      apply (Halias r1 r2 d1 d2); try done. congruence.
    + subst r2. destruct (Hold r1 Hr1) as (d1 & _ & Hd1 & _ & _ & Hne & _).
      destruct Hnew as (Hcn & _). congruence.
    + subst r1. destruct (Hold r2 Hr2) as (d2 & _ & Hd2 & _ & _ & Hne & _).
      destruct Hnew as (Hcn & _). congruence.
    + congruence.
Qed.

Lemma liveClients_slotsAfterReplace client n cc :
  (languageClients (slotsAfterReplace client n cc)).*2 =
  (fun x => if bool_decide (x = client) then n else x) <$> (languageClients cc).*2.
Proof.
  cbn. rewrite <- !list_fmap_compose. apply list_fmap_ext.
  intros i [k x] _. cbn. by case_bool_decide.
Qed.

Lemma liveClients_slotsAfterStop client cc :
  (languageClients (slotsAfterStop client cc)).*2 =
  filter (fun x => x <> client) (languageClients cc).*2.
Proof.
  unfold slotsAfterStop. cbn [languageClients].
  induction (languageClients cc) as [|[k x] l IH]; [done|].
  rewrite fmap_cons, !filter_cons. cbn [snd].
  destruct (decide (x <> client)); [rewrite fmap_cons|]; by rewrite IH.
Qed.

Lemma bounded_closed r now w :
  recordsBounded w -> r ∈ liveClients w ->
  recordsBounded (after (closed r now) w).
Proof.
  intros Hinv Hr. pose proof Hinv as (Hnd & Hrec & Halias).
  destruct (Hrec r Hr) as (c & times & Hc & Ha & Hlen).
  pose proof (fun x => live_in_store w x Hinv) as Hfresh.
  destruct (decide ((length (times ++ [now]) < 5)%nat \/
                    (3 * 60 * 1000 < elapsed (times ++ [now]))%Z)) as [Hcase|Hcase].
  - destruct (closed_replaces_eq w r c times now Hc Ha Hcase)
      as (w' & cn & evs & Hrun & _ & _ & Hne & Hreg & Hcn & Hct & Harr & Hoth & Harrs).
    cbv zeta in *. set (n := fresh (dom (clients w))) in *.
    unfold after. rewrite Hrun. cbn.
    assert (Hlive : liveClients w' =
              (fun x => if bool_decide (x = r) then n else x) <$> liveClients w).
    { unfold liveClients. rewrite Hreg. apply liveClients_slotsAfterReplace. }
    assert (Hbound : (length (recordAfter (times ++ [now])) <= 4)%nat).
    { unfold recordAfter. destruct (_ <? _)%nat eqn:Hlt.
      - apply Nat.ltb_lt in Hlt. lia.
      - destruct times; cbn; rewrite ?length_app; cbn in *; lia. }
    assert (Hold : forall x, x ∈ liveClients w -> x <> r ->
              exists d ts, clients w' !! x = Some d /\ clients w !! x = Some d /\
                arrays w' !! crashTimes d = Some ts /\
                crashTimes d <> crashTimes c /\ (length ts <= 4)%nat).
    { intros x Hx Hxr. destruct (Hrec x Hx) as (d & ts & Hd & Hda & Hdl).
      assert (crashTimes d <> crashTimes c).
      { intros Heq. apply Hxr. by apply (Halias x r d c). }
      exists d, ts. rewrite Hoth by (done || by apply not_eq_sym, Hfresh).
      repeat split; try done. by apply Harrs. }
    split; [|split].
    + rewrite Hlive. apply NoDup_fmap_2_strong; [|done].
      intros x y Hx Hy Heq.
      destruct (decide (x = r)) as [Hxr|Hxr], (decide (y = r)) as [Hyr|Hyr];
        rewrite ?(bool_decide_eq_true_2 _ Hxr), ?(bool_decide_eq_true_2 _ Hyr),
          ?(bool_decide_eq_false_2 _ Hxr), ?(bool_decide_eq_false_2 _ Hyr) in Heq;
        [congruence | by destruct (Hfresh y Hy) | by destruct (Hfresh x Hx) | done].
    + intros x. rewrite Hlive. intros (y & -> & Hy)%list_elem_of_fmap.
      case_bool_decide as Hyr.
      * exists cn, (recordAfter (times ++ [now])). by repeat split.
      * destruct (Hold y Hy Hyr) as (d & ts & Hd & _ & Hda & _ & Hdl).
        by exists d, ts.
    + intros x1 x2 c1 c2. rewrite Hlive.
      intros (y1 & -> & Hy1)%list_elem_of_fmap (y2 & -> & Hy2)%list_elem_of_fmap.
      destruct (decide (y1 = r)) as [Hr1|Hr1], (decide (y2 = r)) as [Hr2|Hr2];
        rewrite ?(bool_decide_eq_true_2 _ Hr1), ?(bool_decide_eq_true_2 _ Hr2),
          ?(bool_decide_eq_false_2 _ Hr1), ?(bool_decide_eq_false_2 _ Hr2);
        intros Hc1 Hc2 Heq.
      * done.
      * destruct (Hold y2 Hy2 Hr2) as (d & _ & Hd & _ & _ & Hne2 & _).
        exfalso. apply Hne2. congruence.
      * destruct (Hold y1 Hy1 Hr1) as (d & _ & Hd & _ & _ & Hne1 & _).
        exfalso. apply Hne1. congruence.
      * destruct (Hold y1 Hy1 Hr1) as (d1 & _ & Hd1 & Hd1' & _).
        destruct (Hold y2 Hy2 Hr2) as (d2 & _ & Hd2 & Hd2' & _).
        apply (Halias y1 y2 d1 d2); try done. congruence.
  - assert (Hlen5 : (5 <= length (times ++ [now]))%nat) by lia.
    assert (Hel : (elapsed (times ++ [now]) <= 3 * 60 * 1000)%Z) by lia.
    destruct (closed_stops_eq w r c times now Hc Ha Hlen5 Hel)
      as (w' & evs & Hrun & _ & _ & _ & _ & _ & Hreg & Harr & Hoth).
    unfold after. rewrite Hrun. cbn.
    assert (Hlive : liveClients w' = filter (fun x => x <> r) (liveClients w)).
    { unfold liveClients. rewrite Hreg. apply liveClients_slotsAfterStop. }
    assert (Hold : forall x, x ∈ liveClients w' ->
              x ∈ liveClients w /\
              exists d ts, clients w' !! x = Some d /\ clients w !! x = Some d /\
                arrays w' !! crashTimes d = Some ts /\ (length ts <= 4)%nat).
    { intros x. rewrite Hlive. intros (Hxr & Hx)%list_elem_of_filter.
      split; [done|]. destruct (Hrec x Hx) as (d & ts & Hd & Hda & Hdl).
      exists d, ts. rewrite Hoth by done. repeat split; try done.
      rewrite Harr, lookup_insert_ne; [done|].
      intros Heq. apply Hxr. by apply (Halias x r d c). }
    split; [|split].
    + rewrite Hlive. by apply NoDup_filter.
    + intros x Hx. destruct (Hold x Hx) as (_ & d & ts & Hd & _ & Hda & Hdl).
      by exists d, ts.
    + intros x1 x2 c1 c2 Hx1 Hx2 Hc1 Hc2 Heq.
      destruct (Hold x1 Hx1) as (Hl1 & d1 & _ & Hd1 & Hd1' & _).
      destruct (Hold x2 Hx2) as (Hl2 & d2 & _ & Hd2 & Hd2' & _).
      apply (Halias x1 x2 d1 d2); try done. congruence.
Qed.

Lemma bounded_exec op w : recordsBounded w -> recordsBounded (after (exec op) w).
Proof.
  intros Hinv. destruct (isQuiet op) eqn:Hq.
  - apply (sameRecords_bounded w); [|done]. by apply sameRecords_exec.
  - destruct op; try discriminate.
    + unfold after. cbn. unfold bind.
      pose proof (bounded_openFolder folder w Hinv) as H. unfold after in H.
      by destruct (openFolder folder w) as [[?|?] ?].
    + unfold after. cbn. unfold bind. cbn. case_bool_decide as Hlive; [|done].
      pose proof (bounded_closed r now w Hinv Hlive) as H. unfold after in H.
      by destruct (closed r now w) as [[?|?] ?].
Qed.

(** The same for the bound on the crash records. *)
Theorem reachable_bounded w0 ops :
  liveClients w0 = [] -> recordsBounded (run ops w0).
Proof.
  intros Hw0.
  assert (Hgen : forall w, recordsBounded w -> recordsBounded (run ops w)).
  { induction ops as [|op ops IH]; intros w H; [done|].
    cbn. apply IH. by apply bounded_exec. }
  apply Hgen. unfold recordsBounded. rewrite Hw0.
  split; [apply NoDup_nil_2|]. split; [by intros r Hr%elem_of_nil|].
  by intros r1 r2 c1 c2 Hr%elem_of_nil.
Qed.

(** ** The crash policy, continued *)

(** C2.  A crash that leaves fewer than 5 entries in the record: the
    handler returns [DoNotRestart]; its only decision is the instruction
    [replace(this, true)] to the registry, and no notice is shown; the
    new client takes the slot of the old one.  The registry returns it
    with the record it was constructed with, a new and empty array; the
    assignment [newClient.crashTimes = this.crashTimes] puts the very
    array of the old client in its place, which holds the old entries
    followed by the new timestamp, and the empty array is left behind. *)
Theorem closed_below_threshold_replaces w this c times now :
  clients w !! this = Some c ->
  arrays w !! crashTimes c = Some times ->
  (length (times ++ [now]) < 5)%nat ->
  exists w' cn evs,
    let n := fresh (dom (clients w)) in
    closed this now w = (Normal DoNotRestart, w') /\
    trace w' = trace w ++ evs /\
    policyEvents evs = [RegistryReplace this true] /\
    n <> this /\
    allClients w' = slotsAfterReplace this n (allClients w) /\
    clients w' !! n = Some cn /\
    crashTimes cn = crashTimes c /\
    arrays w' !! crashTimes cn = Some (times ++ [now]) /\
    crashTimes cn <> fresh (dom (arrays w)) /\
    arrays w' !! fresh (dom (arrays w)) = Some [].
Proof.
  intros Hc Ha Hlen.
  destruct (closed_replaces_eq w this c times now Hc Ha (or_introl Hlen))
    as (w' & cn & evs & Hrun & Htr & Hpol & Hne & Hreg & Hcn & Hct & Harr
        & _ & _ & Hown & Hempty).
  exists w', cn, evs. unfold recordAfter in Harr.
  apply Nat.ltb_lt in Hlen. rewrite Hlen in Harr. by repeat split.
Qed.

Lemma closed_below_threshold_replaces_witness :
  clients (crashed [t0; t0 + 30000]%Z) !! 2%nat = Some pendingClientA /\
  arrays (crashed [t0; t0 + 30000]%Z) !! crashTimes pendingClientA
    = Some [t0; t0 + 30000]%Z /\
  (length ([t0; t0 + 30000] ++ [t0 + 40000])%Z < 5)%nat /\
  exists w' cn,
    closed 2 (t0 + 40000) (crashed [t0; t0 + 30000]%Z)
      = (Normal DoNotRestart, w') /\
    clients w' !! 3%nat = Some cn /\
    crashTimes cn = crashTimes pendingClientA /\
    arrays w' !! crashTimes cn = Some [t0; t0 + 30000; t0 + 40000]%Z.
Proof.
  assert (Hc : clients (crashed [t0; t0 + 30000]%Z) !! 2%nat = Some pendingClientA)
    by (vm_compute; reflexivity).
  assert (Ha : arrays (crashed [t0; t0 + 30000]%Z) !! crashTimes pendingClientA
               = Some [t0; t0 + 30000]%Z) by (vm_compute; reflexivity).
  assert (Hlen : (length ([t0; t0 + 30000] ++ [t0 + 40000])%Z < 5)%nat)
    by (cbn; lia).
  split; [exact Hc|]. split; [exact Ha|]. split; [exact Hlen|].
  destruct (closed_below_threshold_replaces _ 2 pendingClientA
              [t0; t0 + 30000]%Z (t0 + 40000)%Z Hc Ha Hlen)
    as (w' & cn & evs & Hrun & _ & _ & _ & _ & Hcn & Hct & Harr & _).
  exists w', cn. split; [exact Hrun|]. split; [exact Hcn|].
  split; [exact Hct|]. exact Harr.
Defined.

(** C3.  A crash that leaves at least 5 entries in the record, the oldest
    more than 3 minutes before the newest: the handler returns
    [DoNotRestart]; its only decision is the instruction
    [replace(this, true)]; the record loses its oldest entry and nothing
    else, so it ends with the new timestamp, and in every world that the
    operations lead to, the client being one that the registry holds, it
    is left with 4 entries; the new client takes the slot of the old one.
    The registry returns it with the record it was constructed with, a
    new and empty array; the assignment
    [newClient.crashTimes = this.crashTimes] puts that same trimmed array
    in its place, and the empty array is left behind. *)
Theorem closed_spread_out_drops_oldest w this c times now :
  clients w !! this = Some c ->
  arrays w !! crashTimes c = Some times ->
  (5 <= length (times ++ [now]))%nat ->
  (3 * 60 * 1000 < elapsed (times ++ [now]))%Z ->
  exists w' cn evs oldest rest,
    let n := fresh (dom (clients w)) in
    closed this now w = (Normal DoNotRestart, w') /\
    trace w' = trace w ++ evs /\
    policyEvents evs = [RegistryReplace this true] /\
    n <> this /\
    allClients w' = slotsAfterReplace this n (allClients w) /\
    clients w' !! n = Some cn /\
    crashTimes cn = crashTimes c /\
    times ++ [now] = oldest :: rest /\
    arrays w' !! crashTimes cn = Some rest /\
    List.last rest 0%Z = now /\
    (reachable w -> this ∈ liveClients w -> length rest = 4%nat) /\
    crashTimes cn <> fresh (dom (arrays w)) /\
    arrays w' !! fresh (dom (arrays w)) = Some [].
Proof.
  intros Hc Ha Hlen Hel.
  destruct (closed_replaces_eq w this c times now Hc Ha (or_intror Hel))
    as (w' & cn & evs & Hrun & Htr & Hpol & Hne & Hreg & Hcn & Hct & Harr
        & _ & _ & Hown & Hempty).
  unfold recordAfter in Harr.
  assert (Hlen' : (length (times ++ [now]) <? 5)%nat = false)
    by (apply Nat.ltb_ge; lia).
  rewrite Hlen' in Harr.
  destruct (times ++ [now]) as [|oldest rest] eqn:Hrec; [cbn in Hlen; lia|].
  exists w', cn, evs, oldest, rest. cbn in Harr.
  split; [exact Hrun|]. split; [exact Htr|]. split; [exact Hpol|].
  split; [exact Hne|]. split; [exact Hreg|]. split; [exact Hcn|].
  split; [exact Hct|]. split; [reflexivity|]. split; [exact Harr|]. split.
  { destruct rest as [|x rest]; [cbn in Hlen; lia|].
    assert (Hl : List.last (times ++ [now]) 0%Z = now) by apply last_last.
    rewrite Hrec in Hl. exact Hl. }
  split; [|by split].
  - intros (w0 & ops & _ & Hw0 & ->) Hlive.
    destruct (reachable_bounded w0 ops Hw0) as (_ & Hbound & _).
    destruct (Hbound this Hlive) as (c' & times' & Hc' & Ha' & Hle).
    assert (c' = c) as -> by congruence.
    assert (times' = times) as -> by congruence.
    apply (f_equal length) in Hrec. rewrite length_app in *. cbn in *. lia.
Qed.

Lemma closed_spread_out_drops_oldest_witness :
  clients (crashed spreadTimes) !! 4%nat = Some pendingClientA /\
  arrays (crashed spreadTimes) !! crashTimes pendingClientA = Some spreadTimes /\
  (5 <= length (spreadTimes ++ [t0 + 250000]%Z))%nat /\
  (3 * 60 * 1000 < elapsed (spreadTimes ++ [t0 + 250000]))%Z /\
  exists w' cn,
    closed 4 (t0 + 250000) (crashed spreadTimes) = (Normal DoNotRestart, w') /\
    clients w' !! 5%nat = Some cn /\
    arrays w' !! crashTimes cn
      = Some [t0 + 60000; t0 + 130000; t0 + 200000; t0 + 250000]%Z.
Proof.
  assert (Hc : clients (crashed spreadTimes) !! 4%nat = Some pendingClientA)
    by (vm_compute; reflexivity).
  assert (Ha : arrays (crashed spreadTimes) !! crashTimes pendingClientA
               = Some spreadTimes) by (vm_compute; reflexivity).
  assert (Hlen : (5 <= length (spreadTimes ++ [t0 + 250000]%Z))%nat)
    by (cbn; lia).
  assert (Hel : (3 * 60 * 1000 < elapsed (spreadTimes ++ [t0 + 250000]))%Z)
    by (vm_compute; reflexivity).
  split; [exact Hc|]. split; [exact Ha|]. split; [exact Hlen|].
  split; [exact Hel|].
  destruct (closed_spread_out_drops_oldest _ 4 pendingClientA spreadTimes
              (t0 + 250000)%Z Hc Ha Hlen Hel)
    as (w' & cn & evs & oldest & rest & Hrun & _ & _ & _ & _ & Hcn & _ & Hrec & Harr & _).
  exists w', cn. split; [exact Hrun|]. split; [exact Hcn|].
  injection Hrec as _ <-. exact Harr.
Defined.

(** C1.  A crash that leaves at least 5 entries in the record, the oldest
    at most 3 minutes before the newest: the handler returns
    [DoNotRestart]; it shows one notice and then gives the registry the
    instruction [replace(this, false)], and decides nothing else; the
    notice is the one that names the server when the window has several
    folders and the plain one otherwise, and the two differ; no client is
    created and the slot of the crashed client is given up. *)
Theorem closed_burst_stops_permanently w this c times now :
  clients w !! this = Some c ->
  arrays w !! crashTimes c = Some times ->
  (5 <= length (times ++ [now]))%nat ->
  (elapsed (times ++ [now]) <= 3 * 60 * 1000)%Z ->
  exists w' evs,
    closed this now w = (Normal DoNotRestart, w') /\
    trace w' = trace w ++ evs /\
    policyEvents evs =
      [ShowErrorMessage
         (if multiRoot w then crashNoticeMulti (getName (workspaceRoot c))
          else crashNoticeSingle);
       RegistryReplace this false] /\
    crashNoticeMulti (getName (workspaceRoot c)) <> crashNoticeSingle /\
    dom (clients w') = dom (clients w) /\
    Forall (fun e => e.2 <> this) (languageClients (allClients w')).
Proof.
  intros Hc Ha Hlen Hel.
  destruct (closed_stops_eq w this c times now Hc Ha Hlen Hel)
    as (w' & evs & Hrun & Htr & Hpol & Hdiff & Hdom & Hslot & _).
  exists w', evs. by repeat split.
Qed.

Lemma closed_burst_stops_permanently_witness :
  clients (crashed burstTimes) !! 4%nat = Some pendingClientA /\
  arrays (crashed burstTimes) !! crashTimes pendingClientA = Some burstTimes /\
  (5 <= length (burstTimes ++ [t0 + 60000]%Z))%nat /\
  (elapsed (burstTimes ++ [t0 + 60000]) <= 3 * 60 * 1000)%Z /\
  exists w' evs,
    closed 4 (t0 + 60000) (crashed burstTimes) = (Normal DoNotRestart, w') /\
    trace w' = trace (crashed burstTimes) ++ evs /\
    policyEvents evs =
      [ShowErrorMessage
         "The language server for 'a' crashed 5 times in the last 3 minutes. It will not be restarted.";
       RegistryReplace 4 false].
Proof.
  assert (Hc : clients (crashed burstTimes) !! 4%nat = Some pendingClientA)
    by (vm_compute; reflexivity).
  assert (Ha : arrays (crashed burstTimes) !! crashTimes pendingClientA
               = Some burstTimes) by (vm_compute; reflexivity).
  assert (Hlen : (5 <= length (burstTimes ++ [t0 + 60000]%Z))%nat)
    by (cbn; lia).
  assert (Hel : (elapsed (burstTimes ++ [t0 + 60000]) <= 3 * 60 * 1000)%Z)
    by (vm_compute; discriminate).
  split; [exact Hc|]. split; [exact Ha|]. split; [exact Hlen|].
  split; [exact Hel|].
  destruct (closed_burst_stops_permanently _ 4 pendingClientA burstTimes
              (t0 + 60000)%Z Hc Ha Hlen Hel)
    as (w' & evs & Hrun & Htr & Hpol & _).
  exists w', evs. split; [exact Hrun|]. split; [exact Htr|]. exact Hpol.
Defined.

(** ** [onInterval], continued *)

Lemma oneFolderReady_reachable : reachable oneFolderReady.
Proof.
  exists initialWorld,
    [OpenFolder folderA; Subscribe 0 ActiveConfigChanged 1; ReadyFulfilled 0;
     DidOpen 0 docA].
  split; [reflexivity|]. split; [reflexivity|]. vm_compute. reflexivity.
Qed.

Lemma oneFolderPending_reachable : reachable oneFolderPending.
Proof.
  exists initialWorld, [OpenFolder folderA].
  split; [reflexivity|]. split; [reflexivity|]. vm_compute. reflexivity.
Qed.

(** C8.  In every world that the operations lead to, [onInterval] on a
    client whose gate is not Ready (still pending, in particular) returns
    normally and leaves the world exactly as it was: nothing is sent,
    nothing is queued, nothing is checked.  On a client whose gate is
    Ready it sends the interval-timer notification and then has the
    configuration re-checked. *)
Theorem onInterval_dropped_until_ready w this c :
  reachable w ->
  clients w !! this = Some c ->
  (gate c <> GateReady -> onInterval this w = (Normal tt, w)) /\
  (gate c = GateReady ->
     onInterval this w =
       (Normal tt,
        set_trace (trace w ++ [Transport this IntervalTimerNotification;
                               Collaborator this CheckCppProperties]) w)).
Proof.
  intros Hr Hc. split.
  - intros Hg. apply (onInterval_not_ready _ _ _ Hc).
    destruct (languageClient c) eqn:Hl; [|done].
    exfalso. apply Hg. apply gate_ready. by rewrite Hl.
  - intros Hg. apply gate_ready in Hg as [lc Hl].
    destruct (reachable_configured w Hr this c Hc) as [cfg Hcfg];
      [by rewrite Hl|].
    by apply (onInterval_ready _ _ _ _ _ Hc Hl Hcfg).
Qed.

Lemma onInterval_dropped_until_ready_witness :
  reachable oneFolderPending /\
  clients oneFolderPending !! 0%nat = Some pendingClientA /\
  onInterval 0 oneFolderPending = (Normal tt, oneFolderPending).
Proof.
  split; [exact oneFolderPending_reachable|].
  split; [exact pendingClientA_stored|].
  apply (onInterval_dropped_until_ready oneFolderPending 0 pendingClientA
           oneFolderPending_reachable pendingClientA_stored).
  discriminate.
Defined.

(** The same at a client that is ready. *)
Lemma onInterval_ready_example :
  onInterval 0 oneFolderReady =
    (Normal tt,
     set_trace (trace oneFolderReady ++
                [Transport 0 IntervalTimerNotification;
                 Collaborator 0 CheckCppProperties]) oneFolderReady).
Proof.
  by apply (onInterval_ready oneFolderReady 0 readyClientA
              (mkLanguageClient "cpptools: a") (mkCppProperties "/a")
              readyClientA_stored).
Qed.

(** * The rest of the client: concrete worlds *)

Lemma sampleSettings_NoDup : NoDup sampleSettings.*1.
Proof. apply (bool_decide_unpack _). vm_compute. reflexivity. Defined.

Lemma readyClientA0_stored : clients twoFolders !! 0%nat = Some readyClientA0.
Proof. vm_compute. reflexivity. Qed.

Lemma readyClientB_stored : clients twoFolders !! 1%nat = Some readyClientB.
Proof. vm_compute. reflexivity. Qed.

Lemma unsupportedClient_stored :
  clients unsupportedStarted !! 0%nat = Some unsupportedClient.
Proof. vm_compute. reflexivity. Qed.

(** * The rest of the client: properties *)

(** ** JavaScript strings *)

Lemma chars_str l : JsString.chars (JsString.str l) = l.
Proof. apply String.list_ascii_of_string_of_list_ascii. Qed.

Lemma str_chars s : JsString.str (JsString.chars s) = s.
Proof. apply String.string_of_list_ascii_of_string. Qed.

Lemma chars_app a b :
  JsString.chars (a +:+ b) = JsString.chars a ++ JsString.chars b.
Proof.
  induction a as [|x a IH]; [done|].
  change (JsString.chars (String x (a +:+ b)) = x :: JsString.chars a ++ JsString.chars b).
  cbn. f_equal. exact IH.
Qed.

Lemma str_app k l : JsString.str (k ++ l) = JsString.str k +:+ JsString.str l.
Proof.
  rewrite <- (str_chars (JsString.str k +:+ JsString.str l)).
  by rewrite chars_app, !chars_str.
Qed.

Lemma chars_inj a b : JsString.chars a = JsString.chars b -> a = b.
Proof. intros H. by rewrite <- (str_chars a), <- (str_chars b), H. Qed.

Lemma endsWith_true s p :
  JsString.endsWith s p = true <-> exists k, s = k +:+ p.
Proof.
  unfold JsString.endsWith. rewrite bool_decide_eq_true. split.
  - intros [k Hk]. exists (JsString.str k). apply chars_inj.
    by rewrite chars_app, chars_str.
  - intros [k ->]. exists (JsString.chars k). apply chars_app.
Qed.

(** A string that ends differently does not end with [p]. *)
Lemma endsWith_last s p x y :
  last (JsString.chars p) = Some x -> last (JsString.chars s) = Some y ->
  x <> y -> JsString.endsWith s p = false.
Proof.
  intros Hp Hs Hxy. unfold JsString.endsWith. apply bool_decide_eq_false.
  intros [k Hk]. rewrite Hk, last_app, Hp in Hs. congruence.
Qed.

Lemma JsString_length_app a b :
  JsString.length (a +:+ b) = (JsString.length a + JsString.length b)%Z.
Proof. unfold JsString.length. rewrite chars_app, length_app. lia. Qed.

(** [s.substring(0, end)] is the first [end] code units of [s]. *)
Lemma substring_from_0 s e :
  JsString.substring s 0 e = JsString.str (take (Z.to_nat e) (JsString.chars s)).
Proof.
  unfold JsString.substring, JsString.length. cbv zeta.
  set (n := length (JsString.chars s)).
  assert (Hn : length (JsString.chars s) = n) by done. clearbody n.
  rewrite (Z.max_l 0 0), (Z.min_l 0 (Z.of_nat n)) by lia.
  destruct (Z.le_gt_cases e 0), (Z.le_gt_cases e (Z.of_nat n)).
  - rewrite (Z.max_r e 0), (Z.min_l 0 (Z.of_nat n)), Z.min_l, Z.max_l by lia.
    rewrite (Z2Nat.nonpos e) by lia. done.
  - rewrite (Z.max_r e 0), (Z.min_l 0 (Z.of_nat n)), Z.min_l, Z.max_l by lia.
    rewrite (Z2Nat.nonpos e) by lia. done.
  - rewrite (Z.max_l e 0), (Z.min_l e (Z.of_nat n)), Z.min_l, Z.max_r by lia.
    change (Z.to_nat 0) with 0%nat. by rewrite drop_0, Z.sub_0_r.
  - rewrite (Z.max_l e 0), (Z.min_r e (Z.of_nat n)), Z.min_l, Z.max_r by lia.
    rewrite Z.sub_0_r, Nat2Z.id. change (Z.to_nat 0) with 0%nat.
    rewrite drop_0. rewrite (take_ge (JsString.chars s) n), (take_ge (JsString.chars s) (Z.to_nat e)) by lia. done.
Qed.

(** ** [navigate] *)

Lemma bindingValue_setValue {T} (v : T) b :
  isDisposed b = false -> bindingValue (DataBinding_setValue v b) = v.
Proof. intros H. unfold DataBinding_setValue. by rewrite H. Qed.

(** The breadcrumb that the status bar is given.  A navigation text that
    fits the configured length is shown as it is; a longer one is cut to
    three characters less than the limit and gets an ellipsis, which
    makes it exactly as long as the limit, or three characters long when
    the limit is below three.  Nothing is sent and the file associations
    are left alone. *)
Theorem navigate_shortens_breadcrumb inherited w this c navigation maxLength assoc :
  clients w !! this = Some c ->
  JsString.startsWith navigation "<def" = false ->
  isDisposed (navigationLocation (model c)) = false ->
  exists w' c',
    navigate inherited this navigation maxLength assoc w = (Normal None, w') /\
    clients w' !! this = Some c' /\
    trace w' = trace w /\
    let shown := bindingValue (navigationLocation (model c')) in
    ((JsString.length navigation <= maxLength)%Z -> shown = navigation) /\
    ((maxLength < JsString.length navigation)%Z ->
       shown = JsString.substr2 navigation 0 (Z.to_nat (maxLength - 3)) +:+ "..." /\
       JsString.length shown = Z.max maxLength 3).
Proof.
  intros Hc Hdef Hd. unfold navigate. rewrite Hdef. unfold bind.
  erewrite updateClient_eq by exact Hc. cbn.
  eexists _, _. split; [reflexivity|]. split; [apply lookup_insert_eq|].
  split; [done|]. cbn. rewrite bindingValue_setValue by done.
  split.
  - intros Hle. apply Z.ltb_ge in Hle. by rewrite Hle.
  - intros Hlt. pose proof Hlt as Hlt'. apply Z.ltb_lt in Hlt'. rewrite Hlt'.
    assert (Heq : JsString.substring navigation 0 (maxLength - 3) =
                  JsString.substr2 navigation 0 (Z.to_nat (maxLength - 3))).
    { rewrite substring_from_0. unfold JsString.substr2. cbn [drop]. done. }
    rewrite Heq. split; [done|].
    rewrite JsString_length_app. unfold JsString.substr2, JsString.length in *.
    rewrite chars_str, drop_0, length_take.
    change (length (JsString.chars "...")) with 3%nat. lia.
Qed.

Lemma navigate_shortens_breadcrumb_witness :
  exists w' c',
    navigate objectPrototype 0 "Widget::paintEvent(QPaintEvent *)" 12 ∅
      oneFolderReady = (Normal None, w') /\
    clients w' !! 0%nat = Some c' /\
    bindingValue (navigationLocation (model c')) = "Widget::p...".
Proof.
  destruct (navigate_shortens_breadcrumb objectPrototype oneFolderReady 0
              readyClientA "Widget::paintEvent(QPaintEvent *)" 12 ∅
              readyClientA_stored eq_refl eq_refl)
    as (w' & c' & Hrun & Hc' & _ & _ & Hlong).
  exists w', c'. split; [exact Hrun|]. split; [exact Hc'|].
  exact (proj1 (Hlong eq_refl)).
Defined.

(** ** [addFileAssociations] *)

Section AddFileAssociationsFacts.
Variable inherited : string -> bool.

Lemma hasProperty_mono key (a1 a2 : gmap string string) :
  a1 ⊆ a2 -> hasProperty inherited key a1 = true ->
  hasProperty inherited key a2 = true.
Proof.
  unfold hasProperty. intros Hsub H. apply orb_true_iff in H as [H|H].
  - apply bool_decide_eq_true in H as [v Hv]. apply orb_true_iff. left.
    apply bool_decide_eq_true. exists v. by eapply lookup_weaken.
  - by rewrite H, orb_true_r.
Qed.

Lemma covered_mono file (a1 a2 : gmap string string) :
  a1 ⊆ a2 -> covered inherited file a1 = true -> covered inherited file a2 = true.
Proof.
  unfold covered. cbv zeta. intros Hsub H.
  pose proof (fun key => hasProperty_mono key a1 a2 Hsub) as Hm.
  apply orb_true_iff in H as [H|H]; [apply orb_true_iff in H as [H|H]|].
  - by rewrite (Hm _ H).
  - by rewrite (Hm _ H), orb_true_r.
  - apply andb_true_iff in H as [Hj H]. rewrite Hj. cbn.
    apply orb_true_iff in H as [H|H]; rewrite (Hm _ H);
      by rewrite ?orb_true_r.
Qed.

Lemma covered_own file (a : gmap string string) :
  is_Some (a !! file) -> covered inherited file a = true.
Proof.
  intros H. unfold covered, hasProperty. by rewrite (bool_decide_eq_true_2 _ H).
Qed.

Lemma not_covered_fresh file (a : gmap string string) :
  covered inherited file a = false -> a !! file = None.
Proof.
  intros H. destruct (a !! file) eqn:E; [|done].
  rewrite covered_own in H by (rewrite E; eauto). done.
Qed.

Lemma associate_eq is_c a f file :
  associate inherited is_c (a, f) file =
  if covered inherited file a then (a, f)
  else (<[file := if is_c then "c" else "cpp"]> a, true).
Proof.
  unfold associate, covered. cbv zeta. cbn [fst].
  destruct (hasProperty inherited file a); cbn; [done|].
  destruct (hasProperty inherited ("**/" +:+ file) a); cbn; [done|].
  destruct (negb _ && _); done.
Qed.

(** The loop: it only adds, what it adds are listed files that were not
    covered, it reports to have found something unless every file was
    covered, and when it is done every listed file is covered. *)
Lemma associate_loop is_c files : forall a0 f0,
  exists a f,
    foldl (associate inherited is_c) (a0, f0) files = (a, f) /\
    a0 ⊆ a /\
    (forall file lang, a !! file = Some lang ->
       a0 !! file = Some lang \/
       (a0 !! file = None /\ file ∈ files /\
        lang = (if is_c then "c" else "cpp") /\
        covered inherited file a0 = false)) /\
    (Forall (fun file => covered inherited file a0 = true) files ->
       a = a0 /\ f = f0) /\
    (~ Forall (fun file => covered inherited file a0 = true) files ->
       f = true /\ a0 ⊂ a) /\
    Forall (fun file => covered inherited file a = true) files.
Proof.
  induction files as [|file files IH]; intros a0 f0.
  { exists a0, f0. cbn. repeat split; auto. }
  cbn [foldl]. rewrite associate_eq.
  destruct (covered inherited file a0) eqn:Hcov.
  - destruct (IH a0 f0) as (a & f & Hrun & Hsub & Hnew & Hall & Hsome & Hfin).
    exists a, f. split; [done|]. split; [done|]. split; [|split; [|split]].
    + intros g lang Hg. destruct (Hnew g lang Hg) as [?|(? & ? & ? & ?)]; [by left|].
      right. repeat split; try done. by apply elem_of_cons; right.
    + intros H. apply Forall_cons in H as [_ H]. by apply Hall.
    + intros H. apply Hsome. intros H'. apply H. by constructor.
    + constructor; [by eapply covered_mono|done].
  - set (lang0 := if is_c then "c" else "cpp").
    pose proof (not_covered_fresh _ _ Hcov) as Hfresh.
    destruct (IH (<[file := lang0]> a0) true)
      as (a & f & Hrun & Hsub & Hnew & Hall & Hsome & Hfin).
    assert (Hsub0 : a0 ⊆ <[file := lang0]> a0) by by apply insert_subseteq.
    assert (Hf : f = true).
    { destruct (decide (Forall (fun g => covered inherited g (<[file := lang0]> a0) = true) files))
        as [H|H]; [by apply Hall|by apply Hsome]. }
    exists a, f. split; [done|]. split; [by etrans|]. split; [|split; [|split]].
    + intros g lang Hg. destruct (Hnew g lang Hg) as [H|(H1 & H2 & H3 & H4)].
      * destruct (decide (g = file)) as [->|Hne].
        -- rewrite lookup_insert_eq in H. injection H as <-. right.
           repeat split; try done. by apply elem_of_cons; left.
        -- rewrite lookup_insert_ne in H by done. by left.
      * right. assert (g <> file).
        { intros ->. by rewrite lookup_insert_eq in H1. }
        rewrite lookup_insert_ne in H1 by done.
        repeat split; try done; [by apply elem_of_cons; right|].
        destruct (covered inherited g a0) eqn:E; [|done].
        by rewrite (covered_mono _ _ _ Hsub0 E) in H4.
    + intros H. apply Forall_cons in H as [H _]. congruence.
    + intros _. split; [done|].
      apply map_subset_alt. split; [by etrans|].
      exists file. split; [done|].
      eapply lookup_weaken_is_Some; [|exact Hsub]. rewrite lookup_insert_eq. eauto.
    + constructor; [|done]. apply covered_own.
      eapply lookup_weaken_is_Some; [|exact Hsub]. rewrite lookup_insert_eq. eauto.
Qed.

(** What [addFileAssociations] writes to the settings extends what it
    read: every association that was there is kept as it was, at least
    one is new, and a new one maps a file that the payload lists, and
    that nothing in the settings covered, to the language of the
    payload. *)
Theorem addFileAssociations_only_adds fileAssociations assoc assoc' :
  addFileAssociations inherited fileAssociations assoc = Some assoc' ->
  assoc ⊂ assoc' /\
  forall file lang, assoc' !! file = Some lang ->
    assoc !! file = Some lang \/
    (assoc !! file = None /\
     file ∈ listedFiles fileAssociations /\
     lang = payloadLanguage fileAssociations /\
     covered inherited file assoc = false).
Proof.
  unfold addFileAssociations, payloadLanguage. cbv zeta.
  destruct (associate_loop (JsString.startsWith fileAssociations "c")
              (listedFiles fileAssociations) assoc false)
    as (a & f & Hrun & Hsub & Hnew & Hall & Hsome & _).
  rewrite Hrun. cbn. destruct f; [|done]. intros [= <-].
  split; [|exact Hnew].
  destruct (decide (Forall (fun g => covered inherited g assoc = true)
                      (listedFiles fileAssociations))) as [H|H].
  - by destruct (Hall H).
  - by destruct (Hsome H).
Qed.

(** Nothing is written to the settings exactly when every file that the
    payload lists is covered by them already. *)
Theorem addFileAssociations_writes_unless_covered fileAssociations assoc :
  addFileAssociations inherited fileAssociations assoc = None <->
  Forall (fun file => covered inherited file assoc = true)
         (listedFiles fileAssociations).
Proof.
  unfold addFileAssociations. cbv zeta.
  destruct (associate_loop (JsString.startsWith fileAssociations "c")
              (listedFiles fileAssociations) assoc false)
    as (a & f & Hrun & _ & _ & Hall & Hsome & _).
  rewrite Hrun. cbn. split.
  - intros H. destruct f; [done|].
    destruct (decide (Forall (fun g => covered inherited g assoc = true)
                        (listedFiles fileAssociations))) as [H'|H']; [done|].
    by destruct (Hsome H').
  - intros H. destruct (Hall H) as [_ ->]. done.
Qed.

(** Handling the same payload again, on the settings as they were
    written, writes nothing. *)
Theorem addFileAssociations_twice fileAssociations assoc assoc' :
  addFileAssociations inherited fileAssociations assoc = Some assoc' ->
  addFileAssociations inherited fileAssociations assoc' = None.
Proof.
  unfold addFileAssociations. cbv zeta.
  destruct (associate_loop (JsString.startsWith fileAssociations "c")
              (listedFiles fileAssociations) assoc false)
    as (a & f & Hrun & _ & _ & _ & _ & Hfin).
  rewrite Hrun. cbn. destruct f; [|done]. intros [= <-].
  destruct (associate_loop (JsString.startsWith fileAssociations "c")
              (listedFiles fileAssociations) a false)
    as (a2 & f2 & Hrun2 & _ & _ & Hall2 & _ & _).
  rewrite Hrun2. cbn. by destruct (Hall2 Hfin) as [_ ->].
Qed.

End AddFileAssociationsFacts.

Lemma addFileAssociations_only_adds_witness :
  exists assoc',
    addFileAssociations objectPrototype "c>;main.c;util.h;" headerAssociations
      = Some assoc' /\
    headerAssociations ⊂ assoc' /\
    assoc' !! "main.c" = Some "c" /\
    assoc' !! "util.h" = None.
Proof.
  eexists. split; [reflexivity|].
  split; [|split; reflexivity].
  apply (addFileAssociations_only_adds objectPrototype "c>;main.c;util.h;").
  reflexivity.
Defined.

Lemma addFileAssociations_twice_witness :
  exists assoc',
    addFileAssociations objectPrototype "c>;main.c;util.h;" headerAssociations
      = Some assoc' /\
    addFileAssociations objectPrototype "c>;main.c;util.h;" assoc' = None.
Proof.
  eexists. split; [reflexivity|].
  apply (addFileAssociations_twice objectPrototype "c>;main.c;util.h;"
           headerAssociations).
  reflexivity.
Defined.

(** *** What the payload lists *)

Lemma substr_app h s :
  JsString.substr (h +:+ s) (List.length (JsString.chars h)) = s.
Proof.
  unfold JsString.substr. by rewrite chars_app, drop_app_length, str_chars.
Qed.

Lemma splitChars_nonempty sep l : JsString.splitChars sep l <> [].
Proof.
  destruct l as [|c l]; cbn; [done|].
  case_bool_decide; [done|]. by destruct (JsString.splitChars sep l).
Qed.

Lemma splitChars_app sep x y :
  JsString.splitChars sep (x ++ sep :: y) =
  JsString.splitChars sep x ++ JsString.splitChars sep y.
Proof.
  induction x as [|c x IH]; cbn.
  - by rewrite bool_decide_eq_true_2.
  - case_bool_decide; [by rewrite IH|]. rewrite IH.
    pose proof (splitChars_nonempty sep x).
    by destruct (JsString.splitChars sep x).
Qed.

Lemma splitChars_none sep l : sep ∉ l -> JsString.splitChars sep l = [l].
Proof.
  induction l as [|c l IH]; [done|]. intros H. cbn.
  apply not_elem_of_cons in H as [H1 H2].
  rewrite bool_decide_eq_false_2 by done. by rewrite IH.
Qed.

Lemma split_terminated names tail :
  ";"%char ∉ JsString.chars tail ->
  removelast (JsString.split (names +:+ ";" +:+ tail) ";"%char) =
  JsString.split names ";"%char.
Proof.
  intros H. unfold JsString.split. rewrite !chars_app.
  change (JsString.chars ";") with [";"%char]. cbn [app].
  rewrite splitChars_app, (splitChars_none _ _ H), fmap_app. cbn.
  apply removelast_last.
Qed.

(** Only names that end in a semicolon count.  After the header, the
    payload lists the names between semicolons; what follows the last
    semicolon is not visited by the loop, so it changes nothing. *)
Theorem addFileAssociations_ignores_unterminated_name
  inherited (is_c : bool) names tail assoc :
  ";"%char ∉ JsString.chars tail ->
  let header := if is_c then "c>;" else ">;" in
  listedFiles (header +:+ names +:+ ";" +:+ tail) = JsString.split names ";"%char /\
  addFileAssociations inherited (header +:+ names +:+ ";" +:+ tail) assoc =
  addFileAssociations inherited (header +:+ names +:+ ";") assoc.
Proof.
  intros H header.
  assert (Hl : forall t, ";"%char ∉ JsString.chars t ->
            listedFiles (header +:+ names +:+ ";" +:+ t) =
            JsString.split names ";"%char /\
            JsString.startsWith (header +:+ names +:+ ";" +:+ t) "c" = is_c).
  { intros t Ht. unfold listedFiles, header. cbv zeta.
    destruct is_c.
    - assert (Hs : JsString.startsWith ("c>;" +:+ names +:+ ";" +:+ t) "c" = true).
      { apply bool_decide_eq_true. rewrite chars_app.
        by exists (JsString.chars (">;" +:+ names +:+ ";" +:+ t)). }
      rewrite Hs. split; [|done].
      replace (JsString.substr ("c>;" +:+ names +:+ ";" +:+ t) 3)
        with (names +:+ ";" +:+ t)
        by (symmetry; apply (substr_app "c>;")).
      by apply split_terminated.
    - assert (Hs : JsString.startsWith (">;" +:+ names +:+ ";" +:+ t) "c" = false).
      { apply bool_decide_eq_false. rewrite chars_app. intros [k Hk]. done. }
      rewrite Hs. split; [|done].
      replace (JsString.substr (">;" +:+ names +:+ ";" +:+ t) 2)
        with (names +:+ ";" +:+ t)
        by (symmetry; apply (substr_app ">;")).
      by apply split_terminated. }
  destruct (Hl tail H) as [H1 H2].
  destruct (Hl "" ltac:(cbn; apply not_elem_of_nil)) as [H3 H4].
  split; [done|].
  assert (Hnil : names +:+ ";" +:+ "" = names +:+ ";").
  { apply chars_inj. rewrite !chars_app.
    change (JsString.chars "") with (@nil Ascii.ascii). by rewrite app_nil_r. }
  rewrite Hnil in H3, H4.
  unfold addFileAssociations. cbv zeta. by rewrite H1, H2, H3, H4.
Qed.

Lemma addFileAssociations_ignores_unterminated_name_witness :
  listedFiles (">;" +:+ "a.cpp;b.cpp" +:+ ";" +:+ "c.cpp") = ["a.cpp"; "b.cpp"] /\
  addFileAssociations objectPrototype
    (">;" +:+ "a.cpp;b.cpp" +:+ ";" +:+ "c.cpp") ∅ =
  addFileAssociations objectPrototype (">;" +:+ "a.cpp;b.cpp" +:+ ";") ∅.
Proof.
  apply (addFileAssociations_ignores_unterminated_name objectPrototype false
           "a.cpp;b.cpp" "c.cpp" ∅).
  apply (bool_decide_unpack _). vm_compute. reflexivity.
Defined.

(** ** [updateStatus] *)

Lemma last_chars_app k p x :
  last (JsString.chars p) = Some x -> last (JsString.chars (k +:+ p)) = Some x.
Proof. intros H. by rewrite chars_app, last_app, H. Qed.

Ltac ends_differently :=
  first [ reflexivity | apply last_chars_app; reflexivity | discriminate ].

(** The two statuses that end in [Ready] are told apart by the order of
    the tests.  A status that ends in [IntelliSense Ready] ends the
    IntelliSense update and leaves the tag-parsing flag alone; any other
    status that ends in [Ready] ends tag parsing, leaves the IntelliSense
    flag alone and reports the workspace as parsed.  Either way only the
    model of this client changes. *)
Theorem updateStatus_tells_Ready_from_IntelliSense_Ready w this c prefix show :
  clients w !! this = Some c ->
  (exists w',
     updateStatus this (prefix +:+ "IntelliSense Ready") show w =
       (Normal [SetProgress ProgressExecutableSuccess], w') /\
     w' = set_clients
            (<[this := set_model (set_isUpdatingIntelliSense false (model c)) c]>
               (clients w)) w) /\
  (JsString.endsWith prefix "IntelliSense " = false ->
   exists w',
     updateStatus this (prefix +:+ "Ready") show w =
       (Normal [SetProgress ProgressExecutableSuccess;
                SetProgress ProgressParseRootSuccess], w') /\
     w' = set_clients
            (<[this := set_model (set_isTagParsing false (model c)) c]>
               (clients w)) w).
Proof.
  intros Hc. split.
  - unfold updateStatus. cbv zeta.
    rewrite (endsWith_last _ "Indexing..." "."%char "y"%char)
      by ends_differently.
    rewrite (endsWith_last _ "Updating IntelliSense..." "."%char "y"%char)
      by ends_differently.
    rewrite (proj2 (endsWith_true _ "IntelliSense Ready")) by eauto.
    unfold bind. erewrite updateClient_eq by exact Hc. cbn. eauto.
  - intros Hp. unfold updateStatus. cbv zeta.
    rewrite (endsWith_last _ "Indexing..." "."%char "y"%char)
      by ends_differently.
    rewrite (endsWith_last _ "Updating IntelliSense..." "."%char "y"%char)
      by ends_differently.
    assert (Hno : JsString.endsWith (prefix +:+ "Ready") "IntelliSense Ready" = false).
    { apply bool_decide_eq_false. intros Hs. apply bool_decide_eq_false in Hp.
      apply Hp. rewrite chars_app in Hs.
      change (JsString.chars "IntelliSense Ready")
        with (JsString.chars "IntelliSense " ++ JsString.chars "Ready") in Hs.
      by apply suffix_app_inv in Hs. }
    rewrite Hno. rewrite (proj2 (endsWith_true _ "Ready")) by eauto.
    unfold bind. erewrite updateClient_eq by exact Hc. cbn. eauto.
Qed.

Lemma updateStatus_tells_Ready_from_IntelliSense_Ready_witness :
  (updateStatus 0 ("C/C++: " +:+ "IntelliSense Ready") true oneFolderReady).1 =
    Normal [SetProgress ProgressExecutableSuccess] /\
  (updateStatus 0 ("C/C++: " +:+ "Ready") true oneFolderReady).1 =
    Normal [SetProgress ProgressExecutableSuccess;
            SetProgress ProgressParseRootSuccess].
Proof.
  destruct (updateStatus_tells_Ready_from_IntelliSense_Ready oneFolderReady 0
              readyClientA "C/C++: " true readyClientA_stored)
    as [(w1 & H1 & _) H2].
  destruct (H2 eq_refl) as (w2 & H2' & _).
  split; [by rewrite H1|by rewrite H2'].
Defined.

(** A status that ends in [IntelliSense Fallback] changes nothing in the
    world; it asks the user to configure the include path if the
    persisted flag allows it, and answering with [Don't Show Again]
    clears the flag, after which such a status asks nothing. *)
Theorem updateStatus_fallback_prompt_can_be_silenced w this prefix show :
  updateStatus this (prefix +:+ "IntelliSense Fallback") show w =
    (Normal (SetProgress ProgressExecutableSuccess ::
             if show
             then [ShowInformationMessage
                     "Configure includePath for better IntelliSense results."
                     ["Learn More"; "Don't Show Again"]]
             else []), w) /\
  fallbackMessageAnswered (Some "Don't Show Again") = ([], Some false) /\
  fallbackMessageAnswered None = ([], None).
Proof.
  split; [|done].
  unfold updateStatus. cbv zeta.
  rewrite (endsWith_last _ "Indexing..." "."%char "k"%char)
    by ends_differently.
  rewrite (endsWith_last _ "Updating IntelliSense..." "."%char "k"%char)
    by ends_differently.
  rewrite (endsWith_last _ "IntelliSense Ready" "y"%char "k"%char)
    by ends_differently.
  rewrite (endsWith_last _ "Ready" "y"%char "k"%char)
    by ends_differently.
  rewrite (endsWith_last _ "No Squiggles" "s"%char "k"%char)
    by ends_differently.
  rewrite (proj2 (endsWith_true _ "IntelliSense Fallback")) by eauto.
  by destruct show.
Qed.

(** ** Settings telemetry *)

Lemma collectSetting_eq filter cache result key setting :
  collectSetting filter (cache, result) (key, setting) =
  if reportable setting &&
     applyFilter filter key (currentValue setting) setting cache
  then (<[key := currentValue setting]> cache,
        <[key := reportedText key (currentValue setting)]> result)
  else (cache, result).
Proof.
  unfold collectSetting, reportable, reportedText. cbv zeta.
  case_bool_decide; cbn; [done|].
  destruct (instanceofObject (currentValue setting)); cbn; [done|].
  destruct (applyFilter _ _ _ _ _); done.
Qed.

Lemma reportedText_fits key val :
  (JsString.length (reportedText key val) <= 53)%Z /\
  (key = "clang_format_path" -> reportedText key val = "...").
Proof.
  unfold reportedText, maxSettingLengthForTelemetry. cbv zeta. split.
  - destruct (50 <? _)%Z eqn:E.
    + rewrite JsString_length_app. unfold JsString.substr2, JsString.length.
      rewrite chars_str, length_take.
      change (length (JsString.chars "...")) with 3%nat. lia.
    + apply Z.ltb_ge in E. lia.
  - intros ->. done.
Qed.

(** Every text handed to the telemetry is at most 53 code units long,
    and the path of clang-format is never among them: it is reported as
    an ellipsis. *)
Theorem collectSettings_reports_short_texts filter settings cache key text :
  (collectSettings filter settings cache).2 !! key = Some text ->
  (JsString.length text <= 53)%Z /\
  (key = "clang_format_path" -> text = "...").
Proof.
  unfold collectSettings.
  assert (H : forall (result : gmap string string) c,
    (forall k t, result !! k = Some t ->
       (JsString.length t <= 53)%Z /\ (k = "clang_format_path" -> t = "...")) ->
    forall k t, (foldl (collectSetting filter) (c, result) settings).2 !! k = Some t ->
       (JsString.length t <= 53)%Z /\ (k = "clang_format_path" -> t = "...")).
  { induction settings as [|[key0 setting] settings IH]; intros result c Hres; [exact Hres|].
    cbn [foldl]. rewrite collectSetting_eq.
    destruct (_ && _); [|by apply IH].
    apply IH. intros k t. destruct (decide (k = key0)) as [->|Hne].
    - rewrite lookup_insert_eq. intros [= <-]. apply reportedText_fits.
    - rewrite lookup_insert_ne by done. apply Hres. }
  apply H. intros k t. by rewrite lookup_empty.
Qed.

Lemma collectSettings_reports_short_texts_witness :
  (collectSettings FilterAll sampleSettings ∅).2 !! "clang_format_path"
    = Some "..." /\
  (JsString.length "..." <= 53)%Z.
Proof.
  split; [reflexivity|].
  apply (collectSettings_reports_short_texts FilterAll sampleSettings ∅
           "clang_format_path" "...").
  reflexivity.
Defined.

(** *** Keeping the cache up to date *)

Lemma collect_keeps_other filter settings : forall cache result k,
  k ∉ settings.*1 ->
  (foldl (collectSetting filter) (cache, result) settings).1 !! k = cache !! k.
Proof.
  induction settings as [|[key0 setting] settings IH]; intros cache result k Hk; [done|].
  cbn in Hk. apply not_elem_of_cons in Hk as [Hne Hk].
  cbn [foldl]. rewrite collectSetting_eq.
  destruct (_ && _); rewrite IH by done; [|done].
  apply lookup_insert_ne. congruence.
Qed.

(** A pass with a filter that lets through whatever the cache does not
    hold leaves the cache up to date. *)
Lemma collect_syncs filter settings :
  (forall key val setting cache,
     applyFilter filter key val setting cache = false -> cache !! key = Some val) ->
  NoDup settings.*1 ->
  forall cache result,
    synced settings (foldl (collectSetting filter) (cache, result) settings).1.
Proof.
  unfold synced.
  intros Hf. induction settings as [|[key0 setting0] settings IH];
    intros Hnd cache result key setting Hin Hrep.
  { by apply elem_of_nil in Hin. }
  cbn in Hnd. apply NoDup_cons in Hnd as [Hfresh Hnd].
  cbn [foldl]. apply elem_of_cons in Hin as [[= -> ->]|Hin].
  - rewrite collectSetting_eq, Hrep. cbn.
    destruct (applyFilter _ _ _ _ _) eqn:E; rewrite collect_keeps_other by done; cbn.
    + apply lookup_insert_eq.
    + by apply Hf in E.
  - destruct (collectSetting filter (cache, result) (key0, setting0)) as [c r].
    by eapply IH.
Qed.

(** A pass over an up-to-date cache does not change it. *)
Lemma collect_synced filter settings : forall cache result,
  synced settings cache ->
  (foldl (collectSetting filter) (cache, result) settings).1 = cache.
Proof.
  induction settings as [|[key0 setting0] settings IH]; intros cache result Hs; [done|].
  cbn [foldl]. rewrite collectSetting_eq.
  assert (Hs' : synced settings cache).
  { intros k st Hin. apply Hs. by apply elem_of_cons; right. }
  destruct (reportable setting0) eqn:Hrep; cbn; [|by apply IH].
  destruct (applyFilter _ _ _ _ _); [|by apply IH].
  rewrite (insert_id cache key0)
    by (apply Hs; [by apply elem_of_cons; left|done]).
  by apply IH.
Qed.

(** Over an up-to-date cache nothing counts as changed. *)
Lemma collectChanged_synced settings : forall cache result,
  synced settings cache ->
  foldl (collectSetting FilterChanged) (cache, result) settings = (cache, result).
Proof.
  induction settings as [|[key0 setting0] settings IH]; intros cache result Hs; [done|].
  cbn [foldl]. rewrite collectSetting_eq.
  assert (Hs' : synced settings cache).
  { intros k st Hin. apply Hs. by apply elem_of_cons; right. }
  destruct (reportable setting0) eqn:Hrep; cbn; [|by apply IH].
  rewrite (Hs key0 setting0) by (done || by apply elem_of_cons; left).
  rewrite bool_decide_eq_true_2 by done. cbn. by apply IH.
Qed.

Lemma filterAll_lets_through key val setting (cache : gmap string JsVal) :
  applyFilter FilterAll key val setting cache = false -> cache !! key = Some val.
Proof. done. Qed.

Lemma filterChanged_lets_through key val setting (cache : gmap string JsVal) :
  applyFilter FilterChanged key val setting cache = false -> cache !! key = Some val.
Proof.
  cbn. destruct (cache !! key) as [previous|]; [|done].
  intros H. apply negb_false_iff, bool_decide_eq_true in H. by subst.
Qed.

Lemma onDidChangeSettings_synced settings cache :
  synced settings cache ->
  logged (onDidChangeSettings settings cache) = None /\
  cacheAfter (onDidChangeSettings settings cache) = cache.
Proof.
  intros Hs. unfold onDidChangeSettings, collectSettings.
  rewrite (collectChanged_synced _ _ _ Hs). cbn. done.
Qed.

(** No change, no telemetry.  Once [getNonDefaultSettings] has run, as
    it does when a client becomes ready, or once [onDidChangeSettings]
    has run, a call of [onDidChangeSettings] on the same configuration
    logs no event and leaves the cache as it is. *)
Theorem onDidChangeSettings_quiet_without_change settings cache0 :
  NoDup settings.*1 ->
  let cache1 := (getNonDefaultSettings settings cache0).1 in
  let cache2 := cacheAfter (onDidChangeSettings settings cache0) in
  (logged (onDidChangeSettings settings cache1) = None /\
   cacheAfter (onDidChangeSettings settings cache1) = cache1) /\
  (logged (onDidChangeSettings settings cache2) = None /\
   cacheAfter (onDidChangeSettings settings cache2) = cache2).
Proof.
  intros Hnd cache1 cache2. split; apply onDidChangeSettings_synced.
  - unfold cache1, getNonDefaultSettings, initializeSettingsCache, collectSettings.
    cbv zeta.
    pose proof (collect_syncs FilterAll settings filterAll_lets_through Hnd cache0 ∅) as Hs.
    by rewrite collect_synced.
  - unfold cache2, onDidChangeSettings, collectSettings.
    pose proof (collect_syncs FilterChanged settings filterChanged_lets_through
                  Hnd cache0 ∅) as Hs.
    destruct (foldl _ _ _) as [c r]. exact Hs.
Qed.

Lemma onDidChangeSettings_quiet_without_change_witness :
  logged (onDidChangeSettings sampleSettings
            (cacheAfter (onDidChangeSettings sampleSettings staleCache)))
  = None.
Proof.
  apply (onDidChangeSettings_quiet_without_change sampleSettings staleCache
           sampleSettings_NoDup).
Defined.

(** *** What counts as changed *)

Lemma filterChanged_true key val setting (cache : gmap string JsVal) :
  applyFilter FilterChanged key val setting cache = true <->
  cache !! key <> Some val.
Proof.
  cbn. destruct (cache !! key) as [previous|]; [|done].
  rewrite negb_true_iff, bool_decide_eq_false. split; congruence.
Qed.

Lemma collectChanged_result settings :
  NoDup settings.*1 ->
  forall (cache : gmap string JsVal) (result : gmap string string),
    (forall k, k ∈ settings.*1 -> result !! k = None) ->
    forall key text,
      (foldl (collectSetting FilterChanged) (cache, result) settings).2 !! key
        = Some text <->
      result !! key = Some text \/
      exists setting,
        (key, setting) ∈ settings /\ reportable setting = true /\
        cache !! key <> Some (currentValue setting) /\
        text = reportedText key (currentValue setting).
Proof.
  induction settings as [|[key0 setting0] settings IH];
    intros Hnd cache result Hres key text.
  { cbn. split; [by left|]. intros [H|(s & H & _)]; [done|].
    by apply elem_of_nil in H. }
  cbn in Hnd. apply NoDup_cons in Hnd as [Hfresh Hnd].
  assert (Hres0 : result !! key0 = None) by (apply Hres; cbn; by left).
  assert (Hres' : forall k, k ∈ settings.*1 -> result !! k = None).
  { intros k Hk. apply Hres. cbn. by right. }
  assert (Hother : forall s, (key, s) ∈ settings -> key <> key0).
  { intros s Hin ->. apply Hfresh. apply list_elem_of_fmap. by exists (key0, s). }
  cbn [foldl]. rewrite collectSetting_eq.
  destruct (reportable setting0) eqn:Hrep; cbn [andb].
  - destruct (applyFilter FilterChanged key0 _ setting0 cache) eqn:Hf.
    + apply filterChanged_true in Hf.
      rewrite IH; [|done|].
      2:{ intros k Hk. rewrite lookup_insert_ne; [by apply Hres'|].
          intros ->. done. }
      split.
      * intros [H|(s & Hin & Hr & Hc & Ht)].
        -- destruct (decide (key = key0)) as [->|Hne].
           ++ rewrite lookup_insert_eq in H. injection H as <-. right.
              exists setting0. repeat split; try done. by apply elem_of_cons; left.
           ++ rewrite lookup_insert_ne in H by done. by left.
        -- right. exists s. split; [by apply elem_of_cons; right|].
           split; [done|]. split; [|done].
           rewrite lookup_insert_ne in Hc; [done|]. intros ->. by eapply Hother.
      * intros [H|(s & Hin & Hr & Hc & Ht)].
        -- left. rewrite lookup_insert_ne; [done|]. intros ->. congruence.
        -- apply elem_of_cons in Hin as [[= -> ->]|Hin].
           ++ left. subst text. apply lookup_insert_eq.
           ++ right. exists s. repeat split; try done.
              rewrite lookup_insert_ne; [done|]. intros ->. by eapply Hother.
    + assert (Hc0 : cache !! key0 = Some (currentValue setting0)).
      { by eapply filterChanged_lets_through. }
      rewrite IH by done. split.
      * intros [H|(s & Hin & Hr & Hc & Ht)]; [by left|].
        right. exists s. split; [by apply elem_of_cons; right|]. done.
      * intros [H|(s & Hin & Hr & Hc & Ht)]; [by left|].
        apply elem_of_cons in Hin as [[= -> ->]|Hin]; [done|].
        right. by exists s.
  - rewrite IH by done. split.
    + intros [H|(s & Hin & Hr & Hc & Ht)]; [by left|].
      right. exists s. split; [by apply elem_of_cons; right|]. done.
    + intros [H|(s & Hin & Hr & Hc & Ht)]; [by left|].
      apply elem_of_cons in Hin as [[= -> ->]|Hin]; [congruence|].
      right. by exists s.
Qed.

(** What [onDidChangeSettings] logs.  If it logs an event, the event
    holds exactly the settings whose value is not the one in the cache,
    each with its reported text; if it logs none, the cache was up to
    date. *)
Theorem onDidChangeSettings_logs_what_changed settings cache :
  NoDup settings.*1 ->
  match logged (onDidChangeSettings settings cache) with
  | Some changedSettings =>
      forall key text,
        changedSettings !! key = Some text <->
        exists setting,
          (key, setting) ∈ settings /\ reportable setting = true /\
          cache !! key <> Some (currentValue setting) /\
          text = reportedText key (currentValue setting)
  | None => synced settings cache
  end.
Proof.
  intros Hnd.
  pose proof (collectChanged_result settings Hnd cache ∅
                (fun k _ => lookup_empty k)) as Hres.
  unfold onDidChangeSettings, collectSettings.
  destruct (foldl _ _ _) as [c r] eqn:E. cbn in Hres |- *.
  case_bool_decide as Hsize.
  - intros key text. rewrite Hres. rewrite lookup_empty. split.
    + by intros [?|?].
    + by right.
  - assert (Hr : r = ∅) by (apply map_size_empty_iff; lia).
    intros key setting Hin Hrep.
    destruct (decide (cache !! key = Some (currentValue setting))) as [?|Hne]; [done|].
    assert (r !! key = Some (reportedText key (currentValue setting))) as Hk.
    { apply Hres. right. by exists setting. }
    by rewrite Hr, lookup_empty in Hk.
Qed.

Lemma onDidChangeSettings_logs_what_changed_witness :
  logged (onDidChangeSettings sampleSettings staleCache)
    = Some {[ "intelliSenseEngine" := "Tag Parser" ]} /\
  exists setting,
    ("intelliSenseEngine", setting) ∈ sampleSettings /\
    staleCache !! "intelliSenseEngine" <> Some (currentValue setting).
Proof.
  split; [reflexivity|].
  pose proof (onDidChangeSettings_logs_what_changed sampleSettings staleCache
                sampleSettings_NoDup) as H.
  change (logged (onDidChangeSettings sampleSettings staleCache))
    with (Some ({[ "intelliSenseEngine" := "Tag Parser" ]} : gmap string string))
    in H.
  destruct (proj1 (H "intelliSenseEngine" "Tag Parser") eq_refl)
    as (setting & Hin & _ & Hne & _).
  by exists setting.
Defined.

(** ** Starting the server *)

Lemma getLanguageServerFileName_invalid w :
  platform w <> "linux" -> platform w <> "darwin" -> platform w <> "win32" ->
  getLanguageServerFileName w = (Throw (Reason "Invalid Platform"), w).
Proof.
  intros H1 H2 H3. unfold getLanguageServerFileName, bind, getWorld. cbn.
  apply String.eqb_neq in H1, H2, H3. by rewrite H1, H2, H3.
Qed.

(** On a platform for which there is no server binary the constructor
    does not throw: it leaves a client whose gate is failed from the
    start, starts no transport, and shows the start failure notice unless
    the persisted flag says it has been shown.  Every request to that
    client is rejected with ["Unsupported client"] and every notification
    is dropped, the world staying as it is. *)
Theorem unsupported_platform_fails_closed w workspaceFolder :
  platform w <> "linux" -> platform w <> "darwin" -> platform w <> "win32" ->
  exists this c w',
    newDefaultClient workspaceFolder w = (Normal this, w') /\
    clients w !! this = None /\
    clients w' !! this = Some c /\
    gate c = GateFailed /\
    failureMessageShown w' = true /\
    trace w' = trace w ++
      (if failureMessageShown w then []
       else [ShowErrorMessage startFailureNotice]) /\
    (forall request,
       requestWhenReady this request w' =
         (Normal (Rejected "Unsupported client"), w')) /\
    (forall notify, notifyWhenReady this notify w' = (Normal tt, w')).
Proof.
  intros H1 H2 H3.
  assert (Hfresh : clients w !! fresh (dom (clients w)) = None).
  { apply not_elem_of_dom, is_fresh. }
  unfold newDefaultClient, freshClient, freshArray, tryCatch, createLanguageClient.
  unfold bind. cbn -[getLanguageServerFileName].
  rewrite getLanguageServerFileName_invalid by done.
  unfold unsupported. js_run. rewrite ?insert_insert_eq.
  destruct (failureMessageShown w) eqn:Hshown; js_run.
  - eexists _, _, _. split; [reflexivity|]. split; [exact Hfresh|].
    split; [apply lookup_insert_eq|]. split; [done|]. cbn.
    split; [done|]. split; [by rewrite app_nil_r|].
    split; intros t.
    + eapply requestWhenReady_failed; [apply lookup_insert_eq|done].
    + eapply notifyWhenReady_failed; [apply lookup_insert_eq|done].
  - eexists _, _, _. split; [reflexivity|]. split; [exact Hfresh|].
    split; [apply lookup_insert_eq|]. split; [done|]. cbn.
    split; [done|]. split; [done|].
    split; intros t.
    + eapply requestWhenReady_failed; [apply lookup_insert_eq|done].
    + eapply notifyWhenReady_failed; [apply lookup_insert_eq|done].
Qed.

Lemma unsupported_platform_fails_closed_witness :
  exists this w',
    newDefaultClient (Some folderA) unsupportedWorld = (Normal this, w') /\
    trace w' = [ShowErrorMessage startFailureNotice] /\
    requestWhenReady this (SendRequest GoToDeclarationRequest) w' =
      (Normal (Rejected "Unsupported client"), w').
Proof.
  destruct (unsupported_platform_fails_closed unsupportedWorld (Some folderA))
    as (this & c & w' & Hnew & _ & _ & _ & _ & Htr & Hreq & _);
    [by vm_compute..|].
  exists this, w'. split; [exact Hnew|]. split; [exact Htr|]. apply Hreq.
Defined.

(** *** The start failure notice is shown once *)

Lemma startFailureNotices_app tr tr' :
  startFailureNotices (tr ++ tr') =
  (startFailureNotices tr + startFailureNotices tr')%nat.
Proof. unfold startFailureNotices. by rewrite List.filter_app, length_app. Qed.

Lemma noticeStep_refl w : noticeStep w w.
Proof. unfold noticeStep. lia. Qed.

Lemma noticeStep_trans w1 w2 w3 :
  noticeStep w1 w2 -> noticeStep w2 w3 -> noticeStep w1 w3.
Proof. unfold noticeStep. lia. Qed.

Lemma sameNotices_refl w : sameNotices w w.
Proof. done. Qed.

Lemma sameNotices_trans w1 w2 w3 :
  sameNotices w1 w2 -> sameNotices w2 w3 -> sameNotices w1 w3.
Proof. unfold sameNotices. congruence. Qed.

(** Computations that neither write to the window nor touch the flag. *)
Lemma notice_silent {A} (m : M A) :
  (forall w, trace (m w).2 = trace w /\
             failureMessageShown (m w).2 = failureMessageShown w) ->
  frame noticeStep m.
Proof.
  intros Hm w. destruct (Hm w) as [Ht Hf]. unfold noticeStep, noticeBudget.
  rewrite Ht, Hf. lia.
Qed.

Lemma notice_updateClient r f : frame noticeStep (updateClient r f).
Proof.
  apply notice_silent. intros w. unfold updateClient, bind, getClient.
  by destruct (clients w !! r).
Qed.

Lemma notice_emit e :
  isStartFailureNotice e = false -> frame noticeStep (emit e).
Proof.
  intros He w. unfold noticeStep, noticeBudget. cbn.
  rewrite startFailureNotices_app. unfold startFailureNotices at 2. cbn.
  rewrite He. cbn. lia.
Qed.

(** The one computation that shows the notice. *)
Lemma notice_unsupported r : frame noticeStep (unsupported r).
Proof.
  intros w. unfold unsupported, updateClient, getClient, bind, getWorld.
  destruct (clients w !! r) as [c|]; cbn; [|apply noticeStep_refl].
  unfold noticeStep, noticeBudget.
  destruct (failureMessageShown w) eqn:Hf; cbn; rewrite ?Hf; [lia|].
  rewrite startFailureNotices_app. unfold startFailureNotices at 2. cbn. lia.
Qed.

Create HintDb notice.
#[local] Hint Resolve notice_updateClient notice_unsupported : notice.

Ltac notice_prim :=
  first [ solve [auto with notice nocore]
        | apply notice_emit; reflexivity
        | apply notice_silent; done ].

Ltac notice_go := frame_go noticeStep_refl noticeStep_trans notice_prim.

Lemma notice_runThunk r t : frame noticeStep (runThunk r t).
Proof. unfold runThunk. notice_go. Qed.
#[local] Hint Resolve notice_runThunk : notice.

Lemma notice_runReaction r t : frame noticeStep (runReaction r t).
Proof. unfold runReaction. notice_go. Qed.
#[local] Hint Resolve notice_runReaction : notice.

Lemma notice_thenOnReady r t : frame noticeStep (thenOnReady r t).
Proof. unfold thenOnReady. notice_go. Qed.
#[local] Hint Resolve notice_thenOnReady : notice.

Lemma notice_requestWhenReady r t : frame noticeStep (requestWhenReady r t).
Proof. unfold requestWhenReady. notice_go. Qed.

Lemma notice_notifyWhenReady r t : frame noticeStep (notifyWhenReady r t).
Proof. unfold notifyWhenReady. notice_go. Qed.
#[local] Hint Resolve notice_requestWhenReady notice_notifyWhenReady : notice.

Lemma notice_takeOwnership r d : frame noticeStep (takeOwnership r d).
Proof. unfold takeOwnership. notice_go. Qed.
#[local] Hint Resolve notice_takeOwnership : notice.

Lemma notice_perform r call : frame noticeStep (perform r call).
Proof.
  destruct call; cbn;
    unfold requestGoToDeclaration, requestSwitchHeaderSource,
      requestNavigationList, activeDocumentChanged, activate,
      selectionChanged, resetDatabase, deactivate, pauseParsing,
      resumeParsing, handleConfigurationSelectCommand,
      handleShowParsingCommands, handleConfigurationEditCommand,
      handleAddToIncludePathCommand; notice_go.
Qed.
#[local] Hint Resolve notice_perform : notice.

Lemma notice_settleOnReadyPromise r : frame noticeStep (settleOnReadyPromise r).
Proof. unfold settleOnReadyPromise. notice_go. Qed.
#[local] Hint Resolve notice_settleOnReadyPromise : notice.

Lemma notice_newDefaultClient folder : frame noticeStep (newDefaultClient folder).
Proof.
  unfold newDefaultClient, freshClient, freshArray, createLanguageClient,
    getLanguageServerFileName, putClient, putArray.
  notice_go.
Qed.
#[local] Hint Resolve notice_newDefaultClient : notice.

Lemma notice_dispose r : frame noticeStep (dispose r).
Proof. unfold dispose, dispose_stop, dispose_then. notice_go. Qed.
#[local] Hint Resolve notice_dispose : notice.

Lemma notice_replace r b : frame noticeStep (ClientCollection_replace r b).
Proof. unfold ClientCollection_replace, updateRegistry. notice_go. Qed.
#[local] Hint Resolve notice_replace : notice.

Lemma crash_notice_is_no_start_failure_notice serverName :
  isStartFailureNotice (ShowErrorMessage (crashNoticeMulti serverName)) = false /\
  isStartFailureNotice (ShowErrorMessage crashNoticeSingle) = false.
Proof. done. Qed.

Lemma notice_closed r now : frame noticeStep (closed r now).
Proof.
  unfold closed, assignCrashTimes, putArray.
  notice_go.
Qed.
#[local] Hint Resolve notice_closed : notice.

Lemma notice_onInterval r : frame noticeStep (onInterval r).
Proof. unfold onInterval. notice_go. Qed.
#[local] Hint Resolve notice_onInterval : notice.

Lemma notice_intercept r h args next :
  (forall l, frame noticeStep (next l)) ->
  frame noticeStep (intercept (createProtocolFilter r) h args next).
Proof.
  intros Hnext.
  destruct args as [|a [|b [|c [|d [|e [|f ?]]]]]]; destruct h; cbn;
    unfold defaultHandler, filter_willSaveWaitUntil, invoke1, invoke2,
      invoke3, invoke4, invoke5, meIsActive; notice_go.
Qed.

(** Every operation but a client becoming ready. *)
Lemma notice_exec op :
  (forall r, op <> ReadyFulfilled r) -> frame noticeStep (exec op).
Proof.
  intros Hop. destruct op; try (by destruct (Hop r)); cbn;
    unfold openFolder, onReadyRejected, filter_didOpen,
      filter_didClose, meIsActive, sendDidOpen, sendDidClose,
      setActiveClient, activate, deactivate, pauseParsing, resumeParsing,
      subscribe, updateRegistry;
    try (apply (frame_bind _ noticeStep_trans);
         [apply notice_intercept; intros ?; unfold sendToServer|intros ?]);
    notice_go.
Qed.

(** A client becoming ready shows no notice; it clears the flag, so the
    next failure may show one again. *)
Lemma notice_onReadyFulfilled r w :
  (noticeBudget (after (onReadyFulfilled r) w) <= noticeBudget w + 1)%nat.
Proof.
  unfold after, onReadyFulfilled, bind.
  destruct (clients w !! r) as [c|] eqn:Hc.
  - destruct (onReadyFulfilledHandler_eq w r c Hc)
      as (w1 & c1 & Hrun & _ & _ & _ & _ & _ & _ & _ & _ & Htr & _).
    rewrite Hrun.
    pose proof (notice_settleOnReadyPromise r w1) as Hs.
    unfold noticeStep in Hs.
    assert (noticeBudget w1 <= noticeBudget w + 1)%nat; [|lia].
    unfold noticeBudget. rewrite Htr, startFailureNotices_app.
    unfold startFailureNotices at 2. cbn.
    destruct (failureMessageShown w1), (failureMessageShown w); lia.
  - unfold onReadyFulfilledHandler, bind, getClient. rewrite Hc. cbn. lia.
Qed.

(** The start failure notice is shown at most once until a client
    becomes ready.  Along every history, whatever is opened, closed,
    requested, disposed of or crashes, the notices shown are at most one
    more than at the start (none more if the persisted flag was set), plus
    one for every time a client became ready in between. *)
Theorem start_failure_notice_is_shown_once ops : forall w,
  (startFailureNotices (trace (run ops w)) <=
   startFailureNotices (trace w) +
   (if failureMessageShown w then 0 else 1) + readyCount ops)%nat.
Proof.
  assert (H : forall w, (noticeBudget (run ops w) <= noticeBudget w + readyCount ops)%nat).
  { induction ops as [|op ops IH]; intros w; [cbn; lia|].
    change (run (op :: ops) w) with (run ops (after (exec op) w)).
    specialize (IH (after (exec op) w)).
    assert (Hstep : (noticeBudget (after (exec op) w) + readyCount ops
                     <= noticeBudget w + readyCount (op :: ops))%nat); [|lia].
    destruct op as [| r | | | | | | | | | | ];
      try (match goal with |- context [readyCount (?o :: ops)] =>
             change (readyCount (o :: ops)) with (readyCount ops);
             pose proof (notice_exec o ltac:(intros r0; discriminate) w) as Hs
           end;
           unfold noticeStep, after in Hs |- *; lia).
    change (readyCount (ReadyFulfilled r :: ops)) with (S (readyCount ops)).
    pose proof (notice_onReadyFulfilled r w) as Hs.
    change (exec (ReadyFulfilled r)) with (onReadyFulfilled r). lia. }
  intros w. specialize (H w). unfold noticeBudget in H.
  destruct (failureMessageShown (run ops w)); lia.
Qed.

(** ** The protocol router, continued *)

Lemma didOpen_elsewhere w r document :
  checkOwnership (allClients w) r document = false ->
  exec (DidOpen r document) w = (Normal tt, w).
Proof.
  intros H. cbn. unfold filter_didOpen, bind, getWorld. by rewrite H.
Qed.

Lemma didOpen_at_owner w r c document :
  clients w !! r = Some c ->
  checkOwnership (allClients w) r document = true ->
  exec (DidOpen r document) w =
    (Normal tt,
     set_trace (trace w ++ [TrackedAdd r document;
                            Transport r (TextDocumentDidOpen document)])
       (set_clients
          (<[r := set_trackedDocuments (Set_add document (trackedDocuments c)) c]>
             (clients w)) w)).
Proof.
  intros Hc H. cbn. unfold filter_didOpen, bind, getWorld. rewrite H.
  js_run. by rewrite <- app_assoc.
Qed.

(** A document-opened event reaches the middleware of every client, as
    all of them select the same documents.  However many of them see it,
    only the owner of the document tracks it and tells its server, once;
    at every other client the event changes nothing. *)
Theorem didOpen_reaches_the_owner_only w rs owner c document :
  NoDup rs ->
  ownerOf (allClients w) document = Some owner ->
  clients w !! owner = Some c ->
  exists w',
    forEach (fun r => exec (DidOpen r document)) rs w = (Normal tt, w') /\
    allClients w' = allClients w /\
    trace w' = trace w ++
      (if bool_decide (owner ∈ rs)
       then [TrackedAdd owner document;
             Transport owner (TextDocumentDidOpen document)]
       else []) /\
    (forall r, r <> owner -> clients w' !! r = clients w !! r).
Proof.
  intros Hnd. revert w c.
  induction rs as [|r rs IH]; intros w c Hown Hc.
  { exists w. cbn. by rewrite app_nil_r. }
  apply NoDup_cons in Hnd as [Hr Hnd]. cbn [forEach]. unfold bind.
  destruct (decide (r = owner)) as [->|Hne].
  - rewrite (didOpen_at_owner _ _ _ _ Hc)
      by (unfold checkOwnership; by rewrite Hown, bool_decide_eq_true_2).
    match goal with |- context [forEach _ rs ?x] => set (w1 := x) end.
    destruct (IH Hnd w1 _ Hown ltac:(subst w1; apply lookup_insert_eq))
      as (w' & Hrun & Hreg & Htr & Hoth).
    exists w'. split; [exact Hrun|]. split; [by rewrite Hreg|].
    rewrite bool_decide_eq_false_2 in Htr by done.
    rewrite bool_decide_eq_true_2 by (apply elem_of_cons; by left).
    split; [by rewrite Htr, app_nil_r|].
    intros r' Hr'. rewrite Hoth by done. subst w1. cbn.
    by rewrite lookup_insert_ne.
  - rewrite didOpen_elsewhere
      by (unfold checkOwnership; rewrite Hown; apply bool_decide_eq_false; congruence).
    destruct (IH Hnd w c Hown Hc) as (w' & Hrun & Hreg & Htr & Hoth).
    exists w'. split; [exact Hrun|]. split; [exact Hreg|]. split; [|exact Hoth].
    rewrite Htr. f_equal.
    destruct (decide (owner ∈ rs)).
    + rewrite !bool_decide_eq_true_2; [done| |done]. apply elem_of_cons; by right.
    + rewrite !bool_decide_eq_false_2; [done| |done].
      intros [?|?]%elem_of_cons; congruence.
Qed.

Lemma didOpen_reaches_the_owner_only_witness :
  exists w',
    forEach (fun r => exec (DidOpen r docB)) [0; 1]%nat twoFolders
      = (Normal tt, w') /\
    trace w' = trace twoFolders ++
      [TrackedAdd 1 docB; Transport 1 (TextDocumentDidOpen docB)].
Proof.
  destruct (didOpen_reaches_the_owner_only twoFolders [0; 1]%nat 1 readyClientB docB)
    as (w' & Hrun & _ & Htr & _).
  - apply (bool_decide_unpack _). vm_compute. reflexivity.
  - vm_compute. reflexivity.
  - exact readyClientB_stored.
  - exists w'. split; [exact Hrun|exact Htr].
Defined.

(** An editor call reaches the middleware of every client too.  Only
    the active client passes it on: the server of the active client gets
    the call once, no other server gets it, and nothing else changes. *)
Theorem routed_call_reaches_the_active_client_only w rs active h args :
  NoDup rs ->
  length args = arity h ->
  activeClient (allClients w) = Some active ->
  forEach (fun r => exec (Intercept r h args)) rs w =
    (Normal tt,
     set_trace (trace w ++
                if bool_decide (active ∈ rs)
                then [Transport active (Routed h args)] else []) w).
Proof.
  intros Hnd Hlen. revert w.
  induction rs as [|r rs IH]; intros w Hact.
  { cbn. by rewrite set_trace_nil. }
  apply NoDup_cons in Hnd as [Hr Hnd]. cbn [forEach exec]. unfold bind.
  rewrite intercept_eq by done. unfold isActiveClient. rewrite Hact.
  destruct (decide (r = active)) as [->|Hne].
  - rewrite bool_decide_eq_true_2 by done.
    destruct (forward_sendToServer w active h args) as [v ->]. cbn.
    rewrite IH by done. cbn.
    rewrite bool_decide_eq_false_2 by done.
    rewrite bool_decide_eq_true_2 by (apply elem_of_cons; by left).
    by rewrite app_nil_r.
  - rewrite bool_decide_eq_false_2 by congruence. cbn.
    rewrite IH by done. do 3 f_equal.
    destruct (decide (active ∈ rs)).
    + rewrite !bool_decide_eq_true_2; [done| |done]. apply elem_of_cons; by right.
    + rewrite !bool_decide_eq_false_2; [done| |done].
      intros [?|?]%elem_of_cons; congruence.
Qed.

Lemma routed_call_reaches_the_active_client_only_witness :
  forEach (fun r => exec (Intercept r provideHover [opaque 1; opaque 2; opaque 3]))
    [0; 1]%nat twoFolders =
  (Normal tt,
   set_trace (trace twoFolders ++
              [Transport 0 (Routed provideHover [opaque 1; opaque 2; opaque 3])])
     twoFolders).
Proof.
  apply (routed_call_reaches_the_active_client_only twoFolders [0; 1]%nat 0
           provideHover [opaque 1; opaque 2; opaque 3]).
  - apply (bool_decide_unpack _). vm_compute. reflexivity.
  - reflexivity.
  - vm_compute. reflexivity.
Defined.

Lemma Set_delete_add document (s : list TextDocument) :
  Set_delete document (Set_add document s) = Set_delete document s.
Proof.
  unfold Set_add, Set_has, Set_delete. case_bool_decide; [done|].
  rewrite filter_app. cbn. rewrite decide_False by (intros H'; by apply H').
  by rewrite app_nil_r.
Qed.

Lemma Set_delete_absent document (s : list TextDocument) :
  document ∉ s -> Set_delete document s = s.
Proof.
  intros H. unfold Set_delete. induction s as [|x s IH]; [done|].
  apply not_elem_of_cons in H as [Hne H].
  rewrite filter_cons, decide_True by congruence. by rewrite IH.
Qed.

Lemma not_elem_of_Set_delete document (s : list TextDocument) :
  document ∉ Set_delete document s.
Proof. unfold Set_delete. intros H%list_elem_of_filter. by destruct H. Qed.

Lemma didClose_at_active w r c document :
  clients w !! r = Some c ->
  isActiveClient (allClients w) r = true ->
  exec (DidClose r document) w =
    (Normal tt,
     set_trace
       (trace w ++
        (if Set_has document (trackedDocuments c) then [] else [AssertionFailed r]) ++
        [TrackedDelete r document; Transport r (TextDocumentDidClose document)])
       (set_clients
          (<[r := set_trackedDocuments (Set_delete document (trackedDocuments c)) c]>
             (clients w)) w)).
Proof.
  intros Hc Hact. cbn [exec Middleware.didClose createProtocolFilter].
  unfold filter_didClose, meIsActive, bind, getWorld, ret. cbn beta iota.
  rewrite Hact. rewrite (getClient_eq _ _ _ Hc).
  destruct (Set_has document (trackedDocuments c)); cbn [emit sendDidClose];
    unfold emit, sendDidClose, bind, ret;
    erewrite updateClient_eq by lookup_solve;
    cbn [trace set_trace set_clients clients arrays allClients
         failureMessageShown workspaceFolders platform];
    unfold emit; cbn [trace set_trace set_clients clients arrays allClients
         failureMessageShown workspaceFolders platform];
    by rewrite <- ?app_assoc.
Qed.

Lemma Set_has_add document (s : list TextDocument) :
  Set_has document (Set_add document s) = true.
Proof.
  unfold Set_add, Set_has. apply bool_decide_eq_true.
  destruct (bool_decide (document ∈ s)) eqn:E.
  - by apply bool_decide_eq_true in E.
  - apply elem_of_app. right. by apply list_elem_of_singleton.
Qed.

(** Opening and then closing a document at the client that owns it and
    is active.  Both events are accepted; the server sees the open
    before the close; the assertion of [didClose] holds; and the
    document is no longer tracked afterwards, the other tracked
    documents staying as they were. *)
Theorem didOpen_then_didClose_at_active_owner w me c document :
  clients w !! me = Some c ->
  checkOwnership (allClients w) me document = true ->
  isActiveClient (allClients w) me = true ->
  exists w' c',
    bind (exec (DidOpen me document)) (fun _ => exec (DidClose me document)) w
      = (Normal tt, w') /\
    clients w' !! me = Some c' /\
    trace w' = trace w ++
      [TrackedAdd me document; Transport me (TextDocumentDidOpen document);
       TrackedDelete me document; Transport me (TextDocumentDidClose document)] /\
    trackedDocuments c' = Set_delete document (trackedDocuments c) /\
    (document ∉ trackedDocuments c') /\
    (document ∉ trackedDocuments c -> c' = c).
Proof.
  intros Hc Hown Hact. unfold bind at 1.
  rewrite (didOpen_at_owner _ _ _ _ Hc Hown).
  erewrite didClose_at_active; [|apply lookup_insert_eq|exact Hact].
  cbn [trackedDocuments set_trackedDocuments]. rewrite Set_has_add, Set_delete_add.
  eexists _, _. split; [reflexivity|].
  cbn [trace set_trace set_clients clients].
  split; [apply lookup_insert_eq|].
  split; [by rewrite <- !app_assoc|].
  cbn [trackedDocuments set_trackedDocuments].
  split; [done|]. split; [apply not_elem_of_Set_delete|].
  intros Hnot. rewrite Set_delete_absent by done. by destruct c.
Qed.

Lemma didOpen_then_didClose_at_active_owner_witness :
  exists w',
    bind (exec (DidOpen 0 docA2)) (fun _ => exec (DidClose 0 docA2)) twoFolders
      = (Normal tt, w') /\
    clients w' !! 0%nat = Some readyClientA0 /\
    trace w' = trace twoFolders ++
      [TrackedAdd 0 docA2; Transport 0 (TextDocumentDidOpen docA2);
       TrackedDelete 0 docA2; Transport 0 (TextDocumentDidClose docA2)].
Proof.
  destruct (didOpen_then_didClose_at_active_owner twoFolders 0 readyClientA0 docA2)
    as (w' & c' & Hrun & Hc' & Htr & _ & _ & Hsame).
  - exact readyClientA0_stored.
  - vm_compute. reflexivity.
  - vm_compute. reflexivity.
  - exists w'. split; [exact Hrun|]. split; [|exact Htr].
    rewrite Hc'. f_equal. apply Hsame. apply not_elem_of_nil.
Defined.

(** ** The readiness gate, continued *)

Lemma gate_set_model m c : gate (set_model m c) = gate c.
Proof. done. Qed.


(** Once the gate has failed it stays failed and lets nothing through.
    Each of the three requests is rejected on the spot with
    ["Unsupported client"], the world staying as it is; every other
    operation completes without sending or queuing anything, and the
    only thing it may still do is track the document it was given. *)
Theorem failed_gate_rejects_and_drops w this c :
  clients w !! this = Some c -> gate c = GateFailed ->
  requestGoToDeclaration this w =
    (Normal (Rejected "Unsupported client"), w) /\
  (forall rootPath fileName,
     requestSwitchHeaderSource this rootPath fileName w =
       (Normal (Rejected "Unsupported client"), w)) /\
  (forall document,
     requestNavigationList this document w =
       (Normal (Rejected "Unsupported client"), w)) /\
  forall call, exists w' c',
    perform this call w = (Normal tt, w') /\
    clients w' !! this = Some c' /\
    gate c' = GateFailed /\
    onReadyPromise c' = onReadyPromise c /\
    trace w' = trace w ++
      match call with TakeOwnership d => [TrackedAdd this d] | _ => [] end.
Proof.
  intros Hc Hg.
  split; [by eapply requestWhenReady_failed|].
  split; [intros; by eapply requestWhenReady_failed|].
  split; [intros; by eapply requestWhenReady_failed|].
  intros call.
  destruct call; cbn [perform];
    unfold requestGoToDeclaration, requestSwitchHeaderSource,
      requestNavigationList, takeOwnership, activeDocumentChanged, activate,
      selectionChanged, resetDatabase, deactivate, pauseParsing,
      resumeParsing, handleConfigurationSelectCommand,
      handleShowParsingCommands, handleConfigurationEditCommand,
      handleAddToIncludePathCommand;
    unfold bind;
    try (erewrite requestWhenReady_failed by done);
    try (erewrite notifyWhenReady_failed by done);
    try (exists w, c; rewrite app_nil_r; by repeat split).
  - (* takeOwnership *)
    js_run. eexists _, _. split; [reflexivity|]. split; [lookup_solve|].
    by repeat split.
  - (* activate *)
    erewrite updateClient_eq by done.
    erewrite notifyWhenReady_failed; [|lookup_solve|by rewrite gate_set_model].
    eexists _, _. split; [reflexivity|]. split; [lookup_solve|].
    cbn. rewrite app_nil_r. by repeat split.
  - (* deactivate *)
    erewrite updateClient_eq by done.
    erewrite notifyWhenReady_failed; [|lookup_solve|by rewrite gate_set_model].
    eexists _, _. split; [reflexivity|]. split; [lookup_solve|].
    cbn. rewrite app_nil_r. by repeat split.
Qed.

Lemma failed_gate_rejects_and_drops_witness :
  requestGoToDeclaration 0 unsupportedStarted =
    (Normal (Rejected "Unsupported client"), unsupportedStarted).
Proof.
  exact (proj1 (failed_gate_rejects_and_drops unsupportedStarted 0
                  unsupportedClient unsupportedClient_stored eq_refl)).
Defined.

(** When the server fails to start, nothing that was waiting at the gate
    is sent.  Whatever operations were submitted while the gate was
    pending, the transition to failed completes and leaves the transport
    of the client as it was: no message of the queue reaches it. *)
Theorem failed_start_sends_nothing w this c q calls :
  clients w !! this = Some c -> waiting c q ->
  exists w' c',
    bind (performAll this calls) (fun _ => onReadyRejected this) w
      = (Normal tt, w') /\
    clients w' !! this = Some c' /\
    gate c' = GateFailed /\
    transportOf this (trace w') = transportOf this (trace w).
Proof.
  intros Hc Hw.
  destruct (performAll_waiting calls w this c q Hc Hw)
    as (w1 & c1 & Hrun1 & Hc1 & Hw1 & _ & Htr1).
  destruct (onReadyRejected_eq w1 this c1 _ Hc1 Hw1)
    as (w2 & c2 & Hrun2 & Hc2 & Hg2 & Htr2 & Hset).
  exists w2, c2. unfold bind. rewrite Hrun1.
  split; [exact Hrun2|]. split; [exact Hc2|]. split; [exact Hg2|].
  congruence.
Qed.

Lemma failed_start_sends_nothing_witness :
  exists w' c',
    bind (performAll 0 [GoToDeclaration; Activate])
         (fun _ => onReadyRejected 0) oneFolderPending = (Normal tt, w') /\
    clients w' !! 0%nat = Some c' /\
    gate c' = GateFailed /\
    transportOf 0 (trace w') = [].
Proof.
  destruct (failed_start_sends_nothing oneFolderPending 0 pendingClientA []
              [GoToDeclaration; Activate] pendingClientA_stored)
    as (w' & c' & Hrun & Hc' & Hg & Htr).
  - repeat split.
  - exists w', c'. split; [exact Hrun|]. split; [exact Hc'|].
    split; [exact Hg|]. exact Htr.
Defined.

(** What a client acquires when it becomes ready is what [dispose]
    releases.  Becoming ready registers the configuration for disposal
    and, for a client with a workspace folder only, a file watcher;
    [dispose] then stops the transport and disposes of exactly these, in
    the order in which they were registered. *)
Theorem dispose_releases_what_ready_acquired w this c q :
  clients w !! this = Some c -> waiting c q -> disposables c = [] ->
  exists w1 c1 w2 c2,
    onReadyFulfilled this w = (Normal tt, w1) /\
    clients w1 !! this = Some c1 /\
    disposables c1 =
      ConfigurationDisposable ::
      match workspaceRoot c with
      | Some _ => [FileWatcherDisposable]
      | None => []
      end /\
    dispose this w1 = (Normal tt, w2) /\
    clients w2 !! this = Some c2 /\
    disposables c2 = [] /\
    trace w2 = trace w1 ++
      TransportStop this :: map (Disposed this) (disposables c1).
Proof.
  intros Hc Hw Hd. pose proof Hw as (Hl & Hs & Hp).
  assert (Hh : exists w0 c0,
    onReadyFulfilledHandler this w = (Normal tt, w0) /\
    clients w0 !! this = Some c0 /\
    onReadyPromise c0 = Some (Pending q) /\
    is_Some (languageClient c0) /\
    disposables c0 =
      ConfigurationDisposable ::
      match workspaceRoot c with
      | Some _ => [FileWatcherDisposable]
      | None => []
      end).
  { unfold onReadyFulfilledHandler, registerFileWatcher. js_run.
    destruct (workspaceRoot c) eqn:Hroot; js_run;
      eexists _, _; (split; [reflexivity|]); (split; [lookup_solve|]);
      cbn; rewrite ?Hroot, ?Hd; eauto. }
  destruct Hh as (w0 & c0 & Hrun0 & Hc0 & Hp0 & [lc Hl0] & Hd0).
  destruct (settleOnReadyPromise_eq w0 this c0 q Hc0 Hp0) as (w1 & Hrun1 & Hc1 & _).
  eexists w1, _, _, _. unfold onReadyFulfilled, bind. rewrite Hrun0.
  split; [exact Hrun1|]. split; [exact Hc1|]. split; [exact Hd0|].
  rewrite (dispose_eq _ _ _ Hc1).
  split; [reflexivity|]. split; [apply lookup_insert_eq|]. split; [done|].
  cbn. unfold stopEvents. cbn. by rewrite Hl0.
Qed.

Lemma dispose_releases_what_ready_acquired_witness :
  exists w1 w2,
    onReadyFulfilled 0 oneFolderPending = (Normal tt, w1) /\
    dispose 0 w1 = (Normal tt, w2) /\
    trace w2 = trace w1 ++
      [TransportStop 0; Disposed 0 ConfigurationDisposable;
       Disposed 0 FileWatcherDisposable].
Proof.
  destruct (dispose_releases_what_ready_acquired oneFolderPending 0
              pendingClientA [] pendingClientA_stored)
    as (w1 & c1 & w2 & c2 & Hrun1 & _ & Hd & Hrun2 & _ & _ & Htr).
  - repeat split.
  - reflexivity.
  - exists w1, w2. split; [exact Hrun1|]. split; [exact Hrun2|].
    rewrite Htr, Hd. reflexivity.
Defined.

Import Configurations.

(** * Debugger configuration snippets: properties *)

(** ** Indentation *)

Lemma chars_concat_cons sep x rest :
  JsString.chars (String.concat sep (x :: rest)) =
  JsString.chars x ++
  match rest with
  | [] => []
  | _ => JsString.chars sep ++ JsString.chars (String.concat sep rest)
  end.
Proof.
  destruct rest as [|y rest]; cbn [String.concat].
  - by rewrite app_nil_r.
  - by rewrite !chars_app.
Qed.

Lemma indent_lines tabs l :
  JsString.chars
    (JsString.join
       (map (fun line => tabs +:+ line)
            (JsString.str <$> JsString.splitChars "010"%char l)) LF) =
  indentChars (JsString.chars tabs) l.
Proof.
  unfold JsString.join, indentChars.
  induction l as [|c l IH].
  - cbn. rewrite chars_app. done.
  - cbn [JsString.splitChars flat_map]. case_bool_decide as Hc.
    + subst c. cbn [fmap list_fmap map].
      change (JsString.str []) with "".
      rewrite chars_concat_cons, chars_app. cbn [JsString.chars String.list_ascii_of_string].
      rewrite app_nil_r.
      pose proof (splitChars_nonempty "010"%char l) as Hne.
      destruct (JsString.splitChars "010"%char l) as [|p ps] eqn:E; [done|].
      cbn [fmap list_fmap map] in IH |- *. rewrite IH.
      change (JsString.chars LF) with ["010"%char]. done.
    + pose proof (splitChars_nonempty "010"%char l) as Hne.
      destruct (JsString.splitChars "010"%char l) as [|p ps] eqn:E; [done|].
      cbn [fmap list_fmap map] in IH |- *.
      rewrite chars_concat_cons in IH |- *. rewrite chars_app in IH |- *.
      rewrite chars_str in IH |- *. rewrite <- app_assoc in IH.
      apply app_inv_head in IH. rewrite <- !app_assoc. cbn [app]. by rewrite IH.
Qed.

Lemma chars_repeat s n :
  JsString.chars (JsString.repeat s n) = mjoin (replicate n (JsString.chars s)).
Proof.
  induction n as [|n IH]; [done|]. cbn [JsString.repeat replicate].
  by rewrite chars_app, IH.
Qed.

Lemma indentJsonString_chars json numTabs :
  JsString.chars (indentJsonString json numTabs) =
  JsString.trimEndChars
    (JsString.trimStartChars
       (indentChars (JsString.chars (JsString.repeat TAB numTabs))
                    (JsString.chars json))).
Proof.
  unfold indentJsonString, JsString.trim, JsString.split.
  by rewrite chars_str, indent_lines.
Qed.

(** *** Trimming *)

Lemma trimStartChars_ws ws l :
  Forall (fun c => JsString.isWhiteSpace c = true) ws ->
  JsString.trimStartChars (ws ++ l) = JsString.trimStartChars l.
Proof.
  induction 1 as [|c ws Hc _ IH]; [done|]. cbn. by rewrite Hc.
Qed.

Lemma trimStartChars_text c l :
  JsString.isWhiteSpace c = false -> JsString.trimStartChars (c :: l) = c :: l.
Proof. intros H. cbn. by rewrite H. Qed.

Lemma trimStartChars_split l :
  exists ws, l = ws ++ JsString.trimStartChars l /\
             Forall (fun c => JsString.isWhiteSpace c = true) ws.
Proof.
  induction l as [|c l (ws & Hl & Hws)]; [by exists []|].
  cbn. destruct (JsString.isWhiteSpace c) eqn:Hc.
  - exists (c :: ws). split; [by rewrite Hl at 1|by constructor].
  - by exists [].
Qed.

Lemma trimEndChars_ws l ws :
  Forall (fun c => JsString.isWhiteSpace c = true) ws ->
  JsString.trimEndChars (l ++ ws) = JsString.trimEndChars l.
Proof.
  intros H. unfold JsString.trimEndChars. rewrite rev_app_distr.
  rewrite trimStartChars_ws; [done|]. by apply Forall_rev.
Qed.

Lemma trimEndChars_text l c :
  JsString.isWhiteSpace c = false -> JsString.trimEndChars (l ++ [c]) = l ++ [c].
Proof.
  intros H. unfold JsString.trimEndChars. rewrite rev_app_distr. cbn [rev app].
  rewrite trimStartChars_text by done. cbn [rev]. by rewrite rev_involutive.
Qed.

Lemma trimEndChars_split l :
  exists ws, l = JsString.trimEndChars l ++ ws /\
             Forall (fun c => JsString.isWhiteSpace c = true) ws.
Proof.
  unfold JsString.trimEndChars.
  destruct (trimStartChars_split (rev l)) as (ws & Hl & Hws).
  exists (rev ws). split; [|by apply Forall_rev].
  rewrite <- rev_app_distr, <- Hl. by rewrite rev_involutive.
Qed.

(** *** Lines *)

Lemma chars_join x rest :
  JsString.chars (JsString.join (x :: rest) LF) =
  JsString.chars x ++ flat_map (fun r => "010"%char :: JsString.chars r) rest.
Proof.
  unfold JsString.join. revert x.
  induction rest as [|y rest IH]; intros x.
  - cbn. by rewrite app_nil_r.
  - rewrite chars_concat_cons, IH. cbn [flat_map].
    change (JsString.chars LF) with ["010"%char]. done.
Qed.

Lemma flat_map_line (tabs : list Ascii.ascii) l :
  "010"%char ∉ l ->
  flat_map (fun c => if bool_decide (c = "010"%char) then c :: tabs else [c]) l = l.
Proof.
  induction l as [|c l IH]; [done|]. intros H.
  apply not_elem_of_cons in H as [Hc H]. cbn.
  rewrite bool_decide_eq_false_2 by done. cbn. by rewrite IH.
Qed.

Lemma tabs_are_white_space n :
  Forall (fun c => JsString.isWhiteSpace c = true)
         (JsString.chars (JsString.repeat TAB n)).
Proof.
  induction n as [|n IH]; [constructor|].
  cbn [JsString.repeat]. rewrite chars_app. apply Forall_app. split; [|done].
  by repeat constructor.
Qed.

Lemma last_last_cons {A} (r : A) rest first :
  List.last (r :: rest) first = List.last rest r.
Proof.
  revert r first. induction rest as [|x rest IH]; intros r first; [done|].
  change (List.last (r :: x :: rest) first) with (List.last (x :: rest) first).
  by rewrite !IH.
Qed.

Lemma last_lines first rest c :
  last (JsString.chars (List.last rest first)) = Some c ->
  last (JsString.chars first ++
        flat_map (fun r => "010"%char :: JsString.chars r) rest) = Some c.
Proof.
  revert first. induction rest as [|r rest IH]; intros first H.
  - cbn in *. by rewrite app_nil_r.
  - rewrite last_last_cons in H. apply IH in H.
    cbn [flat_map]. rewrite (app_assoc _ ("010"%char :: JsString.chars r)).
    change ("010"%char :: JsString.chars r) with (["010"%char] ++ JsString.chars r).
    rewrite app_assoc, <- (app_assoc _ (JsString.chars r)).
    by rewrite last_app, H.
Qed.

(** What [indentJsonString] does to a text given line by line.  If the
    first line starts with text and the last line ends with text, the
    first line stays in its column and every other line gets [numTabs]
    tabs; and a line feed at the end of the text is dropped, so a text
    that ends in one is indented like the text before it. *)
Theorem indentJsonString_indents_all_but_the_first_line first rest numTabs :
  Forall isLine (first :: rest) ->
  startsWithText first ->
  endsWithText (List.last rest first) ->
  let json := JsString.join (first :: rest) LF in
  let indented :=
    JsString.join
      (first :: map (fun line => JsString.repeat TAB numTabs +:+ line) rest) LF in
  indentJsonString json numTabs = indented /\
  indentJsonString (json +:+ LF) numTabs = indented.
Proof.
  intros Hlines (c0 & Hhead & Hc0) (c1 & Hlast & Hc1) json indented.
  set (tabs := JsString.chars (JsString.repeat TAB numTabs)).
  assert (Hind : indentChars tabs (JsString.chars json) =
                 tabs ++ JsString.chars indented).
  { unfold indentChars, json, indented. f_equal. rewrite !chars_join.
    apply Forall_cons in Hlines as [Hfirst Hrest].
    rewrite flat_map_app, (flat_map_line _ _ Hfirst). f_equal.
    clear -Hrest. induction rest as [|r rest IH]; [done|].
    apply Forall_cons in Hrest as [Hr Hrest]. cbn [flat_map map].
    rewrite flat_map_app. cbn [flat_map]. rewrite bool_decide_eq_true_2 by done.
    rewrite (flat_map_line _ _ Hr), IH by done.
    rewrite chars_app. fold tabs. cbn [app]. by rewrite <- !app_assoc. }
  assert (Htext : exists l, JsString.chars indented = c0 :: l).
  { unfold indented. rewrite chars_join.
    destruct (JsString.chars first) as [|c l]; [done|].
    cbn in Hhead. injection Hhead as ->. eauto. }
  assert (Hend : exists l, JsString.chars indented = l ++ [c1]).
  { apply last_Some. unfold indented. rewrite chars_join.
    set (g := fun r => "010"%char :: JsString.chars r).
    assert (Hl : last (JsString.chars
               (List.last (map (fun line => JsString.repeat TAB numTabs +:+ line) rest)
                          first)) = Some c1).
    { destruct rest as [|r rest] using rev_ind; [done|].
      rewrite map_app. cbn [map]. rewrite !List.last_last in *.
      by rewrite chars_app, last_app, Hlast. }
    by apply last_lines. }
  assert (Htrim : JsString.trimEndChars
                    (JsString.trimStartChars (tabs ++ JsString.chars indented)) =
                  JsString.chars indented).
  { rewrite trimStartChars_ws by apply tabs_are_white_space.
    destruct Htext as [l Hl]. rewrite Hl, trimStartChars_text by done.
    rewrite <- Hl. destruct Hend as [l' Hl']. rewrite Hl'.
    by apply trimEndChars_text. }
  split; apply chars_inj; rewrite indentJsonString_chars; fold tabs.
  - by rewrite Hind.
  - assert (Hind' : indentChars tabs (JsString.chars (json +:+ LF)) =
                    tabs ++ JsString.chars indented ++ "010"%char :: tabs).
    { rewrite chars_app. unfold indentChars in *. rewrite flat_map_app, app_assoc, Hind.
      cbn [JsString.chars LF String.list_ascii_of_string flat_map].
      rewrite bool_decide_eq_true_2 by done. by rewrite app_nil_r, <- app_assoc. }
    rewrite Hind'. rewrite trimStartChars_ws by apply tabs_are_white_space.
    destruct Htext as [l Hl]. rewrite Hl. cbn [app].
    rewrite trimStartChars_text by done.
    change (c0 :: l ++ "010"%char :: tabs) with ((c0 :: l) ++ "010"%char :: tabs).
    rewrite <- Hl, trimEndChars_ws
      by (constructor; [done|apply tabs_are_white_space]).
    destruct Hend as [l' Hl']. rewrite Hl'. by apply trimEndChars_text.
Qed.

Lemma indentJsonString_indents_all_but_the_first_line_witness :
  indentJsonString ("a: 1," +:+ LF +:+ "b: 2," +:+ LF +:+ "c: 3" +:+ LF) 1 =
  "a: 1," +:+ LF +:+ TAB +:+ "b: 2," +:+ LF +:+ TAB +:+ "c: 3".
Proof.
  refine (proj2 (indentJsonString_indents_all_but_the_first_line
                   "a: 1," ["b: 2,"; "c: 3"] 1 _ _ _)).
  - repeat constructor; apply (bool_decide_unpack _); vm_compute; reflexivity.
  - eexists. split; reflexivity.
  - eexists. split; reflexivity.
Defined.

(** ** Escaped macros *)

Lemma dollarsEscapedAfter_app p a b :
  dollarsEscapedAfter p (a ++ b) =
  dollarsEscapedAfter p a && dollarsEscapedAfter (List.last a p) b.
Proof.
  revert p. induction a as [|c a IH]; intros p; [done|].
  cbn [app dollarsEscapedAfter]. rewrite IH, andb_assoc. do 2 f_equal.
  by rewrite last_last_cons.
Qed.

(** What comes before a text matters only if it is a backslash. *)
Lemma dollarsEscapedAfter_previous p p' l :
  (p = "\"%char <-> p' = "\"%char) ->
  dollarsEscapedAfter p l = dollarsEscapedAfter p' l.
Proof.
  intros H. destruct l as [|c l]; [done|]. cbn. do 2 f_equal.
  apply bool_decide_ext. done.
Qed.

Lemma dollarsEscapedAfter_no_dollar p l :
  "$"%char ∉ l -> dollarsEscapedAfter p l = true.
Proof.
  revert p. induction l as [|c l IH]; intros p H; [done|].
  apply not_elem_of_cons in H as [Hc H]. cbn.
  rewrite bool_decide_eq_false_2 by done. by apply IH.
Qed.

Lemma head_not_dollar p l :
  dollarsEscapedAfter p l = true -> p <> "\"%char -> head l <> Some "$"%char.
Proof.
  destruct l as [|c l]; [done|]. cbn. intros H Hp [= ->].
  rewrite bool_decide_eq_true_2 in H by done.
  rewrite bool_decide_eq_false_2 in H by done. done.
Qed.

Lemma dollarsEscapedAfter_any p l :
  dollarsEscapedAfter p l = true -> p <> "\"%char ->
  forall q, dollarsEscapedAfter q l = true.
Proof.
  intros H Hp q. pose proof (head_not_dollar _ _ H Hp) as Hh.
  destruct l as [|c l]; [done|]. cbn in *.
  apply andb_true_iff in H as [_ H]. rewrite H.
  rewrite bool_decide_eq_false_2 by congruence. done.
Qed.

Lemma inert_app a b : inert a -> inert b -> inert (a +:+ b).
Proof.
  intros Ha Hb p. unfold inert in *.
  by rewrite chars_app, dollarsEscapedAfter_app, Ha, Hb.
Qed.

Lemma inert_dollarFree s : dollarFree s -> inert s.
Proof. intros H p. by apply dollarsEscapedAfter_no_dollar. Qed.

Lemma inert_quoted s : inert s -> inert (quoted s).
Proof. intros H. unfold quoted. repeat apply inert_app; try done; by intros p. Qed.

Lemma inert_dollarsEscaped s : inert s -> dollarsEscaped s = true.
Proof. intros H. apply H. Qed.

Lemma white_space_no_backslash q ws :
  Forall (fun c => JsString.isWhiteSpace c = true) ws ->
  q <> "\"%char -> List.last ws q <> "\"%char.
Proof.
  intros Hws Hq. destruct ws as [|c ws _] using rev_ind; [done|].
  rewrite List.last_last. intros ->.
  apply Forall_app in Hws as [_ Hws]. apply Forall_inv in Hws.
  discriminate Hws.
Qed.

Lemma white_space_no_dollar q ws :
  Forall (fun c => JsString.isWhiteSpace c = true) ws ->
  dollarsEscapedAfter q ws = true.
Proof.
  intros Hws. apply dollarsEscapedAfter_no_dollar. intros Hin.
  rewrite Forall_forall in Hws. specialize (Hws _ Hin). discriminate Hws.
Qed.

(** Removing white space at either end keeps a text inert. *)
Lemma inert_trimmed l :
  (forall p, dollarsEscapedAfter p l = true) ->
  forall p, dollarsEscapedAfter p
              (JsString.trimEndChars (JsString.trimStartChars l)) = true.
Proof.
  intros H.
  destruct (trimStartChars_split l) as (ws1 & Hl1 & Hws1).
  destruct (trimEndChars_split (JsString.trimStartChars l)) as (ws2 & Hl2 & _).
  set (t := JsString.trimEndChars (JsString.trimStartChars l)) in *.
  assert (Ht : dollarsEscapedAfter (List.last ws1 " "%char) t = true).
  { specialize (H " "%char). rewrite Hl1, Hl2 in H.
    rewrite !dollarsEscapedAfter_app in H.
    by apply andb_true_iff in H as [_ [H _]%andb_true_iff]. }
  apply (dollarsEscapedAfter_any _ _ Ht).
  by apply white_space_no_backslash.
Qed.

Lemma inert_trim s : inert s -> inert (JsString.trim s).
Proof.
  intros H p. unfold JsString.trim. rewrite chars_str. by apply inert_trimmed.
Qed.

(** Tabs after the line feeds change nothing for the dollar signs. *)
Lemma dollarsEscapedAfter_indented tabs l :
  Forall (fun c => JsString.isWhiteSpace c = true) tabs ->
  forall p,
    dollarsEscapedAfter p
      (flat_map (fun c => if bool_decide (c = "010"%char)
                          then c :: tabs else [c]) l) =
    dollarsEscapedAfter p l.
Proof.
  intros Htabs. induction l as [|c l IH]; intros p; [done|].
  cbn [flat_map]. case_bool_decide as Hc.
  - subst c. cbn [app dollarsEscapedAfter].
    rewrite dollarsEscapedAfter_app, white_space_no_dollar by done.
    cbn [andb]. rewrite IH. f_equal.
    apply dollarsEscapedAfter_previous. split; [|done].
    intros H. by apply white_space_no_backslash in H.
  - cbn [app dollarsEscapedAfter]. by rewrite IH.
Qed.

Lemma inert_indentJsonString json numTabs :
  inert json -> inert (indentJsonString json numTabs).
Proof.
  intros H p. rewrite indentJsonString_chars. apply inert_trimmed.
  intros q. unfold indentChars.
  rewrite dollarsEscapedAfter_app,
    white_space_no_dollar by apply tabs_are_white_space.
  rewrite dollarsEscapedAfter_indented by apply tabs_are_white_space.
  apply H.
Qed.

(** *** Replacing *)

Lemma plainDollars_app a b :
  plainDollars a = true -> plainDollars b = true -> plainDollars (a ++ b) = true.
Proof.
  intros Ha Hb. induction a as [|c r IH]; [done|].
  cbn [app plainDollars] in *. apply andb_true_iff in Ha as [Hc Hr].
  rewrite IH by done. rewrite andb_true_r.
  destruct r as [|d r]; [|exact Hc].
  cbn in Hc. rewrite orb_false_r in Hc. by rewrite Hc.
Qed.

Lemma plainDollars_no_dollar l : "$"%char ∉ l -> plainDollars l = true.
Proof.
  induction l as [|c l IH]; [done|]. intros H.
  apply not_elem_of_cons in H as [Hc H]. cbn.
  rewrite bool_decide_eq_false_2 by done. by apply IH.
Qed.

Lemma plain_app a b : plain a -> plain b -> plain (a +:+ b).
Proof. intros Ha Hb. unfold plain. rewrite chars_app. by apply plainDollars_app. Qed.

Lemma plain_dollarFree s : dollarFree s -> plain s.
Proof. apply plainDollars_no_dollar. Qed.

(** A plain replacement text is taken as it is. *)
Lemma getSubstitution_plain matched before following l :
  plainDollars l = true ->
  JsString.getSubstitution matched before following l = l.
Proof.
  induction l as [|c r IH]; [done|]. intros H.
  cbn [plainDollars] in H. apply andb_true_iff in H as [Hc Hr].
  cbn [JsString.getSubstitution]. case_bool_decide as Hd.
  - cbn in Hc. apply bool_decide_eq_true in Hc.
    destruct r as [|d r']; [done|]. cbn in Hc. injection Hc as ->.
    rewrite !bool_decide_eq_false_2 by done. by rewrite IH.
  - by rewrite IH.
Qed.

Lemma indexOfFrom_found pattern l : forall i k,
  JsString.indexOfFrom pattern l i = Some k ->
  exists before following,
    l = before ++ pattern ++ following /\ k = (i + length before)%nat.
Proof.
  induction l as [|c l IH]; intros i k; cbn [JsString.indexOfFrom].
  - case_bool_decide as Hp; [|done]. intros [= <-].
    destruct Hp as [following Hf]. exists [], following. split; [done|]. cbn. lia.
  - case_bool_decide as Hp.
    + intros [= <-]. destruct Hp as [following Hf].
      exists [], following. split; [done|]. cbn. lia.
    + intros H. apply IH in H as (before & following & -> & ->).
      exists (c :: before), following. split; [done|]. cbn. lia.
Qed.

(** [replace] leaves the text alone or puts the replacement text in the
    place of one occurrence of the search string. *)
Lemma replace_cases s searchValue replaceValue :
  JsString.replace s searchValue replaceValue = s \/
  exists before following,
    JsString.chars s = before ++ JsString.chars searchValue ++ following /\
    JsString.chars (JsString.replace s searchValue replaceValue) =
      before ++
      JsString.getSubstitution (JsString.chars searchValue) before following
        (JsString.chars replaceValue) ++
      following.
Proof.
  unfold JsString.replace, JsString.indexOf.
  destruct (JsString.indexOfFrom _ _ 0) as [k|] eqn:E; [|by left].
  right. apply indexOfFrom_found in E as (before & following & Hs & ->).
  exists before, following. split; [done|]. cbv zeta.
  rewrite chars_str, Hs. cbn [Nat.add].
  rewrite take_app_length.
  rewrite (app_assoc before (JsString.chars searchValue) following).
  rewrite drop_app_length' by (by rewrite length_app). done.
Qed.

Lemma inert_replace s searchValue replaceValue c :
  inert s -> inert replaceValue -> plain replaceValue ->
  last (JsString.chars searchValue) = Some c -> c <> "\"%char ->
  inert (JsString.replace s searchValue replaceValue).
Proof.
  intros Hs Hr Hp Hlast Hc.
  destruct (replace_cases s searchValue replaceValue)
    as [->|(before & following & Hchars & Hres)]; [done|].
  intros p. rewrite Hres, getSubstitution_plain by exact Hp.
  specialize (Hs p). rewrite Hchars, !dollarsEscapedAfter_app in Hs.
  apply andb_true_iff in Hs as [Hb [_ Hf]%andb_true_iff].
  rewrite !dollarsEscapedAfter_app, Hb, Hr. cbn [andb].
  eapply dollarsEscapedAfter_any; [exact Hf|].
  apply last_Some in Hlast as [l' Hl']. rewrite Hl', List.last_last. done.
Qed.

Lemma inert_formatString_from format args (number : nat -> nat) :
  inert format -> Forall (fun a => inert a /\ plain a) args ->
  inert (foldl (fun format entry =>
                  JsString.replace format ("{" +:+ pretty entry.1 +:+ "}") entry.2)
           format (imap (fun arg value => (number arg, value)) args)).
Proof.
  intros Hf Hargs. revert format Hf number.
  induction Hargs as [|a args [Ha Hpa] _ IH]; intros format Hf number; [done|].
  cbn [imap foldl]. refine (IH _ _ (number ∘ S)).
  apply (inert_replace _ _ _ "}"%char); [done..| |done].
  cbn [fst]. rewrite !chars_app. rewrite app_assoc. apply last_snoc.
Qed.

Lemma inert_formatString format args :
  inert format -> Forall (fun a => inert a /\ plain a) args ->
  inert (formatString format args).
Proof. intros. by apply (inert_formatString_from _ _ (fun i => i)). Qed.

(** *** The pieces of a snippet *)

Lemma dollarFree_app a b : dollarFree a -> dollarFree b -> dollarFree (a +:+ b).
Proof.
  unfold dollarFree. rewrite chars_app. intros Ha Hb [?|?]%elem_of_app; tauto.
Qed.

Lemma dollarFree_indentJsonString json numTabs :
  dollarFree json -> dollarFree (indentJsonString json numTabs).
Proof.
  unfold dollarFree. intros H. rewrite indentJsonString_chars.
  set (x := indentChars _ _).
  assert (Hx : "$"%char ∉ x).
  { subst x. unfold indentChars.
    pose proof (tabs_are_white_space numTabs) as Htabs.
    rewrite Forall_forall in Htabs.
    intros [Hin|Hin]%elem_of_app.
    - specialize (Htabs _ Hin). discriminate Htabs.
    - induction (JsString.chars json) as [|c l IH]; [by apply elem_of_nil in Hin|].
      apply not_elem_of_cons in H as [Hc H]. cbn [flat_map] in Hin.
      apply elem_of_app in Hin as [Hin|Hin]; [|by apply IH].
      case_bool_decide.
      + apply elem_of_cons in Hin as [?|Hin]; [done|].
        specialize (Htabs _ Hin). discriminate Htabs.
      + by apply list_elem_of_singleton in Hin. }
  destruct (trimStartChars_split x) as (ws1 & Hl1 & _).
  destruct (trimEndChars_split (JsString.trimStartChars x)) as (ws2 & Hl2 & _).
  intros Hin. apply Hx. rewrite Hl1, Hl2.
  apply elem_of_app. right. apply elem_of_app. by left.
Qed.

Lemma live_app_l a b : live a -> live (a +:+ b).
Proof.
  intros H p. by rewrite chars_app, dollarsEscapedAfter_app, H.
Qed.

Lemma live_app_r a b : live b -> live (a +:+ b).
Proof.
  intros H p. by rewrite chars_app, dollarsEscapedAfter_app, H, andb_false_r.
Qed.

Lemma live_quoted s : live s -> live (quoted s).
Proof. intros H. unfold quoted. by apply live_app_r, live_app_l. Qed.

(** A dollar sign that follows anything but a backslash is live. *)
Lemma live_after a b c :
  last (JsString.chars a) = Some c -> c <> "\"%char ->
  head (JsString.chars b) = Some "$"%char ->
  live (a +:+ b).
Proof.
  intros Ha Hc Hb p. rewrite chars_app, dollarsEscapedAfter_app.
  apply last_Some in Ha as [a' ->]. rewrite List.last_last.
  destruct (JsString.chars b) as [|d b']; [done|]. injection Hb as ->.
  cbn. rewrite (bool_decide_eq_false_2 (c = _)) by done.
  by rewrite andb_false_r.
Qed.

Ltac inert_text :=
  lazymatch goal with
  | |- inert (_ +:+ _) => apply inert_app; inert_text
  | |- inert (quoted _) => apply inert_quoted; inert_text
  | |- inert (indentJsonString _ _) => apply inert_indentJsonString; inert_text
  | |- inert (JsString.trim _) => apply inert_trim; inert_text
  | |- inert _ =>
      first [ assumption
            | apply inert_dollarFree; assumption
            | intros ?; vm_compute; reflexivity ]
  end.

Ltac plain_text :=
  lazymatch goal with
  | |- plain (_ +:+ _) => apply plain_app; plain_text
  | |- plain (quoted _) => unfold quoted; plain_text
  | |- plain (indentJsonString _ _) =>
      apply plain_dollarFree, dollarFree_indentJsonString; assumption
  | |- plain _ =>
      first [ apply plain_dollarFree; assumption
            | vm_compute; reflexivity ]
  end.

Ltac live_text :=
  lazymatch goal with
  | |- live (quoted (_ +:+ _) +:+ _) => apply live_app_l, live_quoted
  | |- live (_ +:+ _) => apply live_app_r; live_text
  end.

Lemma inert_CreateLaunchString name type executable :
  dollarFree name -> dollarFree type -> dollarFree executable ->
  inert (CreateLaunchString name type executable false).
Proof. intros. unfold CreateLaunchString. inert_text. Qed.

Lemma live_CreateLaunchString name type executable :
  live (CreateLaunchString name type executable true).
Proof.
  unfold CreateLaunchString. live_text.
  by apply (live_after _ _ " "%char).
Qed.

Lemma inert_CreateRemoteAttachString name type executable :
  dollarFree name -> dollarFree type -> dollarFree executable ->
  inert (CreateRemoteAttachString name type executable).
Proof. intros. unfold CreateRemoteAttachString. inert_text. Qed.

Lemma inert_CreatePipeTransportString pipeProgram debuggerProgram :
  dollarFree pipeProgram -> dollarFree debuggerProgram ->
  inert (CreatePipeTransportString pipeProgram debuggerProgram).
Proof. intros. unfold CreatePipeTransportString. inert_text. Qed.

Lemma inert_CreateAttachString EOL name type executable :
  dollarFree EOL -> dollarFree name -> dollarFree type -> dollarFree executable ->
  inert (CreateAttachString EOL name type executable).
Proof.
  intros. unfold CreateAttachString. apply inert_formatString; [inert_text|].
  repeat constructor; destruct (String.eqb type "cppdbg");
    first [inert_text | plain_text].
Qed.

Lemma inert_miDebuggerPathProperty EOL os_platform this :
  dollarFree EOL ->
  inert (miDebuggerPathProperty EOL os_platform this) /\
  plain (miDebuggerPathProperty EOL os_platform this).
Proof.
  intros. unfold miDebuggerPathProperty.
  destruct (_ && _); split; first [inert_text | plain_text].
Qed.

Lemma inert_additionalPropertiesText EOL this :
  dollarFree EOL -> dollarFree (additionalProperties this) ->
  inert (additionalPropertiesText EOL this) /\
  plain (additionalPropertiesText EOL this).
Proof.
  intros. unfold additionalPropertiesText.
  destruct (String.eqb _ _); split; first [inert_text | plain_text].
Qed.

(** [CreateLaunchString] escapes the macros of the text it builds unless
    the text is for an initial configuration: with
    [isInitialConfiguration] false every dollar sign follows a
    backslash, and with [isInitialConfiguration] true the
    [${workspaceFolder}] of the program line is live. *)
Theorem CreateLaunchString_escapes_macros_unless_initial
  name type executable isInitialConfiguration :
  dollarFree name -> dollarFree type -> dollarFree executable ->
  dollarsEscaped (CreateLaunchString name type executable isInitialConfiguration)
  = negb isInitialConfiguration.
Proof.
  intros Hn Ht He. destruct isInitialConfiguration; cbn [negb].
  - apply live_CreateLaunchString.
  - by apply inert_dollarsEscaped, inert_CreateLaunchString.
Qed.

Lemma CreateLaunchString_escapes_macros_unless_initial_witness :
  dollarsEscaped (CreateLaunchString "(gdb) Launch" "cppdbg" "a.out" false) = true /\
  dollarsEscaped (CreateLaunchString "(gdb) Launch" "cppdbg" "a.out" true) = false.
Proof.
  split.
  - apply (CreateLaunchString_escapes_macros_unless_initial
             "(gdb) Launch" "cppdbg" "a.out" false);
      apply (bool_decide_unpack _); vm_compute; reflexivity.
  - reflexivity.
Defined.

Ltac dollarFree_text :=
  lazymatch goal with
  | |- dollarFree (_ +:+ _) => apply dollarFree_app; dollarFree_text
  | |- dollarFree (String _ _) => apply (bool_decide_unpack _); by vm_compute
  | |- dollarFree _ => assumption
  end.

Ltac snippet_text :=
  lazymatch goal with
  | |- inert (_ +:+ _) => apply inert_app; snippet_text
  | |- inert (quoted _) => apply inert_quoted; snippet_text
  | |- inert (indentJsonString _ _) => apply inert_indentJsonString; snippet_text
  | |- inert (JsString.trim _) => apply inert_trim; snippet_text
  | |- inert (formatString _ _) =>
      apply inert_formatString; [snippet_text | repeat constructor; assumption]
  | |- inert (CreateLaunchString _ _ _ false) =>
      apply inert_CreateLaunchString; dollarFree_text
  | |- inert (CreateAttachString _ _ _ _) =>
      apply inert_CreateAttachString; dollarFree_text
  | |- inert (CreateRemoteAttachString _ _ _) =>
      apply inert_CreateRemoteAttachString; dollarFree_text
  | |- inert (CreatePipeTransportString _ _) =>
      apply inert_CreatePipeTransportString; dollarFree_text
  | |- inert (String _ _) => intros ?; vm_compute; reflexivity
  | |- inert LF => intros ?; reflexivity
  | |- inert TAB => intros ?; reflexivity
  | |- inert _ => first [ assumption | apply inert_dollarFree; dollarFree_text ]
  end.

Section SnippetBodies.
Variable EOL os_platform : string.
Variable this : Configuration.
Hypothesis EOL_dollarFree : dollarFree EOL.
Hypothesis MIMode_dollarFree : dollarFree (MIMode this).
Hypothesis executable_dollarFree : dollarFree (executable this).
Hypothesis pipeProgram_dollarFree : dollarFree (pipeProgram this).
Hypothesis additionalProperties_dollarFree : dollarFree (additionalProperties this).
Hypothesis miDebugger_dollarFree : dollarFree (miDebugger this).
Hypothesis windowsDebugger_dollarFree : dollarFree (windowsDebugger this).
Hypothesis bashPipeProgram_dollarFree : dollarFree (bashPipeProgram this).

Ltac snippet_body :=
  pose proof (inert_miDebuggerPathProperty EOL os_platform this EOL_dollarFree)
    as [? ?];
  pose proof (inert_additionalPropertiesText EOL this EOL_dollarFree
                additionalProperties_dollarFree) as [? ?];
  cbv beta iota zeta delta
    [bodyText MI_GetLaunchConfiguration MI_GetAttachConfiguration
     PipeTransport_GetLaunchConfiguration PipeTransport_GetAttachConfiguration
     Windows_GetLaunchConfiguration Windows_GetAttachConfiguration
     WSL_GetLaunchConfiguration WSL_GetAttachConfiguration];
  snippet_text.

Lemma inert_snippet_bodies :
  Forall (fun snippet => inert (bodyText snippet))
    [MI_GetLaunchConfiguration EOL os_platform this false;
     MI_GetAttachConfiguration EOL os_platform this;
     PipeTransport_GetLaunchConfiguration EOL this false;
     PipeTransport_GetAttachConfiguration this;
     Windows_GetLaunchConfiguration this false;
     Windows_GetAttachConfiguration EOL this;
     WSL_GetLaunchConfiguration EOL this false;
     WSL_GetAttachConfiguration EOL this].
Proof. repeat constructor; snippet_body. Qed.

End SnippetBodies.

(** The body of every snippet that is offered as a configuration snippet
    holds no live macro: in the attach configuration of each of the four
    classes, and in the launch configuration that is built with
    [isInitialConfiguration] false, every dollar sign follows a
    backslash, whatever the platform, provided that the texts the
    configuration is built from and the end-of-line text hold no dollar
    sign themselves. *)
Theorem snippet_bodies_escape_their_macros
  EOL os_platform MIMode executable pipeProgram additionalProperties :
  dollarFree EOL -> dollarFree MIMode -> dollarFree executable ->
  dollarFree pipeProgram -> dollarFree additionalProperties ->
  let this := newConfiguration MIMode executable pipeProgram additionalProperties in
  Forall (fun snippet => dollarsEscaped (bodyText snippet) = true)
    [MI_GetLaunchConfiguration EOL os_platform this false;
     MI_GetAttachConfiguration EOL os_platform this;
     PipeTransport_GetLaunchConfiguration EOL this false;
     PipeTransport_GetAttachConfiguration this;
     Windows_GetLaunchConfiguration this false;
     Windows_GetAttachConfiguration EOL this;
     WSL_GetLaunchConfiguration EOL this false;
     WSL_GetAttachConfiguration EOL this].
Proof.
  intros HEOL Hmode Hexe Hpipe Hadd this.
  assert (Hmi : dollarFree (miDebugger this))
    by (apply (bool_decide_unpack _); by vm_compute).
  assert (Hwin : dollarFree (windowsDebugger this))
    by (apply (bool_decide_unpack _); by vm_compute).
  assert (Hbash : dollarFree (bashPipeProgram this))
    by (apply (bool_decide_unpack _); by vm_compute).
  eapply Forall_impl; [by apply inert_snippet_bodies|].
  intros snippet. apply inert_dollarsEscaped.
Qed.

Lemma snippet_bodies_escape_their_macros_witness :
  dollarsEscaped
    (bodyText (WSL_GetAttachConfiguration LF
                 (newConfiguration "gdb" "a.out" "/usr/bin/ssh" sampleProperties)))
  = true.
Proof.
  pose proof (snippet_bodies_escape_their_macros LF "win32" "gdb" "a.out"
                "/usr/bin/ssh" sampleProperties) as H.
  cbv zeta in H. rewrite !Forall_cons in H.
  apply H; apply (bool_decide_unpack _); vm_compute; reflexivity.
Defined.

Lemma indexOfFrom_first pattern h before following : forall i,
  head pattern = Some h -> h ∉ before ->
  JsString.indexOfFrom pattern (before ++ pattern ++ following) i
  = Some (i + length before)%nat.
Proof.
  intros i Hh. revert i. induction before as [|c before IH]; intros i Hnot.
  - cbn. destruct pattern as [|h' pattern']; [done|].
    cbn. rewrite bool_decide_eq_true_2 by (by eexists).
    f_equal. lia.
  - apply not_elem_of_cons in Hnot as [Hne Hnot].
    destruct pattern as [|h' pattern']; [done|]. injection Hh as ->.
    cbn [app JsString.indexOfFrom].
    rewrite bool_decide_eq_false_2.
    + rewrite IH by done. f_equal. cbn. lia.
    + intros [k Hk]. injection Hk as Hk _. congruence.
Qed.

Lemma formatString_first_placeholder before following value :
  "{"%char ∉ JsString.chars before ->
  formatString (before +:+ "{0}" +:+ following) [value] =
  before +:+
  JsString.str (JsString.getSubstitution (JsString.chars "{0}")
                  (JsString.chars before) (JsString.chars following)
                  (JsString.chars value)) +:+
  following.
Proof.
  intros Hnot. unfold formatString. cbn [imap foldl fst snd].
  change ("{" +:+ pretty 0%nat +:+ "}") with "{0}".
  unfold JsString.replace, JsString.indexOf. rewrite !chars_app.
  rewrite (indexOfFrom_first _ "{"%char) by done. cbv zeta. cbn [Nat.add].
  rewrite take_app_length.
  rewrite (app_assoc (JsString.chars before) (JsString.chars "{0}")).
  rewrite drop_app_length' by (by rewrite length_app).
  by rewrite !str_app, !str_chars.
Qed.

(** [formatString] puts an argument in the place of the first
    occurrence of its placeholder, and leaves what follows alone, a
    second occurrence of the placeholder included.  The argument is put
    in literally when each of its dollar signs is followed by an opening
    brace, as in the snippet texts, where a dollar sign opens a tab
    stop. *)
Theorem formatString_fills_the_first_placeholder before following value :
  "{"%char ∉ JsString.chars before -> plain value ->
  formatString (before +:+ "{0}" +:+ following) [value] =
  before +:+ value +:+ following.
Proof.
  intros Hnot Hplain. rewrite formatString_first_placeholder by done.
  by rewrite getSubstitution_plain, str_chars.
Qed.

Lemma formatString_fills_the_first_placeholder_witness :
  formatString ("request: " +:+ "{0}" +:+ ", again {0}") ["attach"] =
  "request: " +:+ "attach" +:+ ", again {0}".
Proof.
  apply (formatString_fills_the_first_placeholder "request: " ", again {0}"
           "attach").
  - apply (bool_decide_unpack _). vm_compute. reflexivity.
  - apply (bool_decide_unpack _). vm_compute. reflexivity.
Defined.

(** * The package manager: properties *)

Section PackageManagerFacts.
Import PackageManager.
Local Open Scope pm_scope.

(** ** What a promise adds to the trace *)

Lemma exactly_resolve {A} (a : A) : exactly [] (resolve a).
Proof. intros s. exists []. by rewrite app_nil_r. Qed.

Lemma exactly_reject {A} reason : exactly [] (@reject A reason).
Proof. intros s. exists []. by rewrite app_nil_r. Qed.

Lemma exactly_unsettled {A} : exactly [] (@unsettled A).
Proof. intros s. exists []. by rewrite app_nil_r. Qed.

Lemma exactly_getState : exactly [] getState.
Proof. intros s. exists []. by rewrite app_nil_r. Qed.

Lemma exactly_getPackage pkg : exactly [] (getPackage pkg).
Proof.
  intros s. exists []. unfold getPackage.
  destruct (packages s !! pkg); by rewrite app_nil_r.
Qed.

Lemma exactly_updatePackage pkg f : exactly [] (updatePackage pkg f).
Proof. intros s. exists []. by rewrite app_nil_r. Qed.

Lemma exactly_emit e : exactly (if notable e then [e] else []) (emit e).
Proof. intros s. exists [e]. split; [done|]. cbn. by destruct (notable e). Qed.

Lemma exactly_then {A B} W1 W2 (m : Promise A) (k : A -> Promise B) :
  fulfils m -> exactly W1 m -> (forall a, exactly W2 (k a)) ->
  exactly (W1 ++ W2) (then_ m k).
Proof.
  intros Hf Hm Hk s. unfold then_.
  destruct (Hm s) as (new1 & He1 & Hw1). destruct (Hf s) as [a Ha].
  destruct (m s) as [r s1]. cbn in *. subst r.
  destruct (Hk a s1) as (new2 & He2 & Hw2).
  exists (new1 ++ new2). rewrite He2, He1, app_assoc. split; [done|].
  by rewrite List.filter_app, Hw1, Hw2.
Qed.

(** Nothing notable before, nothing notable after: the promise need not
    be fulfilled. *)
Lemma still_then {A B} (m : Promise A) (k : A -> Promise B) :
  exactly [] m -> (forall a, exactly [] (k a)) -> exactly [] (then_ m k).
Proof.
  intros Hm Hk s. unfold then_.
  destruct (Hm s) as (new1 & He1 & Hw1).
  destruct (m s) as [[a|reason|] s1]; cbn in *; [|by exists new1..].
  destruct (Hk a s1) as (new2 & He2 & Hw2).
  exists (new1 ++ new2). rewrite He2, He1, app_assoc. split; [done|].
  by rewrite List.filter_app, Hw1, Hw2.
Qed.

Lemma fulfils_resolve {A} (a : A) : fulfils (resolve a).
Proof. intros s. by exists a. Qed.

Lemma fulfils_emit e : fulfils (emit e).
Proof. intros s. by exists tt. Qed.

Lemma fulfils_getState : fulfils getState.
Proof. intros s. by exists s. Qed.

Lemma fulfils_then {A B} (m : Promise A) (k : A -> Promise B) :
  fulfils m -> (forall a, fulfils (k a)) -> fulfils (then_ m k).
Proof.
  intros Hm Hk s. unfold then_. destruct (Hm s) as [a Ha].
  destruct (m s) as [r s1]. cbn in *. subst r. apply Hk.
Qed.

Lemma fulfils_AppendChannel text : fulfils (AppendChannel text).
Proof.
  apply fulfils_then; [apply fulfils_getState|]. intros s.
  destruct (outputChannel s); [apply fulfils_emit|apply fulfils_resolve].
Qed.

Lemma still_AppendChannel text : exactly [] (AppendChannel text).
Proof.
  apply still_then; [apply exactly_getState|]. intros s.
  destruct (outputChannel s); [apply (exactly_emit (Append text))|apply exactly_resolve].
Qed.

Lemma fulfils_AppendLineChannel text : fulfils (AppendLineChannel text).
Proof.
  apply fulfils_then; [apply fulfils_getState|]. intros s.
  destruct (outputChannel s); [apply fulfils_emit|apply fulfils_resolve].
Qed.

Lemma still_AppendLineChannel text : exactly [] (AppendLineChannel text).
Proof.
  apply still_then; [apply exactly_getState|]. intros s.
  destruct (outputChannel s);
    [apply (exactly_emit (AppendLine text))|apply exactly_resolve].
Qed.

Lemma still_SetStatusText text : exactly [] (SetStatusText text).
Proof.
  apply still_then; [apply exactly_getState|]. intros s.
  destruct (statusItem s); [|apply exactly_resolve].
  apply still_then; [apply (exactly_emit (StatusText text))|].
  intros _. apply (exactly_emit StatusShow).
Qed.

Lemma still_SetStatusTooltip text : exactly [] (SetStatusTooltip text).
Proof.
  apply still_then; [apply exactly_getState|]. intros s.
  destruct (statusItem s); [|apply exactly_resolve].
  apply still_then; [apply (exactly_emit (StatusTooltip text))|].
  intros _. apply (exactly_emit StatusShow).
Qed.

Lemma still_tmp_file prefix : exactly [] (tmp_file prefix).
Proof.
  apply still_then; [apply (exactly_emit (TmpFile prefix))|]. intros _.
  apply still_then; [apply exactly_getState|]. intros s.
  destruct (temporaryFiles s); [apply exactly_unsettled|].
  intros s'. exists []. by rewrite app_nil_r.
Qed.

Lemma still_https_request urlString : exactly [] (https_request urlString).
Proof.
  apply still_then; [apply (exactly_emit (HttpsRequest urlString))|]. intros _.
  apply still_then; [apply exactly_getState|]. intros s.
  destruct (network s); [apply exactly_unsettled|].
  intros s'. exists []. by rewrite app_nil_r.
Qed.

Lemma still_onData description state newPercentage :
  exactly [] (onData description state newPercentage).
Proof.
  destruct state as [downloadPercentage dots]. unfold onData.
  apply still_then.
  - destruct (negb _); [|apply exactly_resolve].
    apply still_then; [apply still_SetStatusTooltip|].
    intros _. apply exactly_resolve.
  - intros p. destruct (_ <? _)%Z; [|apply exactly_resolve].
    apply still_then; [apply still_AppendChannel|].
    intros _. apply exactly_resolve.
Qed.

Lemma still_onDataAll description percentages : forall state,
  exactly [] (onDataAll description state percentages).
Proof.
  induction percentages as [|p l IH]; intros state; cbn [onDataAll].
  - apply exactly_resolve.
  - apply still_then; [apply still_onData|]. intros state'. apply IH.
Qed.

Lemma fulfils_SetStatusTooltip text : fulfils (SetStatusTooltip text).
Proof.
  apply fulfils_then; [apply fulfils_getState|]. intros s.
  destruct (statusItem s); [|apply fulfils_resolve].
  apply fulfils_then; [apply fulfils_emit|]. intros _. apply fulfils_emit.
Qed.

Lemma fulfils_SetStatusText text : fulfils (SetStatusText text).
Proof.
  apply fulfils_then; [apply fulfils_getState|]. intros s.
  destruct (statusItem s); [|apply fulfils_resolve].
  apply fulfils_then; [apply fulfils_emit|]. intros _. apply fulfils_emit.
Qed.

Lemma fulfils_onData description state newPercentage :
  fulfils (onData description state newPercentage).
Proof.
  destruct state as [downloadPercentage dots]. unfold onData.
  apply fulfils_then.
  - destruct (negb _); [|apply fulfils_resolve].
    apply fulfils_then; [apply fulfils_SetStatusTooltip|].
    intros _. apply fulfils_resolve.
  - intros p. destruct (_ <? _)%Z; [|apply fulfils_resolve].
    apply fulfils_then; [apply fulfils_AppendChannel|].
    intros _. apply fulfils_resolve.
Qed.

Lemma fulfils_onDataAll description percentages : forall state,
  fulfils (onDataAll description state percentages).
Proof.
  induction percentages as [|p l IH]; intros state; cbn [onDataAll].
  - apply fulfils_resolve.
  - apply fulfils_then; [apply fulfils_onData|]. intros state'. apply IH.
Qed.

Lemma exactly_timer ms :
  exactly (if (0 <? ms)%Z then [SetTimeout ms] else []) (emit (SetTimeout ms)).
Proof. apply (exactly_emit (SetTimeout ms)). Qed.

Lemma delay_timer delay :
  let secondsDelay := (2 ^ Z.of_nat delay)%Z in
  let secondsDelay := if (secondsDelay =? 1)%Z then 0%Z else secondsDelay in
  (if (0 <? secondsDelay * 1000)%Z then [SetTimeout (secondsDelay * 1000)] else [])
  = delayOf delay.
Proof.
  cbv zeta. unfold delayOf. destruct delay as [|delay]; [done|].
  assert (2 <= 2 ^ Z.of_nat (S delay))%Z.
  { rewrite Nat2Z.inj_succ, Z.pow_succ_r by lia.
    pose proof (Z.pow_pos_nonneg 2 (Z.of_nat delay)). lia. }
  cbn [Nat.eqb]. destruct (Z.eqb_spec (2 ^ Z.of_nat (S delay)) 1); [lia|].
  destruct (Z.ltb_spec 0 (2 ^ Z.of_nat (S delay) * 1000)); [done|lia].
Qed.

(** What a response with status 200 does. *)
Lemma still_streaming pkg (p : IPackage) packageSize percentages finish :
  exactly []
    (AppendChannel ("(" +:+ pretty (ceilDiv packageSize 1024) +:+ " KB) ") ;;
     emit (PipeToFile (from_option fd 0%Z (tmpFile p))) ;;
     _ <- onDataAll (description p) (0, 0)%Z percentages ;;
     match finish with
     | StreamEnded => resolve tt
     | StreamError stack name =>
         reject (newPackageManagerWebResponseError
                   "HTTP/HTTPS Response error" "DownloadFile" (Some pkg)
                   (Some stack) name)
     | StreamSilent => unsettled
     end).
Proof.
  apply still_then; [apply still_AppendChannel|intros _].
  apply still_then; [apply (exactly_emit (PipeToFile _))|intros _].
  apply still_then; [apply still_onDataAll|intros _].
  destruct finish;
    [apply exactly_resolve|apply exactly_reject|apply exactly_unsettled].
Qed.

Lemma fulfils_prologue delay :
  let secondsDelay := (2 ^ Z.of_nat delay)%Z in
  let secondsDelay := if (secondsDelay =? 1)%Z then 0%Z else secondsDelay in
  fulfils (if (4 <? secondsDelay)%Z
           then AppendChannel ("Waiting " +:+ pretty secondsDelay +:+ " seconds...")
           else resolve tt).
Proof.
  cbv zeta. destruct (_ <? _)%Z; [apply fulfils_AppendChannel|apply fulfils_resolve].
Qed.

(** [DownloadFile] sets its timer first: whatever becomes of the
    download, redirections included, the only timer that waits is the
    one of its [delay]. *)
Lemma exactly_DownloadFile_following pkg redirects : forall urlString delay,
  exactly (delayOf delay) (DownloadFile_following redirects urlString pkg delay).
Proof.
  induction redirects as [|redirects IH]; intros urlString delay;
    cbn [DownloadFile_following]; cbv zeta;
    rewrite <- delay_timer; cbv zeta;
    (apply (exactly_then []);
     [destruct (_ <? _)%Z; [apply fulfils_AppendChannel|apply fulfils_resolve]
     |destruct (_ <? _)%Z; [apply still_AppendChannel|apply exactly_resolve]
     |intros _]);
    (rewrite <- (app_nil_r (if (0 <? _)%Z then _ else _));
     apply exactly_then; [apply fulfils_emit|apply exactly_timer|intros _]);
    (apply still_then; [apply exactly_getPackage|intros p]);
    (destruct (tmpFileUnavailable p); [apply exactly_reject|]);
    (apply still_then; [apply still_https_request|intros answer]);
    (destruct answer as [stack message|statusCode location contentLength
                                       percentages finish];
     [apply exactly_reject|]);
    (destruct (_ || _); [|destruct (negb _); [apply exactly_reject|]]).
  - apply exactly_unsettled.
  - apply still_streaming.
  - apply (IH location 0%nat).
  - apply still_streaming.
Qed.

(** The bound on the redirections is never reached: every redirection
    takes an answer off the tape, so with a bound of the length of the
    tape or more the download comes out the same. *)
Lemma DownloadFile_following_enough pkg redirects : forall redirects' urlString delay s,
  (length (network s) <= redirects)%nat ->
  (length (network s) <= redirects')%nat ->
  DownloadFile_following redirects urlString pkg delay s =
  DownloadFile_following redirects' urlString pkg delay s.
Proof.
  induction redirects as [|redirects IH];
    intros [|redirects'] urlString delay s Hle Hle';
    cbn [DownloadFile_following]; cbv zeta;
    unfold then_, AppendChannel, then_, getState, emit, getPackage,
      https_request, then_, getState, emit, resolve, unsettled;
    cbn [outputChannel set_events events packages network];
    destruct (4 <? _)%Z; destruct (outputChannel s);
    cbn [outputChannel set_events events packages network];
    destruct (packages s !! pkg) as [p|]; try done;
    destruct (tmpFileUnavailable p); try done;
    cbn [outputChannel set_events events packages network];
    destruct (network s) as [|answer rest] eqn:Hnet; try done;
    cbn [length] in Hle, Hle'; try lia;
    destruct answer as [stack message|statusCode location contentLength
                                      percentages finish]; try done;
    destruct (_ || _); try done;
    apply IH; cbn [network set_network]; lia.
Qed.

Lemma exactly_DownloadFile urlString pkg delay :
  exactly (delayOf delay) (DownloadFile urlString pkg delay).
Proof. intros s. apply exactly_DownloadFile_following. Qed.

(** ** How a promise is rejected *)

Lemma rejectsWith_fulfils {A} P (m : Promise A) : fulfils m -> rejectsWith P m.
Proof. intros Hf s reason H. destruct (Hf s) as [a Ha]. congruence. Qed.

Lemma rejectsWith_unsettled {A} P : rejectsWith P (@unsettled A).
Proof. by intros s reason. Qed.

Lemma rejectsWith_reject {A} (P : PackageManagerError -> Prop) reason :
  P reason -> rejectsWith P (@reject A reason).
Proof. by intros H s reason' [= <-]. Qed.

Lemma rejectsWith_then {A B} P (m : Promise A) (k : A -> Promise B) :
  rejectsWith P m -> (forall a, rejectsWith P (k a)) -> rejectsWith P (then_ m k).
Proof.
  intros Hm Hk s reason. unfold then_. specialize (Hm s).
  destruct (m s) as [[a|reason'|] s1]; cbn in *.
  - apply Hk.
  - intros [= <-]. by apply Hm.
  - done.
Qed.

Lemma rejectsWith_getPackage P pkg : rejectsWith P (getPackage pkg).
Proof. intros s reason. unfold getPackage. by destruct (packages s !! pkg). Qed.

Lemma rejectsWith_tmp_file P prefix : rejectsWith P (tmp_file prefix).
Proof.
  apply rejectsWith_then; [apply rejectsWith_fulfils, fulfils_emit|]. intros _.
  apply rejectsWith_then; [apply rejectsWith_fulfils, fulfils_getState|].
  intros s. destruct (temporaryFiles s); [apply rejectsWith_unsettled|].
  by intros s' reason.
Qed.

Lemma rejectsWith_https_request P urlString :
  rejectsWith P (https_request urlString).
Proof.
  apply rejectsWith_then; [apply rejectsWith_fulfils, fulfils_emit|]. intros _.
  apply rejectsWith_then; [apply rejectsWith_fulfils, fulfils_getState|].
  intros s. destruct (network s); [apply rejectsWith_unsettled|].
  by intros s' reason.
Qed.

(** A download that is rejected is rejected by [DownloadFile]. *)
Lemma DownloadFile_following_rejects pkg redirects : forall urlString delay,
  rejectsWith (fun reason => methodName reason = "DownloadFile")
    (DownloadFile_following redirects urlString pkg delay).
Proof.
  induction redirects as [|redirects IH]; intros urlString delay;
    cbn [DownloadFile_following]; cbv zeta;
    (apply rejectsWith_then;
       [apply rejectsWith_fulfils, fulfils_prologue|intros _]);
    (apply rejectsWith_then;
       [apply rejectsWith_fulfils, fulfils_emit|intros _]);
    (apply rejectsWith_then; [apply rejectsWith_getPackage|intros p]);
    (destruct (tmpFileUnavailable p); [by apply rejectsWith_reject|]);
    (apply rejectsWith_then; [apply rejectsWith_https_request|intros answer]);
    (destruct answer as [stack message|statusCode location contentLength
                                       percentages finish];
     [by apply rejectsWith_reject|]);
    (destruct (_ || _);
     [|destruct (negb _); [by apply rejectsWith_reject|];
       (apply rejectsWith_then;
          [apply rejectsWith_fulfils, fulfils_AppendChannel|intros _]);
       (apply rejectsWith_then;
          [apply rejectsWith_fulfils, fulfils_emit|intros _]);
       (apply rejectsWith_then;
          [apply rejectsWith_fulfils, fulfils_onDataAll|intros _]);
       destruct finish;
       [apply rejectsWith_fulfils, fulfils_resolve
       |by apply rejectsWith_reject
       |apply rejectsWith_unsettled]]).
  - apply rejectsWith_unsettled.
  - apply IH.
Qed.

Lemma DownloadFile_rejects urlString pkg delay :
  rejectsWith (fun reason => methodName reason = "DownloadFile")
    (DownloadFile urlString pkg delay).
Proof. intros s. apply DownloadFile_following_rejects. Qed.

(** ** The retries *)

Lemma downloadWithRetries_eq urlString pkg :
  downloadWithRetries urlString pkg =
  retriesFrom 5 0 urlString pkg {| retryCount := 0; lastError := None |}.
Proof. reflexivity. Qed.

Lemma handleDownloadFailure_eq num error s :
  exists new,
    handleDownloadFailure num error s =
      (Resolved {| retryCount := num; lastError := Some error |},
       set_events (events s ++ new) s) /\
    List.filter notable new = [].
Proof.
  unfold handleDownloadFailure, AppendChannel, then_, getState.
  destruct (outputChannel s) eqn:E.
  - exists [Append " Failed. Retrying..."]. by cbn.
  - exists []. cbn. rewrite app_nil_r. by destruct s.
Qed.

(** The chain, attempt by attempt: [k] retries are made, each after its
    timer; the chain is fulfilled by the first attempt that is, and
    rejected only by the last attempt. *)
Lemma retriesFrom_outcome urlString pkg retries : forall delay retry,
  outcome (fun r W => exists k, (k <= retries)%nat /\
             W = delayOf delay ++ flat_map delayOf (seq (S delay) k) /\
             match r with
             | Resolved r =>
                 if (k =? 0)%nat then r = retry
                 else retryCount r = (delay + k)%nat /\ is_Some (lastError r)
             | RejectedWith reason =>
                 k = retries /\ methodName reason = "DownloadFile"
             | Unsettled => True
             end)
    (retriesFrom retries delay urlString pkg retry).
Proof.
  induction retries as [|retries IH]; intros delay retry s;
    cbn [retriesFrom]; unfold catch_, then_;
    destruct (exactly_DownloadFile urlString pkg delay s) as (new1 & He1 & Hw1);
    pose proof (DownloadFile_rejects urlString pkg delay s) as Hr1;
    destruct (DownloadFile urlString pkg delay s) as [[[]|reason|] s1];
    cbn [fst snd] in *.
  - exists new1. split; [done|]. exists 0%nat. cbn. by rewrite app_nil_r.
  - exists new1. split; [done|]. exists 0%nat. cbn. rewrite app_nil_r. eauto.
  - exists new1. split; [done|]. exists 0%nat. cbn. by rewrite app_nil_r.
  - exists new1. split; [done|]. exists 0%nat. cbn. rewrite app_nil_r.
    split; [lia|done].
  - destruct (handleDownloadFailure_eq (S delay) reason s1) as (new2 & -> & Hw2).
    match goal with |- context [retriesFrom retries (S delay) _ _ ?r ?x] =>
      destruct (IH (S delay) r x) as (new3 & He3 & k & Hk & Hw3 & Hres) end.
    cbn [events set_events] in He3.
    exists (new1 ++ new2 ++ new3). split; [by rewrite He3, He1, !app_assoc|].
    exists (S k). split; [lia|]. split.
    { rewrite !List.filter_app, Hw1, Hw2, Hw3. cbn [app flat_map seq].
      destruct k; cbn [seq flat_map]; [by rewrite !app_nil_r|done]. }
    match goal with |- match ?x with _ => _ end => destruct x as [r| |] end;
      [|destruct Hres as [-> ?]; done|done].
    cbn [Nat.eqb]. destruct k; cbn [Nat.eqb] in Hres.
    + subst r. cbn. split; [lia|eauto].
    + destruct Hres as [-> ?]. split; [lia|done].
  - exists new1. split; [done|]. exists 0%nat. cbn. rewrite app_nil_r.
    split; [lia|done].
Qed.

Lemma retryTimers_eq k :
  (k <= 5)%nat -> flat_map delayOf (seq 1 k) = retryTimers k.
Proof.
  intros H. do 6 (destruct k as [|k]; [reflexivity|]). lia.
Qed.

Lemma telemetryProperties_success retry packages :
  telemetryProperties retry packages !! "success" =
  Some ("OnRetry" +:+ pretty (retryCount retry)).
Proof.
  unfold telemetryProperties. destruct (lastError retry) as [packageError|];
    [|apply lookup_singleton_eq].
  cbv zeta.
  destruct (negb _);
    destruct (pkg packageError ≫= _);
    rewrite ?lookup_insert_ne by done; apply lookup_singleton_eq.
Qed.

(** A step that leaves nothing notable, in front of a promise. *)
Lemma outcome_after {A B} (P : PackageManagerError -> Prop)
  (Q : Settled B -> list PMEvent -> Prop) (m : Promise A) (k : A -> Promise B) :
  exactly [] m -> rejectsWith P m ->
  (forall reason, P reason -> Q (RejectedWith reason) []) ->
  Q Unsettled [] ->
  (forall a, outcome Q (k a)) ->
  outcome Q (then_ m k).
Proof.
  intros Hm Hr HP HU Hk s. unfold then_.
  destruct (Hm s) as (new1 & He1 & Hw1). specialize (Hr s).
  destruct (m s) as [[a|reason|] s1]; cbn [fst snd] in *.
  - destruct (Hk a s1) as (new2 & He2 & HQ).
    exists (new1 ++ new2). split; [by rewrite He2, He1, app_assoc|].
    by rewrite List.filter_app, Hw1.
  - exists new1. split; [done|]. rewrite Hw1. by apply HP, Hr.
  - exists new1. split; [done|]. by rewrite Hw1.
Qed.

(** A promise in front of another, with what it left. *)
Lemma outcome_then {A B} (Q1 : Settled A -> list PMEvent -> Prop)
  (Q : Settled B -> list PMEvent -> Prop) (m : Promise A) (k : A -> Promise B) :
  outcome Q1 m ->
  (forall reason W, Q1 (RejectedWith reason) W -> Q (RejectedWith reason) W) ->
  (forall W, Q1 Unsettled W -> Q Unsettled W) ->
  (forall a W1, Q1 (Resolved a) W1 ->
                outcome (fun r W2 => Q r (W1 ++ W2)) (k a)) ->
  outcome Q (then_ m k).
Proof.
  intros Hm HR HU Hk s. unfold then_.
  destruct (Hm s) as (new1 & He1 & HQ1).
  destruct (m s) as [[a|reason|] s1]; cbn [fst snd] in *.
  - destruct (Hk a _ HQ1 s1) as (new2 & He2 & HQ).
    exists (new1 ++ new2). split; [by rewrite He2, He1, app_assoc|].
    by rewrite List.filter_app.
  - exists new1. split; [done|]. by apply HR.
  - exists new1. split; [done|]. by apply HU.
Qed.

Lemma downloadOutcome_rejected reason :
  methodName reason = "DownloadPackage" ->
  downloadOutcome (RejectedWith reason) [].
Proof. intros H. exists 0%nat. split; [lia|]. by left. Qed.

Lemma downloadOutcome_unsettled : downloadOutcome Unsettled [].
Proof. exists 0%nat. split; [lia|done]. Qed.

Lemma DownloadPackage_outcome pkg : outcome downloadOutcome (DownloadPackage pkg).
Proof.
  unfold DownloadPackage.
  set (P := fun reason => methodName reason = "DownloadPackage").
  apply (outcome_after P);
    [apply exactly_getPackage|apply rejectsWith_getPackage
    |apply downloadOutcome_rejected|apply downloadOutcome_unsettled|intros p].
  apply (outcome_after P);
    [apply still_AppendChannel|apply rejectsWith_fulfils, fulfils_AppendChannel
    |apply downloadOutcome_rejected|apply downloadOutcome_unsettled|intros _].
  apply (outcome_after P);
    [apply still_SetStatusText|apply rejectsWith_fulfils, fulfils_SetStatusText
    |apply downloadOutcome_rejected|apply downloadOutcome_unsettled|intros _].
  apply (outcome_after P);
    [apply still_SetStatusTooltip
    |apply rejectsWith_fulfils, fulfils_SetStatusTooltip
    |apply downloadOutcome_rejected|apply downloadOutcome_unsettled|intros _].
  apply (outcome_after P);
    [|
    |apply downloadOutcome_rejected|apply downloadOutcome_unsettled
    |intros tmpResult].
  { apply still_then; [apply still_tmp_file|].
    intros [err|file]; [apply exactly_reject|apply exactly_resolve]. }
  { apply rejectsWith_then; [apply rejectsWith_tmp_file|].
    intros [err|file];
      [by apply rejectsWith_reject
      |apply rejectsWith_fulfils, fulfils_resolve]. }
  apply (outcome_after P);
    [apply exactly_updatePackage
    |apply rejectsWith_fulfils; intros s; by exists tt
    |apply downloadOutcome_rejected|apply downloadOutcome_unsettled|intros _].
  apply (outcome_after P);
    [apply exactly_getPackage|apply rejectsWith_getPackage
    |apply downloadOutcome_rejected|apply downloadOutcome_unsettled|intros p'].
  rewrite downloadWithRetries_eq.
  set (first := {| retryCount := 0; lastError := None |}).
  eapply outcome_then; [apply (retriesFrom_outcome (url p') pkg 5 0 first)|..].
  - intros reason W (k & Hk & -> & -> & Hm). exists 5%nat. split; [lia|]. by right.
  - intros W (k & Hk & -> & _). exists k. split; [done|].
    by rewrite retryTimers_eq.
  - intros retry W (k & Hk & -> & Hres).
    cbn [delayOf Nat.eqb app]. rewrite retryTimers_eq by done.
    destruct k as [|k]; cbn [Nat.eqb] in Hres.
    + subst retry. cbn [retryTimers take map app].
      apply (outcome_after (fun _ => False));
        [apply still_AppendLineChannel
        |apply rejectsWith_fulfils, fulfils_AppendLineChannel
        |done|apply downloadOutcome_unsettled|intros _].
      intros s. exists []. rewrite app_nil_r. split; [done|].
      exists 0%nat. split; [lia|done].
    + destruct Hres as [Hcount _]. cbn [Nat.add] in Hcount.
      apply (outcome_after (fun _ => False));
        [apply still_AppendLineChannel
        |apply rejectsWith_fulfils, fulfils_AppendLineChannel
        |done| |intros _].
      { exists (S k). split; [done|]. by rewrite app_nil_r. }
      rewrite Hcount. cbn [Nat.eqb negb]. intros s.
      eexists [_]. split; [reflexivity|].
      exists (S k). split; [done|]. cbn [Nat.eqb].
      eexists. split; [reflexivity|].
      by rewrite telemetryProperties_success, Hcount.
Qed.

Lemma waits_notable new : waits (List.filter notable new) = waits new.
Proof.
  induction new as [|e new IH]; [done|]. cbn [List.filter].
  destruct e; cbn [notable]; try exact IH.
  - unfold waits in *. cbn. destruct (0 <? ms)%Z eqn:E; [|exact IH].
    cbn. by rewrite E, IH.
Qed.

Lemma logged_notable new : logged (List.filter notable new) = logged new.
Proof.
  induction new as [|e new IH]; [done|]. cbn [List.filter].
  destruct e; cbn [notable]; try exact IH.
  - destruct (0 <? ms)%Z; exact IH.
  - unfold logged in *. cbn. by rewrite IH.
Qed.

Lemma waits_retryTimers k :
  (k <= 5)%nat -> waits (retryTimers k) = take k retryDelays.
Proof. intros H. do 6 (destruct k as [|k]; [reflexivity|]). lia. Qed.

Lemma logged_retryTimers k : logged (retryTimers k) = [].
Proof.
  unfold retryTimers. induction (take k retryDelays) as [|ms l IH]; [done|exact IH].
Qed.

(** However the network behaves, [DownloadPackage] waits before a retry
    only, and the waits are the first of 2, 4, 8, 16 and 32 seconds, in
    this order: at most five retries, and at most 62 seconds of waiting
    for one package.  A redirection is followed at once and is no
    retry. *)
Theorem DownloadPackage_waits_before_five_retries_at_most pkg s :
  exists new,
    events (DownloadPackage pkg s).2 = events s ++ new /\
    waits new `prefix_of` retryDelays.
Proof.
  destruct (DownloadPackage_outcome pkg s) as (new & He & k & Hk & Hres).
  exists new. split; [done|]. rewrite <- waits_notable.
  destruct (DownloadPackage pkg s).1 as [[]|reason|].
  - destruct k as [|k]; cbn [Nat.eqb] in Hres.
    + rewrite Hres. apply prefix_nil.
    + destruct Hres as (properties & -> & _).
      unfold waits. rewrite omap_app. cbn [omap]. rewrite app_nil_r.
      fold (waits (retryTimers (S k))). rewrite waits_retryTimers by done.
      apply prefix_take.
  - destruct Hres as [[_ ->]|[_ ->]]; [apply prefix_nil|].
    by rewrite waits_retryTimers.
  - rewrite Hres, waits_retryTimers by done. apply prefix_take.
Qed.

(** [DownloadPackage] gives up on a package in two ways only.  Either
    the temporary file could not be made, and then nothing has waited;
    or the download failed six times, and then all five retries have
    been made, each after its wait, and the reason is that of
    [DownloadFile].  No telemetry is logged for a package that is given
    up. *)
Theorem DownloadPackage_gives_up_after_five_retries pkg s reason s' :
  DownloadPackage pkg s = (RejectedWith reason, s') ->
  exists new,
    events s' = events s ++ new /\
    logged new = [] /\
    (methodName reason = "DownloadPackage" /\ waits new = [] \/
     methodName reason = "DownloadFile" /\ waits new = retryDelays).
Proof.
  intros Hrun.
  destruct (DownloadPackage_outcome pkg s) as (new & He & k & Hk & Hres).
  rewrite Hrun in He, Hres. cbn [fst snd] in *.
  exists new. split; [done|].
  rewrite <- waits_notable, <- logged_notable.
  destruct Hres as [[Hm ->]|[Hm ->]].
  - split; [done|]. by left.
  - split; [apply logged_retryTimers|]. right. split; [done|].
    by rewrite waits_retryTimers.
Qed.

Lemma DownloadPackage_gives_up_after_five_retries_witness :
  exists reason s',
    DownloadPackage 0 deadNetwork = (RejectedWith reason, s') /\
    exists new,
      events s' = events deadNetwork ++ new /\
      logged new = [] /\
      (methodName reason = "DownloadPackage" /\ waits new = [] \/
       methodName reason = "DownloadFile" /\ waits new = retryDelays).
Proof.
  eexists _, _. split; [vm_compute; reflexivity|].
  apply (DownloadPackage_gives_up_after_five_retries 0 deadNetwork).
  vm_compute. reflexivity.
Defined.

(** Telemetry tells whether retrying helped.  A package that is
    downloaded at the first attempt logs nothing; one that is downloaded
    after some retries logs one ["acquisition"] event, whose [success]
    property is [OnRetry] followed by the number of retries, which is
    the number of waits. *)
Theorem DownloadPackage_logs_the_retries_that_helped pkg s s' :
  DownloadPackage pkg s = (Resolved tt, s') ->
  exists new,
    events s' = events s ++ new /\
    match waits new with
    | [] => logged new = []
    | _ :: _ =>
        exists properties,
          logged new = [("acquisition", properties)] /\
          properties !! "success" =
            Some ("OnRetry" +:+ pretty (length (waits new)))
    end.
Proof.
  intros Hrun.
  destruct (DownloadPackage_outcome pkg s) as (new & He & k & Hk & Hres).
  rewrite Hrun in He, Hres. cbn [fst snd] in *.
  exists new. split; [done|].
  rewrite <- waits_notable, <- logged_notable.
  destruct k as [|k]; cbn [Nat.eqb] in Hres.
  - by rewrite Hres.
  - destruct Hres as (properties & -> & Hsuccess).
    assert (Hw : waits (retryTimers (S k) ++ [LogDebuggerEvent "acquisition" properties])
                 = take (S k) retryDelays).
    { unfold waits. rewrite omap_app. cbn [omap]. rewrite app_nil_r.
      by apply waits_retryTimers. }
    rewrite Hw.
    assert (Hlen : length (take (S k) retryDelays) = S k).
    { rewrite length_take. cbn. lia. }
    destruct (take (S k) retryDelays) as [|ms l] eqn:E; [done|].
    exists properties. split.
    + unfold logged. rewrite omap_app. fold (logged (retryTimers (S k))).
      by rewrite logged_retryTimers.
    + by rewrite Hlen.
Qed.

Lemma DownloadPackage_logs_the_retries_that_helped_witness :
  exists s',
    DownloadPackage 0 flakyNetwork = (Resolved tt, s') /\
    exists new,
      events s' = events flakyNetwork ++ new /\
      match waits new with
      | [] => logged new = []
      | _ :: _ =>
          exists properties,
            logged new = [("acquisition", properties)] /\
            properties !! "success" =
              Some ("OnRetry" +:+ pretty (length (waits new)))
      end.
Proof.
  eexists. split; [vm_compute; reflexivity|].
  apply (DownloadPackage_logs_the_retries_that_helped 0 flakyNetwork).
  vm_compute. reflexivity.
Defined.

(** ** The chain of promises *)

Lemma then_assoc {A B C} (m : Promise A) (k1 : A -> Promise B)
  (k2 : B -> Promise C) s :
  then_ (then_ m k1) k2 s = then_ m (fun a => then_ (k1 a) k2) s.
Proof. unfold then_. by destruct (m s) as [[a| |] s1]. Qed.

Lemma resolve_then {A B} (a : A) (k : A -> Promise B) s :
  then_ (resolve a) k s = k a s.
Proof. done. Qed.

Lemma then_ext {A B} (m : Promise A) (k k' : A -> Promise B) s :
  (forall a s, k a s = k' a s) -> then_ m k s = then_ m k' s.
Proof. intros H. unfold then_. destruct (m s) as [[a| |] s1]; [apply H|done..]. Qed.

Lemma BuildPromiseChain_from {TItem} (promiseBuilder : TItem -> Promise unit)
  items : forall promiseChain s,
  foldl (fun promiseChain item => promiseChain ;; promiseBuilder item)
    promiseChain items s =
  (promiseChain ;; BuildPromiseChain items promiseBuilder) s.
Proof.
  unfold BuildPromiseChain.
  induction items as [|item items IH]; intros promiseChain s; cbn [foldl].
  - unfold then_, resolve. by destruct (promiseChain s) as [[[]| |] s1].
  - rewrite IH, then_assoc. apply then_ext. intros _ s1.
    by rewrite IH, then_assoc, resolve_then.
Qed.

Lemma resolve_then' {B} (k : unit -> Promise B) s :
  then_ (resolve tt) k s = k tt s.
Proof. done. Qed.

Lemma BuildPromiseChain_runs_in_order_and_stops_aux {TItem}
  (promiseBuilder : TItem -> Promise unit) (items later : list TItem) s :
  BuildPromiseChain (items ++ later) promiseBuilder s =
    (BuildPromiseChain items promiseBuilder ;;
     BuildPromiseChain later promiseBuilder) s /\
  ((BuildPromiseChain items promiseBuilder s).1 <> Resolved tt ->
   BuildPromiseChain (items ++ later) promiseBuilder s =
   BuildPromiseChain items promiseBuilder s).
Proof.
  assert (H : BuildPromiseChain (items ++ later) promiseBuilder s =
              (BuildPromiseChain items promiseBuilder ;;
               BuildPromiseChain later promiseBuilder) s).
  { unfold BuildPromiseChain at 1. rewrite foldl_app.
    by rewrite BuildPromiseChain_from. }
  split; [exact H|]. rewrite H. unfold then_.
  by destruct (BuildPromiseChain items promiseBuilder s) as [[[]| |] s1].
Qed.

(** [BuildPromiseChain] runs the builders one after the other, in the
    order of the items: the chain of a list in two parts is the chain of
    the first part followed, when that is fulfilled, by the chain of the
    second.  When the chain of the first part is rejected or never
    settles, so does the whole chain, in the same state: no builder of a
    later item is called. *)
Theorem BuildPromiseChain_runs_in_order_and_stops {TItem}
  (promiseBuilder : TItem -> Promise unit) (items later : list TItem) s :
  BuildPromiseChain (items ++ later) promiseBuilder s =
    (BuildPromiseChain items promiseBuilder ;;
     BuildPromiseChain later promiseBuilder) s /\
  ((BuildPromiseChain items promiseBuilder s).1 <> Resolved tt ->
   BuildPromiseChain (items ++ later) promiseBuilder s =
   BuildPromiseChain items promiseBuilder s).
Proof. apply BuildPromiseChain_runs_in_order_and_stops_aux. Qed.

(** ** Progress *)

Lemma set_events_nil s : set_events (events s ++ []) s = s.
Proof. rewrite app_nil_r. by destruct s. Qed.

Lemma set_events_app s a b :
  set_events (events (set_events (events s ++ a) s) ++ b)
    (set_events (events s ++ a) s) =
  set_events (events s ++ (a ++ b)) s.
Proof. cbn. by rewrite app_assoc. Qed.

Lemma set_events_twice v v' s : set_events v (set_events v' s) = set_events v s.
Proof. done. Qed.

Lemma AppendChannel_eq text s :
  outputChannel s = true ->
  AppendChannel text s = (Resolved tt, set_events (events s ++ [Append text]) s).
Proof. intros H. unfold AppendChannel, then_, getState. by rewrite H. Qed.

Lemma SetStatusTooltip_eq text s :
  SetStatusTooltip text s =
  (Resolved tt,
   set_events (events s ++
               if statusItem s then [StatusTooltip text; StatusShow] else []) s).
Proof.
  unfold SetStatusTooltip, then_, getState. destruct (statusItem s) eqn:E.
  - unfold emit. cbn. by rewrite <- app_assoc.
  - by rewrite set_events_nil.
Qed.

Lemma appended_app a b : appended (a ++ b) = appended a +:+ appended b.
Proof.
  induction a as [|e a IH]; [done|]. cbn [app appended foldr].
  fold (appended (a ++ b)). fold (appended a). rewrite IH.
  destruct e; try done. apply chars_inj. by rewrite !chars_app, app_assoc.
Qed.

Lemma repeat_add s a b :
  JsString.repeat s (a + b) = JsString.repeat s a +:+ JsString.repeat s b.
Proof.
  induction a as [|a IH]; [done|]. cbn [Nat.add JsString.repeat]. rewrite IH.
  apply chars_inj. by rewrite !chars_app, app_assoc.
Qed.

Lemma ceilDiv_mono a b : (a <= b)%Z -> (ceilDiv a 5 <= ceilDiv b 5)%Z.
Proof.
  intros H. unfold ceilDiv.
  pose proof (Z.div_le_mono (- b) (- a) 5 ltac:(lia) ltac:(lia)). lia.
Qed.

Lemma tooltipsBelow_app description low high a b :
  tooltipsBelow description low high a -> tooltipsBelow description low high b ->
  tooltipsBelow description low high (a ++ b).
Proof. intros Ha Hb. apply Forall_app. by split. Qed.

Lemma tooltipsBelow_weaken description low low' high a :
  (low <= low')%Z -> tooltipsBelow description low' high a ->
  tooltipsBelow description low high a.
Proof.
  intros Hl Ha. eapply Forall_impl; [exact Ha|]. intros [] H; try done.
  destruct H as (p & -> & Hp). exists p. split; [done|lia].
Qed.

Lemma tooltipsBelow_widen description low high high' a :
  (high <= high')%Z -> tooltipsBelow description low high a ->
  tooltipsBelow description low high' a.
Proof.
  intros Hl Ha. eapply Forall_impl; [exact Ha|]. intros [] H; try done.
  destruct H as (p & -> & Hp). exists p. split; [done|lia].
Qed.

Lemma rising_last previous percentages :
  rising previous percentages ->
  (previous <= List.last percentages previous)%Z.
Proof.
  revert previous. induction percentages as [|p l IH]; intros previous; [done|].
  intros [Hle Hr]. rewrite last_last_cons. specialize (IH p Hr). lia.
Qed.

(** One chunk, for a percentage that does not go down. *)
Lemma onData_step description s new0 downloadPercentage newPercentage :
  outputChannel s = true ->
  (downloadPercentage <= newPercentage)%Z ->
  exists step,
    onData description (downloadPercentage, ceilDiv downloadPercentage 5)
      newPercentage (set_events (events s ++ new0) s) =
      (Resolved (newPercentage, ceilDiv newPercentage 5),
       set_events (events s ++ (new0 ++ step)) s) /\
    appended step =
      JsString.repeat "."
        (Z.to_nat (ceilDiv newPercentage 5 - ceilDiv downloadPercentage 5)) /\
    tooltipsBelow description downloadPercentage newPercentage step.
Proof.
  intros Hout Hle. unfold onData.
  pose proof (ceilDiv_mono _ _ Hle) as Hdots.
  destruct (Z.eqb_spec newPercentage downloadPercentage) as [->|Hne]; cbn [negb].
  - unfold then_, resolve. rewrite Z.ltb_irrefl.
    exists []. rewrite app_nil_r, Z.sub_diag. repeat split. constructor.
  - unfold then_ at 1 2. rewrite SetStatusTooltip_eq.
    cbn [statusItem set_events events]. unfold resolve at 1.
    rewrite set_events_twice, <- app_assoc.
    fold (progressTooltip description downloadPercentage).
    set (tip := if statusItem s then _ else _).
    assert (Htip : appended tip = "" /\
                   tooltipsBelow description downloadPercentage newPercentage tip).
    { subst tip. destruct (statusItem s); (split; [done|]); [|constructor].
      repeat constructor. exists downloadPercentage. split; [done|lia]. }
    destruct Htip as [Htip1 Htip2].
    destruct (Z.ltb_spec (ceilDiv downloadPercentage 5) (ceilDiv newPercentage 5))
      as [Hmore|Hsame].
    + unfold then_. rewrite AppendChannel_eq by done.
      cbn [events set_events]. rewrite set_events_twice, <- !app_assoc.
      unfold resolve.
      eexists (tip ++ [_]). split; [reflexivity|].
      split.
      * rewrite appended_app, Htip1. cbn.
        apply chars_inj. rewrite !chars_app. cbn. by rewrite app_nil_r.
      * apply tooltipsBelow_app; [done|]. repeat constructor.
    + assert (Heq : ceilDiv newPercentage 5 = ceilDiv downloadPercentage 5) by lia.
      rewrite Heq, Z.sub_diag. unfold resolve. by exists tip.
Qed.

(** The handler of the data, chunk by chunk, for percentages that do not
    go down. *)
Lemma onDataAll_progress description s percentages :
  outputChannel s = true ->
  forall downloadPercentage new0,
    rising downloadPercentage percentages ->
    let final := List.last percentages downloadPercentage in
    exists new,
      onDataAll description (downloadPercentage, ceilDiv downloadPercentage 5)
        percentages (set_events (events s ++ new0) s) =
        (Resolved (final, ceilDiv final 5),
         set_events (events s ++ (new0 ++ new)) s) /\
      appended new =
        JsString.repeat "."
          (Z.to_nat (ceilDiv final 5 - ceilDiv downloadPercentage 5)) /\
      tooltipsBelow description downloadPercentage final new.
Proof.
  intros Hout.
  induction percentages as [|newPercentage percentages IH];
    intros downloadPercentage new0 Hrising; cbv zeta.
  - exists []. cbn. rewrite app_nil_r, Z.sub_diag. repeat split. constructor.
  - destruct Hrising as [Hle Hrising].
    cbn [onDataAll]. unfold then_ at 1.
    destruct (onData_step description s new0 _ _ Hout Hle)
      as (step & -> & Happ1 & Htip1).
    destruct (IH newPercentage (new0 ++ step) Hrising) as (new & -> & Happ2 & Htip2).
    rewrite last_last_cons.
    pose proof (rising_last _ _ Hrising) as Hlast.
    pose proof (ceilDiv_mono _ _ Hle).
    pose proof (ceilDiv_mono _ _ Hlast).
    exists (step ++ new). split; [by rewrite <- app_assoc|]. split.
    + rewrite appended_app, Happ1, Happ2, <- repeat_add. f_equal. lia.
    + apply tooltipsBelow_app.
      * by apply (tooltipsBelow_widen _ _ newPercentage).
      * by apply (tooltipsBelow_weaken _ _ newPercentage).
Qed.

(** While a package is downloaded, the output channel gets one dot for
    every five percent, rounded up, so twenty dots for a whole package;
    and the tooltip of the status item never shows a percentage above
    the one reached.  This is so for percentages that start at or above
    zero and never go down. *)
Theorem download_progress_dots_and_tooltip description percentages s :
  outputChannel s = true ->
  rising 0 percentages ->
  let final := List.last percentages 0%Z in
  exists new,
    onDataAll description (0, 0)%Z percentages s =
      (Resolved (final, ceilDiv final 5), set_events (events s ++ new) s) /\
    appended new = JsString.repeat "." (Z.to_nat (ceilDiv final 5)) /\
    tooltipsBelow description 0 final new.
Proof.
  intros Hout Hrising final.
  destruct (onDataAll_progress description s percentages Hout 0%Z [] Hrising)
    as (new & Hrun & Happ & Htip).
  change (ceilDiv 0 5) with 0%Z in *. rewrite set_events_nil in Hrun.
  rewrite Z.sub_0_r in Happ. by exists new.
Qed.

Lemma download_progress_dots_and_tooltip_witness :
  exists new,
    onDataAll "ClangFormat" (0, 0)%Z [10; 10; 55; 100]%Z flakyNetwork =
      (Resolved (100, 20)%Z, set_events (events flakyNetwork ++ new) flakyNetwork) /\
    appended new = JsString.repeat "." 20 /\
    tooltipsBelow "ClangFormat" 0 100 new.
Proof.
  apply (download_progress_dots_and_tooltip "ClangFormat" [10; 10; 55; 100]%Z
           flakyNetwork).
  - reflexivity.
  - cbn. lia.
Defined.

(** ** The manifest *)

(** The loop of [GetPackageList] over the packages writes to the
    packages only, and is not rejected. *)
Lemma absoluteBinaries_loop getExtensionFilePath dependencies : forall s r s',
  forEach (absoluteBinaries getExtensionFilePath) dependencies s = (r, s') ->
  allPackages s' = allPackages s /\ events s' = events s /\
  forall reason, r <> RejectedWith reason.
Proof.
  induction dependencies as [|pkg dependencies IH]; intros s r s'; cbn [forEach].
  { by intros [= <- <-]. }
  unfold then_ at 1, absoluteBinaries, then_ at 1, getPackage.
  destruct (packages s !! pkg) as [p|]; [|by intros [= <- <-]].
  destruct (binaries p) as [l|]; cbn; intros H; apply IH in H; exact H.
Qed.

(** [GetPackageList] reads the manifest once.  When it is fulfilled, it
    is fulfilled with the same list again, in the same state: the paths
    of the binaries, which the first call makes absolute, are not
    converted a second time.  It is rejected only when the manifest
    lists no packages, and then it changes nothing; and it logs and
    shows nothing either way. *)
Theorem GetPackageList_reads_the_manifest_once getExtensionFilePath s :
  match GetPackageList getExtensionFilePath s with
  | (Resolved list, s') =>
      GetPackageList getExtensionFilePath s' = (Resolved list, s') /\
      events s' = events s
  | (RejectedWith reason, s') =>
      s' = s /\ allPackages s = None /\ runtimeDependencies s = None /\
      message reason = "Package manifest does not exist"
  | (Unsettled, s') => events s' = events s
  end.
Proof.
  unfold GetPackageList at 1. unfold then_ at 1, getState at 1.
  destruct (allPackages s) as [list|] eqn:Hall.
  { unfold resolve. split; [|done].
    unfold GetPackageList, then_, getState. by rewrite Hall. }
  destruct (runtimeDependencies s) as [dependencies|] eqn:Hdeps; [|done].
  unfold then_ at 1 2.
  match goal with |- context [forEach ?f dependencies ?x] =>
    destruct (forEach f dependencies x) as [r s1] eqn:Hloop end.
  apply absoluteBinaries_loop in Hloop as (H1 & H2 & H3).
  cbn [allPackages set_allPackages events] in *.
  destruct r as [[]|reason|].
  - unfold resolve. split; [|done].
    unfold GetPackageList, then_, getState. by rewrite H1.
  - by destruct (H3 reason).
  - done.
Qed.

(** ** The packages that are touched *)

Lemma keeps_refl allowed s : keeps allowed s s.
Proof. split; [done|]. intros r p Hp. by exists p. Qed.

Lemma keeps_trans allowed s1 s2 s3 :
  keeps allowed s1 s2 -> keeps allowed s2 s3 -> keeps allowed s1 s3.
Proof.
  intros [Hi1 H1] [Hi2 H2]. split; [congruence|]. intros r p Hp.
  destruct (H1 r p Hp) as (p' & Hp' & ? & ? & Ht1).
  destruct (H2 r p' Hp') as (p'' & Hp'' & ? & ? & Ht2).
  exists p''. repeat split; [done|congruence..|].
  intros Hn. rewrite Ht2, Ht1 by done. done.
Qed.

Lemma keeps_mono (allowed allowed' : nat -> Prop) s s' :
  (forall r, allowed r -> allowed' r) -> keeps allowed s s' -> keeps allowed' s s'.
Proof.
  intros Hsub [Hi H]. split; [done|]. intros r p Hp.
  destruct (H r p Hp) as (p' & Hp' & ? & ? & Ht).
  exists p'. repeat split; [done..|]. intros Hn. apply Ht. intros Ha. by apply Hn, Hsub.
Qed.

Lemma confined_mono {A} (allowed allowed' : nat -> Prop) (m : Promise A) :
  (forall r, allowed r -> allowed' r) -> confined allowed m -> confined allowed' m.
Proof. intros Hsub Hm s. by apply (keeps_mono allowed). Qed.

Lemma confined_same {A} allowed (m : Promise A) :
  (forall s, packages (m s).2 = packages s /\
             platformInfo (m s).2 = platformInfo s) ->
  confined allowed m.
Proof.
  intros H s. destruct (H s) as [Hp Hi]. split; [done|].
  intros r p Hr. exists p. by rewrite Hp.
Qed.

Lemma confined_then {A B} allowed (m : Promise A) (k : A -> Promise B) :
  confined allowed m -> (forall a, confined allowed (k a)) ->
  confined allowed (then_ m k).
Proof.
  intros Hm Hk s. unfold then_. specialize (Hm s).
  destruct (m s) as [[a| |] s1]; cbn [snd] in *; [|done..].
  eapply keeps_trans; [exact Hm|apply Hk].
Qed.

Lemma confined_catch {A} allowed (m : Promise A) h :
  confined allowed m -> (forall reason, confined allowed (h reason)) ->
  confined allowed (catch_ m h).
Proof.
  intros Hm Hh s. unfold catch_. specialize (Hm s).
  destruct (m s) as [[a|reason|] s1]; cbn [snd] in *; [done| |done].
  eapply keeps_trans; [exact Hm|apply Hh].
Qed.

Lemma confined_resolve {A} allowed (a : A) : confined allowed (resolve a).
Proof. intros s. apply keeps_refl. Qed.

Lemma confined_reject {A} allowed reason : confined allowed (@reject A reason).
Proof. intros s. apply keeps_refl. Qed.

Lemma confined_unsettled {A} allowed : confined allowed (@unsettled A).
Proof. intros s. apply keeps_refl. Qed.

Lemma confined_emit allowed e : confined allowed (emit e).
Proof. by apply confined_same. Qed.

Lemma confined_getState allowed : confined allowed getState.
Proof. intros s. apply keeps_refl. Qed.

Lemma confined_getPackage allowed pkg : confined allowed (getPackage pkg).
Proof.
  intros s. unfold getPackage. destruct (packages s !! pkg); apply keeps_refl.
Qed.

Lemma confined_AppendChannel allowed text : confined allowed (AppendChannel text).
Proof.
  apply confined_then; [apply confined_getState|]. intros s.
  destruct (outputChannel s); [apply confined_emit|apply confined_resolve].
Qed.

Lemma confined_AppendLineChannel allowed text :
  confined allowed (AppendLineChannel text).
Proof.
  apply confined_then; [apply confined_getState|]. intros s.
  destruct (outputChannel s); [apply confined_emit|apply confined_resolve].
Qed.

Lemma confined_SetStatusText allowed text : confined allowed (SetStatusText text).
Proof.
  apply confined_then; [apply confined_getState|]. intros s.
  destruct (statusItem s); [|apply confined_resolve].
  apply confined_then; [apply confined_emit|]. intros _. apply confined_emit.
Qed.

Lemma confined_SetStatusTooltip allowed text :
  confined allowed (SetStatusTooltip text).
Proof.
  apply confined_then; [apply confined_getState|]. intros s.
  destruct (statusItem s); [|apply confined_resolve].
  apply confined_then; [apply confined_emit|]. intros _. apply confined_emit.
Qed.

Lemma confined_tmp_file allowed prefix : confined allowed (tmp_file prefix).
Proof.
  apply confined_then; [apply confined_emit|]. intros _.
  apply confined_then; [apply confined_getState|]. intros s.
  destruct (temporaryFiles s); [apply confined_unsettled|].
  by apply confined_same.
Qed.

Lemma confined_https_request allowed urlString :
  confined allowed (https_request urlString).
Proof.
  apply confined_then; [apply confined_emit|]. intros _.
  apply confined_then; [apply confined_getState|]. intros s.
  destruct (network s); [apply confined_unsettled|].
  by apply confined_same.
Qed.

Lemma confined_onData allowed description state newPercentage :
  confined allowed (onData description state newPercentage).
Proof.
  destruct state as [downloadPercentage dots]. unfold onData.
  apply confined_then.
  - destruct (negb _); [|apply confined_resolve].
    apply confined_then; [apply confined_SetStatusTooltip|].
    intros _. apply confined_resolve.
  - intros p. destruct (_ <? _)%Z; [|apply confined_resolve].
    apply confined_then; [apply confined_AppendChannel|].
    intros _. apply confined_resolve.
Qed.

Lemma confined_onDataAll allowed description percentages : forall state,
  confined allowed (onDataAll description state percentages).
Proof.
  induction percentages as [|p l IH]; intros state; cbn [onDataAll].
  - apply confined_resolve.
  - apply confined_then; [apply confined_onData|]. intros state'. apply IH.
Qed.

(** Writing a field of a package. *)
Lemma confined_updatePackage (allowed : nat -> Prop) pkg f :
  (forall p, platforms (f p) = platforms p /\
             architectures (f p) = architectures p /\
             (~ allowed pkg -> tmpFile (f p) = tmpFile p)) ->
  confined allowed (updatePackage pkg f).
Proof.
  intros Hf s. split; [done|]. intros r p Hp. cbn.
  destruct (decide (r = pkg)) as [->|Hne].
  - exists (f p). rewrite list_lookup_alter_eq, Hp. split; [done|].
    destruct (Hf p) as (? & ? & ?). done.
  - exists p. by rewrite list_lookup_alter_ne.
Qed.

Lemma confined_DownloadFile_following allowed pkg redirects :
  forall urlString delay,
  confined allowed (DownloadFile_following redirects urlString pkg delay).
Proof.
  induction redirects as [|redirects IH]; intros urlString delay;
    cbn [DownloadFile_following]; cbv zeta;
    (apply confined_then;
       [destruct (_ <? _)%Z; [apply confined_AppendChannel|apply confined_resolve]
       |intros _]);
    (apply confined_then; [apply confined_emit|intros _]);
    (apply confined_then; [apply confined_getPackage|intros p]);
    (destruct (tmpFileUnavailable p); [apply confined_reject|]);
    (apply confined_then; [apply confined_https_request|intros answer]);
    (destruct answer as [stack message|statusCode location contentLength
                                       percentages finish];
     [apply confined_reject|]);
    (destruct (_ || _);
     [|destruct (negb _); [apply confined_reject|];
       (apply confined_then; [apply confined_AppendChannel|intros _]);
       (apply confined_then; [apply confined_emit|intros _]);
       (apply confined_then; [apply confined_onDataAll|intros _]);
       destruct finish;
       [apply confined_resolve|apply confined_reject|apply confined_unsettled]]).
  - apply confined_unsettled.
  - apply IH.
Qed.

Lemma confined_DownloadFile allowed urlString pkg delay :
  confined allowed (DownloadFile urlString pkg delay).
Proof. intros s. apply confined_DownloadFile_following. Qed.

Lemma confined_retriesFrom allowed urlString pkg retries : forall delay retry,
  confined allowed (retriesFrom retries delay urlString pkg retry).
Proof.
  induction retries as [|retries IH]; intros delay retry; cbn [retriesFrom].
  - apply confined_then; [apply confined_DownloadFile|].
    intros _. apply confined_resolve.
  - apply confined_catch.
    + apply confined_then; [apply confined_DownloadFile|].
      intros _. apply confined_resolve.
    + intros reason. apply confined_then.
      * apply confined_then; [apply confined_AppendChannel|].
        intros _. apply confined_resolve.
      * intros retry'. apply IH.
Qed.

(** [DownloadPackage] writes to its own package only. *)
Lemma confined_DownloadPackage pkg : confined (eq pkg) (DownloadPackage pkg).
Proof.
  unfold DownloadPackage.
  apply confined_then; [apply confined_getPackage|intros p].
  apply confined_then; [apply confined_AppendChannel|intros _].
  apply confined_then; [apply confined_SetStatusText|intros _].
  apply confined_then; [apply confined_SetStatusTooltip|intros _].
  apply confined_then.
  { apply confined_then; [apply confined_tmp_file|].
    intros [err|file]; [apply confined_reject|apply confined_resolve]. }
  intros tmpResult.
  apply confined_then.
  { apply confined_updatePackage. intros p0. repeat split. by intros []. }
  intros _. apply confined_then; [apply confined_getPackage|intros p'].
  rewrite downloadWithRetries_eq.
  apply confined_then; [apply confined_retriesFrom|intros retry].
  apply confined_then; [apply confined_AppendLineChannel|intros _].
  destruct (negb _); [|apply confined_resolve].
  apply confined_then; [apply confined_getState|intros s].
  apply confined_emit.
Qed.

Lemma confined_forEach {A} allowed (f : A -> Promise unit) l :
  (forall x, confined allowed (f x)) -> confined allowed (forEach f l).
Proof.
  intros Hf. induction l as [|x l IH]; cbn [forEach].
  - apply confined_resolve.
  - apply confined_then; [apply Hf|]. intros _. exact IH.
Qed.

Lemma confined_BuildPromiseChain (items : list nat) :
  confined (fun r => r ∈ items) (BuildPromiseChain items DownloadPackage).
Proof.
  induction items as [|item items IH] using rev_ind.
  - apply confined_resolve.
  - intros s.
    rewrite (proj1 (BuildPromiseChain_runs_in_order_and_stops_aux _ _ _ _)).
    revert s. apply confined_then.
    + eapply confined_mono; [|exact IH]. intros r Hr. apply elem_of_app. by left.
    + intros _. intros s. unfold BuildPromiseChain. cbn [foldl].
      rewrite resolve_then'. revert s.
      eapply confined_mono; [|apply confined_DownloadPackage].
      intros r <-. apply elem_of_app. right. by apply list_elem_of_singleton.
Qed.

Lemma confined_GetPackageList getExtensionFilePath :
  confined (fun _ => False) (GetPackageList getExtensionFilePath).
Proof.
  unfold GetPackageList.
  apply confined_then; [apply confined_getState|intros s].
  destruct (allPackages s); [apply confined_resolve|].
  destruct (runtimeDependencies s) as [dependencies|]; [|apply confined_reject].
  apply confined_then; [by apply confined_same|intros _].
  apply confined_then; [|intros _; apply confined_resolve].
  apply confined_forEach. intros pkg. unfold absoluteBinaries.
  apply confined_then; [apply confined_getPackage|intros p].
  destruct (binaries p); [|apply confined_resolve].
  by apply confined_updatePackage.
Qed.

Lemma confined_GetPackages getExtensionFilePath :
  confined (fun _ => False) (GetPackages getExtensionFilePath).
Proof.
  unfold GetPackages.
  apply confined_then; [apply confined_GetPackageList|intros list].
  apply confined_then; [apply confined_getState|intros s].
  apply confined_resolve.
Qed.

(** [GetPackages] is fulfilled with packages that apply to the platform. *)
Lemma GetPackages_selects getExtensionFilePath s list s' :
  GetPackages getExtensionFilePath s = (Resolved list, s') ->
  forall r, r ∈ list ->
    exists p, packages s' !! r = Some p /\ applies (platformInfo s') p = true.
Proof.
  unfold GetPackages, then_ at 1.
  destruct (GetPackageList getExtensionFilePath s) as [[all| |] s1]; [|done..].
  unfold then_, getState, resolve. intros [= <- <-] r Hr.
  apply list_elem_of_In, List.filter_In in Hr as [_ Hr].
  destruct (packages s1 !! r) as [p|]; [|done]. by exists p.
Qed.

Lemma applies_same info p p' :
  platforms p' = platforms p -> architectures p' = architectures p ->
  applies info p' = applies info p.
Proof. intros Hp Ha. unfold applies. by rewrite Hp, Ha. Qed.

(** [DownloadPackages] leaves the packages of other platforms alone: a
    package that does not apply to the platform, by its platforms or by
    its architectures, has the temporary file it had, if any, however
    the downloads of the others come out. *)
Theorem DownloadPackages_leaves_other_platforms_alone
  getExtensionFilePath s r p :
  packages s !! r = Some p ->
  applies (platformInfo s) p = false ->
  exists p',
    packages (DownloadPackages getExtensionFilePath s).2 !! r = Some p' /\
    tmpFile p' = tmpFile p.
Proof.
  intros Hp Happlies. unfold DownloadPackages, then_.
  pose proof (confined_GetPackages getExtensionFilePath s) as [Hinfo Hkeep].
  pose proof (GetPackages_selects getExtensionFilePath s) as Hsel.
  destruct (GetPackages getExtensionFilePath s) as [[list| |] s1];
    cbn [snd] in *;
    destruct (Hkeep r p Hp) as (p1 & Hp1 & Hplat & Harch & Htmp);
    try (exists p1; split; [done|]; apply Htmp; tauto).
  destruct (confined_BuildPromiseChain list s1) as [_ Hkeep2].
  destruct (Hkeep2 r p1 Hp1) as (p2 & Hp2 & _ & _ & Htmp2).
  exists p2. split; [done|]. rewrite Htmp2, Htmp; [done|tauto|].
  intros Hin. destruct (Hsel list s1 eq_refl r Hin) as (p1' & Hp1' & Ha).
  rewrite Hp1 in Hp1'. injection Hp1' as <-.
  rewrite Hinfo, (applies_same _ p p1) in Ha by done. congruence.
Qed.

Lemma DownloadPackages_leaves_other_platforms_alone_witness :
  exists p',
    packages (DownloadPackages extensionFilePath flakyNetwork).2 !! 1%nat = Some p' /\
    tmpFile p' = None.
Proof.
  apply (DownloadPackages_leaves_other_platforms_alone extensionFilePath
           flakyNetwork 1 windowsPackage); reflexivity.
Defined.

End PackageManagerFacts.
